(* ===== verification/_CoqProject ===== *)
-Q . S2P
Prelude.v
Circuit.v
GoFloat.v
GoStrings.v
GoTime.v
Logger.v
Types.v
Translate.v
Wire.v
Pricing.v
Retry.v
Hedge.v
Budget.v
RateLimit.v
RateBackend.v
Cache.v
CacheSemantic.v
CacheKeys.v
Auth.v
Router.v
Provider.v
Dispatch.v
Streams.v
Buffers.v
Upstream.v
Serve.v
Embeddings.v
Config.v
Admin.v
Middleware.v
Health.v
RedisStore.v
Gateway.v
Wiring.v
Chain.v
Routes.v
Traffic.v
Answers.v
Operation.v
