(* ===== verification/Prelude.v ===== *)
(** * A verification library for the LLM API gateway

    The gateway ([src/cmd/gateway], [src/internal]) is a Go HTTP server that
    offers an OpenAI-compatible API in front of several providers.  This
    development translates its Go code into functions and step relations and
    proves what makes each part correct, and then what the assembled server
    does.

    ** The parts and how they interact

    A request comes in through the chain of middleware ([Middleware], [Chain]:
    request id, access log, security headers, tracing, metrics, CORS,
    authentication, rate limit), is routed by the mux ([Routes]) and reaches
    the chat endpoint ([Serve]), the embeddings endpoint ([Embeddings]) or a
    health endpoint ([Health]).  The endpoints check a token budget
    ([RateLimit], [RateBackend]), look into the cache ([Cache],
    [CacheSemantic], [CacheKeys]), reserve a budget ([Budget], priced by
    [Pricing]), resolve the model to a provider ([Router]) and call it through
    its circuit breaker ([Circuit]) with retries ([Retry]), fallbacks and
    hedging ([Dispatch], [Hedge]).  The provider clients ([Upstream],
    [Provider]) translate requests and responses ([Types], [Translate],
    [Wire]).  All of it is built from a configuration ([Config]) that the
    admin API ([Admin]), a signal or the file watcher replace while requests
    are served ([Gateway]); Redis is reached over a connection that a reload
    replaces too ([RedisStore]).  [Wiring] puts the parts together as [main]
    does; [Traffic], [Answers] and [Operation] are about the running server.

    ** Files, by what they model

    - [Prelude]: results of fallible functions, 64-bit integers, time, lists,
      sums over maps and the hint database [go];
    - [GoFloat], [GoStrings], [GoTime]: [float64] arithmetic with its rounding
      (a number is an integer multiple of [2^-1074]), the functions of
      [strings], [path.Match] and [time.ParseDuration];
    - [Logger]: [internal/logger] ([redactAttr], [parseLevel]);
    - [Circuit], [Retry], [Hedge]: [internal/resilience];
    - [Types]: [internal/types]; [Translate]: [internal/translate];
      [Wire]: the structs both decode from JSON;
    - [Pricing]: [internal/pricing]; [Budget]: [internal/budget] with its two
      Lua scripts;
    - [RateLimit], [RateBackend]: [internal/ratelimit] with its Lua script;
    - [Cache], [CacheSemantic], [CacheKeys]: [internal/cache];
      [RedisStore]: [internal/redisstore] and [cache/redis.go];
    - [Auth]: [internal/auth];
    - [Provider], [Upstream]: [internal/provider], with its pool of encoding
      buffers in [Buffers];
    - [Router], [Dispatch], [Streams], [Serve], [Embeddings], [Middleware],
      [Health]: [router.go], [handler.go] (three files: providers, the channels
      of a stream, the endpoint), [embeddings.go], [middleware.go], [health.go]
      and [models.go] of [internal/proxy];
    - [Config]: [internal/config]; [Admin]: [internal/admin];
    - [Gateway], [Chain], [Routes], [Wiring], [Operation]:
      [cmd/gateway/main.go]; [Traffic] and [Answers] hold lemmas only.

    ** State and operations

    A Go struct is a record with the same fields ([Breaker], [Limiter],
    [Manager], [Handler], [EmbeddingsHandler], [Registry], [Config]), a method
    a function on it that returns the new state.  A mutex makes a method, or
    the section it guards, one step; the clock is an argument, or a reading of
    the world.  Operations on the outside (network, Redis, contexts, random
    numbers, files) act on a world of any type [W] that is threaded through
    in the order of the calls.  [int] and [int64] wrap ([wrap64]), [float64]
    rounds; a pointer is an option, an error a value of the type of errors of
    its component, a panic an outcome of its own ([Panic], [RoutePanic],
    [HandlerPanic]).  The memory cache is modelled with the pointers of its
    list and map, the pool of encoding buffers with its heap, the two channels of
    a stream with their buffers; elsewhere nothing is shared but what the
    record of the gateway holds once.

    A handler of [net/http] is a function from the request, the header map of
    the writer and the state to what it does on the writer, what it reports,
    the state it leaves and how it ends ([output]).  [DoHedge], the calls of
    [marshalJSON], the Redis connection under its readers and writers, the control plane
    ([Gateway.step]) and the program in operation ([Operation.operates]) are
    step relations; their theorems are over every reachable state.  The
    producer of a stream and the [select]s that receive from it
    ([Streams.deliveries]) run under a schedule, and the theorem is over every
    schedule.

    ** Interfaces

    Type classes state what one part promises to another, and its clients are
    proved against them: [Backend] with [BackendLaws] (both limiters are
    instances), [Cache] with [CacheLaws] (the memory cache and the one in
    Redis), [BudgetStore] and [RateStore] (the Redis manager).  Classes
    without laws are code outside this repository: [Env] and [Embedders] (a
    provider; [Wiring] instantiates them with the clients), [Http] (transport
    and encoders), [JsonText], [Web], [WebEmbedding], [ErrorEncoder], [Texts]
    ([encoding/json] and texts), [ConfigFile] (YAML, files, environment),
    [Dialer], [RedisKV], [RedisScripts] (Redis), [Runtime] (regular
    expressions, random numbers, clock, contexts, scheduler), [Host]
    ([ServeMux], the metrics page, the tracer).  Hashes, [rand.Intn] and
    [regexp.Compile] are arguments.  What is assumed of them is named where it
    is used: a draw lies in its range ([intn_ok]), a context ends with one of
    its two errors ([context_errors]), the YAML of a configuration reads back
    ([clone_copies]), the digest does not collide on the values at hand.

    ** What is proved

    - The server: every request is answered, and reported as it was answered
      ([Operation.every_request_answered], [Chain.chain_reports_truthfully]);
      a request that fails costs nothing ([Operation.failed_requests_are_free],
      built from [Serve] and [Embeddings]); no key, no access
      ([Chain.chain_requires_key]); the settings in force are those of the
      configuration shown, through any history of requests, patches and
      reloads, but for what [main] sets up once: authentication being on, CORS,
      logging, the server section
      ([Operation.operation_shows_running], by a simulation into the control
      plane of [Gateway]); a reload is a restart, with the same exception, that
      keeps what requests have built up ([Gateway.reload_is_restart]); a valid
      configuration runs
      ([Gateway.valid_config_runs], [Config.Load_accepts_runnable]); a gateway
      that stops is not ready ([Operation.draining_not_ready]).
    - Calling providers: the outcome of a dispatch, with the breakers of its
      providers ([Dispatch], [Embeddings]), of a race ([Hedge]) and of retries
      ([Retry]); streams are relayed in order, and whole if [DONE] alone
      follows ([Streams], [Upstream]); errors
      are classified ([Upstream]); requests and tool calls survive translation
      ([Translate], [Types]).
    - Money and limits: the books add up and keep the quota in every
      interleaving ([Budget], [Serve.serve_charges_usage]), the Lua scripts
      implement the same books, prices are upper bounds ([Pricing]), a key
      gets no more than its rate whatever else the limiter is asked, told or
      forgets ([RateLimit.rate_limit_bound]).
    - Concurrency: goroutines that share buffers, breakers, limiters, books and
      connections do not get in each other's way ([Buffers], [Circuit],
      [RateLimit], [Budget], [RedisStore], [Hedge]); what the order of the
      [select]s can cost a stream is stated and bounded ([Streams]).
    - Refinements: the sharded limiter implements a flat map of buckets, the
      linked list an LRU list, the Redis scripts the in-process books.
    - Caches return what was stored for the same request and identity
      ([Serve.serve_cache_sound], [CacheSemantic], [CacheKeys]).

    Examples next to the theorems show the behaviours that differ from what a
    comment or the documentation says.

    ** Bounds and fuel

    [retry_fuel] is the number of attempts, which the loop cannot exceed
    ([Retry.Do_attempts]).  [settle_fuel] is 6, the longest way of a race to
    its end ([Dispatch.settle_rank_fuel]).  [ParseDuration] runs with the
    length of its text, of which every part takes at least a byte
    ([GoTime.duration_parts_fuel]).  The eviction of the semantic cache runs
    with the number of its entries, of which every round removes one
    ([CacheSemantic.evict_length]).  A
    stream is completed by [Streams.flush], whose rounds are as many as the
    turns that are left at most ([Streams.rounds_less]).  Every other
    recursion is structural.

    ** Not modelled

    The lexical layer of JSON and YAML, TLS and sockets, and what [net/http]
    does besides sending the status, the headers and the body.  The exposition
    of metrics ([internal/metrics]) and the set-up of OpenTelemetry
    ([internal/tracing]): libraries are called, nothing is decided; the spans
    and counters of the middleware are events, those of the handlers are left
    out but for the counter of cache hits.  Log lines other than the access
    log.  The latency in log lines, and [Hijack], [Push] and [ReadFrom] of the
    recorder.  Flags, listeners, the start of goroutines and the waits of the
    shutdown.  [ratelimit.NewRedis] and the [Close] methods of the limiters,
    which dial and stop a goroutine.  [Similarity], [tokenize] and [freq] of
    the semantic cache, which nothing calls.  NaN, infinities and the
    overflow of [float64], which a YAML file may ask for ([.nan]).  Requests
    are served one at a time: the state they share is guarded by mutexes, so
    an interleaving of requests is one of critical sections; the theorems of
    [Budget], [RateLimit], [Circuit], [Buffers] and [Hedge] range over those, the
    theorems about whole requests do not.  A provider's answer to a stream is
    computed at once, and sent to the channels in the turns of its producer. *)

From stdpp Require Export base gmap strings list numbers.
From Stdlib Require Export Lia ZArith.
From Stdlib Require Import Sorting.Sorted.

#[global] Open Scope Z_scope.

(** ** Results of fallible Go code

    A Go function returning [(T, error)] is a [result T E]: [Err e] is the
    branch with a non-nil error. *)
Inductive result (A E : Type) : Type :=
| Ok (a : A)
| Err (e : E).
Arguments Ok {A E} a.
Arguments Err {A E} e.

Definition is_ok {A E} (r : result A E) : bool :=
  match r with Ok _ => true | Err _ => false end.

Declare Scope go_scope.
Delimit Scope go_scope with go.

Notation "'let?' x ':=' c 'in' k" :=
  (match c with Ok x => k | Err e => Err e end)
  (at level 200, x pattern, c at level 100, k at level 200,
   format "'[v' 'let?'  x  ':='  c  'in' '/' k ']'") : go_scope.
#[global] Open Scope go_scope.

(** ** Machine integers

    Go's [int] and [int64] are 64-bit two's complement; arithmetic that can
    leave the range goes through [wrap64].  Division and remainder truncate
    toward zero ([Z.quot], [Z.rem]). *)
Definition min_int64 : Z := - 2 ^ 63.
Definition max_int64 : Z := 2 ^ 63 - 1.
Definition wrap64 (z : Z) : Z := (z + 2 ^ 63) mod 2 ^ 64 - 2 ^ 63.
Definition int64_range (z : Z) : Prop := min_int64 <= z <= max_int64.
Definition iadd (x y : Z) : Z := wrap64 (x + y).
Definition isub (x y : Z) : Z := wrap64 (x - y).
Definition imul (x y : Z) : Z := wrap64 (x * y).

(** ** Time

    [time.Duration] is an [int64] number of nanoseconds; a [time.Time] is the
    number of nanoseconds on the process clock.  Operations that call
    [time.Now] take the reading of the clock as the argument [now]. *)
Definition Nanosecond : Z := 1.
Definition Millisecond : Z := 1000000.
Definition Second : Z := 1000000000.
Definition Minute : Z := 60 * Second.

(** ** Automation *)

(** Split every [if] and [match] in sight and clean up. *)
Ltac go_split :=
  simpl in *; repeat (case_match; simplify_eq/=); try done.

(** Case analysis on boolean guards followed by linear arithmetic. *)
Ltac go_lia := go_split; lia.

(** Open existential and conjunctive hypotheses. *)
Ltac go_destruct :=
  repeat match goal with
    | H : exists _, _ |- _ => destruct H
    | H : _ /\ _ |- _ => destruct H
    | p : (_ * _)%type |- _ => destruct p
    end.

Create HintDb go.
Create Rewrite HintDb go.

(** ** Integers *)
Section integers.
Context (z : Z).

Lemma wrap64_id : int64_range z -> wrap64 z = z.
Proof.
  unfold int64_range, min_int64, max_int64, wrap64. intros H.
  rewrite Z.mod_small; lia.
Qed.

Lemma wrap64_range : int64_range (wrap64 z).
Proof.
  unfold int64_range, min_int64, max_int64, wrap64.
  pose proof (Z.mod_pos_bound (z + 2 ^ 63) (2 ^ 64)). lia.
Qed.

End integers.

Lemma iadd_id x y : int64_range (x + y) -> iadd x y = x + y.
Proof. apply wrap64_id. Qed.

Lemma isub_id x y : int64_range (x - y) -> isub x y = x - y.
Proof. apply wrap64_id. Qed.

Lemma wrap64_mod a b : a mod 2 ^ 64 = b mod 2 ^ 64 -> wrap64 a = wrap64 b.
Proof.
  unfold wrap64. intros E. f_equal.
  by rewrite <-Zplus_mod_idemp_l, E, Zplus_mod_idemp_l.
Qed.

Lemma wrap64_add_l a b : wrap64 (wrap64 a + b) = wrap64 (a + b).
Proof.
  apply wrap64_mod. unfold wrap64.
  replace ((a + 2 ^ 63) mod 2 ^ 64 - 2 ^ 63 + b) with ((a + 2 ^ 63) mod 2 ^ 64 + (b - 2 ^ 63)) by lia.
  rewrite Zplus_mod_idemp_l. f_equal. lia.
Qed.

(** Two's complement addition and subtraction cancel even when they wrap. *)
Lemma iadd_isub x d : int64_range x -> iadd (iadd x d) (wrap64 (- d)) = x.
Proof.
  intros Hx. unfold iadd. rewrite wrap64_add_l.
  rewrite (Z.add_comm (x + d)), wrap64_add_l.
  rewrite <-(wrap64_id x Hx) at 2. f_equal. lia.
Qed.
#[export] Hint Resolve wrap64_range : go.

(** ** Loops over slices

    A Go [for range] loop is a left fold; an invariant relates the state to
    the prefix already visited. *)
Section loops.
Context {A B : Type} (f : A -> B -> A) (P : list B -> A -> Prop).

Lemma foldl_prefix_inv a l :
  P [] a -> (forall l x a, P l a -> P (l ++ [x]) (f a x)) -> P l (foldl f a l).
Proof.
  intros H0 Hs. induction l as [|x l IH] using rev_ind; [done|].
  rewrite foldl_app. simpl. auto.
Qed.

End loops.

Lemma fmap_inj_Forall {A B} (f : A -> B) (P : A -> Prop) l l' :
  (forall x y, P x -> P y -> f x = f y -> x = y) -> Forall P l -> Forall P l' ->
  f <$> l = f <$> l' -> l = l'.
Proof.
  intros Hf Hl. revert l'. induction Hl as [|x l Hx Hl IH]; intros [|y l'] Hl' E; try done.
  inversion Hl'; subst. injection E as Ex El. f_equal; auto.
Qed.

Lemma filter_ext_in {A} (P Q : A -> Prop) `{forall x, Decision (P x)} `{forall x, Decision (Q x)} (l : list A) :
  (forall x, x ∈ l -> P x <-> Q x) -> filter P l = filter Q l.
Proof.
  intros Hpq. induction l as [|x l IH]; [done|]. rewrite !filter_cons.
  rewrite IH by (intros; apply Hpq; set_solver). pose proof (Hpq x ltac:(set_solver)).
  do 2 case_decide; tauto.
Qed.

Lemma filter_none {A} (P : A -> Prop) `{forall x, Decision (P x)} (l : list A) :
  (forall x, x ∈ l -> ~ P x) -> filter P l = [].
Proof.
  intros Hn. induction l as [|x l IH]; [done|].
  rewrite filter_cons_False by (apply Hn; set_solver). apply IH. set_solver.
Qed.

Lemma elem_of_take_1 {A} (x : A) n l : x ∈ take n l -> x ∈ l.
Proof. intros Hx. rewrite <-(take_drop n l). apply elem_of_app. auto. Qed.

Lemma elem_of_drop_1 {A} (x : A) n l : x ∈ drop n l -> x ∈ l.
Proof. intros Hx. rewrite <-(take_drop n l). apply elem_of_app. auto. Qed.

(** ** Sums *)
Section sums.
Context {A : Type} (f : A -> Z).

Definition sum_with (l : list A) : Z := foldr (fun x acc => f x + acc) 0 l.

Lemma sum_with_app l1 l2 : sum_with (l1 ++ l2) = sum_with l1 + sum_with l2.
Proof. induction l1 as [|x l1 IH]; simpl; [done|]. rewrite IH. lia. Qed.

Lemma sum_with_insert l i x y :
  l !! i = Some x -> sum_with (<[i := y]> l) = sum_with l - f x + f y.
Proof.
  revert i. induction l as [|z l IH]; intros [|i] Hi; simplify_eq/=; [lia|].
  rewrite (IH i) by done. lia.
Qed.

Lemma sum_with_nonneg l : Forall (fun x => 0 <= f x) l -> 0 <= sum_with l.
Proof. induction 1; simpl; lia. Qed.

End sums.

Lemma sum_with_le {A} (f g : A -> Z) l :
  Forall (fun x => f x <= g x) l -> sum_with f l <= sum_with g l.
Proof. induction 1; simpl; lia. Qed.

Lemma sum_with_elem_le {A} (f : A -> Z) l i x :
  Forall (fun x => 0 <= f x) l -> l !! i = Some x -> f x <= sum_with f l.
Proof.
  intros Hl. revert i. induction Hl as [|y l Hy Hl IH]; intros [|i] Hi; simplify_eq/=.
  - pose proof (sum_with_nonneg f l Hl). lia.
  - specialize (IH i Hi). lia.
Qed.

(** ** [sort.SliceStable]

    Insertion sort: a new element goes after every element it is not less
    than, which is the one order a stable sort can produce. *)
Section sorting.
Context {A : Type} (less : A -> A -> bool).

Fixpoint insert_stable (x : A) (l : list A) : list A :=
  match l with
  | [] => [x]
  | y :: l => if less x y then x :: y :: l else y :: insert_stable x l
  end.

Definition stable_sort (l : list A) : list A := foldl (fun acc x => insert_stable x acc) [] l.

Lemma insert_stable_perm x l : insert_stable x l ≡ₚ x :: l.
Proof.
  induction l as [|y l IH]; simpl; [done|]. destruct (less x y); [done|].
  rewrite IH. constructor.
Qed.

Lemma stable_sort_perm l : l ≡ₚ stable_sort l.
Proof.
  unfold stable_sort. apply (foldl_prefix_inv _ (fun l acc => l ≡ₚ acc)); [done|].
  intros l' x acc IH. rewrite insert_stable_perm, <-IH. symmetry. apply Permutation_cons_append.
Qed.

Definition not_less (a b : A) : Prop := less b a = false.

Hypothesis less_asym : forall a b, less a b = true -> less b a = false.

Lemma insert_stable_sorted x l :
  Sorted.Sorted not_less l -> Sorted.Sorted not_less (insert_stable x l).
Proof.
  induction 1 as [|y l Hs IH Hhd]; simpl; [by repeat constructor|].
  destruct (less x y) eqn:E.
  - repeat constructor; try done. by apply less_asym.
  - constructor; [done|]. destruct l as [|z l]; simpl; [by constructor|].
    inversion Hhd; subst. destruct (less x z); by constructor.
Qed.

Lemma stable_sort_sorted l : Sorted.Sorted not_less (stable_sort l).
Proof.
  unfold stable_sort. apply (foldl_prefix_inv _ (fun _ acc => Sorted.Sorted not_less acc)); [constructor|].
  intros. by apply insert_stable_sorted.
Qed.

End sorting.
