(* ===== verification/Circuit.v ===== *)
(** * The per-provider circuit breaker (internal/resilience/circuit.go)

    State machine, its invariants, and the history it encodes. *)

From S2P Require Import Prelude.

(** ** Data *)
Inductive State : Type := StateClosed | StateOpen | StateHalfOpen.

#[export] Instance State_eq_dec : EqDecision State.
Proof. solve_decision. Defined.

Record CircuitConfig := mkCircuitConfig {
  FailureThreshold : Z;  (** consecutive failures to open *)
  OpenTimeout : Z;       (** how long to stay open *)
  HalfOpenMax : Z        (** probes allowed in half-open *)
}.

Record Breaker := mkBreaker {
  b_cfg : CircuitConfig;
  b_state : State;
  b_failures : Z;
  b_successes : Z;
  b_lastOpenedAt : Z;
  b_halfOpenPend : Z
}.

Definition State_String (s : State) : string :=
  match s with
  | StateClosed => "closed"
  | StateOpen => "open"
  | StateHalfOpen => "half-open"
  end.

(** ** Operations *)
Definition DefaultCircuitConfig : CircuitConfig :=
  mkCircuitConfig 5 (30 * Second) 1.

Definition NewBreaker (cfg : CircuitConfig) : Breaker :=
  let ft := if FailureThreshold cfg <=? 0 then 5 else FailureThreshold cfg in
  let ot := if OpenTimeout cfg <=? 0 then 30 * Second else OpenTimeout cfg in
  let hm := if HalfOpenMax cfg <=? 0 then 1 else HalfOpenMax cfg in
  mkBreaker (mkCircuitConfig ft ot hm) StateClosed 0 0 0 0.

(** [time.Since(b.lastOpenedAt) >= b.cfg.OpenTimeout] *)
Definition open_elapsed (now : Z) (b : Breaker) : bool :=
  OpenTimeout (b_cfg b) <=? now - b_lastOpenedAt b.

Definition Breaker_Allow (now : Z) (b : Breaker) : bool * Breaker :=
  match b_state b with
  | StateClosed => (true, b)
  | StateOpen =>
      if open_elapsed now b
      then (true, mkBreaker (b_cfg b) StateHalfOpen (b_failures b) 0 (b_lastOpenedAt b) 1)
      else (false, b)
  | StateHalfOpen =>
      if HalfOpenMax (b_cfg b) <=? b_halfOpenPend b then (false, b)
      else (true, mkBreaker (b_cfg b) StateHalfOpen (b_failures b) (b_successes b)
                    (b_lastOpenedAt b) (b_halfOpenPend b + 1))
  end.

(** [b.halfOpenPend--; if b.halfOpenPend < 0 { b.halfOpenPend = 0 }] *)
Definition pend_dec (p : Z) : Z := if p - 1 <? 0 then 0 else p - 1.

Definition Breaker_RecordSuccess (b : Breaker) : Breaker :=
  match b_state b with
  | StateClosed =>
      mkBreaker (b_cfg b) StateClosed 0 (b_successes b) (b_lastOpenedAt b) (b_halfOpenPend b)
  | StateHalfOpen =>
      let s := b_successes b + 1 in
      if HalfOpenMax (b_cfg b) <=? s
      then mkBreaker (b_cfg b) StateClosed 0 0 (b_lastOpenedAt b) (pend_dec (b_halfOpenPend b))
      else mkBreaker (b_cfg b) StateHalfOpen (b_failures b) s (b_lastOpenedAt b)
             (pend_dec (b_halfOpenPend b))
  | StateOpen => b
  end.

Definition Breaker_RecordFailure (now : Z) (b : Breaker) : Breaker :=
  match b_state b with
  | StateClosed =>
      let f := b_failures b + 1 in
      if FailureThreshold (b_cfg b) <=? f
      then mkBreaker (b_cfg b) StateOpen f (b_successes b) now (b_halfOpenPend b)
      else mkBreaker (b_cfg b) StateClosed f (b_successes b) (b_lastOpenedAt b) (b_halfOpenPend b)
  | StateHalfOpen =>
      mkBreaker (b_cfg b) StateOpen (b_failures b) 0 now (pend_dec (b_halfOpenPend b))
  | StateOpen => b
  end.

Definition Breaker_State (now : Z) (b : Breaker) : State * Breaker :=
  if bool_decide (b_state b = StateOpen) && open_elapsed now b
  then (StateHalfOpen,
        mkBreaker (b_cfg b) StateHalfOpen (b_failures b) 0 (b_lastOpenedAt b) 0)
  else (b_state b, b).

Definition Breaker_Reset (b : Breaker) : Breaker :=
  mkBreaker (b_cfg b) StateClosed 0 0 (b_lastOpenedAt b) 0.

Definition Breaker_UpdateConfig (cfg : CircuitConfig) (b : Breaker) : Breaker :=
  let old := b_cfg b in
  let ft := if 0 <? FailureThreshold cfg then FailureThreshold cfg else FailureThreshold old in
  let ot := if 0 <? OpenTimeout cfg then OpenTimeout cfg else OpenTimeout old in
  let hm := if 0 <? HalfOpenMax cfg then HalfOpenMax cfg else HalfOpenMax old in
  mkBreaker (mkCircuitConfig ft ot hm) (b_state b) (b_failures b) (b_successes b)
    (b_lastOpenedAt b) (b_halfOpenPend b).

Definition Breaker_Config (b : Breaker) : CircuitConfig := b_cfg b.

(** ** Sequences of operations *)
Inductive BreakerOp : Type :=
| OpAllow | OpSuccess | OpFailure | OpState | OpReset
| OpUpdate (cfg : CircuitConfig).

(** One locked method call at clock reading [now]. *)
Definition breaker_exec (now : Z) (op : BreakerOp) (b : Breaker) : Breaker :=
  match op with
  | OpAllow => (Breaker_Allow now b).2
  | OpSuccess => Breaker_RecordSuccess b
  | OpFailure => Breaker_RecordFailure now b
  | OpState => (Breaker_State now b).2
  | OpReset => Breaker_Reset b
  | OpUpdate cfg => Breaker_UpdateConfig cfg b
  end.

Definition breaker_run (ops : list (Z * BreakerOp)) (b : Breaker) : Breaker :=
  foldl (fun b '(now, op) => breaker_exec now op b) b ops.

(** The breakers a process can hold: created by [NewBreaker], then changed by
    any interleaving of method calls. *)
Inductive breaker_reachable : Breaker -> Prop :=
| reach_new cfg : breaker_reachable (NewBreaker cfg)
| reach_step now op b :
    breaker_reachable b -> breaker_reachable (breaker_exec now op b).

(** ** Invariants *)
Record breaker_inv (b : Breaker) : Prop := {
  inv_threshold : 0 < FailureThreshold (b_cfg b);
  inv_timeout : 0 < OpenTimeout (b_cfg b);
  inv_halfmax : 0 < HalfOpenMax (b_cfg b);
  inv_failures : 0 <= b_failures b;
  inv_successes : 0 <= b_successes b;
  inv_pend : 0 <= b_halfOpenPend b
}.

(** What additionally holds while the thresholds are not reconfigured. *)
Record breaker_tight (b : Breaker) : Prop := {
  tight_inv : breaker_inv b;
  tight_closed : b_state b = StateClosed -> b_failures b < FailureThreshold (b_cfg b);
  tight_half : b_state b = StateHalfOpen -> b_successes b < HalfOpenMax (b_cfg b);
  tight_pend : b_halfOpenPend b <= HalfOpenMax (b_cfg b)
}.

(** Unfold one breaker method completely. *)
Ltac breaker_unfold :=
  unfold breaker_exec, Breaker_Allow, Breaker_RecordSuccess, Breaker_RecordFailure,
    Breaker_State, Breaker_Reset, Breaker_UpdateConfig, NewBreaker, pend_dec, open_elapsed in *.

Lemma NewBreaker_tight cfg : breaker_tight (NewBreaker cfg).
Proof. split; [split|..]; breaker_unfold; unfold Second; go_split; intros; go_lia. Qed.

Lemma breaker_exec_inv now op b : breaker_inv b -> breaker_inv (breaker_exec now op b).
Proof. intros []; destruct op; split; breaker_unfold; go_lia. Qed.

Lemma breaker_exec_tight now op b :
  (forall cfg, op <> OpUpdate cfg) ->
  breaker_tight b -> breaker_tight (breaker_exec now op b).
Proof.
  intros Hop [Hi ???]. split; [by apply breaker_exec_inv|..];
    destruct Hi, op; try (by destruct (Hop cfg)); breaker_unfold; go_split;
    intros; simplify_eq; intuition (congruence || lia).
Qed.

Lemma breaker_run_app ops1 ops2 b :
  breaker_run (ops1 ++ ops2) b = breaker_run ops2 (breaker_run ops1 b).
Proof. apply foldl_app. Qed.

Lemma breaker_run_cons now op ops b :
  breaker_run ((now, op) :: ops) b = breaker_run ops (breaker_exec now op b).
Proof. done. Qed.
#[export] Hint Resolve NewBreaker_tight breaker_exec_inv : go.

(** Every breaker the gateway can hold keeps positive thresholds and
    non-negative counters, whatever the interleaving of calls, clock readings
    and hot reloads. *)
Theorem breaker_reachable_inv b : breaker_reachable b -> breaker_inv b.
Proof.
  induction 1 as [cfg|now op b _ IH]; [apply NewBreaker_tight | auto with go].
Qed.

Lemma breaker_reachable_inv_witness :
  breaker_reachable (breaker_exec 7 OpFailure (NewBreaker DefaultCircuitConfig)) /\
  breaker_inv (breaker_exec 7 OpFailure (NewBreaker DefaultCircuitConfig)).
Proof.
  split; [|apply breaker_reachable_inv]; apply reach_step, reach_new.
Defined.

(** ** Closed: the history of outcomes decides *)

(** The outcomes recorded by a closed breaker, each with the clock reading:
    [true] is [RecordSuccess], [false] is [RecordFailure]. *)
Definition record (b : Breaker) (o : Z * bool) : Breaker :=
  if o.2 then Breaker_RecordSuccess b else Breaker_RecordFailure o.1 b.

Definition record_all (os : list (Z * bool)) (b : Breaker) : Breaker := foldl record b os.

(** [k] consecutive failures occur somewhere in [l]. *)
Definition failure_run (k : nat) (l : list bool) : Prop :=
  exists l1 l2, l = l1 ++ replicate k false ++ l2.

Lemma record_all_cons o os b : record_all (o :: os) b = record_all os (record b o).
Proof. done. Qed.

Lemma record_open os b : b_state b = StateOpen -> record_all os b = b.
Proof.
  intros Hb. induction os as [|[t []] os IH]; [done|..];
    rewrite record_all_cons; unfold record; breaker_unfold; simpl; rewrite Hb; done.
Qed.

Lemma record_closed_failure t b :
  b_state b = StateClosed ->
  b_failures (Breaker_RecordFailure t b) = b_failures b + 1 /\
  b_cfg (Breaker_RecordFailure t b) = b_cfg b /\
  b_state (Breaker_RecordFailure t b) =
    if FailureThreshold (b_cfg b) <=? b_failures b + 1 then StateOpen else StateClosed.
Proof. intros Hb. breaker_unfold. rewrite Hb. go_split. Qed.

Lemma record_closed_success b :
  b_state b = StateClosed ->
  b_failures (Breaker_RecordSuccess b) = 0 /\
  b_cfg (Breaker_RecordSuccess b) = b_cfg b /\
  b_state (Breaker_RecordSuccess b) = StateClosed.
Proof. intros Hb. breaker_unfold. rewrite Hb. done. Qed.

Lemma failure_run_cons k o l : failure_run k l -> failure_run k (o :: l).
Proof. intros (l1 & l2 & ->). exists (o :: l1), l2. done. Qed.

Lemma replicate_false_prefix (n k : nat) l l1 l2 :
  (n < k)%nat -> replicate n false ++ true :: l = l1 ++ replicate k false ++ l2 ->
  failure_run k l.
Proof.
  revert l1; induction n as [|n IH]; intros l1 Hn; simpl.
  - destruct l1 as [|x l1], k; simpl; intros ?; simplify_eq; [lia..|].
    exists l1, l2. done.
  - destruct l1 as [|x l1]; simpl; intros Heq; simplify_eq.
    + destruct k as [|k]; [lia|]. simpl in Heq. simplify_eq.
      exfalso. clear IH. revert n Hn Heq. induction k as [|k IHk]; [lia|].
      intros [|n] Hn Heq; simpl in Heq; simplify_eq. apply (IHk n); [lia|done].
    + apply (IH l1); [lia|done].
Qed.

(** The scan of a closed breaker holding [n] failures so far. *)
Lemma record_all_closed os b n :
  b_state b = StateClosed -> b_failures b = Z.of_nat n ->
  (n < Z.to_nat (FailureThreshold (b_cfg b)))%nat ->
  let k := Z.to_nat (FailureThreshold (b_cfg b)) in
  b_state (record_all os b) = StateOpen <-> failure_run k (replicate n false ++ os.*2).
Proof.
  revert b n. induction os as [|[t []] os IH]; intros b n Hb Hn Hlt k;
    rewrite ?record_all_cons; unfold record; csimpl.
  - rewrite app_nil_r, Hb. split; [done|]. intros (l1 & l2 & Heq).
    apply (f_equal length) in Heq. rewrite !length_app, !length_replicate in Heq. lia.
  - destruct (record_closed_success b Hb) as (Hf & Hc & Hs).
    rewrite (IH _ 0%nat Hs Hf) by (rewrite Hc; lia).
    rewrite Hc. csimpl. split.
    + intros (l1 & l2 & Heq). exists (replicate n false ++ true :: l1), l2.
      rewrite <-app_assoc. csimpl. by rewrite Heq.
    + intros (l1 & l2 & Heq). eapply replicate_false_prefix, Heq. lia.
  - destruct (record_closed_failure t b Hb) as (Hf & Hc & Hs).
    case_match eqn:Hk.
    + rewrite record_open, Hs by done. split; [intros _|done].
      exists [], (os.*2). csimpl. replace k with (n + 1)%nat by lia.
      rewrite replicate_add, <-app_assoc. done.
    + rewrite (IH _ (S n) Hs) by (rewrite ?Hf, ?Hc; lia). rewrite Hc.
      replace (S n) with (n + 1)%nat by lia.
      by rewrite replicate_add, <-app_assoc.
Qed.

(** C19. A fresh breaker opens exactly when [FailureThreshold] consecutive
    failures occur somewhere in the recorded outcomes: a success anywhere in
    between resets the count. *)
Theorem breaker_opens_iff_run cfg os :
  b_state (record_all os (NewBreaker cfg)) = StateOpen <->
  failure_run (Z.to_nat (FailureThreshold (b_cfg (NewBreaker cfg)))) os.*2.
Proof.
  apply (record_all_closed os (NewBreaker cfg) 0); [done..|].
  pose proof (inv_threshold _ (tight_inv _ (NewBreaker_tight cfg))). lia.
Qed.

(** ** Open: nothing passes before the timeout *)

(** Operations a request path performs: no reset, no reconfiguration. *)
Definition request_op (op : BreakerOp) : Prop :=
  op = OpAllow \/ op = OpSuccess \/ op = OpFailure \/ op = OpState.

Lemma breaker_exec_open_early now op b :
  b_state b = StateOpen -> now - b_lastOpenedAt b < OpenTimeout (b_cfg b) ->
  request_op op -> breaker_exec now op b = b /\ (Breaker_Allow now b).1 = false.
Proof.
  intros Hb Hnow [-> | [-> | [-> | ->]]]; breaker_unfold; rewrite Hb; simpl;
    replace (OpenTimeout (b_cfg b) <=? now - b_lastOpenedAt b) with false by lia; done.
Qed.

(** Until [OpenTimeout] has passed since it opened, an open breaker
    rejects every request and no interleaving of request-path calls
    (including late results of earlier requests) changes it. *)
Theorem breaker_open_rejects ops now b :
  b_state b = StateOpen ->
  Forall (fun '(t, op) => t - b_lastOpenedAt b < OpenTimeout (b_cfg b) /\ request_op op) ops ->
  now - b_lastOpenedAt b < OpenTimeout (b_cfg b) ->
  breaker_run ops b = b /\ (Breaker_Allow now (breaker_run ops b)).1 = false.
Proof.
  intros Hb Hops Hnow. assert (Hrun : breaker_run ops b = b).
  { induction Hops as [|[t op] ops [Ht Hop] _ IH]; [done|].
    by rewrite breaker_run_cons, (proj1 (breaker_exec_open_early t op b Hb Ht Hop)). }
  rewrite Hrun. split; [done|].
  apply (breaker_exec_open_early now OpAllow); unfold request_op; auto.
Qed.

Definition open_breaker : Breaker :=
  mkBreaker (mkCircuitConfig 5 100 1) StateOpen 5 0 1000 0.

Lemma breaker_open_rejects_witness :
  breaker_run [(1001, OpAllow); (1050, OpSuccess)] open_breaker = open_breaker /\
  (Breaker_Allow 1099 (breaker_run [(1001, OpAllow); (1050, OpSuccess)] open_breaker)).1 = false.
Proof.
  apply breaker_open_rejects; [done| |vm_compute; done].
  unfold request_op. by repeat (constructor; [cbn; split; [lia | tauto]|]).
Defined.

(** ** Half-open: a bounded number of probes *)

(** The answers of consecutive [Allow] calls at the given clock readings. *)
Fixpoint allows (ts : list Z) (b : Breaker) : list bool * Breaker :=
  match ts with
  | [] => ([], b)
  | t :: ts =>
      let '(ok, b1) := Breaker_Allow t b in
      let '(oks, b2) := allows ts b1 in (ok :: oks, b2)
  end.

Definition granted (oks : list bool) : Z := foldr (fun (ok : bool) n => Z.b2z ok + n) 0 oks.

Lemma granted_cons ok oks : granted (ok :: oks) = Z.b2z ok + granted oks.
Proof. done. Qed.

Lemma allows_half ts b :
  b_state b = StateHalfOpen -> b_halfOpenPend b <= HalfOpenMax (b_cfg b) ->
  granted (allows ts b).1 =
    Z.min (Z.of_nat (length ts)) (HalfOpenMax (b_cfg b) - b_halfOpenPend b).
Proof.
  revert b; induction ts as [|t ts IH]; intros b Hb Hp; [cbn; lia|].
  cbn [allows length]. unfold Breaker_Allow. rewrite Hb.
  destruct (HalfOpenMax (b_cfg b) <=? b_halfOpenPend b) eqn:Hm.
  - specialize (IH b Hb Hp). destruct (allows ts b). cbn [fst snd] in *; rewrite granted_cons; simpl in *; lia.
  - match goal with |- context [allows ts ?b'] => specialize (IH b') end.
    simpl in IH. specialize (IH eq_refl ltac:(lia)).
    destruct (allows ts _). cbn [fst snd] in *; rewrite granted_cons; simpl in *; lia.
Qed.

(** The requests a half-open breaker lets pass, until it decides. *)
Fixpoint probes (ops : list (Z * BreakerOp)) (b : Breaker) : Z :=
  match ops with
  | [] => 0
  | (t, op) :: ops =>
      (match op with OpAllow => Z.b2z (Breaker_Allow t b).1 | _ => 0 end) +
      (let b' := breaker_exec t op b in
       if decide (b_state b' = StateHalfOpen) then probes ops b' else 0)
  end.

Lemma probes_nonneg ops b : 0 <= probes ops b.
Proof.
  revert b. induction ops as [|[t op] ops IH]; intros b; cbn [probes]; [lia|].
  specialize (IH (breaker_exec t op b)).
  assert (0 <= match op with OpAllow => Z.b2z (Breaker_Allow t b).1 | _ => 0 end)
    by (destruct op; [destruct (Breaker_Allow t b).1|..]; simpl; lia).
  case_decide; lia.
Qed.

(** A probe takes a slot, which only a success gives back, and successes
    decide. *)
Lemma probes_half ops b :
  breaker_inv b -> b_state b = StateHalfOpen -> b_halfOpenPend b <= HalfOpenMax (b_cfg b) ->
  b_successes b < HalfOpenMax (b_cfg b) -> Forall (fun '(_, op) => request_op op) ops ->
  probes ops b <= (HalfOpenMax (b_cfg b) - b_halfOpenPend b) + (HalfOpenMax (b_cfg b) - 1 - b_successes b).
Proof.
  intros Hi Hb Hp Hs Hops. revert b Hi Hb Hp Hs.
  induction Hops as [|[t op] ops Hop _ IH]; intros b Hi Hb Hp Hs; cbn [probes]; [lia|].
  pose proof (breaker_exec_inv t op b Hi) as Hi'. specialize (IH (breaker_exec t op b) Hi'). destruct Hi.
  destruct Hop as [-> |[-> |[-> | ->]]]; breaker_unfold; rewrite Hb in *; cbn -[probes] in *.
  - destruct (HalfOpenMax (b_cfg b) <=? b_halfOpenPend b) eqn:E; cbn -[probes] in *;
      (rewrite decide_True by done; cbn -[probes] in *; specialize (IH ltac:(done) ltac:(lia) ltac:(lia)); lia).
  - destruct (HalfOpenMax (b_cfg b) <=? b_successes b + 1) eqn:E; cbn -[probes] in *; [rewrite decide_False by done; lia|].
    rewrite decide_True by done. specialize (IH eq_refl).
    destruct (b_halfOpenPend b - 1 <? 0) eqn:E1; specialize (IH ltac:(lia) ltac:(lia)); lia.
  - rewrite decide_False by done. lia.
  - rewrite (bool_decide_false (StateHalfOpen = StateOpen)) in * by done. cbn -[probes] in *.
    rewrite decide_True by done. specialize (IH Hb Hp Hs). lia.
Qed.

(** C20. When the open period has elapsed, of any sequence of concurrent
    [Allow] calls exactly the first [HalfOpenMax] are granted; and whatever
    calls and recorded outcomes follow in whatever order, fewer than
    [2 * HalfOpenMax] requests pass before the breaker decides to close or to
    open again: with the default of one, a single probe decides. *)
Theorem half_open_probe_bound t ts ops b :
  breaker_tight b -> b_state b = StateOpen -> open_elapsed t b = true ->
  Forall (fun '(_, op) => request_op op) ops ->
  granted (allows (t :: ts) b).1 =
    Z.min (Z.of_nat (length (t :: ts))) (HalfOpenMax (b_cfg b)) /\
  1 <= probes ((t, OpAllow) :: ops) b < 2 * HalfOpenMax (b_cfg b).
Proof.
  intros [Hi _ _ _] Hb Ht Hops. pose proof Hi as []. split.
  - cbn [allows length]. unfold Breaker_Allow. rewrite Hb, Ht.
    match goal with |- context [allows ts ?b'] =>
      pose proof (allows_half ts b' eq_refl ltac:(simpl; lia)) end.
    destruct (allows ts _). cbn [fst snd] in *; rewrite granted_cons; simpl in *; lia.
  - cbn [probes]. pose proof (breaker_exec_inv t OpAllow b Hi) as Hi'.
    unfold breaker_exec, Breaker_Allow in *. rewrite Hb, Ht in *. cbn -[probes] in *.
    rewrite decide_True by done. split; [|pose proof (probes_half ops _ Hi' eq_refl ltac:(simpl; lia) ltac:(simpl; lia) Hops);
      simpl in *; lia].
    match goal with |- context [probes ops ?b'] => pose proof (probes_nonneg ops b'); lia end.
Qed.

Lemma half_open_probe_bound_witness :
  granted (allows [1100; 1101; 1102] open_breaker).1 = 1 /\
  1 <= probes [(1100, OpAllow); (1101, OpAllow); (1102, OpSuccess); (1103, OpAllow)] open_breaker < 2.
Proof.
  apply (half_open_probe_bound 1100 [1101; 1102] [(1101, OpAllow); (1102, OpSuccess); (1103, OpAllow)] open_breaker);
    [|done|done|].
  - split; [split|..]; simpl; first [lia | done].
  - unfold request_op. by repeat (constructor; [tauto|]).
Defined.

(** [n] probe successes in a row. *)
Lemma half_open_successes n b :
  b_state b = StateHalfOpen ->
  b_successes b + Z.of_nat n < HalfOpenMax (b_cfg b) ->
  let b' := Nat.iter n Breaker_RecordSuccess b in
  b_state b' = StateHalfOpen /\ b_successes b' = b_successes b + Z.of_nat n /\ b_cfg b' = b_cfg b.
Proof.
  induction n as [|n IH]; intros Hb Hn; simpl; [split_and!; [done|lia|done]|].
  destruct IH as (Hs & Hv & Hc); [done|lia|]. unfold Breaker_RecordSuccess at 1 3 5.
  rewrite Hs, Hv, Hc. destruct (_ <=? _) eqn:E; simpl; split_and!; done || lia.
Qed.

(** Recovery: from half-open, [HalfOpenMax] successful probes close the
    breaker with a clean failure count, and one failed probe at time [t]
    reopens it for a full [OpenTimeout]. *)
Theorem half_open_recovery b t :
  breaker_tight b -> b_state b = StateHalfOpen -> b_successes b = 0 ->
  (let b' := Nat.iter (Z.to_nat (HalfOpenMax (b_cfg b))) Breaker_RecordSuccess b in
   b_state b' = StateClosed /\ b_failures b' = 0 /\ b_successes b' = 0) /\
  (let b' := Breaker_RecordFailure t b in
   b_state b' = StateOpen /\
   forall now, open_elapsed now b' = true <-> t + OpenTimeout (b_cfg b) <= now).
Proof.
  intros [Hi _ _ _] Hb Hs. destruct Hi. split.
  - destruct (Z.to_nat _) as [|n] eqn:Hn; [lia|]. simpl.
    destruct (half_open_successes n b) as (H1 & H2 & H3); [done|lia|].
    unfold Breaker_RecordSuccess at 1 3 5. rewrite H1, H2, H3.
    replace (HalfOpenMax (b_cfg b) <=? b_successes b + Z.of_nat n + 1) with true by lia. done.
  - breaker_unfold. rewrite Hb. simpl. split; [done|]. lia.
Qed.

Lemma half_open_recovery_witness :
  (let b' := Nat.iter 1 Breaker_RecordSuccess (Breaker_Allow 1100 open_breaker).2 in
   b_state b' = StateClosed /\ b_failures b' = 0 /\ b_successes b' = 0) /\
  (let b' := Breaker_RecordFailure 1200 (Breaker_Allow 1100 open_breaker).2 in
   b_state b' = StateOpen /\ forall now, open_elapsed now b' = true <-> 1200 + 100 <= now).
Proof.
  apply (half_open_recovery (Breaker_Allow 1100 open_breaker).2 1200); [|done..].
  split; [split|..]; simpl; first [lia | done].
Defined.

(** A probe whose outcome is never recorded wedges the breaker: once
    every half-open slot is taken, no [Allow] at any later time is granted and
    [State] never leaves half-open, until some outcome is recorded. *)
Theorem half_open_wedged ops now b :
  b_state b = StateHalfOpen -> HalfOpenMax (b_cfg b) <= b_halfOpenPend b ->
  Forall (fun '(_, op) => op = OpAllow \/ op = OpState) ops ->
  breaker_run ops b = b /\ (Breaker_Allow now (breaker_run ops b)).1 = false.
Proof.
  intros Hb Hp Hops. assert (Hrun : breaker_run ops b = b).
  { induction Hops as [|[t op] ops [-> | ->] _ IH]; [done|..];
      rewrite breaker_run_cons; breaker_unfold; rewrite Hb; [|done].
    replace (HalfOpenMax (b_cfg b) <=? b_halfOpenPend b) with true by lia. done. }
  rewrite Hrun. split; [done|]. unfold Breaker_Allow. rewrite Hb.
  replace (HalfOpenMax (b_cfg b) <=? b_halfOpenPend b) with true by lia. done.
Qed.

Lemma half_open_wedged_witness :
  let b := (Breaker_Allow 1100 open_breaker).2 in
  breaker_run [(2000, OpState); (10 ^ 18, OpAllow)] b = b /\
  (Breaker_Allow (10 ^ 19) (breaker_run [(2000, OpState); (10 ^ 18, OpAllow)] b)).1 = false.
Proof. apply half_open_wedged; [done|done|].
  by repeat (constructor; [tauto|]).
Defined.
