(* ===== verification/GoFloat.v ===== *)
(** * Go's float64 arithmetic

    The gateway keeps bucket levels, rates and dollar amounts in [float64].
    A finite IEEE 754 binary64 number is an integer multiple of the smallest
    subnormal [2^-1074]; it is represented here by that integer, so that
    comparison is comparison of integers and every operation is the exact
    operation followed by one rounding to nearest, ties to even.

    Not represented: NaN, the infinities (the exponent is unbounded above) and
    the sign of zero.  Divisions of the gateway have non-zero divisors, and no
    value it computes comes near [2^1024] unless a configured price does. *)

From S2P Require Import Prelude.

Abbreviation float64 := Z (only parsing).

(** The representation of 1.0. *)
Definition f64_one : Z := 2 ^ 1074.

(** Nearest integer to [a / b], ties to even ([b > 0]). *)
Definition rne (a b : Z) : Z :=
  let q := a / b in
  let r := a mod b in
  if 2 * r <? b then q
  else if b <? 2 * r then q + 1
  else if Z.even q then q else q + 1.

(** Trailing bits dropped from a magnitude [|n| / d] to keep 53 bits. *)
Definition drop_bits (n d : Z) : Z := Z.max 0 (Z.log2 (Z.abs n / d) - 52).

(** The binary64 number nearest to the rational [n / d] ([d > 0]). *)
Definition f64_round (n d : Z) : float64 :=
  let k := drop_bits n d in rne n (d * 2 ^ k) * 2 ^ k.

Definition fadd (x y : float64) : float64 := f64_round (x + y) 1.
Definition fsub (x y : float64) : float64 := f64_round (x - y) 1.
Definition fmul (x y : float64) : float64 := f64_round (x * y) f64_one.
Definition fdiv (x y : float64) : float64 :=
  f64_round (x * f64_one * Z.sgn y) (Z.abs y).

(** [float64(n)] for an integer, and the constant [n / d]. *)
Definition f64_of_int (n : Z) : float64 := f64_round (n * f64_one) 1.
Definition f64_const (n d : Z) : float64 := f64_round (n * f64_one) d.

(** [int(x)]: truncation toward zero. *)
Definition f64_to_int (x : float64) : Z := Z.quot x f64_one.

(** [time.Duration.Seconds]. *)
Definition Duration_Seconds (d : Z) : float64 :=
  fadd (f64_of_int (Z.quot d Second))
       (fdiv (f64_of_int (Z.rem d Second)) (f64_const 1000000000 1)).

(** Numbers with at most 53 significant bits. *)
Definition f64_rep (x : Z) : Prop :=
  exists m k, 0 <= k /\ Z.abs m <= 2 ^ 53 /\ x = m * 2 ^ k.

Lemma f64_one_pos : 0 < f64_one.
Proof. unfold f64_one. lia. Qed.
Lemma f64_one_big : 2 ^ 200 <= f64_one.
Proof. unfold f64_one. lia. Qed.
#[global] Opaque f64_one.
#[export] Hint Resolve f64_one_pos : go.

(** ** Rounding to an integer *)
Section rne.

Lemma rne_spec a b :
  0 < b -> 2 * (rne a b) * b - b <= 2 * a <= 2 * (rne a b) * b + b.
Proof.
  intros Hb. unfold rne. pose proof (Z.div_mod a b ltac:(lia)).
  pose proof (Z.mod_pos_bound a b Hb).
  repeat case_match; nia.
Qed.

(** At a tie the result is even. *)
Lemma rne_tie a b :
  0 < b -> 2 * a = 2 * (rne a b) * b - b \/ 2 * a = 2 * (rne a b) * b + b ->
  Z.even (rne a b) = true.
Proof.
  intros Hb Htie. revert Htie. unfold rne. pose proof (Z.div_mod a b ltac:(lia)).
  pose proof (Z.mod_pos_bound a b Hb).
  destruct (2 * (a mod b) <? b) eqn:?; [intros [|]; nia|].
  destruct (b <? 2 * (a mod b)) eqn:?; [intros [|]; nia|].
  destruct (Z.even (a / b)) eqn:He; intros _; [done|].
  by rewrite Z.add_1_r, Z.even_succ, <-Z.negb_even, He.
Qed.

Lemma rne_mono a1 b1 a2 b2 :
  0 < b1 -> 0 < b2 -> a1 * b2 <= a2 * b1 -> rne a1 b1 <= rne a2 b2.
Proof.
  intros H1 H2 Hle.
  pose proof (rne_spec a1 b1 H1). pose proof (rne_spec a2 b2 H2).
  pose proof (rne_tie a1 b1 H1) as T1. pose proof (rne_tie a2 b2 H2) as T2.
  generalize dependent (rne a1 b1); intros r1 ? T1.
  generalize dependent (rne a2 b2); intros r2 ? T2.
  destruct (Z.le_gt_cases r1 r2) as [|Hgt]; [done|exfalso].
  assert (r1 = r2 + 1 /\ 2 * a1 = 2 * r1 * b1 - b1 /\ 2 * a2 = 2 * r2 * b2 + b2)
    as (-> & E1 & E2) by (assert ((2 * r1 - 1) * b1 * b2 <= (2 * r2 + 1) * b1 * b2) by nia; nia).
  specialize (T1 (or_introl E1)). specialize (T2 (or_intror E2)).
  replace (r2 + 1) with (Z.succ r2) in T1 by lia.
  rewrite Z.even_succ, <-Z.negb_even, T2 in T1. done.
Qed.

Lemma rne_exact q b : 0 < b -> rne (q * b) b = q.
Proof.
  intros Hb. unfold rne. rewrite Z.div_mul, Z.mod_mul by lia.
  replace (2 * 0 <? b) with true by lia. done.
Qed.

Lemma rne_opp a b : 0 < b -> rne (- a) b = - rne a b.
Proof.
  intros Hb. pose proof (rne_spec a b Hb). pose proof (rne_spec (- a) b Hb).
  pose proof (rne_tie a b Hb) as T1. pose proof (rne_tie (- a) b Hb) as T2.
  generalize dependent (rne a b); intros r1 ? T1.
  generalize dependent (rne (- a) b); intros r2 ? T2.
  assert (r2 = - r1 \/ r2 = - r1 - 1 \/ r2 = - r1 + 1) as [|[->| ->]] by nia; [done|..];
    exfalso.
  - specialize (T1 ltac:(nia)). specialize (T2 ltac:(nia)).
    replace (- r1 - 1) with (Z.pred (- r1)) in T2 by lia.
    by rewrite Z.even_pred, <-Z.negb_even, Z.even_opp, T1 in T2.
  - specialize (T1 ltac:(nia)). specialize (T2 ltac:(nia)).
    replace (- r1 + 1) with (Z.succ (- r1)) in T2 by lia.
    by rewrite Z.even_succ, <-Z.negb_even, Z.even_opp, T1 in T2.
Qed.

End rne.

(** ** Rounding to binary64 *)
Section f64_round.

Lemma drop_bits_nonneg n d : 0 <= drop_bits n d.
Proof. unfold drop_bits. lia. Qed.

Lemma pow2_pos k : 0 <= k -> 0 < 2 ^ k.
Proof. intros. apply Z.pow_pos_nonneg; lia. Qed.

Lemma f64_round_0 d : 0 < d -> f64_round 0 d = 0.
Proof.
  intros. unfold f64_round. pose proof (pow2_pos _ (drop_bits_nonneg 0 d)).
  set (k := drop_bits 0 d) in *. 
  pose proof (rne_exact 0 (d * 2 ^ k) ltac:(nia)) as E. rewrite Z.mul_0_l in E. by rewrite E.
Qed.

Lemma f64_round_opp n d : 0 < d -> f64_round (- n) d = - f64_round n d.
Proof.
  intros Hd. unfold f64_round, drop_bits. rewrite Z.abs_opp.
  set (k := Z.max _ _). pose proof (pow2_pos k ltac:(lia)).
  rewrite rne_opp by nia. lia.
Qed.

(** A magnitude with [drop_bits = k] lies below [2^(k+53)], and at or above
    [2^(k+52)] when bits are dropped. *)
Lemma drop_bits_upper n d :
  0 < d -> 0 <= n -> n < d * 2 ^ (drop_bits n d + 53).
Proof.
  intros Hd Hn. unfold drop_bits. rewrite Z.abs_eq by done.
  set (v := n / d). assert (Hv : 0 <= v) by (apply Z.div_pos; lia).
  assert (v < 2 ^ (Z.max 0 (Z.log2 v - 52) + 53)).
  { destruct (Z.eq_dec v 0) as [->|]; [pose proof (pow2_pos (Z.max 0 (Z.log2 0 - 52) + 53)); lia|].
    destruct (Z.log2_spec v ltac:(lia)) as [_ Hl].
    eapply Z.lt_le_trans; [exact Hl|]. apply Z.pow_le_mono_r; lia. }
  pose proof (Z.div_mod n d ltac:(lia)). pose proof (Z.mod_pos_bound n d Hd).
  fold v in H0. nia.
Qed.

Lemma drop_bits_lower n d :
  0 < d -> 0 <= n -> 0 < drop_bits n d -> d * 2 ^ (drop_bits n d + 52) <= n.
Proof.
  intros Hd Hn. unfold drop_bits. rewrite Z.abs_eq by done.
  set (v := n / d). intros Hk. assert (Hv : 0 < v).
  { destruct (Z.le_gt_cases v 0); [|done]. rewrite Z.log2_nonpos in Hk by done. lia. }
  destruct (Z.log2_spec v Hv) as [Hl _].
  replace (Z.max 0 (Z.log2 v - 52) + 52) with (Z.log2 v) by lia.
  pose proof (Z.div_mod n d ltac:(lia)). pose proof (Z.mod_pos_bound n d Hd).
  fold v in H. nia.
Qed.

Lemma drop_bits_mono n1 d1 n2 d2 :
  0 < d1 -> 0 < d2 -> 0 <= n1 -> n1 * d2 <= n2 * d1 -> drop_bits n1 d1 <= drop_bits n2 d2.
Proof.
  intros. unfold drop_bits. rewrite !Z.abs_eq by nia.
  enough (n1 / d1 <= n2 / d2) as Hd.
  { apply Z.log2_le_mono in Hd. lia. }
  apply Z.div_le_lower_bound; [done|].
  pose proof (Z.mul_div_le n1 d1 ltac:(lia)). nia.
Qed.

Lemma f64_round_nonneg n d : 0 < d -> 0 <= n -> 0 <= f64_round n d.
Proof.
  intros Hd Hn. unfold f64_round. pose proof (pow2_pos _ (drop_bits_nonneg n d)).
  apply Z.mul_nonneg_nonneg; [|lia].
  rewrite <-(rne_exact 0 1) by lia. apply rne_mono; nia.
Qed.

Lemma f64_round_mono_nonneg n1 d1 n2 d2 :
  0 < d1 -> 0 < d2 -> 0 <= n1 -> n1 * d2 <= n2 * d1 -> f64_round n1 d1 <= f64_round n2 d2.
Proof.
  intros Hd1 Hd2 Hn1 Hle. unfold f64_round.
  pose proof (drop_bits_mono n1 d1 n2 d2 Hd1 Hd2 Hn1 Hle) as Hk.
  pose proof (drop_bits_nonneg n1 d1) as Hk1. pose proof (pow2_pos _ Hk1).
  pose proof (drop_bits_nonneg n2 d2) as Hk2. pose proof (pow2_pos _ Hk2).
  destruct (Z.eq_dec (drop_bits n1 d1) (drop_bits n2 d2)) as [E|E].
  { rewrite E. apply Z.mul_le_mono_nonneg_r; [lia|]. apply rne_mono; rewrite ?E in *; nia. }
  transitivity (2 ^ (drop_bits n1 d1 + 53)).
  - rewrite Z.add_comm, Z.pow_add_r by lia. apply Z.mul_le_mono_nonneg_r; [lia|].
    rewrite <-(rne_exact (2 ^ 53) 1) by lia. apply rne_mono; [nia|lia|].
    pose proof (drop_bits_upper n1 d1 Hd1 Hn1) as Hu. rewrite Z.pow_add_r in Hu by lia. nia.
  - transitivity (2 ^ (drop_bits n2 d2 + 52)); [apply Z.pow_le_mono_r; lia|].
    rewrite Z.add_comm, Z.pow_add_r by lia. apply Z.mul_le_mono_nonneg_r; [lia|].
    rewrite <-(rne_exact (2 ^ 52) 1) by lia. apply rne_mono; [lia|nia|].
    pose proof (drop_bits_lower n2 d2 Hd2 ltac:(nia) ltac:(lia)) as Hl.
    rewrite Z.pow_add_r in Hl by lia. nia.
Qed.

(** Rounding is monotone in the rational it rounds. *)
Lemma f64_round_mono n1 d1 n2 d2 :
  0 < d1 -> 0 < d2 -> n1 * d2 <= n2 * d1 -> f64_round n1 d1 <= f64_round n2 d2.
Proof.
  intros Hd1 Hd2 Hle. destruct (Z.le_gt_cases 0 n1); [by apply f64_round_mono_nonneg|].
  assert (Hopp : forall n d, 0 < d -> f64_round n d = - f64_round (- n) d).
  { intros n d Hd. rewrite f64_round_opp by done. lia. }
  rewrite (Hopp n1 d1) by done.
  pose proof (f64_round_nonneg (- n1) d1 Hd1 ltac:(lia)).
  destruct (Z.le_gt_cases 0 n2).
  - pose proof (f64_round_nonneg n2 d2 Hd2 ltac:(lia)). lia.
  - rewrite (Hopp n2 d2) by done.
    pose proof (f64_round_mono_nonneg (- n2) d2 (- n1) d1). lia.
Qed.

(** Representable numbers are fixed. *)
Lemma f64_round_rep_pos x : 0 <= x -> f64_rep x -> f64_round x 1 = x.
Proof.
  intros Hx (m & k & Hk & Hm & ->). pose proof (pow2_pos k Hk).
  assert (Hm0 : 0 <= m) by nia. rewrite Z.abs_eq in Hm by done.
  unfold f64_round. set (j := drop_bits (m * 2 ^ k) 1).
  assert (Hj : 0 <= j) by apply drop_bits_nonneg.
  enough (exists q, m * 2 ^ k = q * 2 ^ j) as [q ->].
  { rewrite Z.mul_1_l, rne_exact; [done|]. by apply pow2_pos. }
  destruct (Z.le_gt_cases j k) as [Hjk|Hjk].
  { exists (m * 2 ^ (k - j)). rewrite <-Z.mul_assoc, <-Z.pow_add_r by lia. do 2 f_equal. lia. }
  pose proof (drop_bits_lower (m * 2 ^ k) 1 ltac:(lia) ltac:(nia) ltac:(fold j; lia)) as Hl.
  fold j in Hl. assert (Hm2 : 2 ^ (j - k + 52) <= m).
  { replace (j + 52) with (j - k + 52 + k) in Hl by lia. rewrite Z.pow_add_r in Hl by lia. nia. }
  assert (j = k + 1) as ->.
  { destruct (Z.eq_dec j (k + 1)); [done|].
    assert (2 ^ 54 <= 2 ^ (j - k + 52)) by (apply Z.pow_le_mono_r; lia). lia. }
  replace (k + 1 - k + 52) with 53 in Hm2 by lia.
  exists (2 ^ 52). replace m with (2 ^ 52 * 2) by lia. rewrite Z.pow_add_r by lia. lia.
Qed.

Lemma f64_rep_opp x : f64_rep x -> f64_rep (- x).
Proof. intros (m & k & ? & ? & ->). exists (- m), k. split_and!; lia. Qed.

Lemma f64_round_rep x : f64_rep x -> f64_round x 1 = x.
Proof.
  intros Hr. destruct (Z.le_gt_cases 0 x); [by apply f64_round_rep_pos|].
  pose proof (f64_round_rep_pos (- x) ltac:(lia) (f64_rep_opp x Hr)) as E.
  rewrite f64_round_opp in E; lia.
Qed.

Lemma f64_rep_round n d : 0 < d -> f64_rep (f64_round n d).
Proof.
  intros Hd. assert (Hpos : forall n, 0 <= n -> f64_rep (f64_round n d)).
  { clear n. intros n Hn. unfold f64_round. set (k := drop_bits n d).
    assert (0 <= k) by apply drop_bits_nonneg. pose proof (pow2_pos k ltac:(done)).
    exists (rne n (d * 2 ^ k)), k. split_and!; [done| |done].
    assert (0 <= rne n (d * 2 ^ k)).
    { rewrite <-(rne_exact 0 1) by lia. apply rne_mono; nia. }
    rewrite Z.abs_eq by done. rewrite <-(rne_exact (2 ^ 53) 1) by lia. apply rne_mono; [nia|lia|].
    pose proof (drop_bits_upper n d Hd Hn) as Hu. fold k in Hu. rewrite Z.pow_add_r in Hu by lia. nia. }
  destruct (Z.le_gt_cases 0 n); [by apply Hpos|].
  replace n with (- - n) by lia. rewrite f64_round_opp by done. apply f64_rep_opp, Hpos. lia.
Qed.

(** Relative error of a rounding in the range above the subnormals. *)
Lemma f64_round_error x : Z.abs (f64_round x 1 - x) * 2 ^ 53 <= Z.abs x.
Proof.
  assert (Hpos : forall x, 0 <= x -> Z.abs (f64_round x 1 - x) * 2 ^ 53 <= x).
  { clear x. intros x Hx. unfold f64_round. set (k := drop_bits x 1).
    assert (Hk : 0 <= k) by apply drop_bits_nonneg. pose proof (pow2_pos k Hk).
    pose proof (rne_spec x (1 * 2 ^ k) ltac:(lia)) as Hs.
    destruct (Z.eq_dec k 0) as [E|E].
    - rewrite E, Z.pow_0_r, !Z.mul_1_r in *. replace (rne x 1) with x by lia. lia.
    - pose proof (drop_bits_lower x 1 ltac:(lia) Hx ltac:(fold k; lia)) as Hl. fold k in Hl.
      rewrite Z.pow_add_r in Hl by lia. lia. }
  destruct (Z.le_gt_cases 0 x); [rewrite (Z.abs_eq x) by done; by apply Hpos|].
  pose proof (Hpos (- x) ltac:(lia)) as E. rewrite f64_round_opp in E by lia. lia.
Qed.

Lemma f64_round_error_frac n d :
  0 < d -> n = 0 \/ d * 2 ^ 53 <= n -> Z.abs (f64_round n d * d - n) * 2 ^ 53 <= n.
Proof.
  intros Hd [->|Hn]; [by rewrite f64_round_0|]. unfold f64_round. set (k := drop_bits n d).
  assert (Hk : 0 <= k) by apply drop_bits_nonneg. pose proof (pow2_pos k Hk).
  pose proof (rne_spec n (d * 2 ^ k) ltac:(nia)) as Hs.
  pose proof (drop_bits_upper n d Hd ltac:(nia)) as Hu. fold k in Hu.
  destruct (Z.eq_dec k 0) as [E|E]; [rewrite E in Hu; lia|].
  pose proof (drop_bits_lower n d Hd ltac:(nia) ltac:(fold k; lia)) as Hl. fold k in Hl.
  rewrite Z.pow_add_r in Hl by lia.
  replace (rne n (d * 2 ^ k) * 2 ^ k * d) with (rne n (d * 2 ^ k) * (d * 2 ^ k)) by lia. lia.
Qed.

End f64_round.

(** ** Operations *)
Section ops.
Implicit Types x y z : float64.

Lemma f64_rep_0 : f64_rep 0.
Proof. exists 0, 0. split_and!; lia. Qed.

Lemma f64_rep_small n : Z.abs n <= 2 ^ 53 -> f64_rep n.
Proof. intros. exists n, 0. split_and!; lia. Qed.

Lemma f64_rep_of_int n : Z.abs n <= 2 ^ 53 -> f64_rep (n * f64_one).
Proof. intros. exists n, 1074. split_and!; [lia|done|]. by with_strategy transparent [f64_one] unfold f64_one. Qed.

Lemma f64_rep_fadd x y : f64_rep (fadd x y).
Proof. apply f64_rep_round; lia. Qed.
Lemma f64_rep_fsub x y : f64_rep (fsub x y).
Proof. apply f64_rep_round; lia. Qed.
Lemma f64_rep_fmul x y : f64_rep (fmul x y).
Proof. apply f64_rep_round, f64_one_pos. Qed.
Lemma f64_rep_fdiv x y : y <> 0 -> f64_rep (fdiv x y).
Proof. intros. apply f64_rep_round. lia. Qed.
Lemma f64_rep_int n : f64_rep (f64_of_int n).
Proof. apply f64_rep_round; lia. Qed.
Lemma f64_rep_const n d : 0 < d -> f64_rep (f64_const n d).
Proof. apply f64_rep_round. Qed.

Lemma fadd_mono x1 y1 x2 y2 : x1 <= x2 -> y1 <= y2 -> fadd x1 y1 <= fadd x2 y2.
Proof. intros. apply f64_round_mono; lia. Qed.

Lemma fadd_comm x y : fadd x y = fadd y x.
Proof. unfold fadd. by rewrite Z.add_comm. Qed.

Lemma fadd_0_r x : f64_rep x -> fadd x 0 = x.
Proof. intros. unfold fadd. rewrite Z.add_0_r. by apply f64_round_rep. Qed.

Lemma fadd_nonneg x y : 0 <= x -> 0 <= y -> 0 <= fadd x y.
Proof. intros. apply f64_round_nonneg; lia. Qed.

Lemma fadd_ge_l x y : f64_rep x -> 0 <= y -> x <= fadd x y.
Proof. intros. rewrite <-(fadd_0_r x) at 1 by done. by apply fadd_mono. Qed.

Lemma fadd_le_l x y : f64_rep x -> y <= 0 -> fadd x y <= x.
Proof. intros. rewrite <-(fadd_0_r x) at 2 by done. by apply fadd_mono. Qed.

Lemma fsub_fadd x y : fsub x y = fadd x (- y).
Proof. unfold fsub, fadd. f_equal. Qed.

Lemma fsub_mono x1 y1 x2 y2 : x1 <= x2 -> y2 <= y1 -> fsub x1 y1 <= fsub x2 y2.
Proof. intros. apply f64_round_mono; lia. Qed.

Lemma fsub_nonneg x y : y <= x -> 0 <= fsub x y.
Proof. intros. apply f64_round_nonneg; lia. Qed.

Lemma fsub_le_l x y : f64_rep x -> 0 <= y -> fsub x y <= x.
Proof. intros. rewrite fsub_fadd. apply fadd_le_l; [done|lia]. Qed.

Lemma fsub_diag x : fsub x x = 0.
Proof. unfold fsub. rewrite Z.sub_diag. by apply f64_round_0. Qed.

Lemma fsub_0_r x : f64_rep x -> fsub x 0 = x.
Proof. intros. rewrite fsub_fadd. by apply fadd_0_r. Qed.

Lemma fmul_nonneg x y : 0 <= x -> 0 <= y -> 0 <= fmul x y.
Proof. intros. apply f64_round_nonneg; [apply f64_one_pos|nia]. Qed.

Lemma fmul_mono_r x y1 y2 : 0 <= x -> y1 <= y2 -> fmul x y1 <= fmul x y2.
Proof.
  intros. apply f64_round_mono; [apply f64_one_pos..|].
  apply Z.mul_le_mono_nonneg_r; [pose proof f64_one_pos; lia|]. by apply Z.mul_le_mono_nonneg_l.
Qed.

Lemma fmul_0_r x : fmul x 0 = 0.
Proof. unfold fmul. rewrite Z.mul_0_r. apply f64_round_0, f64_one_pos. Qed.

Lemma fmul_0_l x : fmul 0 x = 0.
Proof. unfold fmul. rewrite Z.mul_0_l. apply f64_round_0, f64_one_pos. Qed.

Lemma fdiv_nonneg x y : 0 <= x -> 0 < y -> 0 <= fdiv x y.
Proof.
  intros. unfold fdiv. rewrite Z.sgn_pos by lia.
  pose proof f64_one_pos. apply f64_round_nonneg; nia.
Qed.

Lemma fdiv_mono_l x1 x2 y : x1 <= x2 -> 0 < y -> fdiv x1 y <= fdiv x2 y.
Proof.
  intros. unfold fdiv. rewrite Z.sgn_pos by lia. pose proof f64_one_pos.
  apply f64_round_mono; [lia..|]. apply Z.mul_le_mono_nonneg_r; nia.
Qed.

Lemma f64_of_int_exact n : Z.abs n <= 2 ^ 53 -> f64_of_int n = n * f64_one.
Proof. intros. apply f64_round_rep. by apply f64_rep_of_int. Qed.

Lemma f64_of_int_mono n m : n <= m -> f64_of_int n <= f64_of_int m.
Proof. intros. pose proof f64_one_pos. apply f64_round_mono; nia. Qed.

Lemma f64_of_int_nonneg n : 0 <= n -> 0 <= f64_of_int n.
Proof. intros. pose proof f64_one_pos. apply f64_round_nonneg; nia. Qed.

Lemma f64_of_int_0 : f64_of_int 0 = 0.
Proof. by rewrite f64_of_int_exact. Qed.

Lemma f64_of_int_pos n : 1 <= n -> f64_one <= f64_of_int n.
Proof.
  intros. transitivity (f64_of_int 1); [|by apply f64_of_int_mono].
  rewrite f64_of_int_exact; lia.
Qed.

Lemma f64_to_int_mono x y : 0 <= x -> x <= y -> f64_to_int x <= f64_to_int y.
Proof.
  intros. unfold f64_to_int. pose proof f64_one_pos.
  rewrite !Z.quot_div_nonneg by lia. apply Z.div_le_mono; lia.
Qed.

Lemma f64_to_int_of_int n : Z.abs n <= 2 ^ 53 -> f64_to_int (f64_of_int n) = n.
Proof.
  intros. rewrite f64_of_int_exact by done. unfold f64_to_int.
  pose proof f64_one_pos. apply Z.quot_mul. lia.
Qed.

Lemma Duration_Seconds_nonneg d : 0 <= d -> 0 <= Duration_Seconds d.
Proof.
  intros. unfold Duration_Seconds, Second. apply fadd_nonneg.
  - apply f64_of_int_nonneg. apply Z.quot_pos; lia.
  - apply fdiv_nonneg; [apply f64_of_int_nonneg, Z.rem_nonneg; lia|].
    unfold f64_const. rewrite f64_round_rep by by apply f64_rep_of_int.
    pose proof f64_one_pos. lia.
Qed.

End ops.

#[export] Hint Resolve f64_rep_0 f64_rep_fadd f64_rep_fsub f64_rep_fmul f64_rep_int
  fadd_nonneg fsub_nonneg fmul_nonneg f64_of_int_nonneg Duration_Seconds_nonneg : go.
#[export] Hint Rewrite fadd_0_r fsub_0_r fsub_diag fmul_0_r fmul_0_l f64_of_int_0
  using (auto with go) : go.

(** ** The model computes the numbers the hardware computes

    0.1 + 0.2 is 0.30000000000000004, whose bits are
    [0x3fd3333333333334] = [5404319552844596 * 2^-54]. *)
Example f64_tenths :
  fadd (f64_const 1 10) (f64_const 2 10) = 5404319552844596 * 2 ^ 1020.
Proof. vm_compute. reflexivity. Qed.

Example f64_third : fdiv (f64_of_int 1) (f64_of_int 3) = 6004799503160661 * 2 ^ 1020.
Proof. vm_compute. reflexivity. Qed.

(** Sums and comparisons of integers below 2^53 are exact. *)
Lemma fadd_of_int a b :
  Z.abs a <= 2 ^ 53 -> Z.abs b <= 2 ^ 53 -> fadd (f64_of_int a) (f64_of_int b) = f64_of_int (a + b).
Proof.
  intros Ha Hb. rewrite (f64_of_int_exact a), (f64_of_int_exact b) by done.
  unfold fadd, f64_of_int. f_equal. lia.
Qed.

Lemma f64_of_int_ltb a b :
  Z.abs a <= 2 ^ 53 -> Z.abs b <= 2 ^ 53 -> (f64_of_int a <? f64_of_int b) = (a <? b).
Proof.
  intros Ha Hb. rewrite !f64_of_int_exact by done. pose proof f64_one_pos.
  destruct (a <? b) eqn:E; nia.
Qed.

(** ** Error of a chain of operations

    [f64_eps] is [1 + 2^-53] scaled by [2^53]: one rounding multiplies a
    positive number by at most that. *)
Definition f64_eps : Z := 2 ^ 53 + 1.

Section upper.

Lemma fadd_upper x y : 0 <= x -> 0 <= y -> fadd x y * 2 ^ 53 <= (x + y) * f64_eps.
Proof. intros. pose proof (f64_round_error (x + y)). unfold fadd, f64_eps. lia. Qed.

Lemma fsub_upper x y : y <= x -> fsub x y * 2 ^ 53 <= (x - y) * f64_eps.
Proof. intros. pose proof (f64_round_error (x - y)). unfold fsub, f64_eps. lia. Qed.

(** Quotients of integers are never denormal. *)
Lemma fdiv_int_error a b :
  0 <= a <= 2 ^ 53 -> 0 < b <= 2 ^ 53 ->
  Z.abs (fdiv (f64_of_int a) (f64_of_int b) * b - a * f64_one) * 2 ^ 53 <= a * f64_one.
Proof.
  intros Ha Hb. pose proof f64_one_big as H1. unfold fdiv.
  rewrite (f64_of_int_exact a), (f64_of_int_exact b) by lia.
  rewrite Z.sgn_pos, Z.mul_1_r, (Z.abs_eq (b * f64_one)) by nia.
  pose proof (f64_round_error_frac (a * f64_one * f64_one) (b * f64_one)) as He.
  set (f := f64_round _ _) in *.
  assert (Z.abs (f * (b * f64_one) - a * f64_one * f64_one) * 2 ^ 53 <= a * f64_one * f64_one) as Hf.
  { assert (a = 0 \/ 1 <= a) as [->|Ha1] by lia; [specialize (He ltac:(nia) ltac:(lia)); lia|].
    assert (b * f64_one * 2 ^ 53 <= a * f64_one * f64_one) by nia.
    specialize (He ltac:(nia) ltac:(lia)). lia. }
  replace (f * (b * f64_one) - a * f64_one * f64_one) with ((f * b - a * f64_one) * f64_one) in Hf by lia.
  rewrite Z.abs_mul, (Z.abs_eq f64_one) in Hf by lia. nia.
Qed.

Lemma fdiv_int_upper a b :
  0 <= a <= 2 ^ 53 -> 0 < b <= 2 ^ 53 ->
  fdiv (f64_of_int a) (f64_of_int b) * b * 2 ^ 53 <= a * f64_one * f64_eps.
Proof. intros Ha Hb. pose proof (fdiv_int_error a b Ha Hb). unfold f64_eps. lia. Qed.

Lemma fdiv_int_lower a b :
  0 <= a <= 2 ^ 53 -> 0 < b <= 2 ^ 53 ->
  a * f64_one <= fdiv (f64_of_int a) (f64_of_int b) * b * 2.
Proof. intros Ha Hb. pose proof (fdiv_int_error a b Ha Hb). lia. Qed.

Lemma fmul_upper x y :
  0 <= x -> 0 <= y -> x * y = 0 \/ f64_one * 2 ^ 53 <= x * y ->
  fmul x y * f64_one * 2 ^ 53 <= x * y * f64_eps.
Proof.
  intros Hx Hy Hb. pose proof f64_one_pos.
  pose proof (f64_round_error_frac (x * y) f64_one ltac:(lia) Hb). unfold fmul, f64_eps. lia.
Qed.

Lemma Duration_Seconds_upper dt :
  0 <= dt <= max_int64 -> Duration_Seconds dt * Second * 2 ^ 106 <= dt * f64_one * f64_eps ^ 2.
Proof.
  intros Hd. unfold Duration_Seconds, Second, max_int64 in *.
  rewrite Z.quot_div_nonneg, Z.rem_mod_nonneg by lia.
  pose proof (Z.div_mod dt 1000000000 ltac:(lia)) as Hdm.
  pose proof (Z.mod_pos_bound dt 1000000000 ltac:(lia)) as Hm.
  set (q := dt / 1000000000) in *. set (r := dt mod 1000000000) in *.
  assert (0 <= q <= 2 ^ 53) by lia.
  assert (f64_const 1000000000 1 = f64_of_int 1000000000) as -> by done.
  pose proof (fdiv_int_upper r 1000000000 ltac:(lia) ltac:(lia)) as Hq.
  pose proof (fdiv_nonneg (f64_of_int r) (f64_of_int 1000000000)
    (f64_of_int_nonneg r ltac:(lia))
    (Z.lt_le_trans _ _ _ f64_one_pos (f64_of_int_pos 1000000000 ltac:(lia)))) as Hq0.
  set (qf := fdiv _ _) in *.
  pose proof (fadd_upper (f64_of_int q) qf (f64_of_int_nonneg q ltac:(lia)) Hq0) as Ha.
  rewrite f64_of_int_exact in * by lia. pose proof f64_one_pos. set (e := fadd _ _) in *.
  unfold f64_eps in *. nia.
Qed.

Lemma Duration_Seconds_lower dt :
  0 < dt <= max_int64 -> 2 ^ 100 <= Duration_Seconds dt.
Proof.
  intros Hd. unfold Duration_Seconds, Second, max_int64 in *.
  rewrite Z.quot_div_nonneg, Z.rem_mod_nonneg by lia.
  pose proof (Z.div_mod dt 1000000000 ltac:(lia)) as Hdm.
  pose proof (Z.mod_pos_bound dt 1000000000 ltac:(lia)) as Hm.
  set (q := dt / 1000000000) in *. set (r := dt mod 1000000000) in *.
  assert (f64_const 1000000000 1 = f64_of_int 1000000000) as -> by done.
  pose proof (fdiv_int_lower r 1000000000 ltac:(lia) ltac:(lia)) as Hl.
  pose proof (fdiv_nonneg (f64_of_int r) (f64_of_int 1000000000)
    (f64_of_int_nonneg r ltac:(lia))
    (Z.lt_le_trans _ _ _ f64_one_pos (f64_of_int_pos 1000000000 ltac:(lia)))) as Hq0.
  set (qf := fdiv _ _) in *. pose proof f64_one_big.
  assert (q = 0 \/ 1 <= q) as [->|Hq] by lia.
  - rewrite f64_of_int_0, fadd_comm, fadd_0_r; [nia|].
    apply f64_rep_fdiv. pose proof (f64_of_int_pos 1000000000). lia.
  - pose proof (fadd_ge_l (f64_of_int q) qf ltac:(auto with go) Hq0).
    pose proof (f64_of_int_pos q Hq). lia.
Qed.

(** The fraction of a second is at most one second, so longer durations have
    more seconds. *)
Lemma Duration_Seconds_mono d1 d2 :
  0 <= d1 <= d2 -> d2 <= max_int64 -> Duration_Seconds d1 <= Duration_Seconds d2.
Proof.
  intros Hd Hm. unfold Duration_Seconds, Second, max_int64 in *.
  rewrite !Z.quot_div_nonneg, !Z.rem_mod_nonneg by lia.
  pose proof (Z.div_mod d1 1000000000 ltac:(lia)). pose proof (Z.mod_pos_bound d1 1000000000 ltac:(lia)).
  pose proof (Z.div_mod d2 1000000000 ltac:(lia)). pose proof (Z.mod_pos_bound d2 1000000000 ltac:(lia)).
  set (q1 := d1 / 1000000000) in *. set (r1 := d1 mod 1000000000) in *.
  set (q2 := d2 / 1000000000) in *. set (r2 := d2 mod 1000000000) in *.
  assert (f64_const 1000000000 1 = f64_of_int 1000000000) as -> by done.
  assert (0 < f64_of_int 1000000000) as Hpos
    by exact (Z.lt_le_trans _ _ _ f64_one_pos (f64_of_int_pos 1000000000 ltac:(lia))).
  assert (q1 = q2 /\ r1 <= r2 \/ q1 + 1 <= q2) as [[-> Hr]|Hq] by lia.
  - apply fadd_mono; [done|]. apply fdiv_mono_l; [by apply f64_of_int_mono|done].
  - assert (fdiv (f64_of_int r1) (f64_of_int 1000000000) <= f64_one) as Hf.
    { etransitivity; [apply (fdiv_mono_l _ (f64_of_int 1000000000)); [apply f64_of_int_mono; lia|done]|].
      apply Z.eq_le_incl. by vm_compute. }
    pose proof (fdiv_nonneg (f64_of_int r2) _ (f64_of_int_nonneg r2 ltac:(lia)) Hpos) as Hf2.
    set (x1 := fdiv (f64_of_int r1) _) in *. set (x2 := fdiv (f64_of_int r2) _) in *.
    apply f64_round_mono; [lia..|]. pose proof f64_one_pos.
    rewrite (f64_of_int_exact q1), (f64_of_int_exact q2) by lia. nia.
Qed.

End upper.

(** ** [math.Sqrt]

    The square root of [x] units is the root of [x * f64_one]; its integer
    part with a sticky bit below it rounds like the exact root. *)
Definition f64_sqrt (x : float64) : float64 :=
  let s := Z.sqrt (x * f64_one) in
  f64_round (2 * s + (if s * s =? x * f64_one then 0 else 1)) 2.

Example f64_sqrt_2 : f64_sqrt (f64_of_int 2) = 6369051672525773 * 2 ^ 1022.
Proof. vm_compute. reflexivity. Qed.

Example f64_sqrt_9 : f64_sqrt (f64_of_int 9) = f64_of_int 3.
Proof. vm_compute. reflexivity. Qed.
