(* ===== verification/GoStrings.v ===== *)
(** * Go strings and path.Match

    A Go string is a byte sequence, as is [string].  The functions of the
    [strings] package used by the gateway, and [path.Match], the glob matcher
    behind model patterns.  Where Go reads runes ([?] and the classes of
    [path.Match], regular expressions) so does the model; case folding and
    white space are ASCII's. *)

From Stdlib Require Import Ascii String OrdersEx.
From S2P Require Import Prelude.
Open Scope string_scope.
Open Scope list_scope.
Open Scope Z_scope.

Definition bytes (s : string) : list ascii := list_ascii_of_string s.

(** [len(s)] *)
Definition go_len (s : string) : Z := Z.of_nat (String.length s).

(** [s == t] *)
Definition str_eqb (s t : string) : bool := bool_decide (s = t).

(** [strings.HasPrefix(s, p)] *)
Fixpoint has_prefix (p s : list ascii) : bool :=
  match p, s with
  | [], _ => true
  | x :: p, y :: s => bool_decide (x = y) && has_prefix p s
  | _ :: _, [] => false
  end.
Definition HasPrefix (s p : string) : bool := has_prefix (bytes p) (bytes s).

(** [strings.Contains(s, sub)] *)
Fixpoint contains (sub s : list ascii) : bool :=
  has_prefix sub s ||
  match s with
  | [] => false
  | _ :: s => contains sub s
  end.
Definition Contains (s sub : string) : bool := contains (bytes sub) (bytes s).

(** [strings.TrimPrefix(s, p)] *)
Definition TrimPrefix (s p : string) : string :=
  if HasPrefix s p then string_of_list_ascii (drop (length (bytes p)) (bytes s)) else s.

(** [strings.TrimSpace(s)]: ASCII white space. *)
Definition is_space (c : ascii) : bool :=
  let n := N_of_ascii c in
  (N.eqb n 32 || ((N.leb 9 n) && (N.leb n 13)))%bool.
Fixpoint trim_left (s : list ascii) : list ascii :=
  match s with
  | [] => []
  | c :: s' => if is_space c then trim_left s' else s
  end.
Definition TrimSpace (s : string) : string :=
  string_of_list_ascii (reverse (trim_left (reverse (trim_left (bytes s))))).

(** ASCII lower case, and [strings.EqualFold]. *)
Definition lower_ascii (c : ascii) : ascii :=
  let n := N_of_ascii c in
  if (N.leb 65 n && N.leb n 90)%bool then ascii_of_N (n + 32) else c.
Definition ToLower (s : string) : string := string_of_list_ascii (lower_ascii <$> bytes s).
Definition EqualFold (s t : string) : bool := str_eqb (ToLower s) (ToLower t).

(** ** Runes *)
Definition RuneError : Z := 65533.
Definition byte_val (c : ascii) : Z := Z.of_N (N_of_ascii c).
Definition between (lo hi b : Z) : bool := (lo <=? b) && (b <=? hi).
(** The six bits of a continuation byte. *)
Definition low6 (b : Z) : Z := Z.land b 63.

(** [utf8.DecodeRuneInString]: the first rune and its size; a byte that begins
    no encoding is [RuneError] and one byte long. *)
Definition DecodeRune (s : list ascii) : Z * nat :=
  let bad := (RuneError, 1%nat) in
  match byte_val <$> take 4 s with
  | [] => (RuneError, 0%nat)
  | b0 :: bs =>
      if b0 <? 128 then (b0, 1%nat)
      else match bs with
           | [] => bad
           | b1 :: bs =>
               if between 194 223 b0 then
                 if between 128 191 b1 then (Z.land b0 31 * 64 + low6 b1, 2%nat) else bad
               else if between 224 239 b0 then
                 if between (if b0 =? 224 then 160 else 128) (if b0 =? 237 then 159 else 191) b1 then
                   match bs with
                   | b2 :: _ =>
                       if between 128 191 b2 then (Z.land b0 15 * 4096 + low6 b1 * 64 + low6 b2, 3%nat) else bad
                   | [] => bad
                   end
                 else bad
               else if between 240 244 b0 then
                 if between (if b0 =? 240 then 144 else 128) (if b0 =? 244 then 143 else 191) b1 then
                   match bs with
                   | b2 :: b3 :: _ =>
                       if between 128 191 b2 && between 128 191 b3
                       then (Z.land b0 7 * 262144 + low6 b1 * 4096 + low6 b2 * 64 + low6 b3, 4%nat) else bad
                   | _ => bad
                   end
                 else bad
               else bad
           end
  end.

(** The runes of a string, as [range] yields them: [skip] bytes belong to the
    rune before. *)
Fixpoint decode_runes (skip : nat) (s : list ascii) : list (Z * nat) :=
  match s with
  | [] => []
  | c :: s' =>
      match skip with
      | S skip => decode_runes skip s'
      | O => let '(r, n) := DecodeRune s in (r, n) :: decode_runes (n - 1) s'
      end
  end.
Definition runes (s : string) : list Z := (decode_runes 0 (bytes s)).*1.
(** [utf8.ValidString] *)
Definition ValidString (s : string) : bool :=
  forallb (fun rn : Z * nat => negb ((rn.1 =? RuneError) && (rn.2 =? 1)%nat)) (decode_runes 0 (bytes s)).

(** ** path.Match *)
Inductive term : Type :=
| TStar                                     (** any sequence of non-slash bytes *)
| TAny                                      (** one non-slash rune *)
| TClass (neg : bool) (ranges : list (Z * Z)) (** one rune in the ranges, or not *)
| TChar (c : ascii).

Definition slash : ascii := "/"%char.

(** The parser's position inside a pattern. *)
Inductive parse_state : Type :=
| PNorm                                     (** between terms *)
| PEsc                                      (** after a backslash *)
| PClassOpen                                (** after the opening bracket *)
| PClass (neg : bool) (acc : list (Z * Z))      (** expecting a range or the end *)
| PClassEsc (neg : bool) (acc : list (Z * Z))   (** escaped low end *)
| PClassLo (neg : bool) (acc : list (Z * Z)) (lo : Z)     (** low end read *)
| PClassHi (neg : bool) (acc : list (Z * Z)) (lo : Z)     (** after the dash *)
| PClassHiEsc (neg : bool) (acc : list (Z * Z)) (lo : Z). (** escaped high end *)

(** Inside a class the pattern is read rune by rune. *)
Definition in_brackets (st : parse_state) : bool :=
  match st with PNorm | PEsc => false | _ => true end.

(** The low end of a range, or the closing bracket once a range was read.
    [None]: the pattern is malformed. *)
Definition class_item (neg : bool) (acc : list (Z * Z)) (c : ascii) (r : Z)
    : option (parse_state + term) :=
  if bool_decide (c = "]"%char) then
    match acc with [] => None | _ => Some (inr (TClass neg (reverse acc))) end
  else if bool_decide (c = "-"%char) then None
  else if bool_decide (c = "\"%char) then Some (inl (PClassEsc neg acc))
  else Some (inl (PClassLo neg acc r)).

(** One step through the pattern, on the byte [c] that begins the rune [r]: the
    next position and the term it completes. *)
Definition parse_byte (st : parse_state) (c : ascii) (r : Z) : option (parse_state * option term) :=
  let item neg acc :=
    match class_item neg acc c r with
    | None => None
    | Some (inl st) => Some (st, None)
    | Some (inr t) => Some (PNorm, Some t)
    end in
  match st with
  | PNorm =>
      if bool_decide (c = "*"%char) then Some (PNorm, Some TStar)
      else if bool_decide (c = "?"%char) then Some (PNorm, Some TAny)
      else if bool_decide (c = "["%char) then Some (PClassOpen, None)
      else if bool_decide (c = "\"%char) then Some (PEsc, None)
      else Some (PNorm, Some (TChar c))
  | PEsc => Some (PNorm, Some (TChar c))
  | PClassOpen =>
      if bool_decide (c = "^"%char) then Some (PClass true [], None) else item false []
  | PClass neg acc => item neg acc
  | PClassEsc neg acc => Some (PClassLo neg acc r, None)
  | PClassLo neg acc lo =>
      if bool_decide (c = "-"%char) then Some (PClassHi neg acc lo, None)
      else item neg ((lo, lo) :: acc)
  | PClassHi neg acc lo =>
      if bool_decide (c = "]"%char) || bool_decide (c = "-"%char) then None
      else if bool_decide (c = "\"%char) then Some (PClassHiEsc neg acc lo, None)
      else Some (PClass neg ((lo, r) :: acc), None)
  | PClassHiEsc neg acc lo => Some (PClass neg ((lo, r) :: acc), None)
  end.

(** The terms of a pattern, of which [skip] bytes belong to a rune that has been
    read; [None] is [path.ErrBadPattern]. *)
Fixpoint parse_runes (skip : nat) (st : parse_state) (p : list ascii) : option (list term) :=
  match p with
  | [] => match st with PNorm => Some [] | _ => None end
  | c :: p' =>
      match skip with
      | S skip => parse_runes skip st p'
      | O =>
          let '(r, n) := if in_brackets st then DecodeRune p else (byte_val c, 1%nat) in
          if in_brackets st && (r =? RuneError) && (n =? 1)%nat then None
          else
            match parse_byte st c r with
            | None => None
            | Some (st', t) =>
                match parse_runes (n - 1) st' p' with
                | None => None
                | Some ts => Some (match t with Some t => t :: ts | None => ts end)
                end
            end
      end
  end.
Definition parse_pattern : parse_state -> list ascii -> option (list term) := parse_runes 0.

Definition in_class (neg : bool) (ranges : list (Z * Z)) (r : Z) : bool :=
  xorb neg (existsb (fun '(lo, hi) => between lo hi r) ranges).

Fixpoint glob (ts : list term) : list ascii -> bool :=
  match ts with
  | [] => fun s => match s with [] => true | _ => false end
  | TStar :: ts =>
      fix star (s : list ascii) : bool :=
        glob ts s ||
        match s with
        | [] => false
        | c :: s => negb (bool_decide (c = slash)) && star s
        end
  | TAny :: ts => fun s =>
      match s with
      | [] => false
      | c :: _ => negb (bool_decide (c = slash)) && glob ts (drop (DecodeRune s).2 s)
      end
  | TClass neg rs :: ts => fun s =>
      match s with
      | [] => false
      | _ => let '(r, n) := DecodeRune s in in_class neg rs r && glob ts (drop n s)
      end
  | TChar x :: ts => fun s =>
      match s with [] => false | c :: s => bool_decide (c = x) && glob ts s end
  end.

(** [path.Match(pattern, name)]. *)
Definition path_Match (pattern name : string) : result bool unit :=
  match parse_pattern PNorm (bytes pattern) with
  | Some ts => Ok (glob ts (bytes name))
  | None => Err tt
  end.

(** [err == nil && matched] *)
Definition path_matches (pattern name : string) : bool :=
  match path_Match pattern name with Ok b => b | Err _ => false end.

Example path_match_ex1 : path_matches "gpt-4*" "gpt-4o-mini" = true.
Proof. reflexivity. Qed.
Example path_match_ex2 : path_matches "gpt-[34]?" "gpt-4o" = true.
Proof. reflexivity. Qed.
Example path_match_ex3 : path_Match "gpt-[" "gpt-4o" = Err tt.
Proof. reflexivity. Qed.
Example path_match_ex4 : path_matches "a*c*e" "abcde" = true.
Proof. reflexivity. Qed.
Example path_match_ex5 : path_matches "*" "models/gemini" = false.
Proof. reflexivity. Qed.
Example path_match_ex6 : path_matches "a[^b-d]\*" "ae*" = true.
Proof. reflexivity. Qed.

(** An e with an acute accent is one rune of two bytes. *)
Definition ex_accented : string := String "195"%char (String "169"%char "").
Example path_match_ex7 : path_matches "?" ex_accented = true.
Proof. reflexivity. Qed.
Example path_match_ex8 : path_matches "??" ex_accented = false.
Proof. reflexivity. Qed.
Example runes_ex1 : runes (ex_accented +:+ "a") = [233; 97].
Proof. reflexivity. Qed.
Example runes_ex2 : runes (String "195"%char "a") = [RuneError; 97] /\ ValidString (String "195"%char "a") = false.
Proof. by split. Qed.
Example runes_ex3 :
  runes (string_of_list_ascii ["226"; "130"; "172"; "240"; "159"; "152"; "128"]%char) = [8364; 128512].
Proof. reflexivity. Qed.

(** ** Specifications *)
Section specs.

Lemma has_prefix_spec p s : has_prefix p s = true <-> exists t, s = p ++ t.
Proof.
  revert s; induction p as [|x p IH]; intros s; simpl; [naive_solver|].
  destruct s as [|y s]; simpl; [naive_solver|].
  rewrite andb_true_iff, bool_decide_eq_true, IH. naive_solver.
Qed.

Lemma contains_spec sub s : contains sub s = true <-> exists s1 s2, s = s1 ++ sub ++ s2.
Proof.
  induction s as [|y s IH]; simpl; rewrite orb_true_iff, has_prefix_spec; [|rewrite IH].
  - split; [intros [[t E]|?]; [exists [], t; done|done]|].
    intros ([|? ?] & s2 & E); [|done]. left. by exists s2.
  - split.
    + intros [[t ->]|(s1 & s2 & ->)]; [by exists [], t|by exists (y :: s1), s2].
    + intros ([|x s1] & s2 & E); simpl in *; simplify_eq; [left; by exists s2|right; by exists s1, s2].
Qed.

Lemma str_eqb_true s t : str_eqb s t = true <-> s = t.
Proof. apply bool_decide_eq_true. Qed.

Lemma str_eqb_refl s : str_eqb s s = true.
Proof. by apply str_eqb_true. Qed.
Lemma str_eqb_false s t : str_eqb s t = false <-> s <> t.
Proof. unfold str_eqb. by rewrite bool_decide_eq_false. Qed.
Lemma str_eqb_ne s t : s <> t -> str_eqb s t = false.
Proof. intros H. by apply bool_decide_false. Qed.

Lemma bytes_inj s t : bytes s = bytes t -> s = t.
Proof.
  intros E. rewrite <-(string_of_list_ascii_of_string s), <-(string_of_list_ascii_of_string t).
  by f_equal.
Qed.

(** Bytes with a meaning in patterns. *)
Definition pattern_meta (c : ascii) : bool :=
  bool_decide (c = "*"%char) || bool_decide (c = "?"%char) ||
  bool_decide (c = "["%char) || bool_decide (c = "\"%char).

Lemma parse_literal p rest :
  Forall (fun c => pattern_meta c = false) p ->
  parse_pattern PNorm (p ++ rest) =
    match parse_pattern PNorm rest with
    | None => None
    | Some ts => Some ((TChar <$> p) ++ ts)
    end.
Proof.
  unfold parse_pattern. induction 1 as [|c p Hc _ IH]; csimpl; [by destruct (parse_runes 0 PNorm rest)|].
  unfold pattern_meta in Hc. rewrite !orb_false_iff in Hc. destruct Hc as [[[-> ->] ->] ->].
  simpl. rewrite IH. by destruct (parse_runes 0 PNorm rest).
Qed.

Lemma glob_literal p ts s :
  glob ((TChar <$> p) ++ ts) s = true <-> exists t, s = p ++ t /\ glob ts t = true.
Proof.
  revert s; induction p as [|x p IH]; intros s; csimpl.
  - split; [intros; by exists s|by intros (? & -> & ?)].
  - destruct s as [|y s]; [split; [done|by intros (? & ? & ?)]|].
    rewrite andb_true_iff, bool_decide_eq_true, IH. naive_solver.
Qed.

Lemma glob_star s : glob [TStar] s = true <-> slash ∉ s.
Proof.
  induction s as [|c s IH]; simpl in *; [by split; [intros _; apply not_elem_of_nil|]|].
  rewrite not_elem_of_cons, andb_true_iff, negb_true_iff, bool_decide_eq_false, IH. naive_solver.
Qed.

(** A pattern without metacharacters matches only itself. *)
Lemma path_matches_literal p s :
  Forall (fun c => pattern_meta c = false) (bytes p) -> path_matches p s = true <-> s = p.
Proof.
  intros Hp. unfold path_matches, path_Match.
  rewrite <-(app_nil_r (bytes p)), parse_literal by done. simpl.
  rewrite glob_literal. split; [|intros ->; exists []; by rewrite app_nil_r].
  intros (t & E & Ht). destruct t; [|done]. rewrite app_nil_r in E. by apply bytes_inj.
Qed.

(** [prefix*] matches the names that extend the prefix without a slash. *)
Lemma path_matches_prefix_star p pat s :
  bytes pat = bytes p ++ ["*"%char] -> Forall (fun c => pattern_meta c = false) (bytes p) ->
  path_matches pat s = true <-> exists t, bytes s = bytes p ++ t /\ slash ∉ t.
Proof.
  intros Epat Hp. unfold path_matches, path_Match. rewrite Epat, parse_literal by done.
  change (parse_pattern PNorm ["*"%char]) with (Some [TStar]); cbv iota.
  rewrite glob_literal. by setoid_rewrite glob_star.
Qed.

End specs.

Lemma string_app_nil_r (s : string) : s +:+ "" = s.
Proof. induction s as [|c s IH]; [done|]. exact (f_equal (String c) IH). Qed.

Lemma string_app_assoc (a b c : string) : a +:+ (b +:+ c) = (a +:+ b) +:+ c.
Proof. induction a as [|x a IH]; [done|]. exact (f_equal (String x) IH). Qed.

Lemma string_length_app (a b : string) :
  String.length (a +:+ b) = (String.length a + String.length b)%nat.
Proof. induction a; simpl; auto using f_equal. Qed.

Lemma string_app_inj_tail (a b c d : string) :
  String.length c = String.length d -> a +:+ c = b +:+ d -> a = b /\ c = d.
Proof.
  revert b. induction a as [|x a IH]; intros [|y b] Hlen He.
  - done.
  - exfalso. change (c = String y (b +:+ d)) in He. rewrite He in Hlen.
    simpl in Hlen. rewrite string_length_app in Hlen. lia.
  - exfalso. change (String x (a +:+ c) = d) in He. rewrite <-He in Hlen.
    simpl in Hlen. rewrite string_length_app in Hlen. lia.
  - change (String x (a +:+ c) = String y (b +:+ d)) in He. simplify_eq.
    destruct (IH b) as [-> ->]; done.
Qed.

(** The bytewise order is a strict total order. *)
Lemma string_ltb_asym a b : String.ltb a b = true -> String.ltb b a = false.
Proof.
  unfold String.ltb. rewrite (String.compare_antisym b a).
  by destruct (String.compare a b).
Qed.

Lemma string_compare_OT a b : String.compare a b = OrdersEx.String_as_OT.compare a b.
Proof. revert b. induction a as [|x a IH]; by intros [|y b]. Qed.

Lemma string_ltb_lt a b : String.ltb a b = true <-> OrdersEx.String_as_OT.lt a b.
Proof.
  unfold String.ltb, OrdersEx.String_as_OT.lt. rewrite string_compare_OT.
  by destruct (OrdersEx.String_as_OT.compare a b).
Qed.

Lemma string_ltb_trans a b c :
  String.ltb a b = true -> String.ltb b c = true -> String.ltb a c = true.
Proof. rewrite !string_ltb_lt. apply OrdersEx.String_as_OT.lt_strorder. Qed.

Lemma string_ltb_total a b : a <> b -> String.ltb a b = true \/ String.ltb b a = true.
Proof.
  unfold String.ltb. rewrite (String.compare_antisym b a).
  destruct (String.compare a b) eqn:E; simpl; auto.
  by apply String.compare_eq_iff in E.
Qed.

#[export] Hint Resolve str_eqb_refl : go.
