(* ===== verification/GoTime.v ===== *)
(** * Go durations: [time.ParseDuration]

    The parser of the [time] package, on bytes: a sign, then numbers with an
    optional fraction, each followed by a unit.  A fraction is scaled in
    [float64], as the package does. *)

From Stdlib Require Import Ascii String.
From S2P Require Import Prelude GoFloat GoStrings.
Open Scope string_scope.
Open Scope list_scope.
Open Scope Z_scope.

Definition is_digit (c : ascii) : bool := let n := N_of_ascii c in N.leb 48 n && N.leb n 57.
Definition digit_value (c : ascii) : Z := Z.of_N (N_of_ascii c) - 48.

(** [leadingInt]: [None] if the number passes 2^63. *)
Fixpoint leadingInt (x : Z) (s : list ascii) : option (Z * list ascii) :=
  match s with
  | c :: s' =>
      if is_digit c then
        if 2 ^ 63 / 10 <? x then None
        else let x := x * 10 + digit_value c in
             if 2 ^ 63 <? x then None else leadingInt x s'
      else Some (x, s)
  | [] => Some (x, s)
  end.

(** [leadingFraction]: digits beyond the precision are dropped. *)
Fixpoint leadingFraction (x : Z) (scale : float64) (overflow : bool) (s : list ascii)
    : Z * float64 * list ascii :=
  match s with
  | c :: s' =>
      if is_digit c then
        if overflow then leadingFraction x scale overflow s'
        else if (2 ^ 63 - 1) / 10 <? x then leadingFraction x scale true s'
        else let y := x * 10 + digit_value c in
             if 2 ^ 63 <? y then leadingFraction x scale true s'
             else leadingFraction y (fmul scale (f64_of_int 10)) false s'
      else (x, scale, s)
  | [] => (x, scale, s)
  end.

(** The micro sign and the Greek letter, in UTF-8. *)
Definition micro : string := String "194" (String "181" "s").
Definition mu : string := String "206" (String "188" "s").

Definition unitMap (u : string) : option Z :=
  if str_eqb u "ns" then Some Nanosecond
  else if str_eqb u "us" || str_eqb u micro || str_eqb u mu then Some 1000
  else if str_eqb u "ms" then Some Millisecond
  else if str_eqb u "s" then Some Second
  else if str_eqb u "m" then Some Minute
  else if str_eqb u "h" then Some (60 * Minute)
  else None.

Fixpoint unit_of (s : list ascii) : list ascii * list ascii :=
  match s with
  | c :: s' => if bool_decide (c = "."%char) || is_digit c then ([], s)
               else let '(u, rest) := unit_of s' in (c :: u, rest)
  | [] => ([], [])
  end.

Definition shorter (s s' : list ascii) : bool := negb (List.length s =? List.length s')%nat.

(** The digits after a point, their scale, the rest, and if there were any. *)
Definition fraction (s : list ascii) : Z * float64 * list ascii * bool :=
  match s with
  | "."%char :: s =>
      let '(f, scale, s') := leadingFraction 0 (f64_of_int 1) false s in (f, scale, s', shorter s s')
  | _ => (0, f64_of_int 1, s, false)
  end.

(** A number and its unit: nanoseconds, and the rest of the text. *)
Definition duration_part (s : list ascii) : option (Z * list ascii) :=
  match s with
  | [] => None
  | c :: _ =>
      if negb (bool_decide (c = "."%char) || is_digit c) then None
      else
        match leadingInt 0 s with
        | None => None
        | Some (v, s1) =>
            let pre := shorter s s1 in
            let '(f, scale, s2, post) := fraction s1 in
            if negb pre && negb post then None
            else
              let '(u, s3) := unit_of s2 in
              if (List.length u =? 0)%nat then None
              else
                match unitMap (string_of_list_ascii u) with
                | None => None
                | Some unit =>
                    if 2 ^ 63 / unit <? v then None
                    else
                      let v := v * unit in
                      if 0 <? f then
                        let v := v + f64_to_int (fmul (f64_of_int f) (fdiv (f64_of_int unit) scale)) in
                        if 2 ^ 63 <? v then None else Some (v, s3)
                      else Some (v, s3)
                end
        end
  end.

(** The loop over the parts; a part takes at least one byte. *)
Fixpoint duration_parts (fuel : nat) (d : Z) (s : list ascii) : option Z :=
  match s, fuel with
  | [], _ => Some d
  | _, O => None
  | _, S fuel =>
      match duration_part s with
      | None => None
      | Some (v, s) =>
          let d := (d + v) mod 2 ^ 64 in  (* [uint64] *)
          if 2 ^ 63 <? d then None else duration_parts fuel d s
      end
  end.

Definition ParseDuration (text : string) : option Z :=
  let '(neg, s) :=
    match bytes text with
    | "-"%char :: s => (true, s)
    | "+"%char :: s => (false, s)
    | s => (false, s)
    end in
  if bool_decide (s = ["0"%char]) then Some 0
  else match s with
       | [] => None
       | _ =>
           match duration_parts (List.length s) 0 s with
           | None => None
           | Some d => if neg then Some (- d) else if 2 ^ 63 - 1 <? d then None else Some d
           end
       end.

(** ** Enough fuel, and 64 bits *)

Lemma leadingInt_length x s v s' : leadingInt x s = Some (v, s') -> (List.length s' <= List.length s)%nat.
Proof.
  revert x. induction s as [|c s IH]; intros x; simpl; [by intros [= _ <-]|].
  destruct (is_digit c); [|by intros [= _ <-]]. do 2 (case_match; [done|]). intros Hs%IH. lia.
Qed.

Lemma leadingFraction_length x scale o s : (List.length (leadingFraction x scale o s).2 <= List.length s)%nat.
Proof.
  revert x scale o. induction s as [|c s IH]; intros x scale o; cbn [leadingFraction]; [done|].
  destruct (is_digit c); [|done]. cbn [List.length]. repeat case_match; (etrans; [apply IH|lia]).
Qed.

Lemma fraction_length s : (List.length (fraction s).1.2 <= List.length s)%nat.
Proof.
  destruct s as [|[[] [] [] [] [] [] [] []] s]; try done. unfold fraction.
  pose proof (leadingFraction_length 0 (f64_of_int 1) false s).
  destruct (leadingFraction _ _ _ _) as [[f scale] s2]. simpl in *. lia.
Qed.

Lemma unit_of_length s : (List.length (unit_of s).1 + List.length (unit_of s).2 = List.length s)%nat.
Proof.
  induction s as [|c s IH]; simpl; [done|]. destruct (_ || _); [done|].
  destruct (unit_of s) as [u r]. simpl in *. lia.
Qed.

Lemma duration_part_shorter s v s' : duration_part s = Some (v, s') -> (List.length s' < List.length s)%nat.
Proof.
  unfold duration_part. destruct s as [|c s]; [done|]. destruct (negb _); [done|].
  destruct (leadingInt 0 (c :: s)) as [[v1 s1]|] eqn:E1; [|done]. apply leadingInt_length in E1.
  pose proof (fraction_length s1) as Hm.
  destruct (fraction s1) as [[[f scale] s2] post]. cbn [fst snd] in Hm. destruct (_ && _); [done|].
  pose proof (unit_of_length s2) as Hu. destruct (unit_of s2) as [u s3]. simpl in Hu.
  destruct (List.length u =? 0)%nat eqn:Eu; [done|]. apply Nat.eqb_neq in Eu.
  destruct (unitMap _); [|done]. destruct (_ <? v1); [done|].
  destruct (0 <? f); [destruct (_ <? _); [done|]|]; intros [= _ <-]; lia.
Qed.

Lemma duration_parts_fuel n m d s :
  (List.length s <= n)%nat -> (n <= m)%nat -> duration_parts m d s = duration_parts n d s.
Proof.
  revert m d s. induction n as [|n IH]; intros m d s Hs Hm.
  - destruct s; [|simpl in Hs; lia]. by destruct m.
  - destruct m as [|m]; [lia|]. destruct s as [|c s]; [done|]. cbn [duration_parts].
    destruct (duration_part (c :: s)) as [[v s']|] eqn:E; [|done]. apply duration_part_shorter in E.
    destruct (_ <? _); [done|]. apply IH; simpl in *; lia.
Qed.

Example parse_durations :
  ParseDuration "30s" = Some (30 * Second) /\ ParseDuration "1h30m" = Some (90 * Minute) /\
  ParseDuration "-1.5s" = Some (-1500 * Millisecond) /\ ParseDuration "200ms" = Some (200 * Millisecond) /\
  ParseDuration "5" = None /\ ParseDuration "1d" = None /\ ParseDuration "0" = Some 0 /\
  ParseDuration "9223372036s" = Some (9223372036 * Second) /\ ParseDuration "9223372037s" = None.
Proof. vm_compute. split_and!; reflexivity. Qed.
