(* ===== verification/Logger.v ===== *)
(** * Redaction of log lines: [internal/logger]

    The attributes of a log line as [redactAttr] lets them pass; the handlers
    of [log/slog] that write them are not modelled.  Letters are ASCII. *)

From Stdlib Require Import Ascii String.
From S2P Require Import Prelude GoStrings.
Open Scope string_scope.
Open Scope list_scope.
Open Scope Z_scope.

(** A value of kind string, or of another kind, which is written by [fmt]. *)
Inductive value := KindString (v : string) | KindOther (text : string).
Record attr := mkAttr { at_Key : string; at_Value : value }.

Definition redacted (key : string) : attr := mkAttr key (KindString "[REDACTED]").
Definition secret_key (key : string) : bool :=
  existsb (str_eqb (ToLower key)) ["authorization"; "x-api-key"; "api_key"; "api-key"; "key"].
Definition secret_text (v : string) : bool :=
  (Contains (ToLower v) "bearer " || Contains (ToLower v) "sk-") && (20 <? go_len v).

Definition redactAttr (a : attr) : attr :=
  if secret_key (at_Key a) then redacted (at_Key a)
  else match at_Value a with
       | KindString v => if secret_text v then redacted (at_Key a) else a
       | KindOther _ => a
       end.

Inductive level := LevelDebug | LevelInfo | LevelWarn | LevelError.
Definition parseLevel (name : string) : level :=
  if str_eqb name "debug" then LevelDebug
  else if str_eqb name "warn" then LevelWarn
  else if str_eqb name "error" then LevelError
  else LevelInfo.

(** What must not be written. *)
Definition leaks (a : attr) : bool :=
  match at_Value a with
  | KindString v => secret_text v || (secret_key (at_Key a) && negb (str_eqb v "[REDACTED]"))
  | KindOther _ => secret_key (at_Key a)
  end.

(** No attribute leaves the logger with a secret key and its value or with a
    long string that looks like a secret, and one that has neither is written
    as it is. *)
Theorem redactAttr_hides a :
  leaks (redactAttr a) = false /\ at_Key (redactAttr a) = at_Key a /\ (leaks a = false -> redactAttr a = a).
Proof.
  destruct a as [key value]. unfold redactAttr, leaks. cbn [at_Key at_Value].
  assert (secret_text "[REDACTED]" = false) as Hr by by vm_compute.
  destruct (secret_key key) eqn:Ek; cbn [redacted at_Key at_Value].
  - rewrite Hr, str_eqb_refl, Ek. split_and!; [done|done|]. destruct value as [v|]; [|done].
    rewrite andb_true_l. intros [_ Hv]%orb_false_iff. apply negb_false_iff, str_eqb_true in Hv. by subst v.
  - destruct value as [v|t]; [destruct (secret_text v) eqn:Ev|]; cbn [redacted at_Key at_Value]; rewrite ?Hr, ?Ek, ?Ev; by split_and!.
Qed.

(** A short token, and the text of an error, are written. *)
Example short_secret_passes : redactAttr (mkAttr "msg" (KindString "Bearer sk-123456")) = mkAttr "msg" (KindString "Bearer sk-123456").
Proof. reflexivity. Qed.
Example error_text_passes :
  let e := mkAttr "error" (KindOther "refused: Authorization: Bearer sk-0123456789abcdef") in redactAttr e = e.
Proof. reflexivity. Qed.
(** A long word that ends in sk is taken for a key. *)
Example task_redacted : redactAttr (mkAttr "path" (KindString "/v1/models/task-specific")) = redacted "path".
Proof. reflexivity. Qed.
