(* ===== verification/Types.v ===== *)
(** * Normalized requests and responses: [internal/types/types.go]

    The OpenAI-compatible data passed between all components, with the
    hand-written JSON methods of [ChatMessage] on the level of parsed JSON
    values ([encoding/json]'s lexical layer is not modelled).  A pointer with
    [omitempty] is an [option]; a slice is a list, except [ContentParts], for
    which the code distinguishes nil from empty. *)

From S2P Require Import Prelude GoFloat GoStrings.
From Stdlib Require Import String.
Open Scope string_scope.
Open Scope list_scope.
Open Scope Z_scope.

(** ** JSON values, the Go type [any] after decoding *)
Inductive json : Type :=
| JNull
| JBool (b : bool)
| JInt (z : Z)            (** an integer literal *)
| JFloat (x : float64)    (** any other number *)
| JStr (s : string)
| JArr (l : list json)
| JObj (l : list (string * json)).

(** ** Data *)

Record ImageURL := mkImageURL { img_URL : string; img_Detail : string }.
Record InputAudio := mkInputAudio { ia_Data : string; ia_Format : string }.

Record ContentPart := mkContentPart {
  cp_Type : string;
  cp_Text : string;
  cp_ImageURL : option ImageURL;
  cp_InputAudio : option InputAudio;
}.

Record ToolCallFunction := mkToolCallFunction { tf_Name : string; tf_Arguments : string }.
Record ToolCall := mkToolCall { tc_ID : string; tc_Type : string; tc_Function : ToolCallFunction }.
Record FunctionCall := mkFunctionCall { fc_Name : string; fc_Arguments : string }.

Record Audio := mkAudio {
  au_ID : string;
  au_Data : string;
  au_Transcript : string;
  au_ExpiresAt : Z;
}.

Record ChatMessage := mkChatMessage {
  msg_Role : string;
  msg_Content : string;
  msg_ContentParts : option (list ContentPart);
  msg_Name : string;
  msg_ToolCallID : string;
  msg_ToolCalls : list ToolCall;
  msg_FunctionCall : option FunctionCall;
  msg_Audio : option Audio;
  msg_Refusal : string;
}.

Record AudioRequest := mkAudioRequest { ar_Voice : string; ar_Format : string }.
Record ToolFunc := mkToolFunc { tfn_Name : string; tfn_Description : string; tfn_Parameters : option json }.
Record Tool := mkTool { tool_Type : string; tool_Function : ToolFunc }.
Record ResponseFormat := mkResponseFormat { rf_Type : string }.
Record StreamOptions := mkStreamOptions { so_IncludeUsage : bool }.

Record ChatRequest := mkChatRequest {
  req_Model : string;
  req_Messages : list ChatMessage;
  req_Temperature : option float64;
  req_MaxTokens : option Z;
  req_MaxCompletionTokens : option Z;
  req_TopP : option float64;
  req_PresencePenalty : option float64;
  req_FrequencyPenalty : option float64;
  req_Logprobs : option bool;
  req_TopLogprobs : option Z;
  req_Seed : option Z;
  req_Stream : bool;
  req_StreamOptions : option StreamOptions;
  req_Tools : list Tool;
  req_ToolChoice : option json;
  req_ParallelToolCalls : option bool;
  req_ResponseFormat : option ResponseFormat;
  req_Stop : option json;
  req_N : option Z;
  req_User : string;
  req_ServiceTier : string;
  req_ReasoningEffort : string;
  req_Modalities : list string;
  req_Audio : option AudioRequest;
}.

Record Usage := mkUsageT { us_PromptTokens : Z; us_CompletionTokens : Z; us_TotalTokens : Z }.

Record Choice := mkChoice {
  ch_Index : Z;
  ch_Message : ChatMessage;
  ch_FinishReason : string;
  ch_Logprobs : option json;
}.

Record ChatResponse := mkChatResponse {
  resp_ID : string;
  resp_Object : string;
  resp_Created : Z;
  resp_Model : string;
  resp_Choices : list Choice;
  resp_Usage : Usage;
  resp_SystemFingerprint : string;
  resp_ServiceTier : string;
}.

Record StreamChoice := mkStreamChoice {
  sc_Index : Z;
  sc_Delta : ChatMessage;
  sc_FinishReason : option string;
  sc_Logprobs : option json;
}.

Record StreamChunk := mkStreamChunk {
  sk_ID : string;
  sk_Object : string;
  sk_Created : Z;
  sk_Model : string;
  sk_Choices : list StreamChoice;
  sk_Usage : option Usage;
  sk_SystemFingerprint : string;
}.

Record EmbeddingRequest := mkEmbeddingRequest {
  er_Model : string;
  er_Input : json;
  er_EncodingFormat : string;
  er_Dimensions : option Z;
  er_User : string;
}.

Record EmbeddingData := mkEmbeddingData {
  ed_Object : string; ed_Index : Z; ed_Embedding : list float64 }.
Record EmbeddingUsage := mkEmbeddingUsage { eu_PromptTokens : Z; eu_TotalTokens : Z }.
Record EmbeddingResponse := mkEmbeddingResponse {
  emb_Object : string; emb_Data : list EmbeddingData; emb_Model : string; emb_Usage : EmbeddingUsage }.

Record Error := mkError { err_Message : string; err_Type : string; err_Code : string }.

(** The zero message; fields are filled by name below. *)
Definition zero_message : ChatMessage := mkChatMessage "" "" None "" "" [] None None "".
Definition text_message (role content : string) : ChatMessage :=
  mkChatMessage role content None "" "" [] None None "".

(** ** Methods *)

Definition parts_of (m : ChatMessage) : list ContentPart := default [] (msg_ContentParts m).

Definition ChatMessage_Text (m : ChatMessage) : string :=
  if negb (str_eqb (msg_Content m) "") then msg_Content m
  else
    let parts := foldl (fun ps p => if negb (str_eqb (cp_Text p) "") then ps ++ [cp_Text p] else ps)
                   [] (parts_of m) in
    String.concat "" parts.

Definition EffectiveMaxTokens (r : ChatRequest) : option Z :=
  match req_MaxCompletionTokens r with
  | Some n => Some n
  | None => req_MaxTokens r
  end.

(** *** Encoding

    [omitempty] drops a false, zero, nil or empty field. *)
Definition omit_str (k s : string) : list (string * json) :=
  if str_eqb s "" then [] else [(k, JStr s)].
Definition omit_opt {A} (k : string) (f : A -> json) (o : option A) : list (string * json) :=
  match o with None => [] | Some x => [(k, f x)] end.
Definition omit_int (k : string) (z : Z) : list (string * json) :=
  if z =? 0 then [] else [(k, JInt z)].
Definition omit_list {A} (k : string) (f : A -> json) (l : list A) : list (string * json) :=
  match l with [] => [] | _ => [(k, JArr (f <$> l))] end.

Definition enc_ImageURL (i : ImageURL) : json :=
  JObj (("url", JStr (img_URL i)) :: omit_str "detail" (img_Detail i)).
Definition enc_InputAudio (a : InputAudio) : json :=
  JObj [("data", JStr (ia_Data a)); ("format", JStr (ia_Format a))].
Definition enc_ContentPart (p : ContentPart) : json :=
  JObj ([("type", JStr (cp_Type p))] ++ omit_str "text" (cp_Text p) ++
        omit_opt "image_url" enc_ImageURL (cp_ImageURL p) ++
        omit_opt "input_audio" enc_InputAudio (cp_InputAudio p)).
Definition enc_ToolCall (t : ToolCall) : json :=
  JObj [("id", JStr (tc_ID t)); ("type", JStr (tc_Type t));
        ("function", JObj [("name", JStr (tf_Name (tc_Function t)));
                           ("arguments", JStr (tf_Arguments (tc_Function t)))])].
Definition enc_FunctionCall (f : FunctionCall) : json :=
  JObj [("name", JStr (fc_Name f)); ("arguments", JStr (fc_Arguments f))].
Definition enc_Audio (a : Audio) : json :=
  JObj (omit_str "id" (au_ID a) ++ omit_str "data" (au_Data a) ++
        omit_str "transcript" (au_Transcript a) ++ omit_int "expires_at" (au_ExpiresAt a)).

(** [MarshalJSON]: the content is an interface, so an empty string is kept. *)
Definition ChatMessage_MarshalJSON (m : ChatMessage) : json :=
  let content := match msg_ContentParts m with
                 | Some ps => JArr (enc_ContentPart <$> ps)
                 | None => JStr (msg_Content m)
                 end in
  JObj ([("role", JStr (msg_Role m)); ("content", content)] ++
        omit_str "name" (msg_Name m) ++ omit_str "tool_call_id" (msg_ToolCallID m) ++
        omit_list "tool_calls" enc_ToolCall (msg_ToolCalls m) ++
        omit_opt "function_call" enc_FunctionCall (msg_FunctionCall m) ++
        omit_opt "audio" enc_Audio (msg_Audio m) ++ omit_str "refusal" (msg_Refusal m)).

(** *** Decoding

    Go decodes an object member by member into the field its key names,
    case-insensitively; null leaves a string, number or struct as it is and
    empties a pointer or a slice; an unknown key is an error under
    [DisallowUnknownFields] ([strict]). *)
Definition key_is (name k : string) : bool := EqualFold name k.

Definition dec_str (v : json) (old : string) : result string unit :=
  match v with JStr s => Ok s | JNull => Ok old | _ => Err tt end.

Definition dec_int (v : json) (old : Z) : result Z unit :=
  match v with
  | JInt z => if (min_int64 <=? z) && (z <=? max_int64) then Ok z else Err tt
  | JNull => Ok old
  | _ => Err tt
  end.

Section dec_struct.
Context {A : Type} (strict : bool) (set : string -> json -> A -> option (result A unit)).

Fixpoint dec_members (ms : list (string * json)) (acc : A) : result A unit :=
  match ms with
  | [] => Ok acc
  | (k, v) :: ms =>
      match set k v acc with
      | Some r => let? acc := r in dec_members ms acc
      | None => if strict then Err tt else dec_members ms acc
      end
  end.

Definition dec_struct (v : json) (old : A) : result A unit :=
  match v with
  | JObj ms => dec_members ms old
  | JNull => Ok old
  | _ => Err tt
  end.

(** A pointer: null is nil, anything else decodes into the old target or a
    zero one. *)
Definition dec_ptr (zero : A) (v : json) (old : option A) : result (option A) unit :=
  match v with
  | JNull => Ok None
  | _ => let? x := dec_struct v (default zero old) in Ok (Some x)
  end.

(** A slice of structs, decoded from fresh zero elements. *)
Fixpoint dec_elems (zero : A) (l : list json) : result (list A) unit :=
  match l with
  | [] => Ok []
  | v :: l => let? x := dec_struct v zero in let? xs := dec_elems zero l in Ok (x :: xs)
  end.

Definition dec_slice (zero : A) (v : json) (old : option (list A)) : result (option (list A)) unit :=
  match v with
  | JNull => Ok None
  | JArr l => let? xs := dec_elems zero l in Ok (Some xs)
  | _ => Err tt
  end.

End dec_struct.

Definition set_ImageURL (k : string) (v : json) (i : ImageURL) : option (result ImageURL unit) :=
  if key_is "url" k then Some (let? s := dec_str v (img_URL i) in Ok (mkImageURL s (img_Detail i)))
  else if key_is "detail" k then
    Some (let? s := dec_str v (img_Detail i) in Ok (mkImageURL (img_URL i) s))
  else None.

Definition set_InputAudio (k : string) (v : json) (a : InputAudio) : option (result InputAudio unit) :=
  if key_is "data" k then Some (let? s := dec_str v (ia_Data a) in Ok (mkInputAudio s (ia_Format a)))
  else if key_is "format" k then
    Some (let? s := dec_str v (ia_Format a) in Ok (mkInputAudio (ia_Data a) s))
  else None.

Definition set_ContentPart (strict : bool) (k : string) (v : json) (p : ContentPart)
    : option (result ContentPart unit) :=
  if key_is "type" k then
    Some (let? s := dec_str v (cp_Type p) in
          Ok (mkContentPart s (cp_Text p) (cp_ImageURL p) (cp_InputAudio p)))
  else if key_is "text" k then
    Some (let? s := dec_str v (cp_Text p) in
          Ok (mkContentPart (cp_Type p) s (cp_ImageURL p) (cp_InputAudio p)))
  else if key_is "image_url" k then
    Some (let? i := dec_ptr strict set_ImageURL (mkImageURL "" "") v (cp_ImageURL p) in
          Ok (mkContentPart (cp_Type p) (cp_Text p) i (cp_InputAudio p)))
  else if key_is "input_audio" k then
    Some (let? a := dec_ptr strict set_InputAudio (mkInputAudio "" "") v (cp_InputAudio p) in
          Ok (mkContentPart (cp_Type p) (cp_Text p) (cp_ImageURL p) a))
  else None.

Definition set_ToolCallFunction (k : string) (v : json) (f : ToolCallFunction)
    : option (result ToolCallFunction unit) :=
  if key_is "name" k then
    Some (let? s := dec_str v (tf_Name f) in Ok (mkToolCallFunction s (tf_Arguments f)))
  else if key_is "arguments" k then
    Some (let? s := dec_str v (tf_Arguments f) in Ok (mkToolCallFunction (tf_Name f) s))
  else None.

Definition set_ToolCall (strict : bool) (k : string) (v : json) (t : ToolCall)
    : option (result ToolCall unit) :=
  if key_is "id" k then
    Some (let? s := dec_str v (tc_ID t) in Ok (mkToolCall s (tc_Type t) (tc_Function t)))
  else if key_is "type" k then
    Some (let? s := dec_str v (tc_Type t) in Ok (mkToolCall (tc_ID t) s (tc_Function t)))
  else if key_is "function" k then
    Some (let? f := dec_struct strict set_ToolCallFunction v (tc_Function t) in
          Ok (mkToolCall (tc_ID t) (tc_Type t) f))
  else None.

Definition set_FunctionCall (k : string) (v : json) (f : FunctionCall)
    : option (result FunctionCall unit) :=
  if key_is "name" k then
    Some (let? s := dec_str v (fc_Name f) in Ok (mkFunctionCall s (fc_Arguments f)))
  else if key_is "arguments" k then
    Some (let? s := dec_str v (fc_Arguments f) in Ok (mkFunctionCall (fc_Name f) s))
  else None.

Definition set_Audio (k : string) (v : json) (a : Audio) : option (result Audio unit) :=
  if key_is "id" k then
    Some (let? s := dec_str v (au_ID a) in
          Ok (mkAudio s (au_Data a) (au_Transcript a) (au_ExpiresAt a)))
  else if key_is "data" k then
    Some (let? s := dec_str v (au_Data a) in
          Ok (mkAudio (au_ID a) s (au_Transcript a) (au_ExpiresAt a)))
  else if key_is "transcript" k then
    Some (let? s := dec_str v (au_Transcript a) in
          Ok (mkAudio (au_ID a) (au_Data a) s (au_ExpiresAt a)))
  else if key_is "expires_at" k then
    Some (let? z := dec_int v (au_ExpiresAt a) in
          Ok (mkAudio (au_ID a) (au_Data a) (au_Transcript a) z))
  else None.

(** The local [type wire struct]: the content is kept raw; [None] is a
    missing one. *)
Record wire := mkWire {
  wr_msg : ChatMessage;
  wr_Content : option json;
}.

Definition with_msg (w : wire) (m : ChatMessage) : wire := mkWire m (wr_Content w).

Definition set_wire (k : string) (v : json) (w : wire) : option (result wire unit) :=
  let m := wr_msg w in
  let put m := Ok (with_msg w m) in
  let zero_tc := mkToolCall "" "" (mkToolCallFunction "" "") in
  if key_is "role" k then
    Some (let? s := dec_str v (msg_Role m) in
          put (mkChatMessage s "" None (msg_Name m) (msg_ToolCallID m) (msg_ToolCalls m)
                 (msg_FunctionCall m) (msg_Audio m) (msg_Refusal m)))
  else if key_is "content" k then Some (Ok (mkWire m (Some v)))
  else if key_is "name" k then
    Some (let? s := dec_str v (msg_Name m) in
          put (mkChatMessage (msg_Role m) "" None s (msg_ToolCallID m) (msg_ToolCalls m)
                 (msg_FunctionCall m) (msg_Audio m) (msg_Refusal m)))
  else if key_is "tool_call_id" k then
    Some (let? s := dec_str v (msg_ToolCallID m) in
          put (mkChatMessage (msg_Role m) "" None (msg_Name m) s (msg_ToolCalls m)
                 (msg_FunctionCall m) (msg_Audio m) (msg_Refusal m)))
  else if key_is "tool_calls" k then
    Some (let? l := dec_slice true (set_ToolCall true) zero_tc v (Some (msg_ToolCalls m)) in
          put (mkChatMessage (msg_Role m) "" None (msg_Name m) (msg_ToolCallID m) (default [] l)
                 (msg_FunctionCall m) (msg_Audio m) (msg_Refusal m)))
  else if key_is "function_call" k then
    Some (let? f := dec_ptr true set_FunctionCall (mkFunctionCall "" "") v (msg_FunctionCall m) in
          put (mkChatMessage (msg_Role m) "" None (msg_Name m) (msg_ToolCallID m) (msg_ToolCalls m)
                 f (msg_Audio m) (msg_Refusal m)))
  else if key_is "audio" k then
    Some (let? a := dec_ptr true set_Audio (mkAudio "" "" "" 0) v (msg_Audio m) in
          put (mkChatMessage (msg_Role m) "" None (msg_Name m) (msg_ToolCallID m) (msg_ToolCalls m)
                 (msg_FunctionCall m) a (msg_Refusal m)))
  else if key_is "refusal" k then
    Some (let? s := dec_str v (msg_Refusal m) in
          put (mkChatMessage (msg_Role m) "" None (msg_Name m) (msg_ToolCallID m) (msg_ToolCalls m)
                 (msg_FunctionCall m) (msg_Audio m) s))
  else None.

Definition with_content (m : ChatMessage) (c : string) (ps : option (list ContentPart)) : ChatMessage :=
  mkChatMessage (msg_Role m) c ps (msg_Name m) (msg_ToolCallID m) (msg_ToolCalls m)
    (msg_FunctionCall m) (msg_Audio m) (msg_Refusal m).

(** [UnmarshalJSON]: the wire struct, strictly; then the content as a string
    or, failing that, as an array of parts (not strictly: [json.Unmarshal]). *)
Definition ChatMessage_UnmarshalJSON (data : json) : result ChatMessage unit :=
  let? w := dec_struct true set_wire data (mkWire zero_message None) in
  match wr_Content w with
  | None | Some JNull => Ok (wr_msg w)
  | Some (JStr s) => Ok (with_content (wr_msg w) s None)
  | Some v =>
      let? ps := dec_slice false (set_ContentPart false) (mkContentPart "" "" None None) v None in
      Ok (with_content (wr_msg w) "" ps)
  end.

(** ** Round trip *)
Section roundtrip.

Lemma dec_members_app {A} strict (set : string -> json -> A -> option (result A unit)) ms1 ms2 a :
  dec_members strict set (ms1 ++ ms2) a =
  let? a := dec_members strict set ms1 a in dec_members strict set ms2 a.
Proof.
  revert a. induction ms1 as [|[k v] ms1 IH]; intros a; simpl; [done|].
  destruct (set k v a) as [[a'|]|]; [apply IH|done|destruct strict; [done|apply IH]].
Qed.

Lemma dec_elems_enc {A} strict (set : string -> json -> A -> option (result A unit)) zero
    (enc : A -> json) l :
  (forall x, dec_struct strict set (enc x) zero = Ok x) ->
  dec_elems strict set zero (enc <$> l) = Ok l.
Proof.
  intros He. induction l as [|x l IH]; [done|]. csimpl. by rewrite He, IH.
Qed.

Lemma dec_enc_ImageURL strict i : dec_struct strict set_ImageURL (enc_ImageURL i) (mkImageURL "" "") = Ok i.
Proof. destruct i as [u d]. unfold enc_ImageURL, omit_str, str_eqb. simpl. by case_bool_decide; subst. Qed.

Lemma dec_enc_InputAudio strict a :
  dec_struct strict set_InputAudio (enc_InputAudio a) (mkInputAudio "" "") = Ok a.
Proof. by destruct a. Qed.

Lemma dec_enc_ToolCall t :
  dec_struct true (set_ToolCall true) (enc_ToolCall t) (mkToolCall "" "" (mkToolCallFunction "" "")) = Ok t.
Proof. by destruct t as [i y [n a]]. Qed.

Lemma dec_enc_FunctionCall f :
  dec_struct true set_FunctionCall (enc_FunctionCall f) (mkFunctionCall "" "") = Ok f.
Proof. by destruct f. Qed.

Lemma dec_enc_ContentPart p :
  dec_struct false (set_ContentPart false) (enc_ContentPart p) (mkContentPart "" "" None None) = Ok p.
Proof.
  destruct p as [ty tx i a]. unfold enc_ContentPart, omit_str, str_eqb, omit_opt. simpl.
  destruct i as [[u d]|], a as [[da fo]|];
    unfold enc_ImageURL, omit_str, str_eqb; simpl; repeat case_bool_decide; subst; done.
Qed.

Lemma dec_enc_Audio a : int64_range (au_ExpiresAt a) ->
  dec_struct true set_Audio (enc_Audio a) (mkAudio "" "" "" 0) = Ok a.
Proof.
  destruct a as [i d t e]. unfold int64_range, enc_Audio, omit_str, omit_int, str_eqb. simpl. intros He.
  assert ((min_int64 <=? e) && (e <=? max_int64) = true) as Hr by lia.
  repeat case_bool_decide; subst; destruct (e =? 0) eqn:E; simpl; rewrite ?Hr; repeat f_equal; lia.
Qed.

(** An omitted member stands for the value the field has already. *)
Lemma dec_omit_str {A} strict (set : string -> json -> A -> option (result A unit)) k s a a' :
  set k (JStr s) a = Some (Ok a') -> (s = "" -> a' = a) ->
  dec_members strict set (omit_str k s) a = Ok a'.
Proof.
  intros Hs He. unfold omit_str, str_eqb. case_bool_decide; simpl; [by rewrite He|]. by rewrite Hs.
Qed.

Lemma dec_omit_opt {A B} strict (set : string -> json -> A -> option (result A unit)) k
    (f : B -> json) o a a' :
  (forall x, o = Some x -> set k (f x) a = Some (Ok a')) -> (o = None -> a' = a) ->
  dec_members strict set (omit_opt k f o) a = Ok a'.
Proof. intros Hs He. destruct o as [x|]; simpl; [by rewrite (Hs x)|by rewrite He]. Qed.

Lemma dec_omit_list {A B} strict (set : string -> json -> A -> option (result A unit)) k
    (f : B -> json) l a a' :
  set k (JArr (f <$> l)) a = Some (Ok a') -> (l = [] -> a' = a) ->
  dec_members strict set (omit_list k f l) a = Ok a'.
Proof.
  intros Hs He. unfold omit_list. destruct l as [|x l]; [by rewrite He|].
  cbn [dec_members]. by rewrite Hs.
Qed.

Definition message_wf (m : ChatMessage) : Prop :=
  (msg_Content m = "" \/ msg_ContentParts m = None) /\
  (forall a, msg_Audio m = Some a -> int64_range (au_ExpiresAt a)).

Lemma dec_enc_tail m c : (forall a, msg_Audio m = Some a -> int64_range (au_ExpiresAt a)) ->
  dec_members true set_wire
    (omit_str "name" (msg_Name m) ++ omit_str "tool_call_id" (msg_ToolCallID m) ++
     omit_list "tool_calls" enc_ToolCall (msg_ToolCalls m) ++
     omit_opt "function_call" enc_FunctionCall (msg_FunctionCall m) ++
     omit_opt "audio" enc_Audio (msg_Audio m) ++ omit_str "refusal" (msg_Refusal m))
    (mkWire (text_message (msg_Role m) "") c) = Ok (mkWire (with_content m "" None) c).
Proof.
  destruct m as [ro co ps na id tcs fc au re]. unfold with_content, text_message. simpl. intros Hau.
  rewrite dec_members_app. erewrite dec_omit_str; [|done|by intros ->]. simpl.
  rewrite dec_members_app. erewrite dec_omit_str; [|done|by intros ->]. simpl.
  rewrite dec_members_app.
  erewrite (dec_omit_list _ _ _ _ _ _ (mkWire (mkChatMessage ro "" None na id tcs None None "") c));
    [|unfold set_wire; simpl; by rewrite (dec_elems_enc _ _ _ _ _ dec_enc_ToolCall)|by intros ->]. simpl.
  rewrite dec_members_app.
  erewrite (dec_omit_opt _ _ _ _ _ _ (mkWire (mkChatMessage ro "" None na id tcs fc None "") c));
    [|by intros [] ->|by intros ->]. simpl.
  rewrite dec_members_app.
  erewrite (dec_omit_opt _ _ _ _ _ _ (mkWire (mkChatMessage ro "" None na id tcs fc au "") c));
    [| |by intros ->].
  - erewrite dec_omit_str; [done|done|by intros ->].
  - intros a ->. unfold set_wire. simpl. specialize (Hau a eq_refl).
    pose proof (dec_enc_Audio a Hau) as He. unfold enc_Audio in *. simpl in *. by rewrite He.
Qed.

Lemma unmarshal_marshal m :
  message_wf m -> ChatMessage_UnmarshalJSON (ChatMessage_MarshalJSON m) = Ok m.
Proof.
  intros [Hc Hau]. unfold ChatMessage_UnmarshalJSON, ChatMessage_MarshalJSON, dec_struct.
  set (content := match msg_ContentParts m with Some _ => _ | None => _ end).
  rewrite dec_members_app.
  change (dec_members true set_wire [("role", JStr (msg_Role m)); ("content", content)]
    (mkWire zero_message None)) with
    (@Ok wire unit (mkWire (text_message (msg_Role m) "") (Some content))).
  cbv beta iota. rewrite dec_enc_tail by done. subst content. destruct m as [ro co ps na id tcs fc au re].
  simpl in *. destruct ps as [ps|]; simpl; [|done].
  rewrite (dec_elems_enc _ _ _ _ _ dec_enc_ContentPart).
  destruct Hc as [->|]; [|done]. done.
Qed.

End roundtrip.

(** C34. Messages survive the wire: decoding the JSON of a message gives the
    message back, multimodal parts, tool calls, audio and empty fields
    included, provided it does not hold both a text and parts. *)
Theorem ChatMessage_roundtrip m :
  message_wf m -> ChatMessage_UnmarshalJSON (ChatMessage_MarshalJSON m) = Ok m.
Proof. apply unmarshal_marshal. Qed.

Definition ex_message : ChatMessage :=
  mkChatMessage "user" "" (Some [mkContentPart "text" "look" None None;
      mkContentPart "image_url" "" (Some (mkImageURL "https://x" "")) None])
    "" "" [mkToolCall "1" "function" (mkToolCallFunction "f" "{}")] None
    (Some (mkAudio "a" "" "" 7)) "".

Lemma ChatMessage_roundtrip_witness :
  ChatMessage_UnmarshalJSON (ChatMessage_MarshalJSON ex_message) = Ok ex_message.
Proof.
  apply (ChatMessage_roundtrip ex_message). split; [by left|].
  intros a [= <-]. vm_compute. split; congruence.
Defined.
