(* ===== verification/Translate.v ===== *)
(** * Native formats: [internal/translate/anthropic.go], [gemini.go]

    The translation of a chat request into the bodies of the Anthropic
    Messages API and of Gemini's [generateContent], and of their responses
    back.  [json.Marshal] and [json.Unmarshal] on values of type [any] are
    the parameters of the class [JsonText]; a nil [any] is [None]. *)

From Stdlib Require Import Ascii String.
From S2P Require Import Prelude GoFloat GoStrings Types.
Open Scope string_scope.
Open Scope list_scope.
Open Scope Z_scope.

(** [encoding/json] on the type [any]: [None] is an error. *)
Class JsonText := {
  json_Marshal_any : json -> option string;
  json_Unmarshal_any : string -> option json;
}.

(** A decoded value as an [any]: null is the nil interface. *)
Definition any_of (v : json) : option json := match v with JNull => None | v => Some v end.
Definition of_any (a : option json) : json := default JNull a.

(** [m[key]] on a decoded object: the last member of that name. *)
Definition obj_get (ms : list (string * json)) (key : string) : option json :=
  foldl (fun acc kv => if str_eqb kv.1 key then Some kv.2 else acc) None ms.

(** [value["function"].(map[string]any)], then [function["name"].(string)] *)
Definition choice_name (ms : list (string * json)) : option string :=
  match obj_get ms "function" with
  | Some (JObj f) => match obj_get f "name" with Some (JStr name) => Some name | _ => None end
  | _ => None
  end.

Section translate.
Context `{!JsonText}.

(** ** Anthropic *)

Definition DefaultMaxTokens : Z := 4096.

Record AnthropicContentBlock := mkBlock {
  ab_Type : string;
  ab_Text : string;
  ab_ID : string;
  ab_Name : string;
  ab_Input : option json;
  ab_ToolUseID : string;
  ab_Content : option json;
}.

(** The [any] of a message's content. *)
Inductive AnthropicContent :=
| ContentText (s : string)
| ContentBlocks (bs : list AnthropicContentBlock).

Record AnthropicMessage := mkAnthropicMessage { am_Role : string; am_Content : AnthropicContent }.

Record AnthropicTool := mkAnthropicTool {
  atl_Name : string; atl_Description : string; atl_InputSchema : option json }.

Record AnthropicRequest := mkAnthropicRequest {
  arq_Model : string;
  arq_MaxTokens : Z;
  arq_System : string;
  arq_Messages : list AnthropicMessage;
  arq_Temperature : option float64;
  arq_Tools : list AnthropicTool;
  arq_ToolChoice : option json;
}.

Record AnthropicResponse := mkAnthropicResponse {
  ars_ID : string;
  ars_Model : string;
  ars_Content : list AnthropicContentBlock;
  ars_StopReason : string;
  ars_InputTokens : Z;
  ars_OutputTokens : Z;
}.

Definition toAnthropicTools (tools : list Tool) : list AnthropicTool :=
  foldl (fun native tool =>
    native ++ [mkAnthropicTool (tfn_Name (tool_Function tool)) (tfn_Description (tool_Function tool))
                 (tfn_Parameters (tool_Function tool))]) [] tools.

Definition toAnthropicToolChoice (choice : option json) : option json :=
  match choice with
  | Some (JStr value) =>
      if str_eqb value "required" then Some (JObj [("type", JStr "any")])
      else if str_eqb value "auto" || str_eqb value "none" then Some (JObj [("type", JStr value)])
      else choice
  | Some (JObj value) =>
      match choice_name value with
      | Some name => Some (JObj [("name", JStr name); ("type", JStr "tool")])
      | None => choice
      end
  | _ => choice
  end.

Definition decodeToolArguments (arguments : string) : option json :=
  if str_eqb arguments "" then Some (JObj [])
  else match json_Unmarshal_any arguments with
       | Some decoded => any_of decoded
       | None => Some (JStr arguments)
       end.

Definition text_block (s : string) : AnthropicContentBlock := mkBlock "text" s "" "" None "" None.
Definition tool_use_block (call : ToolCall) : AnthropicContentBlock :=
  mkBlock "tool_use" "" (tc_ID call) (tf_Name (tc_Function call))
    (decodeToolArguments (tf_Arguments (tc_Function call))) "" None.
Definition tool_result_block (msg : ChatMessage) : AnthropicContentBlock :=
  mkBlock "tool_result" "" "" "" None (msg_ToolCallID msg) (Some (JStr (ChatMessage_Text msg))).

Definition set_System (r : AnthropicRequest) (s : string) : AnthropicRequest :=
  mkAnthropicRequest (arq_Model r) (arq_MaxTokens r) s (arq_Messages r) (arq_Temperature r)
    (arq_Tools r) (arq_ToolChoice r).
Definition add_Message (r : AnthropicRequest) (m : AnthropicMessage) : AnthropicRequest :=
  mkAnthropicRequest (arq_Model r) (arq_MaxTokens r) (arq_System r) (arq_Messages r ++ [m])
    (arq_Temperature r) (arq_Tools r) (arq_ToolChoice r).

(** One iteration of the loop over the messages. *)
Definition anthropic_step (native : AnthropicRequest) (msg : ChatMessage) : AnthropicRequest :=
  if str_eqb (msg_Role msg) "system" then set_System native (ChatMessage_Text msg)
  else if str_eqb (msg_Role msg) "tool" then
    add_Message native (mkAnthropicMessage "user" (ContentBlocks [tool_result_block msg]))
  else
    match msg_ToolCalls msg with
    | [] => add_Message native (mkAnthropicMessage (msg_Role msg) (ContentText (ChatMessage_Text msg)))
    | calls =>
        let text := ChatMessage_Text msg in
        let blocks := if str_eqb text "" then [] else [text_block text] in
        let blocks := foldl (fun blocks call => blocks ++ [tool_use_block call]) blocks calls in
        add_Message native (mkAnthropicMessage (msg_Role msg) (ContentBlocks blocks))
    end.

Definition ToAnthropic (req : ChatRequest) : AnthropicRequest :=
  let maxTokens := default DefaultMaxTokens (EffectiveMaxTokens req) in
  foldl anthropic_step
    (mkAnthropicRequest (req_Model req) maxTokens "" [] (req_Temperature req)
       (toAnthropicTools (req_Tools req)) (toAnthropicToolChoice (req_ToolChoice req)))
    (req_Messages req).

Definition marshal_or_empty (input : option json) : string :=
  default "{}" (json_Marshal_any (of_any input)).

Definition from_block (acc : string * list ToolCall) (block : AnthropicContentBlock)
    : string * list ToolCall :=
  let '(text, toolCalls) := acc in
  if str_eqb (ab_Type block) "text" then (text +:+ ab_Text block, toolCalls)
  else if str_eqb (ab_Type block) "tool_use" then
    let arguments := match ab_Input block with
                     | Some _ => marshal_or_empty (ab_Input block)
                     | None => "{}"
                     end in
    (text, toolCalls ++ [mkToolCall (ab_ID block) "function"
                           (mkToolCallFunction (ab_Name block) arguments)])
  else acc.

Definition assistant_message (text : string) (calls : list ToolCall) : ChatMessage :=
  mkChatMessage "assistant" text None "" "" calls None None "".

Definition FromAnthropic (resp : AnthropicResponse) : ChatResponse :=
  let '(text, toolCalls) := foldl from_block ("", []) (ars_Content resp) in
  let finishReason := if str_eqb (ars_StopReason resp) "max_tokens" then "length"
                      else if str_eqb (ars_StopReason resp) "tool_use" then "tool_calls"
                      else "stop" in
  mkChatResponse (ars_ID resp) "chat.completion" 0 (ars_Model resp)
    [mkChoice 0 (assistant_message text toolCalls) finishReason None]
    (mkUsageT (ars_InputTokens resp) (ars_OutputTokens resp)
       (iadd (ars_InputTokens resp) (ars_OutputTokens resp))) "" "".

(** ** Gemini *)

Record GeminiFunctionCall := mkGeminiFunctionCall { gfc_Name : string; gfc_Args : option json }.
Record GeminiFunctionResponse := mkGeminiFunctionResponse { gfr_Name : string; gfr_Response : json }.
Record GeminiPart := mkGeminiPart {
  gp_Text : string;
  gp_FunctionCall : option GeminiFunctionCall;
  gp_FunctionResponse : option GeminiFunctionResponse;
}.
Record GeminiContent := mkGeminiContent { gc_Role : string; gc_Parts : list GeminiPart }.
Record GeminiFunctionDeclaration := mkGeminiFunctionDeclaration {
  gfd_Name : string; gfd_Description : string; gfd_Parameters : option json }.
Record GeminiTool := mkGeminiTool { gt_FunctionDeclarations : list GeminiFunctionDeclaration }.
Record GeminiToolConfig := mkGeminiToolConfig { gtc_Mode : string; gtc_AllowedFunctionNames : list string }.
Record GeminiGenConfig := mkGeminiGenConfig {
  ggc_Temperature : option float64; ggc_MaxOutputTokens : option Z }.

Record GeminiRequest := mkGeminiRequest {
  grq_Contents : list GeminiContent;
  grq_SystemInstruction : option GeminiContent;
  grq_GenerationConfig : option GeminiGenConfig;
  grq_Tools : list GeminiTool;
  grq_ToolConfig : option GeminiToolConfig;
}.

Record GeminiCandidate := mkGeminiCandidate { gcd_Content : GeminiContent; gcd_FinishReason : string }.
Record GeminiResponse := mkGeminiResponse {
  grs_Candidates : list GeminiCandidate;
  grs_PromptTokenCount : Z;
  grs_CandidatesTokenCount : Z;
  grs_TotalTokenCount : Z;
}.

Definition toGeminiTools (tools : list Tool) : list GeminiTool :=
  match tools with
  | [] => []
  | _ =>
      [mkGeminiTool (foldl (fun ds tool =>
         ds ++ [mkGeminiFunctionDeclaration (tfn_Name (tool_Function tool))
                  (tfn_Description (tool_Function tool)) (tfn_Parameters (tool_Function tool))])
         [] tools)]
  end.

Definition toGeminiToolConfig (choice : option json) : option GeminiToolConfig :=
  match choice with
  | Some (JStr value) =>
      Some (mkGeminiToolConfig
              (if str_eqb value "none" then "NONE" else if str_eqb value "required" then "ANY"
               else "AUTO") [])
  | Some (JObj value) =>
      Some (mkGeminiToolConfig "ANY"
              (match choice_name value with Some name => [name] | None => [] end))
  | _ => None
  end.

Definition decodeGeminiArguments (arguments : string) : option json :=
  if str_eqb arguments "" then Some (JObj [])
  else match json_Unmarshal_any arguments with
       | Some decoded => any_of decoded
       | None => Some (JObj [("raw", JStr arguments)])
       end.

Definition text_part (s : string) : GeminiPart := mkGeminiPart s None None.
Definition call_part (call : ToolCall) : GeminiPart :=
  mkGeminiPart "" (Some (mkGeminiFunctionCall (tf_Name (tc_Function call))
                           (decodeGeminiArguments (tf_Arguments (tc_Function call))))) None.

(** [toolNames]: the function each call of the conversation is for. *)
Definition toolNames (msgs : list ChatMessage) : gmap string string :=
  foldl (fun m msg =>
    foldl (fun m call => <[tc_ID call := tf_Name (tc_Function call)]> m) m (msg_ToolCalls msg))
    ∅ msgs.

Definition result_name (names : gmap string string) (id : string) : string :=
  let mapped := default "" (names !! id) in
  if str_eqb mapped "" then id else mapped.

Definition response_part (names : gmap string string) (msg : ChatMessage) : GeminiPart :=
  mkGeminiPart "" None
    (Some (mkGeminiFunctionResponse (result_name names (msg_ToolCallID msg))
             (JObj [("content", JStr (ChatMessage_Text msg))]))).

Definition gemini_step (names : gmap string string) (native : GeminiRequest) (msg : ChatMessage)
    : GeminiRequest :=
  if str_eqb (msg_Role msg) "system" then
    mkGeminiRequest (grq_Contents native)
      (Some (mkGeminiContent "" [text_part (ChatMessage_Text msg)]))
      (grq_GenerationConfig native) (grq_Tools native) (grq_ToolConfig native)
  else
    let role := if str_eqb (msg_Role msg) "assistant" then "model" else "user" in
    let text := ChatMessage_Text msg in
    let parts := if str_eqb text "" then [] else [text_part text] in
    let parts := foldl (fun parts call => parts ++ [call_part call]) parts (msg_ToolCalls msg) in
    let '(role, parts) :=
      if str_eqb (msg_Role msg) "tool" then ("user", [response_part names msg]) else (role, parts) in
    let parts := match parts with [] => [text_part ""] | _ => parts end in
    mkGeminiRequest (grq_Contents native ++ [mkGeminiContent role parts])
      (grq_SystemInstruction native) (grq_GenerationConfig native) (grq_Tools native)
      (grq_ToolConfig native).

Definition ToGemini (req : ChatRequest) : GeminiRequest :=
  foldl (gemini_step (toolNames (req_Messages req)))
    (mkGeminiRequest [] None
       (Some (mkGeminiGenConfig (req_Temperature req) (EffectiveMaxTokens req)))
       (toGeminiTools (req_Tools req)) (toGeminiToolConfig (req_ToolChoice req)))
    (req_Messages req).

Definition from_part (acc : string * list ToolCall) (part : GeminiPart) : string * list ToolCall :=
  let '(text, toolCalls) := acc in
  (text +:+ gp_Text part,
   match gp_FunctionCall part with
   | Some fc => toolCalls ++ [mkToolCall (gfc_Name fc) "function"
                                (mkToolCallFunction (gfc_Name fc) (marshal_or_empty (gfc_Args fc)))]
   | None => toolCalls
   end).

Definition FromGemini (resp : GeminiResponse) (model : string) : ChatResponse :=
  let '(text, toolCalls, finishReason) :=
    match grs_Candidates resp with
    | [] => ("", [], "stop")
    | candidate :: _ =>
        let '(text, toolCalls) := foldl from_part ("", []) (gc_Parts (gcd_Content candidate)) in
        (text, toolCalls,
         if str_eqb (gcd_FinishReason candidate) "MAX_TOKENS" then "length"
         else if str_eqb (gcd_FinishReason candidate) "STOP" && (0 <? List.length toolCalls)%nat
         then "tool_calls" else "stop")
    end in
  mkChatResponse "" "chat.completion" 0 model
    [mkChoice 0 (assistant_message text toolCalls) finishReason None]
    (mkUsageT (grs_PromptTokenCount resp) (grs_CandidatesTokenCount resp) (grs_TotalTokenCount resp))
    "" "".

(** Embeddings *)
Record GeminiEmbeddingRequest := mkGeminiEmbeddingRequest { ger_Content : GeminiContent }.
Record GeminiEmbeddingResponse := mkGeminiEmbeddingResponse { ges_Values : list float64 }.

Definition ToGeminiEmbedding (input : string) : GeminiEmbeddingRequest :=
  mkGeminiEmbeddingRequest (mkGeminiContent "" [text_part input]).
Definition FromGeminiEmbedding (resp : GeminiEmbeddingResponse) (model : string) (index : Z)
    : EmbeddingData :=
  mkEmbeddingData "embedding" index (ges_Values resp).

(** [NormalizeChatRequest] of [openai.go] *)
Definition NormalizeChatRequest (req : ChatRequest) : ChatRequest := req.

(** ** What a conversation says

    A view of a message common to the formats: who speaks, the text, the
    calls with their decoded arguments, the results of calls. *)
Abbreviation view := (string * string * list (string * string * option json) * list (string * option json))%type.

Definition chat_call (c : ToolCall) : string * string * option json :=
  (tc_ID c, tf_Name (tc_Function c), decodeToolArguments (tf_Arguments (tc_Function c))).

Definition chat_view (m : ChatMessage) : view :=
  if decide (msg_Role m = "tool")
  then ("user", "", [], [(msg_ToolCallID m, Some (JStr (ChatMessage_Text m)))])
  else (msg_Role m, ChatMessage_Text m, chat_call <$> msg_ToolCalls m, []).

Definition of_type {A} (ty : string) (f : AnthropicContentBlock -> A) (bs : list AnthropicContentBlock)
    : list A := f <$> filter (fun b => ab_Type b = ty) bs.

Definition anthropic_view (m : AnthropicMessage) : view :=
  match am_Content m with
  | ContentText s => (am_Role m, s, [], [])
  | ContentBlocks bs =>
      (am_Role m, String.concat "" (of_type "text" ab_Text bs),
       of_type "tool_use" (fun b => (ab_ID b, ab_Name b, ab_Input b)) bs,
       of_type "tool_result" (fun b => (ab_ToolUseID b, ab_Content b)) bs)
  end.

Definition is_system (m : ChatMessage) : Prop := msg_Role m = "system".
#[export] Instance is_system_dec m : Decision (is_system m).
Proof. unfold is_system. apply _. Defined.

Definition system_text (msgs : list ChatMessage) : option string :=
  ChatMessage_Text <$> list.last (filter is_system msgs).

Lemma foldl_snoc {A B} (f : A -> B) l acc : foldl (fun acc x => acc ++ [f x]) acc l = acc ++ (f <$> l).
Proof.
  revert acc. induction l as [|x l IH]; intros acc; simpl; [by rewrite app_nil_r|].
  by rewrite IH, <-app_assoc.
Qed.

Lemma of_type_app {A} ty (f : AnthropicContentBlock -> A) bs bs' :
  of_type ty f (bs ++ bs') = of_type ty f bs ++ of_type ty f bs'.
Proof. unfold of_type. by rewrite list.filter_app, fmap_app. Qed.

Lemma of_type_calls {A} ty (f : AnthropicContentBlock -> A) calls :
  of_type ty f (tool_use_block <$> calls) =
  if decide (ty = "tool_use") then f <$> (tool_use_block <$> calls) else [].
Proof.
  unfold of_type. induction calls as [|c calls IH]; [by case_decide|]. csimpl in *.
  case_decide; subst; simpl.
  - f_equal. exact IH.
  - by rewrite filter_cons_False by (simpl; congruence).
Qed.

Definition text_blocks (text : string) : list AnthropicContentBlock :=
  if str_eqb text "" then [] else [text_block text].

Lemma calls_view role text calls :
  anthropic_view (mkAnthropicMessage role (ContentBlocks (text_blocks text ++ (tool_use_block <$> calls)))) =
  (role, text, chat_call <$> calls, []).
Proof.
  unfold anthropic_view. cbn [am_Content am_Role].
  rewrite !of_type_app, !of_type_calls.
  rewrite !(decide_False (P := _ = "tool_use")), decide_True by done. rewrite <-list_fmap_compose.
  unfold text_blocks, str_eqb. case_bool_decide as Ht; [by rewrite Ht|]. done.
Qed.

Lemma anthropic_step_spec native msg :
  let native' := anthropic_step native msg in
  arq_MaxTokens native' = arq_MaxTokens native /\
  if decide (is_system msg) then
    arq_Messages native' = arq_Messages native /\ arq_System native' = ChatMessage_Text msg
  else
    arq_System native' = arq_System native /\
    exists m, arq_Messages native' = arq_Messages native ++ [m] /\ anthropic_view m = chat_view msg.
Proof.
  unfold anthropic_step, is_system, str_eqb, chat_view. case_bool_decide; case_decide; try done.
  case_bool_decide; case_decide; try done; [by repeat (eexists || split)|].
  destruct (msg_ToolCalls msg) as [|c calls] eqn:Hc; (split; [done|split; [done|]]); (eexists; split; [done|]).
  - done.
  - rewrite foldl_snoc. apply calls_view.
Qed.

(** ** The Gemini conversation *)

Definition gemini_role (m : ChatMessage) : string :=
  if decide (msg_Role m = "assistant") then "model" else "user".

(** The parts a message must become. *)
Definition gemini_parts (names : gmap string string) (m : ChatMessage) : list GeminiPart :=
  if decide (msg_Role m = "tool") then [response_part names m]
  else
    match (if decide (ChatMessage_Text m = "") then [] else [text_part (ChatMessage_Text m)]) ++
          (call_part <$> msg_ToolCalls m) with
    | [] => [text_part ""]
    | ps => ps
    end.

Definition gemini_content (names : gmap string string) (m : ChatMessage) : GeminiContent :=
  mkGeminiContent (gemini_role m) (gemini_parts names m).

Lemma gemini_step_spec names native msg :
  let native' := gemini_step names native msg in
  if decide (is_system msg) then
    grq_Contents native' = grq_Contents native /\
    grq_SystemInstruction native' = Some (mkGeminiContent "" [text_part (ChatMessage_Text msg)])
  else
    grq_SystemInstruction native' = grq_SystemInstruction native /\
    grq_Contents native' = grq_Contents native ++ [gemini_content names msg].
Proof.
  unfold gemini_step, is_system, str_eqb. case_bool_decide; case_decide; try done.
  rewrite foldl_snoc. unfold gemini_content, gemini_role, gemini_parts, bool_decide.
  destruct (decide (msg_Role msg = "tool")) as [Ht|Ht]; [by rewrite Ht|].
  repeat (case_decide; simplify_eq/=; try done); by destruct (msg_ToolCalls msg).
Qed.

Lemma ToGemini_contents req :
  grq_Contents (ToGemini req) =
    gemini_content (toolNames (req_Messages req)) <$> filter (fun m => ~ is_system m) (req_Messages req) /\
  grq_SystemInstruction (ToGemini req) =
    (fun s => mkGeminiContent "" [text_part s]) <$> system_text (req_Messages req).
Proof.
  unfold ToGemini. generalize (toolNames (req_Messages req)) as names. intros names.
  apply (foldl_prefix_inv _ (fun l native =>
    grq_Contents native = gemini_content names <$> filter (fun m => ~ is_system m) l /\
    grq_SystemInstruction native = (fun s => mkGeminiContent "" [text_part s]) <$> system_text l)); [done|].
  intros l msg native [Hc Hs]. pose proof (gemini_step_spec names native msg) as Hstep. simpl in Hstep.
  unfold system_text in *. rewrite !list.filter_app. case_decide as Hsys; destruct Hstep as [H1 H2].
  - rewrite filter_cons_False, filter_nil, app_nil_r by tauto. rewrite H1, H2. split; [done|].
    rewrite filter_cons_True by done. by rewrite filter_nil, list.last_snoc.
  - rewrite filter_cons_True, filter_nil by done. rewrite H1, H2, Hc, fmap_app. split; [done|].
    rewrite Hs, filter_cons_False by done. by rewrite filter_nil, app_nil_r.
Qed.

(** A name recorded for a call is the function of some call with that id. *)
Lemma toolNames_sound msgs id name :
  toolNames msgs !! id = Some name ->
  exists m c, m ∈ msgs /\ c ∈ msg_ToolCalls m /\ tc_ID c = id /\ tf_Name (tc_Function c) = name.
Proof.
  unfold toolNames. revert name.
  apply (foldl_prefix_inv _ (fun l names => forall name, names !! id = Some name ->
    exists m c, m ∈ l /\ c ∈ msg_ToolCalls m /\ tc_ID c = id /\ tf_Name (tc_Function c) = name));
    [by intros ? ?%lookup_empty_Some|].
  intros l m names IH.
  assert (forall name, foldl (fun m c => <[tc_ID c := tf_Name (tc_Function c)]> m) names (msg_ToolCalls m) !! id = Some name ->
    (exists c, c ∈ msg_ToolCalls m /\ tc_ID c = id /\ tf_Name (tc_Function c) = name) \/
    names !! id = Some name) as Hin.
  { apply (foldl_prefix_inv _ (fun cs names' => forall name, names' !! id = Some name ->
      (exists c, c ∈ cs /\ tc_ID c = id /\ tf_Name (tc_Function c) = name) \/ names !! id = Some name));
      [by right|].
    intros cs c names' IHc name [[<- <-]|[? Hn]]%lookup_insert_Some; [left; exists c; set_solver|].
    destruct (IHc _ Hn) as [(c' & ? & ?)|?]; [left; exists c'; set_solver|by right]. }
  intros name [(c & ? & ?)|Hn]%Hin; [exists m, c; set_solver|].
  destruct (IH _ Hn) as (m' & c & ? & ?). exists m', c. set_solver.
Qed.

(** ** Round trips *)

(** The JSON of the arguments, as the gateway itself writes it. *)
Definition canonical (a : string) : Prop :=
  a <> "" /\ exists v, json_Unmarshal_any a = Some v /\ v <> JNull /\ json_Marshal_any v = Some a.

Definition call_wf (c : ToolCall) : Prop :=
  tc_Type c = "function" /\ canonical (tf_Arguments (tc_Function c)).

Lemma decode_canonical a :
  canonical a -> (exists v, decodeToolArguments a = Some v) /\
                 marshal_or_empty (decodeToolArguments a) = a /\
                 decodeGeminiArguments a = decodeToolArguments a.
Proof.
  intros (Ha & v & Hu & Hv & Hm). unfold decodeToolArguments, decodeGeminiArguments, str_eqb.
  rewrite bool_decide_false by done. rewrite Hu. unfold marshal_or_empty.
  destruct v; simpl; rewrite ?Hm; eauto; done.
Qed.

(** A call as it comes back: a function call with the arguments written anew
    from their value; arguments that are empty are those of an empty object,
    as are those that are [null], and a text that is no JSON is a JSON string. *)
Definition rendered (arguments : string) : string :=
  match decodeToolArguments arguments with
  | Some v => marshal_or_empty (Some v)
  | None => "{}"
  end.
Definition returned (c : ToolCall) : ToolCall :=
  mkToolCall (tc_ID c) "function" (mkToolCallFunction (tf_Name (tc_Function c)) (rendered (tf_Arguments (tc_Function c)))).

Lemma rendered_cases a :
  rendered a =
    default "{}" (if str_eqb a "" then json_Marshal_any (JObj [])
                  else match json_Unmarshal_any a with
                       | Some JNull => None
                       | Some v => json_Marshal_any v
                       | None => json_Marshal_any (JStr a)
                       end).
Proof.
  unfold rendered, decodeToolArguments, marshal_or_empty. destruct (str_eqb a ""); [done|].
  destruct (json_Unmarshal_any a) as [[]|]; done.
Qed.

Lemma returned_wf c : call_wf c -> returned c = c.
Proof.
  intros [Hty Hc]. unfold returned, rendered. destruct (decode_canonical _ Hc) as ([v Hv] & Hm & _).
  rewrite Hv in *. rewrite Hm. destruct c as [i ty [n a]]; simpl in *; by subst.
Qed.

Lemma foldl_from_calls calls text acc :
  foldl from_block (text, acc) (tool_use_block <$> calls) = (text, acc ++ (returned <$> calls)).
Proof.
  revert acc. induction calls as [|c calls IH]; intros acc; csimpl; [by rewrite app_nil_r|].
  rewrite IH, <-app_assoc. unfold returned, rendered. by destruct (decodeToolArguments _).
Qed.

Definition renamed (c : ToolCall) : ToolCall :=
  mkToolCall (tf_Name (tc_Function c)) (tc_Type c) (tc_Function c).

Lemma foldl_from_parts calls text acc : Forall call_wf calls ->
  foldl from_part (text, acc) (call_part <$> calls) = (text, acc ++ (renamed <$> calls)).
Proof.
  intros Hwf. revert acc. induction Hwf as [|c calls [Hty Hc] _ IH]; intros acc; csimpl; [by rewrite app_nil_r|].
  destruct (decode_canonical _ Hc) as (_ & Hm & ->). rewrite string_app_nil_r, Hm, IH, <-app_assoc.
  repeat f_equal. destruct c as [i ty [n a]]; unfold renamed; simpl in *; by subst.
Qed.

Lemma anthropic_step_keeps x native msg :
  x ∈ arq_Messages native -> x ∈ arq_Messages (anthropic_step native msg).
Proof.
  intros Hx. destruct (anthropic_step_spec native msg) as [_ Hs]. case_decide.
  - by destruct Hs as [-> _].
  - destruct Hs as (_ & y & -> & _). set_solver.
Qed.

Lemma anthropic_calls_sent req m :
  m ∈ req_Messages req -> msg_Role m = "assistant" -> msg_ToolCalls m <> [] ->
  mkAnthropicMessage "assistant"
    (ContentBlocks (text_blocks (ChatMessage_Text m) ++ (tool_use_block <$> msg_ToolCalls m)))
    ∈ arq_Messages (ToAnthropic req).
Proof.
  intros Hin Hr Hne. unfold ToAnthropic. revert Hin.
  apply (foldl_prefix_inv _ (fun l native => m ∈ l -> _ ∈ arq_Messages native)); [set_solver|].
  intros l msg native IH [Hin|Hin%list_elem_of_singleton]%elem_of_app;
    [by apply anthropic_step_keeps, IH|subst msg].
  unfold anthropic_step, text_blocks. rewrite Hr. cbn [str_eqb bool_decide].
  destruct (msg_ToolCalls m) as [|c cs] eqn:E; [done|]. rewrite foldl_snoc. simpl. set_solver.
Qed.

End translate.

(** Every message but the system ones reaches Anthropic, in order, under the
    same speaker, with its text, its tool calls and their decoded arguments;
    a tool's result becomes a block of the user naming the call it answers.
    The system prompt is the last system message, and the bound on the answer
    is the request's or the default. *)
Theorem ToAnthropic_conversation `{!JsonText} req :
  anthropic_view <$> arq_Messages (ToAnthropic req) =
    chat_view <$> filter (fun m => ~ is_system m) (req_Messages req) /\
  arq_System (ToAnthropic req) = default "" (system_text (req_Messages req)) /\
  arq_MaxTokens (ToAnthropic req) = default DefaultMaxTokens (EffectiveMaxTokens req).
Proof.
  unfold ToAnthropic.
  apply (foldl_prefix_inv _ (fun l native =>
    anthropic_view <$> arq_Messages native = chat_view <$> filter (fun m => ~ is_system m) l /\
    arq_System native = default "" (system_text l) /\ arq_MaxTokens native = _)); [done|].
  intros l msg native (Hc & Hs & Hm). destruct (anthropic_step_spec native msg) as [Hmax Hstep].
  unfold system_text in *. rewrite !list.filter_app, Hmax. case_decide as Hsys.
  - destruct Hstep as [H1 H2]. rewrite filter_cons_False, filter_nil, app_nil_r by tauto.
    rewrite H1, H2, filter_cons_True by done. by rewrite filter_nil, list.last_snoc.
  - destruct Hstep as (H1 & m & H2 & Hv). rewrite filter_cons_True, filter_nil by done.
    rewrite H1, H2, !fmap_app, Hc. csimpl. rewrite Hv.
    by rewrite filter_cons_False, filter_nil, app_nil_r.
Qed.

(** C17. Tool calls survive Anthropic: an assistant message with calls becomes
    content blocks which, coming back as a response, give the same text and
    the same calls in order, with their ids and names; their arguments come
    back as the JSON text the gateway writes for the value they had.  So a
    call comes back as it was if it is of type [function] and its arguments
    are in the form the gateway writes itself; otherwise the spelling may
    change: empty arguments and [null] become an empty object, white space is
    gone, and a text that is no JSON comes back as a JSON string. *)
Theorem anthropic_tool_roundtrip `{!JsonText} req m resp :
  m ∈ req_Messages req -> msg_Role m = "assistant" ->
  msg_ToolCalls m <> [] ->
  exists bs, mkAnthropicMessage "assistant" (ContentBlocks bs) ∈ arq_Messages (ToAnthropic req) /\
    (ars_Content resp = bs -> ars_StopReason resp = "tool_use" ->
     resp_Choices (FromAnthropic resp) =
       [mkChoice 0 (assistant_message (ChatMessage_Text m) (returned <$> msg_ToolCalls m)) "tool_calls" None]) /\
    (Forall call_wf (msg_ToolCalls m) -> returned <$> msg_ToolCalls m = msg_ToolCalls m) /\
    Forall (fun c => tf_Arguments (tc_Function (returned c)) =
      default "{}" (let a := tf_Arguments (tc_Function c) in
                    if str_eqb a "" then json_Marshal_any (JObj [])
                    else match json_Unmarshal_any a with
                         | Some JNull => None
                         | Some v => json_Marshal_any v
                         | None => json_Marshal_any (JStr a)
                         end)) (msg_ToolCalls m).
Proof.
  intros Hin Hr Hne. exists (text_blocks (ChatMessage_Text m) ++ (tool_use_block <$> msg_ToolCalls m)).
  split; [by apply anthropic_calls_sent|]. split_and!.
  - intros Hc Hs. unfold FromAnthropic. rewrite Hc, Hs, foldl_app.
    replace (foldl from_block ("", []) (text_blocks (ChatMessage_Text m))) with (ChatMessage_Text m, @nil ToolCall).
    + by rewrite foldl_from_calls.
    + unfold text_blocks, str_eqb. case_bool_decide as Ht; [by rewrite Ht|done].
  - intros Hwf. clear -Hwf. induction Hwf as [|c cs Hc _ IH]; csimpl; [done|]. by rewrite (returned_wf c Hc), IH.
  - apply Forall_true. intros c. apply rendered_cases.
Qed.

(** Every message but the system ones reaches Gemini, in order, as the model's
    or the user's turn with at least one part; the answer to a call is named
    after the function of a call with its id, or after the id itself if no
    call of the conversation has it; the last system message is the system
    instruction. *)
Theorem ToGemini_conversation `{!JsonText} req :
  let native := ToGemini req in
  let msgs := filter (fun m => ~ is_system m) (req_Messages req) in
  grq_Contents native = gemini_content (toolNames (req_Messages req)) <$> msgs /\
  grq_SystemInstruction native =
    (fun s => mkGeminiContent "" [text_part s]) <$> system_text (req_Messages req) /\
  Forall (fun c => (gc_Role c = "model" \/ gc_Role c = "user") /\ gc_Parts c <> []) (grq_Contents native) /\
  Forall (fun m => msg_Role m = "tool" ->
    let name := result_name (toolNames (req_Messages req)) (msg_ToolCallID m) in
    (name = msg_ToolCallID m \/
     exists m' c, m' ∈ req_Messages req /\ c ∈ msg_ToolCalls m' /\ tc_ID c = msg_ToolCallID m /\
       tf_Name (tc_Function c) = name)) msgs.
Proof.
  intros native msgs. destruct (ToGemini_contents req) as [Hc Hs]. split_and!; [done|done| |].
  - subst native. rewrite Hc. apply Forall_fmap, Forall_true. intros m. unfold compose, gemini_content. simpl.
    unfold gemini_role, gemini_parts. split; [case_decide; auto|]. case_decide; [done|]. by case_match.
  - apply Forall_true. intros m _. simpl. unfold result_name, str_eqb. case_bool_decide; [by left|]. right.
    destruct (toolNames (req_Messages req) !! msg_ToolCallID m) as [name|] eqn:Hn; [|done].
    by apply toolNames_sound.
Qed.

(** Tool calls survive Gemini but for their ids, which Gemini does not have:
    each comes back under the name of its function. *)
Theorem gemini_tool_roundtrip `{!JsonText} req m resp c rest model :
  m ∈ req_Messages req -> msg_Role m = "assistant" ->
  msg_ToolCalls m <> [] -> Forall call_wf (msg_ToolCalls m) ->
  grs_Candidates resp = c :: rest -> gcd_FinishReason c = "STOP" ->
  gcd_Content c = gemini_content (toolNames (req_Messages req)) m ->
  gcd_Content c ∈ grq_Contents (ToGemini req) /\
  resp_Choices (FromGemini resp model) =
    [mkChoice 0 (assistant_message (ChatMessage_Text m) (renamed <$> msg_ToolCalls m)) "tool_calls" None].
Proof.
  intros Hin Hr Hne Hwf Hcs Hf Hc. split.
  - rewrite (proj1 (ToGemini_contents req)), Hc. apply list_elem_of_fmap_2, list_elem_of_filter.
    split; [|done]. unfold is_system. by rewrite Hr.
  - unfold FromGemini. rewrite Hcs, Hc, Hf. unfold gemini_content, gemini_parts. rewrite Hr. simpl.
    replace (match _ ++ _ with [] => _ | _ => _ end) with
      ((if decide (ChatMessage_Text m = "") then [] else [text_part (ChatMessage_Text m)]) ++
       (call_part <$> msg_ToolCalls m))
      by (destruct (msg_ToolCalls m); [done|by case_decide]).
    rewrite foldl_app.
    replace (foldl from_part ("", []) (if decide _ then _ else _)) with (ChatMessage_Text m, @nil ToolCall)
      by (case_decide as Ht; [by rewrite Ht|done]).
    rewrite foldl_from_parts by done. by destruct (msg_ToolCalls m).
Qed.

(** ** Examples *)

#[local] Instance ex_json : JsonText := {|
  json_Marshal_any v := match v with JObj [] => Some "{}" | JNull => Some "null" | _ => None end;
  json_Unmarshal_any s := if str_eqb s "{}" then Some (JObj []) else None |}.

Definition ex_call (id : string) : ToolCall := mkToolCall id "function" (mkToolCallFunction "now" "{}").
Definition ex_tools_message : ChatMessage :=
  mkChatMessage "assistant" "wait" None "" "" [ex_call "c1"; ex_call "c2"] None None "".
Definition ex_request (msgs : list ChatMessage) : ChatRequest :=
  mkChatRequest "m" msgs None None None None None None None None None false None [] None None None
    None None "" "" "" [] None.

Lemma ex_call_wf : Forall call_wf (msg_ToolCalls ex_tools_message).
Proof. repeat constructor; try done; exists (JObj []); done. Qed.

Definition ex_blocks : list AnthropicContentBlock :=
  [text_block "wait"; tool_use_block (ex_call "c1"); tool_use_block (ex_call "c2")].

Lemma anthropic_tool_roundtrip_witness :
  exists bs, resp_Choices (FromAnthropic (mkAnthropicResponse "1" "m" bs "tool_use" 3 4)) =
    [mkChoice 0 (assistant_message "wait" [ex_call "c1"; ex_call "c2"]) "tool_calls" None].
Proof.
  destruct (anthropic_tool_roundtrip (ex_request [ex_tools_message]) ex_tools_message
    (mkAnthropicResponse "1" "m" ex_blocks "tool_use" 3 4)) as (bs & Hb & Hr & Hwf & _); [by left|done|done|].
  exists ex_blocks. apply list_elem_of_singleton in Hb. injection Hb as ->. rewrite (Hwf ex_call_wf) in Hr. by apply Hr.
Defined.

Lemma gemini_tool_roundtrip_witness :
  resp_Choices (FromGemini (mkGeminiResponse
    [mkGeminiCandidate (gemini_content ∅ ex_tools_message) "STOP"] 3 4 7) "m") =
    [mkChoice 0 (assistant_message "wait" [ex_call "now"; ex_call "now"]) "tool_calls" None].
Proof.
  apply (gemini_tool_roundtrip (ex_request [ex_tools_message]) ex_tools_message _
    (mkGeminiCandidate (gemini_content ∅ ex_tools_message) "STOP") []);
    [by left|done|done|apply ex_call_wf|done|done|done].
Defined.

(** Only the last of several system messages reaches a provider. *)
Example system_messages_lost :
  let req := ex_request [text_message "system" "be brief"; text_message "system" "use French";
                         text_message "user" "hi"] in
  arq_System (ToAnthropic req) = "use French" /\
  grq_SystemInstruction (ToGemini req) = Some (mkGeminiContent "" [text_part "use French"]).
Proof. done. Qed.

(** Two calls of one function come back from Gemini under the same id. *)
Example gemini_ids_collide :
  let calls := (foldl from_part ("", []) [call_part (ex_call "c1"); call_part (ex_call "c2")]).2 in
  tc_ID <$> calls = ["now"; "now"].
Proof. done. Qed.
