(* ===== verification/Wire.v ===== *)
(** * Decoding provider payloads

    The structs that [internal/provider] and [internal/translate] pass to
    [json.Unmarshal], decoded from parsed JSON values with the rules of
    [Types]: members set the fields they name, case-insensitively, unknown
    members are ignored, and a value of the wrong type is an error. *)

From Stdlib Require Import Ascii String.
From S2P Require Import Prelude GoFloat GoStrings Types Translate.
Open Scope string_scope.
Open Scope list_scope.
Open Scope Z_scope.

(** ** Structs as tables of fields *)
Abbreviation field A := (string * (json -> A -> result A unit))%type (only parsing).

Definition fields {A} (fs : list (string * (json -> A -> result A unit)))
    (k : string) (v : json) (a : A) : option (result A unit) :=
  match list_find (fun f => key_is f.1 k = true) fs with
  | Some (_, f) => Some (f.2 v a)
  | None => None
  end.

Definition struct_of {A} (fs : list (string * (json -> A -> result A unit))) (v : json) (a : A)
    : result A unit := dec_struct false (fields fs) v a.

Definition on_str {A} (get : A -> string) (put : string -> A -> A) (v : json) (a : A) : result A unit :=
  let? s := dec_str v (get a) in Ok (put s a).
Definition on_int {A} (get : A -> Z) (put : Z -> A -> A) (v : json) (a : A) : result A unit :=
  let? z := dec_int v (get a) in Ok (put z a).
Definition on_any {A} (put : option json -> A -> A) (v : json) (a : A) : result A unit :=
  Ok (put (any_of v) a).

(** A slice of structs; null is nil, decoded here to the empty list. *)
Definition slice_of {B} (fs : list (string * (json -> B -> result B unit))) (zero : B) (v : json)
    : result (list B) unit :=
  let? l := dec_slice false (fields fs) zero v None in Ok (default [] l).

(** ** Anthropic *)

Record message_start := mkMessageStart { ms_InputTokens : Z }.
Definition dec_message_start (v : json) : result message_start unit :=
  struct_of [("message", struct_of [("usage", struct_of
    [("input_tokens", on_int ms_InputTokens (fun z _ => mkMessageStart z))])])] v (mkMessageStart 0).

Record block_start := mkBlockStart { bs_Index : Z; bs_Type : string; bs_ID : string; bs_Name : string }.
Definition dec_block_start (v : json) : result block_start unit :=
  struct_of
    [("index", on_int bs_Index (fun z b => mkBlockStart z (bs_Type b) (bs_ID b) (bs_Name b)));
     ("content_block", struct_of
        [("type", on_str bs_Type (fun s b => mkBlockStart (bs_Index b) s (bs_ID b) (bs_Name b)));
         ("id", on_str bs_ID (fun s b => mkBlockStart (bs_Index b) (bs_Type b) s (bs_Name b)));
         ("name", on_str bs_Name (fun s b => mkBlockStart (bs_Index b) (bs_Type b) (bs_ID b) s))])]
    v (mkBlockStart 0 "" "" "").

Record block_delta := mkBlockDelta { bd_Type : string; bd_Text : string; bd_PartialJSON : string; bd_Index : Z }.
Definition dec_block_delta (v : json) : result block_delta unit :=
  struct_of
    [("delta", struct_of
        [("type", on_str bd_Type (fun s b => mkBlockDelta s (bd_Text b) (bd_PartialJSON b) (bd_Index b)));
         ("text", on_str bd_Text (fun s b => mkBlockDelta (bd_Type b) s (bd_PartialJSON b) (bd_Index b)));
         ("partial_json", on_str bd_PartialJSON (fun s b => mkBlockDelta (bd_Type b) (bd_Text b) s (bd_Index b)))]);
     ("index", on_int bd_Index (fun z b => mkBlockDelta (bd_Type b) (bd_Text b) (bd_PartialJSON b) z))]
    v (mkBlockDelta "" "" "" 0).

Record message_delta := mkMessageDelta { md_StopReason : string; md_OutputTokens : Z }.
Definition dec_message_delta (v : json) : result message_delta unit :=
  struct_of
    [("delta", struct_of
        [("stop_reason", on_str md_StopReason (fun s m => mkMessageDelta s (md_OutputTokens m)))]);
     ("usage", struct_of
        [("output_tokens", on_int md_OutputTokens (fun z m => mkMessageDelta (md_StopReason m) z))])]
    v (mkMessageDelta "" 0).

Definition zero_block : AnthropicContentBlock := mkBlock "" "" "" "" None "" None.
Definition block_fields : list (string * (json -> AnthropicContentBlock -> result AnthropicContentBlock unit)) :=
  [("type", on_str ab_Type (fun s b => mkBlock s (ab_Text b) (ab_ID b) (ab_Name b) (ab_Input b) (ab_ToolUseID b) (ab_Content b)));
   ("text", on_str ab_Text (fun s b => mkBlock (ab_Type b) s (ab_ID b) (ab_Name b) (ab_Input b) (ab_ToolUseID b) (ab_Content b)));
   ("id", on_str ab_ID (fun s b => mkBlock (ab_Type b) (ab_Text b) s (ab_Name b) (ab_Input b) (ab_ToolUseID b) (ab_Content b)));
   ("name", on_str ab_Name (fun s b => mkBlock (ab_Type b) (ab_Text b) (ab_ID b) s (ab_Input b) (ab_ToolUseID b) (ab_Content b)));
   ("input", on_any (fun x b => mkBlock (ab_Type b) (ab_Text b) (ab_ID b) (ab_Name b) x (ab_ToolUseID b) (ab_Content b)));
   ("tool_use_id", on_str ab_ToolUseID (fun s b => mkBlock (ab_Type b) (ab_Text b) (ab_ID b) (ab_Name b) (ab_Input b) s (ab_Content b)));
   ("content", on_any (fun x b => mkBlock (ab_Type b) (ab_Text b) (ab_ID b) (ab_Name b) (ab_Input b) (ab_ToolUseID b) x))].

Definition dec_AnthropicResponse (v : json) : result AnthropicResponse unit :=
  struct_of
    [("id", on_str ars_ID (fun s r => mkAnthropicResponse s (ars_Model r) (ars_Content r) (ars_StopReason r) (ars_InputTokens r) (ars_OutputTokens r)));
     ("model", on_str ars_Model (fun s r => mkAnthropicResponse (ars_ID r) s (ars_Content r) (ars_StopReason r) (ars_InputTokens r) (ars_OutputTokens r)));
     ("content", fun v r => let? bs := slice_of block_fields zero_block v in
        Ok (mkAnthropicResponse (ars_ID r) (ars_Model r) bs (ars_StopReason r) (ars_InputTokens r) (ars_OutputTokens r)));
     ("stop_reason", on_str ars_StopReason (fun s r => mkAnthropicResponse (ars_ID r) (ars_Model r) (ars_Content r) s (ars_InputTokens r) (ars_OutputTokens r)));
     ("usage", struct_of
        [("input_tokens", on_int ars_InputTokens (fun z r => mkAnthropicResponse (ars_ID r) (ars_Model r) (ars_Content r) (ars_StopReason r) z (ars_OutputTokens r)));
         ("output_tokens", on_int ars_OutputTokens (fun z r => mkAnthropicResponse (ars_ID r) (ars_Model r) (ars_Content r) (ars_StopReason r) (ars_InputTokens r) z))])]
    v (mkAnthropicResponse "" "" [] "" 0 0).

(** ** Gemini *)

Definition zero_part : GeminiPart := mkGeminiPart "" None None.
Definition dec_call (v : json) (old : option GeminiFunctionCall) : result (option GeminiFunctionCall) unit :=
  dec_ptr false (fields
    [("name", on_str gfc_Name (fun s c => mkGeminiFunctionCall s (gfc_Args c)));
     ("args", on_any (fun x c => mkGeminiFunctionCall (gfc_Name c) x))]) (mkGeminiFunctionCall "" None) v old.
Definition dec_call_response (v : json) (old : option GeminiFunctionResponse)
    : result (option GeminiFunctionResponse) unit :=
  dec_ptr false (fields
    [("name", on_str gfr_Name (fun s c => mkGeminiFunctionResponse s (gfr_Response c)));
     ("response", fun v c => Ok (mkGeminiFunctionResponse (gfr_Name c) v))])
    (mkGeminiFunctionResponse "" JNull) v old.
Definition part_fields : list (string * (json -> GeminiPart -> result GeminiPart unit)) :=
  [("text", on_str gp_Text (fun s p => mkGeminiPart s (gp_FunctionCall p) (gp_FunctionResponse p)));
   ("functionCall", fun v p => let? c := dec_call v (gp_FunctionCall p) in
      Ok (mkGeminiPart (gp_Text p) c (gp_FunctionResponse p)));
   ("functionResponse", fun v p => let? c := dec_call_response v (gp_FunctionResponse p) in
      Ok (mkGeminiPart (gp_Text p) (gp_FunctionCall p) c))].
Definition content_fields : list (string * (json -> GeminiContent -> result GeminiContent unit)) :=
  [("role", on_str gc_Role (fun s c => mkGeminiContent s (gc_Parts c)));
   ("parts", fun v c => let? ps := slice_of part_fields zero_part v in Ok (mkGeminiContent (gc_Role c) ps))].
Definition candidate_fields : list (string * (json -> GeminiCandidate -> result GeminiCandidate unit)) :=
  [("content", fun v c => let? x := struct_of content_fields v (gcd_Content c) in
      Ok (mkGeminiCandidate x (gcd_FinishReason c)));
   ("finishReason", on_str gcd_FinishReason (fun s c => mkGeminiCandidate (gcd_Content c) s))].
Definition zero_candidate : GeminiCandidate := mkGeminiCandidate (mkGeminiContent "" []) "".

Definition dec_GeminiResponse (v : json) : result GeminiResponse unit :=
  struct_of
    [("candidates", fun v r => let? cs := slice_of candidate_fields zero_candidate v in
        Ok (mkGeminiResponse cs (grs_PromptTokenCount r) (grs_CandidatesTokenCount r) (grs_TotalTokenCount r)));
     ("usageMetadata", struct_of
        [("promptTokenCount", on_int grs_PromptTokenCount (fun z r =>
            mkGeminiResponse (grs_Candidates r) z (grs_CandidatesTokenCount r) (grs_TotalTokenCount r)));
         ("candidatesTokenCount", on_int grs_CandidatesTokenCount (fun z r =>
            mkGeminiResponse (grs_Candidates r) (grs_PromptTokenCount r) z (grs_TotalTokenCount r)));
         ("totalTokenCount", on_int grs_TotalTokenCount (fun z r =>
            mkGeminiResponse (grs_Candidates r) (grs_PromptTokenCount r) (grs_CandidatesTokenCount r) z))])]
    v (mkGeminiResponse [] 0 0 0).

(** ** OpenAI *)

Definition usage_fields : list (string * (json -> Usage -> result Usage unit)) :=
  [("prompt_tokens", on_int us_PromptTokens (fun z u => mkUsageT z (us_CompletionTokens u) (us_TotalTokens u)));
   ("completion_tokens", on_int us_CompletionTokens (fun z u => mkUsageT (us_PromptTokens u) z (us_TotalTokens u)));
   ("total_tokens", on_int us_TotalTokens (fun z u => mkUsageT (us_PromptTokens u) (us_CompletionTokens u) z))].
Definition zero_usage : Usage := mkUsageT 0 0 0.

Definition choice_fields : list (string * (json -> Choice -> result Choice unit)) :=
  [("index", on_int ch_Index (fun z c => mkChoice z (ch_Message c) (ch_FinishReason c) (ch_Logprobs c)));
   ("message", fun v c => let? m := ChatMessage_UnmarshalJSON v in
      Ok (mkChoice (ch_Index c) m (ch_FinishReason c) (ch_Logprobs c)));
   ("finish_reason", on_str ch_FinishReason (fun s c => mkChoice (ch_Index c) (ch_Message c) s (ch_Logprobs c)));
   ("logprobs", on_any (fun x c => mkChoice (ch_Index c) (ch_Message c) (ch_FinishReason c) x))].
Definition zero_choice : Choice := mkChoice 0 zero_message "" None.

Definition dec_ChatResponse (v : json) : result ChatResponse unit :=
  struct_of
    [("id", on_str resp_ID (fun s r => mkChatResponse s (resp_Object r) (resp_Created r) (resp_Model r) (resp_Choices r) (resp_Usage r) (resp_SystemFingerprint r) (resp_ServiceTier r)));
     ("object", on_str resp_Object (fun s r => mkChatResponse (resp_ID r) s (resp_Created r) (resp_Model r) (resp_Choices r) (resp_Usage r) (resp_SystemFingerprint r) (resp_ServiceTier r)));
     ("created", on_int resp_Created (fun z r => mkChatResponse (resp_ID r) (resp_Object r) z (resp_Model r) (resp_Choices r) (resp_Usage r) (resp_SystemFingerprint r) (resp_ServiceTier r)));
     ("model", on_str resp_Model (fun s r => mkChatResponse (resp_ID r) (resp_Object r) (resp_Created r) s (resp_Choices r) (resp_Usage r) (resp_SystemFingerprint r) (resp_ServiceTier r)));
     ("choices", fun v r => let? cs := slice_of choice_fields zero_choice v in
        Ok (mkChatResponse (resp_ID r) (resp_Object r) (resp_Created r) (resp_Model r) cs (resp_Usage r) (resp_SystemFingerprint r) (resp_ServiceTier r)));
     ("usage", fun v r => let? u := struct_of usage_fields v (resp_Usage r) in
        Ok (mkChatResponse (resp_ID r) (resp_Object r) (resp_Created r) (resp_Model r) (resp_Choices r) u (resp_SystemFingerprint r) (resp_ServiceTier r)));
     ("system_fingerprint", on_str resp_SystemFingerprint (fun s r => mkChatResponse (resp_ID r) (resp_Object r) (resp_Created r) (resp_Model r) (resp_Choices r) (resp_Usage r) s (resp_ServiceTier r)));
     ("service_tier", on_str resp_ServiceTier (fun s r => mkChatResponse (resp_ID r) (resp_Object r) (resp_Created r) (resp_Model r) (resp_Choices r) (resp_Usage r) (resp_SystemFingerprint r) s))]
    v (mkChatResponse "" "" 0 "" [] zero_usage "" "").

(** [*string] *)
Definition dec_str_ptr (v : json) (old : option string) : result (option string) unit :=
  match v with JNull => Ok None | _ => let? s := dec_str v (default "" old) in Ok (Some s) end.

Definition stream_choice_fields : list (string * (json -> StreamChoice -> result StreamChoice unit)) :=
  [("index", on_int sc_Index (fun z c => mkStreamChoice z (sc_Delta c) (sc_FinishReason c) (sc_Logprobs c)));
   ("delta", fun v c => let? m := ChatMessage_UnmarshalJSON v in
      Ok (mkStreamChoice (sc_Index c) m (sc_FinishReason c) (sc_Logprobs c)));
   ("finish_reason", fun v c => let? f := dec_str_ptr v (sc_FinishReason c) in
      Ok (mkStreamChoice (sc_Index c) (sc_Delta c) f (sc_Logprobs c)));
   ("logprobs", on_any (fun x c => mkStreamChoice (sc_Index c) (sc_Delta c) (sc_FinishReason c) x))].
Definition zero_stream_choice : StreamChoice := mkStreamChoice 0 zero_message None None.

Definition dec_StreamChunk (v : json) : result StreamChunk unit :=
  struct_of
    [("id", on_str sk_ID (fun s c => mkStreamChunk s (sk_Object c) (sk_Created c) (sk_Model c) (sk_Choices c) (sk_Usage c) (sk_SystemFingerprint c)));
     ("object", on_str sk_Object (fun s c => mkStreamChunk (sk_ID c) s (sk_Created c) (sk_Model c) (sk_Choices c) (sk_Usage c) (sk_SystemFingerprint c)));
     ("created", on_int sk_Created (fun z c => mkStreamChunk (sk_ID c) (sk_Object c) z (sk_Model c) (sk_Choices c) (sk_Usage c) (sk_SystemFingerprint c)));
     ("model", on_str sk_Model (fun s c => mkStreamChunk (sk_ID c) (sk_Object c) (sk_Created c) s (sk_Choices c) (sk_Usage c) (sk_SystemFingerprint c)));
     ("choices", fun v c => let? cs := slice_of stream_choice_fields zero_stream_choice v in
        Ok (mkStreamChunk (sk_ID c) (sk_Object c) (sk_Created c) (sk_Model c) cs (sk_Usage c) (sk_SystemFingerprint c)));
     ("usage", fun v c => let? u := dec_ptr false (fields usage_fields) zero_usage v (sk_Usage c) in
        Ok (mkStreamChunk (sk_ID c) (sk_Object c) (sk_Created c) (sk_Model c) (sk_Choices c) u (sk_SystemFingerprint c)));
     ("system_fingerprint", on_str sk_SystemFingerprint (fun s c => mkStreamChunk (sk_ID c) (sk_Object c) (sk_Created c) (sk_Model c) (sk_Choices c) (sk_Usage c) s))]
    v (mkStreamChunk "" "" 0 "" [] None "").

(** ** Errors and model lists *)

(** The two messages of an error body: [error.message] and [message]. *)
Record error_body := mkErrorBody { eb_Error : string; eb_Message : string }.
Definition error_message_fields : list (string * (json -> error_body -> result error_body unit)) :=
  [("message", on_str eb_Error (fun s b => mkErrorBody s (eb_Message b)))].
Definition dec_error_envelope (v : json) : result error_body unit :=
  struct_of
    [("error", struct_of error_message_fields);
     ("message", on_str eb_Message (fun s b => mkErrorBody (eb_Error b) s))]
    v (mkErrorBody "" "").
(** [anthropicErrorResponse] has a type besides; [geminiErrorResponse] not. *)
Definition dec_anthropic_error (v : json) : result error_body unit :=
  struct_of
    [("error", struct_of (("type", on_str (fun _ => "") (fun _ b => b)) :: error_message_fields))]
    v (mkErrorBody "" "").
Definition dec_gemini_error (v : json) : result error_body unit :=
  struct_of [("error", struct_of error_message_fields)] v (mkErrorBody "" "").

(** [{"data": [{"id": ...}]}] and [{"models": [{"name": ...}]}] *)
Definition dec_names (list_key name_key : string) (v : json) : result (list string) unit :=
  struct_of [(list_key, fun v _ => slice_of [(name_key, fun v s => dec_str v s)] "" v)] v [].

(** A decoded object, for the events the providers send. *)
Lemma struct_of_obj {A} (fs : list (string * (json -> A -> result A unit))) ms a :
  struct_of fs (JObj ms) a = dec_members false (fields fs) ms a.
Proof. done. Qed.
