(* ===== verification/Pricing.v ===== *)
(** * The price catalog (internal/pricing/catalog.go) *)

From S2P Require Import Prelude GoFloat GoStrings.
From Stdlib Require Import String Sorting.Permutation Sorting.Sorted.
Open Scope string_scope.
Open Scope list_scope.
Open Scope Z_scope.

Definition DefaultCurrency : string := "USD".
Definition UnknownUseFallback : string := "fallback".
Definition UnknownReject : string := "reject".

(** ** Data *)
Record Rule := mkRule {
  r_Provider : string;
  r_Model : string;
  InputPerMillionTokensUSD : float64;
  OutputPerMillionTokensUSD : float64;
  EmbeddingPerMillionTokensUSD : float64
}.

Record Estimate := mkEstimate {
  e_USD : float64;
  e_Known : bool;
  e_Currency : string;
  e_Version : string
}.

Record Catalog := mkCatalog {
  cat_rules : list Rule;
  cat_fallback : float64;
  cat_currency : string;
  cat_version : string;
  cat_unknown : string
}.

(** The errors of [NewCatalog], and [ErrUnknownPrice]. *)
Inductive PricingError : Type :=
| NegativeFallback
| UnsupportedCurrency (currency : string)
| UnknownPolicy (policy : string)
| RuleIncomplete (i : nat)
| RuleNegativeRate (i : nat)
| RuleNoRate (i : nat)
| ErrUnknownPrice.

(** ** Construction *)

(** The checks on one rule, in the order of the code. *)
Definition check_rule (i : nat) (r : Rule) : result unit PricingError :=
  if str_eqb (r_Provider r) "" || str_eqb (r_Model r) "" then Err (RuleIncomplete i)
  else if (InputPerMillionTokensUSD r <? 0) || (OutputPerMillionTokensUSD r <? 0)
          || (EmbeddingPerMillionTokensUSD r <? 0) then Err (RuleNegativeRate i)
  else if (InputPerMillionTokensUSD r =? 0) && (OutputPerMillionTokensUSD r =? 0)
          && (EmbeddingPerMillionTokensUSD r =? 0) then Err (RuleNoRate i)
  else Ok tt.

Fixpoint check_rules (i : nat) (rs : list Rule) : result unit PricingError :=
  match rs with
  | [] => Ok tt
  | r :: rs => let? _ := check_rule i r in check_rules (S i) rs
  end.

(** The [less] function of the sort: provider, then model, bytewise. *)
Definition rule_less (a b : Rule) : bool :=
  if str_eqb (r_Provider a) (r_Provider b)
  then String.ltb (r_Model a) (r_Model b)
  else String.ltb (r_Provider a) (r_Provider b).

Definition sort_rules (l : list Rule) : list Rule := stable_sort rule_less l.

Definition NewCatalog (rules : list Rule) (fallback : float64)
    (currency version unknownPolicy : string) : result Catalog PricingError :=
  if fallback <? 0 then Err NegativeFallback
  else
    let currency := if str_eqb currency "" then DefaultCurrency else currency in
    if negb (EqualFold currency DefaultCurrency) then Err (UnsupportedCurrency currency)
    else
      let unknownPolicy :=
        if str_eqb unknownPolicy "" then UnknownUseFallback else unknownPolicy in
      if negb (str_eqb unknownPolicy UnknownUseFallback)
         && negb (str_eqb unknownPolicy UnknownReject) then Err (UnknownPolicy unknownPolicy)
      else
        let? _ := check_rules 0 rules in
        Ok (mkCatalog (sort_rules rules) fallback currency version unknownPolicy).

(** ** Lookup *)
Definition modelMatches (pattern model : string) : bool :=
  if str_eqb pattern model then true else path_matches pattern model.

Definition ruleRank (rule : Rule) (model : string) : Z :=
  if str_eqb (r_Model rule) model then 2 else 1.

(** [float64(tokens) * rate / 1_000_000] *)
Definition perMillion (tokens : Z) (rate : float64) : float64 :=
  fdiv (fmul (f64_of_int tokens) rate) (f64_of_int 1000000).

(** The rate [bestRule] compares. *)
Definition rule_rate (embedding : bool) (r : Rule) : float64 :=
  if embedding then EmbeddingPerMillionTokensUSD r
  else fadd (InputPerMillionTokensUSD r) (OutputPerMillionTokensUSD r).

(** One iteration of the loop of [bestRule]. *)
Definition bestRule_step (provider model : string) (embedding : bool)
    (best : option Rule) (rule : Rule) : option Rule :=
  if negb (str_eqb provider "") && negb (str_eqb (r_Provider rule) provider) then best
  else if negb (modelMatches (r_Model rule) model) then best
  else if rule_rate embedding rule <=? 0 then best
  else
    match best with
    | None => Some rule
    | Some b =>
        if (ruleRank b model <? ruleRank rule model)
           || ((ruleRank rule model =? ruleRank b model)
               && (rule_rate embedding b <? rule_rate embedding rule))
        then Some rule else Some b
    end.

Definition bestRule (c : Catalog) (provider model : string) (embedding : bool) : option Rule :=
  foldl (bestRule_step provider model embedding) None (cat_rules c).

Definition unknownEstimate (c : Catalog) (tokens : Z) : result Estimate PricingError :=
  if str_eqb (cat_unknown c) UnknownReject then Err ErrUnknownPrice
  else Ok (mkEstimate (perMillion tokens (cat_fallback c)) false (cat_currency c) (cat_version c)).

(** The chat cost of a rule, as written in [Chat] and [EstimateChat]. *)
Definition chat_cost (promptTokens completionTokens : Z) (r : Rule) : float64 :=
  fadd (perMillion promptTokens (InputPerMillionTokensUSD r))
       (perMillion completionTokens (OutputPerMillionTokensUSD r)).

Definition Catalog_Chat (c : Catalog) (provider model : string)
    (promptTokens completionTokens : Z) : result Estimate PricingError :=
  let promptTokens := if promptTokens <? 0 then 0 else promptTokens in
  let completionTokens := if completionTokens <? 0 then 0 else completionTokens in
  match bestRule c provider model false with
  | Some rule =>
      Ok (mkEstimate (chat_cost promptTokens completionTokens rule) true
            (cat_currency c) (cat_version c))
  | None => unknownEstimate c (iadd promptTokens completionTokens)
  end.

(** One iteration of the loop of [EstimateChat]: the best rule so far with its
    cost ([bestCost] is -1 before the first). *)
Definition EstimateChat_step (model : string) (promptTokens completionTokens : Z)
    (acc : option (Rule * float64)) (rule : Rule) : option (Rule * float64) :=
  if negb (modelMatches (r_Model rule) model) then acc
  else
    let candidateCost := chat_cost promptTokens completionTokens rule in
    match acc with
    | None => Some (rule, candidateCost)
    | Some (best, bestCost) =>
        if (bestCost <? candidateCost)
           || ((candidateCost =? bestCost) && (ruleRank best model <? ruleRank rule model))
        then Some (rule, candidateCost) else acc
    end.

Definition Catalog_EstimateChat (c : Catalog) (model : string)
    (promptTokens completionTokens : Z) : result Estimate PricingError :=
  match foldl (EstimateChat_step model promptTokens completionTokens) None (cat_rules c) with
  | Some (best, _) =>
      Ok (mkEstimate (chat_cost promptTokens completionTokens best) true
            (cat_currency c) (cat_version c))
  | None => unknownEstimate c (iadd promptTokens completionTokens)
  end.

Definition Catalog_Embedding (c : Catalog) (provider model : string) (tokens : Z)
    : result Estimate PricingError :=
  let tokens := if tokens <? 0 then 0 else tokens in
  match bestRule c provider model true with
  | Some rule =>
      Ok (mkEstimate (perMillion tokens (EmbeddingPerMillionTokensUSD rule)) true
            (cat_currency c) (cat_version c))
  | None => unknownEstimate c tokens
  end.

(** ** Construction establishes a valid catalog *)
Record rule_valid (r : Rule) : Prop := {
  rule_provider : r_Provider r <> "";
  rule_model : r_Model r <> "";
  rule_input : 0 <= InputPerMillionTokensUSD r;
  rule_output : 0 <= OutputPerMillionTokensUSD r;
  rule_embedding : 0 <= EmbeddingPerMillionTokensUSD r;
  rule_some_rate : 0 < InputPerMillionTokensUSD r \/ 0 < OutputPerMillionTokensUSD r \/
                   0 < EmbeddingPerMillionTokensUSD r
}.

Definition rule_le : Rule -> Rule -> Prop := not_less rule_less.

Record catalog_valid (rules : list Rule) (c : Catalog) : Prop := {
  cv_perm : Permutation rules (cat_rules c);
  cv_sorted : Sorted rule_le (cat_rules c);
  cv_rules : Forall rule_valid (cat_rules c);
  cv_fallback : 0 <= cat_fallback c;
  cv_currency : EqualFold (cat_currency c) DefaultCurrency = true;
  cv_unknown : cat_unknown c = UnknownUseFallback \/ cat_unknown c = UnknownReject
}.

Section construction.

Lemma check_rule_valid i r : check_rule i r = Ok tt <-> rule_valid r.
Proof.
  unfold check_rule, str_eqb. split.
  - intros H. repeat case_bool_decide; simpl in H; go_split; split; try done; lia.
  - intros []. rewrite !bool_decide_eq_false_2 by done. simpl.
    replace ((_ <? 0) || (_ <? 0) || (_ <? 0)) with false by lia.
    replace ((_ =? 0) && (_ =? 0) && (_ =? 0)) with false by lia. done.
Qed.

Lemma check_rules_valid i rs : check_rules i rs = Ok tt <-> Forall rule_valid rs.
Proof.
  revert i; induction rs as [|r rs IH]; intros i; simpl; [by split; [constructor|]|].
  rewrite List.Forall_cons_iff, <-(check_rule_valid i), <-(IH (S i)).
  destruct (check_rule i r) as [[]|]; naive_solver.
Qed.

Lemma rule_less_asym a b : rule_less a b = true -> rule_less b a = false.
Proof.
  unfold rule_less, str_eqb. repeat case_bool_decide; try congruence; apply string_ltb_asym.
Qed.

End construction.

(** A catalog accepted by [NewCatalog] holds exactly the given rules,
    sorted by provider and model, each complete and with non-negative rates
    of which one is positive; the fallback is non-negative, the currency is
    USD and the policy is one of the two known ones. *)
Theorem NewCatalog_valid rules fallback currency version policy c :
  NewCatalog rules fallback currency version policy = Ok c -> catalog_valid rules c.
Proof.
  unfold NewCatalog. cbv zeta. set (cur := if str_eqb currency "" then _ else _).
  set (pol := if str_eqb policy "" then _ else _).
  destruct (fallback <? 0) eqn:Hf; [done|].
  destruct (EqualFold cur DefaultCurrency) eqn:Hc; [|done].
  destruct (negb _ && negb _) eqn:Hp; [done|].
  destruct (check_rules 0 rules) as [[]|] eqn:Hr; [|done]. intros [= <-].
  apply check_rules_valid in Hr.
  rewrite andb_false_iff, !negb_false_iff, !str_eqb_true in Hp.
  split; simpl; [apply stable_sort_perm|apply stable_sort_sorted, rule_less_asym|by rewrite <-(stable_sort_perm rule_less)|lia|done|tauto].
Qed.

Definition ex_rules : list Rule :=
  [mkRule "openai" "gpt-4o" (f64_of_int 5) (f64_of_int 6) 0;
   mkRule "openai" "gpt-*" (f64_of_int 1) (f64_of_int 2) 0;
   mkRule "anthropic" "gpt-4o" (f64_of_int 3) (f64_of_int 4) 0].

Definition ex_catalog : Catalog :=
  mkCatalog [mkRule "anthropic" "gpt-4o" (f64_of_int 3) (f64_of_int 4) 0;
             mkRule "openai" "gpt-*" (f64_of_int 1) (f64_of_int 2) 0;
             mkRule "openai" "gpt-4o" (f64_of_int 5) (f64_of_int 6) 0]
    (f64_const 1 100) "USD" "v1" "fallback".

Lemma NewCatalog_valid_witness :
  NewCatalog ex_rules (f64_const 1 100) "" "v1" "" = Ok ex_catalog /\
  catalog_valid ex_rules ex_catalog.
Proof.
  assert (NewCatalog ex_rules (f64_const 1 100) "" "v1" "" = Ok ex_catalog) as H
    by (vm_compute; reflexivity).
  split; [exact H|]. exact (NewCatalog_valid _ _ _ _ _ _ H).
Defined.

(** ** Which rule prices a request *)

(** The rules [bestRule] considers for a provider (any, if empty) and model. *)
Definition eligible (provider model : string) (embedding : bool) (r : Rule) : Prop :=
  (provider = "" \/ r_Provider r = provider) /\ modelMatches (r_Model r) model = true /\
  0 < rule_rate embedding r.

(** Lexicographic preference: exact model name first, then the higher rate. *)
Definition preferred (model : string) (embedding : bool) (r r' : Rule) : Prop :=
  ruleRank r' model < ruleRank r model \/
  (ruleRank r' model = ruleRank r model /\ rule_rate embedding r' <= rule_rate embedding r).

Definition best_of (provider model : string) (embedding : bool) (rs : list Rule)
    (best : option Rule) : Prop :=
  match best with
  | Some r =>
      r ∈ rs /\ eligible provider model embedding r /\
      forall r', r' ∈ rs -> eligible provider model embedding r' -> preferred model embedding r r'
  | None => forall r, r ∈ rs -> ~ eligible provider model embedding r
  end.

Section lookup.

(** The three [continue] guards of [bestRule] are the negation of [eligible]. *)
Lemma bestRule_step_skip provider model embedding best r :
  ~ eligible provider model embedding r ->
  bestRule_step provider model embedding best r = best.
Proof.
  intros Hn. unfold bestRule_step.
  destruct (str_eqb provider "") eqn:E1, (str_eqb (r_Provider r) provider) eqn:E2,
    (modelMatches (r_Model r) model) eqn:E3, (rule_rate embedding r <=? 0) eqn:E4; simpl; try done;
    exfalso; apply Hn; rewrite ?str_eqb_true in *; split_and!; auto; lia.
Qed.

Lemma bestRule_step_take provider model embedding best r :
  eligible provider model embedding r ->
  bestRule_step provider model embedding best r =
    match best with
    | None => Some r
    | Some b =>
        if (ruleRank b model <? ruleRank r model)
           || ((ruleRank r model =? ruleRank b model)
               && (rule_rate embedding b <? rule_rate embedding r)) then Some r else Some b
    end.
Proof.
  intros (Hp & Hm & Hr). unfold bestRule_step. rewrite Hm.
  replace (rule_rate embedding r <=? 0) with false by lia.
  assert (negb (str_eqb provider "") && negb (str_eqb (r_Provider r) provider) = false) as ->; [|done].
  rewrite andb_false_iff, !negb_false_iff, !str_eqb_true. done.
Qed.

Lemma eligible_dec provider model embedding r :
  Decision (eligible provider model embedding r).
Proof. unfold eligible. apply _. Qed.

Lemma bestRule_best c provider model embedding :
  best_of provider model embedding (cat_rules c) (bestRule c provider model embedding).
Proof.
  unfold bestRule.
  apply (foldl_prefix_inv _ (fun rs b => best_of provider model embedding rs b)).
  { intros r Hr. by apply elem_of_nil in Hr. }
  intros rs r best IH. destruct (eligible_dec provider model embedding r) as [He|He].
  - rewrite bestRule_step_take by done. destruct best as [b|]; simpl in *.
    + destruct IH as (Hin & Heb & Hmax).
      destruct (_ || _) eqn:E; simpl; split_and!; try done; try set_solver;
        intros r' [Hr'| ->%list_elem_of_singleton]%elem_of_app He'; unfold preferred in *; try lia.
      * specialize (Hmax r' Hr' He'). lia.
      * by apply Hmax.
    + split_and!; [set_solver|done|].
      intros r' [Hr'| ->%list_elem_of_singleton]%elem_of_app He'; [by destruct (IH r' Hr')|].
      unfold preferred. lia.
  - rewrite bestRule_step_skip by done. destruct best as [b|]; simpl in *; [|set_solver].
    destruct IH as (Hin & Heb & Hmax). split_and!; [set_solver|done|].
    intros r' [Hr'| ->%list_elem_of_singleton]%elem_of_app He'; [by apply Hmax|done].
Qed.

(** [EstimateChat]'s loop keeps a rule of maximal cost. *)
Definition costliest (model : string) (p q : Z) (rs : list Rule)
    (acc : option (Rule * float64)) : Prop :=
  match acc with
  | Some (best, cost) =>
      cost = chat_cost p q best /\
      forall r, r ∈ rs -> modelMatches (r_Model r) model = true -> chat_cost p q r <= cost
  | None => forall r, r ∈ rs -> modelMatches (r_Model r) model = false
  end.

Lemma EstimateChat_costliest model p q rs :
  costliest model p q rs (foldl (EstimateChat_step model p q) None rs).
Proof.
  apply (foldl_prefix_inv _ (costliest model p q)).
  { intros r Hr. by apply elem_of_nil in Hr. }
  intros rs' r acc IH. unfold EstimateChat_step.
  destruct (modelMatches (r_Model r) model) eqn:Hm; simpl.
  - destruct acc as [[b cost]|]; simpl in *.
    + destruct IH as [-> IH].
      destruct (_ || _) eqn:E; simpl; (split; [done|]);
        intros r' [Hr'| ->%list_elem_of_singleton]%elem_of_app Hm'; try lia;
        specialize (IH r' Hr' Hm'); lia.
    + split; [done|]. intros r' [Hr'| ->%list_elem_of_singleton]%elem_of_app Hm'; [|lia].
      rewrite (IH r' Hr') in Hm'. done.
  - destruct acc as [[b cost]|]; simpl in *.
    + destruct IH as [-> IH]. split; [done|].
      intros r' [Hr'| ->%list_elem_of_singleton]%elem_of_app Hm'; [by apply IH|congruence].
    + intros r' [Hr'| ->%list_elem_of_singleton]%elem_of_app; auto.
Qed.

End lookup.

(** [bestRule] finds a rule exactly when one applies, and the rule it
    returns is optimal: an exact model name beats a wildcard, and among equals
    the highest rate wins. *)
Theorem bestRule_optimal c provider model embedding :
  best_of provider model embedding (cat_rules c) (bestRule c provider model embedding).
Proof. apply bestRule_best. Qed.

(** C35. The pre-dispatch estimate never under-reserves against a configured
    price: whatever provider serves the request, if its price is known then
    the estimate is known as well and at least as high. *)
Theorem EstimateChat_upper_bound c provider model p q rule :
  0 <= p -> 0 <= q -> bestRule c provider model false = Some rule ->
  exists e actual,
    Catalog_EstimateChat c model p q = Ok e /\
    Catalog_Chat c provider model p q = Ok actual /\
    e_Known e = true /\ e_Known actual = true /\ e_USD actual <= e_USD e.
Proof.
  intros Hp Hq Hb. pose proof (bestRule_best c provider model false) as Hbest.
  rewrite Hb in Hbest. destruct Hbest as (Hin & (_ & Hm & _) & _).
  pose proof (EstimateChat_costliest model p q (cat_rules c)) as Hc.
  unfold Catalog_EstimateChat, Catalog_Chat. rewrite Hb.
  replace (p <? 0) with false by lia. replace (q <? 0) with false by lia.
  destruct (foldl _ _ _) as [[best cost]|]; simpl in Hc.
  - destruct Hc as [-> Hc]. eexists _, _. split_and!; [done..|]. by apply Hc.
  - rewrite (Hc rule Hin) in Hm. done.
Qed.

Lemma EstimateChat_upper_bound_witness :
  exists e actual,
    Catalog_EstimateChat ex_catalog "gpt-4o" 1000000 1000000 = Ok e /\
    Catalog_Chat ex_catalog "anthropic" "gpt-4o" 1000000 1000000 = Ok actual /\
    e_Known e = true /\ e_Known actual = true /\ e_USD actual <= e_USD e.
Proof.
  apply (EstimateChat_upper_bound ex_catalog "anthropic" "gpt-4o" 1000000 1000000
    (mkRule "anthropic" "gpt-4o" (f64_of_int 3) (f64_of_int 4) 0)); [lia..|].
  vm_compute. reflexivity.
Defined.

(** The figures of the repository's own tests. *)
Example chat_exact_model :
  Catalog_Chat ex_catalog "openai" "gpt-4o" 1000000 1000000 =
  Ok (mkEstimate (f64_of_int 11) true "USD" "v1").
Proof. vm_compute. reflexivity. Qed.
