(* ===== verification/Retry.v ===== *)
(** * Retry with exponential backoff: [internal/resilience/retry.go]

    [Do] runs a fallible operation until it succeeds, fails for good or has
    used its attempts, sleeping between attempts.  The operation, the random
    source and the wait for [time.After] or [ctx.Done] act on a world [W] that
    is threaded through the loop in the order of the calls. *)

From S2P Require Import Prelude.

Record RetryConfig := mkRetryConfig {
  rt_MaxAttempts : Z;
  rt_BaseDelay : Z;
  rt_MaxDelay : Z;
  rt_Jitter : bool;
}.

Definition DefaultRetryConfig : RetryConfig :=
  mkRetryConfig 3 (200 * Millisecond) (2 * Second) true.

(** The two defaults at the top of [Do]. *)
Definition retry_normalize (cfg : RetryConfig) : RetryConfig :=
  mkRetryConfig
    (if rt_MaxAttempts cfg <=? 0 then 1 else rt_MaxAttempts cfg)
    (if rt_BaseDelay cfg <=? 0 then 200 * Millisecond else rt_BaseDelay cfg)
    (rt_MaxDelay cfg) (rt_Jitter cfg).

(** [cfg.BaseDelay * time.Duration(1<<attempt)], capped: both the shift and
    the product are [int64] operations. *)
Definition backoff (cfg : RetryConfig) (attempt : Z) : Z :=
  let delay := imul (rt_BaseDelay cfg) (wrap64 (Z.shiftl 1 attempt)) in
  if (rt_MaxDelay cfg <? delay) && (0 <? rt_MaxDelay cfg) then rt_MaxDelay cfg else delay.

(** [int64(delay) / 2], the argument of [rand.Int63n]. *)
Definition jitter_range (delay : Z) : Z := Z.quot delay 2.

(** [delay += time.Duration(rand.Int63n(jitterRange)) - delay/4]. *)
Definition add_jitter (delay rnd : Z) : Z := iadd delay (isub rnd (Z.quot delay 4)).

Section retry.
Context {W E : Type}.
Context (isRetryable : E -> bool).
(** One call of [fn]: [None] is a nil error. *)
Context (fn : W -> W * option E).
(** [rand.Int63n(n)] on the global source. *)
Context (int63n : Z -> W -> W * Z).
(** The [select] on [time.After(delay)] and [ctx.Done()]: [Some e] when the
    context won, with [e = ctx.Err()]. *)
Context (wait : Z -> W -> W * option E).

Definition retry_delay (cfg : RetryConfig) (attempt : Z) (w : W) : W * Z :=
  let delay := backoff cfg attempt in
  if rt_Jitter cfg then
    if 0 <? jitter_range delay then
      let '(w1, j) := int63n (jitter_range delay) w in (w1, add_jitter delay j)
    else (w, delay)
  else (w, delay).

(** The [for] loop; [fuel] bounds the remaining iterations. *)
Fixpoint retry_loop (fuel : nat) (cfg : RetryConfig) (attempt : Z) (lastErr : option E) (w : W)
    : W * option E :=
  match fuel with
  | O => (w, lastErr)
  | S fuel' =>
      if attempt <? rt_MaxAttempts cfg then
        match fn w with
        | (w1, None) => (w1, None)
        | (w1, Some err) =>
            if negb (isRetryable err) then (w1, Some err)
            else if attempt =? rt_MaxAttempts cfg - 1 then (w1, Some err)
            else
              let '(w2, delay) := retry_delay cfg attempt w1 in
              match wait delay w2 with
              | (w3, Some cerr) => (w3, Some cerr)
              | (w3, None) => retry_loop fuel' cfg (attempt + 1) (Some err) w3
              end
        end
      else (w, lastErr)
  end.

Definition retry_fuel (cfg : RetryConfig) : nat := Z.to_nat (rt_MaxAttempts cfg).

(** [resilience.Do]. *)
Definition Do (cfg0 : RetryConfig) (w : W) : W * option E :=
  let cfg := retry_normalize cfg0 in
  retry_loop (retry_fuel cfg) cfg 0 None w.

Section counting.
Context (calls : W -> Z).

(** [calls] counts the calls of [fn] made in a world. *)
Definition counts_calls : Prop :=
  (forall w, calls (fn w).1 = calls w + 1) /\
  (forall n w, calls (int63n n w).1 = calls w) /\
  (forall d w, calls (wait d w).1 = calls w).

(** How a run that started in [w0] may end in [wf]: with a nil error exactly
    if the last call of [fn] succeeded; with the error of that call if it is
    not retryable or the attempts are used up; or with the context's error. *)
Definition retry_end (attempts : Z) (w0 wf : W) (r : option E) : Prop :=
  match r with
  | None => exists w, fn w = (wf, None)
  | Some e =>
      (exists w, fn w = (wf, Some e) /\
         (isRetryable e = false \/ calls wf = calls w0 + attempts)) \/
      (exists d w, wait d w = (wf, Some e))
  end.

Hypothesis Hcalls : counts_calls.

Lemma calls_delay cfg a w : calls (retry_delay cfg a w).1 = calls w.
Proof.
  destruct Hcalls as (_ & Hr & _). unfold retry_delay.
  destruct (rt_Jitter cfg), (0 <? jitter_range (backoff cfg a)); try done.
  specialize (Hr (jitter_range (backoff cfg a)) w). by destruct (int63n _ _).
Qed.

(** With enough fuel for the attempts left, the loop ends properly and makes
    between one and all of them. *)
Lemma retry_loop_spec n cfg a le w :
  a < rt_MaxAttempts cfg -> rt_MaxAttempts cfg - a <= Z.of_nat n ->
  let '(wf, r) := retry_loop n cfg a le w in
  calls w + 1 <= calls wf <= calls w + (rt_MaxAttempts cfg - a) /\
  retry_end (rt_MaxAttempts cfg - a) w wf r.
Proof.
  destruct Hcalls as (Hf & _ & Hw). revert a le w.
  induction n as [|n IH]; intros a le w Ha Hn; [lia|]. simpl.
  replace (a <? rt_MaxAttempts cfg) with true by lia.
  specialize (Hf w). destruct (fn w) as [w1 [err|]] eqn:Efn; simpl in *; [|by split; [lia|exists w]].
  destruct (isRetryable err) eqn:Er; simpl; [|split; [lia|left; exists w; auto]].
  destruct (a =? rt_MaxAttempts cfg - 1) eqn:Hl; simpl.
  { split; [lia|]. left. exists w. split; [done|]. right. lia. }
  pose proof (calls_delay cfg a w1) as Hd. destruct (retry_delay cfg a w1) as [w2 d]; simpl in *.
  specialize (Hw d w2). destruct (wait d w2) as [w3 [cerr|]] eqn:Ew; simpl in *.
  { split; [lia|]. right. by exists d, w2. }
  specialize (IH (a + 1) (Some err) w3 ltac:(lia) ltac:(lia)).
  destruct (retry_loop n cfg (a + 1) (Some err) w3) as [wf r]. destruct IH as [Hc He].
  split; [lia|]. destruct r as [e|]; simpl in *; [|done].
  destruct He as [(w' & Hw' & [|])|]; [left; exists w'..|]; auto. split; [done|right; lia].
Qed.

End counting.
End retry.

(** C36. [Do] always returns after at least one and at most
    [max(1, MaxAttempts)] calls; it returns nil exactly when its last call
    succeeded, and an error only if the last call's error is not retryable,
    every attempt was used, or the context ended a wait. *)
Theorem Do_attempts {W E} (isRetryable : E -> bool) (fn : W -> W * option E) int63n wait
    (calls : W -> Z) cfg w :
  counts_calls fn int63n wait calls ->
  let n := Z.max 1 (rt_MaxAttempts cfg) in
  let '(wf, r) := Do isRetryable fn int63n wait cfg w in
  calls w + 1 <= calls wf <= calls w + n /\
  retry_end isRetryable fn wait calls n w wf r.
Proof.
  intros Hc. cbv zeta. unfold Do.
  pose proof (retry_loop_spec isRetryable fn int63n wait calls Hc
    (retry_fuel (retry_normalize cfg)) (retry_normalize cfg) 0 None w) as H.
  unfold retry_fuel in *. simpl in *. rewrite Z.sub_0_r in H.
  replace (Z.max 1 (rt_MaxAttempts cfg)) with
    (if rt_MaxAttempts cfg <=? 0 then 1 else rt_MaxAttempts cfg) by go_lia.
  apply H; go_lia.
Qed.

(** A service that fails with a retryable error [k] times and then works;
    the world counts the calls and logs the delays slept. *)
Definition ex_flaky (k : Z) (w : Z * list Z) : (Z * list Z) * option bool :=
  ((w.1 + 1, w.2), if w.1 <? k then Some true else None).
Definition ex_int63n (n : Z) (w : Z * list Z) : (Z * list Z) * Z := (w, n - 1).
Definition ex_wait (d : Z) (w : Z * list Z) : (Z * list Z) * option bool := ((w.1, w.2 ++ [d]), None).

Lemma Do_attempts_witness :
  let '(wf, r) := Do (fun e => e) (ex_flaky 2) ex_int63n ex_wait DefaultRetryConfig (0, []) in
  0 + 1 <= wf.1 <= 0 + 3 /\ retry_end (fun e => e) (ex_flaky 2) ex_wait fst 3 (0, []) wf r.
Proof.
  exact (Do_attempts (fun e => e) (ex_flaky 2) ex_int63n ex_wait fst DefaultRetryConfig (0, [])
    (conj (fun _ => eq_refl) (conj (fun _ _ => eq_refl) (fun _ _ => eq_refl)))).
Defined.

Example Do_third_time_lucky :
  Do (fun e => e) (ex_flaky 2) ex_int63n ex_wait DefaultRetryConfig (0, []) =
  ((3, [249999999; 499999999]), None).
Proof. vm_compute. reflexivity. Qed.

(** ** Delays *)

Lemma backoff_exact cfg a :
  0 <= a < 63 -> int64_range (rt_BaseDelay cfg * 2 ^ a) ->
  imul (rt_BaseDelay cfg) (wrap64 (Z.shiftl 1 a)) = rt_BaseDelay cfg * 2 ^ a.
Proof.
  intros Ha Hr. rewrite Z.shiftl_1_l. unfold imul. rewrite (wrap64_id (2 ^ a)).
  - by apply wrap64_id.
  - pose proof (Z.pow_le_mono_r 2 a 62). pose proof (Z.pow_pos_nonneg 2 a).
    unfold int64_range, min_int64, max_int64. lia.
Qed.

(** As long as the product stays in 64 bits, the delay after attempt
    [a] is [min (BaseDelay * 2^a) MaxDelay], and with jitter it lies within
    a quarter of that on either side, whatever [rand.Int63n] draws. *)
Theorem backoff_jitter_bounds cfg a rnd :
  0 <= a < 63 -> 0 < rt_BaseDelay cfg -> 0 < rt_MaxDelay cfg <= 2 ^ 62 ->
  rt_BaseDelay cfg * 2 ^ a <= max_int64 ->
  0 <= rnd < jitter_range (backoff cfg a) ->
  let d := Z.min (rt_BaseDelay cfg * 2 ^ a) (rt_MaxDelay cfg) in
  backoff cfg a = d /\
  3 * d <= 4 * add_jitter d rnd < 5 * d + 4.
Proof.
  intros Ha Hb Hm Ho Hr. pose proof (Z.pow_pos_nonneg 2 a) as Hp.
  assert (backoff cfg a = Z.min (rt_BaseDelay cfg * 2 ^ a) (rt_MaxDelay cfg)) as E.
  { unfold backoff. rewrite backoff_exact by (unfold int64_range, min_int64; nia). go_lia. }
  rewrite E in *. cbv zeta. split; [done|].
  set (d := Z.min _ _) in *. assert (0 < d <= 2 ^ 62) by (subst d; nia).
  clearbody d. clear Hp E.
  unfold jitter_range, add_jitter in *. rewrite Z.quot_div_nonneg in Hr by lia.
  rewrite (Z.quot_div_nonneg d 4) by lia.
  assert (isub rnd (d / 4) = rnd - d / 4) as ->.
  { apply isub_id. unfold int64_range, min_int64, max_int64. Z.to_euclidean_division_equations; lia. }
  rewrite iadd_id by (unfold int64_range, min_int64, max_int64; Z.to_euclidean_division_equations; lia).
  Z.to_euclidean_division_equations; lia.
Qed.

Lemma backoff_jitter_bounds_witness :
  backoff DefaultRetryConfig 2 = 800 * Millisecond /\
  3 * (800 * Millisecond) <= 4 * add_jitter (800 * Millisecond) 17 < 5 * (800 * Millisecond) + 4.
Proof.
  refine (backoff_jitter_bounds DefaultRetryConfig 2 17 _ _ _ _ _);
    vm_compute; repeat split; congruence.
Defined.

(** The configured cap does not bound the backoff of a long retry
    sequence: once the product leaves 64 bits (attempt 36 with the default
    200ms base) the delay is negative, which [time.After] fires at once, and
    from attempt 64 on the delay is zero. *)
Theorem backoff_overflow a :
  backoff DefaultRetryConfig 35 = rt_MaxDelay DefaultRetryConfig /\
  backoff DefaultRetryConfig 36 < 0 /\
  (64 <= a -> backoff DefaultRetryConfig a = 0).
Proof.
  split_and!; [vm_compute; done..|]. intros Ha. unfold backoff.
  assert (wrap64 (Z.shiftl 1 a) = 0) as ->; [|by vm_compute].
  rewrite Z.shiftl_1_l. rewrite (wrap64_mod _ 0); [done|].
  replace a with ((a - 64) + 64) by lia. rewrite Z.pow_add_r by lia.
  by rewrite Z.mod_mul.
Qed.

(** The jittered delay may exceed the cap by a quarter. *)
Example jitter_exceeds_cap :
  let d := backoff DefaultRetryConfig 5 in
  0 <= jitter_range d - 1 < jitter_range d /\
  rt_MaxDelay DefaultRetryConfig < add_jitter d (jitter_range d - 1).
Proof. vm_compute. repeat split; congruence. Qed.
