(* ===== verification/Hedge.v ===== *)
(** * Hedged execution: [internal/resilience/hedge.go]

    [DoHedge] runs a primary call in a goroutine and, if it has not answered
    within a delay, a fallback call next to it.  The model is a step relation
    whose interleavings are those of the goroutines, the timer, the caller's
    context and the [select] statements of the calling goroutine. *)

From S2P Require Import Prelude.

Section hedge.
Context {V E : Type} (nil : V) (ctxErr : E).

(** The local [type result struct]: a value and an error, possibly both. *)
Record hresult := mkHresult { hr_val : V; hr_err : option E }.

(** A goroutine and its one-slot channel: not spawned, inside the call,
    result sent and not yet received, result received by [DoHedge], or exited
    through [ctx.Done] without sending. *)
Inductive goroutine :=
| NotStarted
| Running
| Sent (r : hresult)
| Received (r : hresult)
| Dropped.

(** Where the calling goroutine is: the first [select], the second one, one
    of the two nested ones, or returned. *)
Inductive hedge_phase :=
| FirstSelect
| SecondSelect
| AwaitFallback
| AwaitPrimary
| Returned (out : hresult).

Record hedge := mkHedge {
  h_phase : hedge_phase;
  h_primary : goroutine;
  h_fallback : goroutine;
  h_timer : bool;   (** the timer has fired *)
  h_parent : bool;  (** the caller's context is done *)
}.

Definition hedge_delay (delay : Z) : Z := if delay <=? 0 then 300 * Millisecond else delay.

(** [DoHedge] up to its first [select]. *)
Definition hedge_init (parent : bool) : hedge := mkHedge FirstSelect Running NotStarted false parent.

Definition is_returned (s : hedge) : bool :=
  match h_phase s with Returned _ => true | _ => false end.

(** The derived context is done when the caller's is or, by [defer cancel()],
    once [DoHedge] has returned. *)
Definition ctx_done (s : hedge) : bool := h_parent s || is_returned s.

(** The cases of the [select] statements. *)
Inductive hedge_case := FromPrimary | FromFallback | FromTimer | FromCtx.

(** Taking one case of the current [select]; [None] if the statement has no
    such case or its channel is not ready. *)
Definition hedge_select (c : hedge_case) (s : hedge) : option hedge :=
  let ret out := mkHedge (Returned out) (h_primary s) (h_fallback s) (h_timer s) (h_parent s) in
  let ctx := if ctx_done s then Some (ret (mkHresult nil (Some ctxErr))) else None in
  match h_phase s, c with
  | FirstSelect, FromPrimary =>
      match h_primary s with
      | Sent r => Some (mkHedge (Returned r) (Received r) (h_fallback s) (h_timer s) (h_parent s))
      | _ => None
      end
  | FirstSelect, FromTimer =>
      if h_timer s then Some (mkHedge SecondSelect (h_primary s) Running true (h_parent s))
      else None
  | SecondSelect, FromPrimary =>
      match h_primary s with
      | Sent r =>
          let p := match hr_err r with
                   | None => Returned (mkHresult (hr_val r) None)
                   | Some _ => AwaitFallback
                   end in
          Some (mkHedge p (Received r) (h_fallback s) (h_timer s) (h_parent s))
      | _ => None
      end
  | SecondSelect, FromFallback =>
      match h_fallback s with
      | Sent r =>
          let p := match hr_err r with
                   | None => Returned (mkHresult (hr_val r) None)
                   | Some _ => AwaitPrimary
                   end in
          Some (mkHedge p (h_primary s) (Received r) (h_timer s) (h_parent s))
      | _ => None
      end
  | AwaitFallback, FromFallback =>
      match h_fallback s with
      | Sent r => Some (mkHedge (Returned r) (h_primary s) (Received r) (h_timer s) (h_parent s))
      | _ => None
      end
  | AwaitPrimary, FromPrimary =>
      match h_primary s with
      | Sent r => Some (mkHedge (Returned r) (Received r) (h_fallback s) (h_timer s) (h_parent s))
      | _ => None
      end
  | Returned _, _ => None
  | _, FromCtx => ctx
  | _, _ => None
  end.

(** What the environment does between two steps of the caller. *)
Inductive hedge_step : hedge -> hedge -> Prop :=
| step_select c s s' : hedge_select c s = Some s' -> hedge_step s s'
| step_primary r s : h_primary s = Running ->
    hedge_step s (mkHedge (h_phase s) (Sent r) (h_fallback s) (h_timer s) (h_parent s))
| step_primary_drop s : h_primary s = Running -> ctx_done s = true ->
    hedge_step s (mkHedge (h_phase s) Dropped (h_fallback s) (h_timer s) (h_parent s))
| step_fallback r s : h_fallback s = Running ->
    hedge_step s (mkHedge (h_phase s) (h_primary s) (Sent r) (h_timer s) (h_parent s))
| step_fallback_drop s : h_fallback s = Running -> ctx_done s = true ->
    hedge_step s (mkHedge (h_phase s) (h_primary s) Dropped (h_timer s) (h_parent s))
| step_timer s : is_returned s = false ->
    hedge_step s (mkHedge (h_phase s) (h_primary s) (h_fallback s) true (h_parent s))
| step_cancel s :
    hedge_step s (mkHedge (h_phase s) (h_primary s) (h_fallback s) (h_timer s) true).

Definition hedge_reachable (s : hedge) : Prop :=
  exists parent, rtc hedge_step (hedge_init parent) s.

(** A goroutine whose result is still to come or waiting in its channel;
    it gave up only if the context is done. *)
Definition pending (s : hedge) (g : goroutine) : Prop :=
  match g with
  | Running | Sent _ => True
  | Dropped => ctx_done s = true
  | NotStarted | Received _ => False
  end.

Definition failed (g : goroutine) : Prop :=
  match g with Received r => hr_err r <> None | _ => False end.

(** What a returned result says about the calls. *)
Definition outcome_ok (s : hedge) (out : hresult) : Prop :=
  match hr_err out with
  | None =>
      exists r, (h_primary s = Received r \/ h_fallback s = Received r) /\
        hr_err r = None /\ hr_val r = hr_val out
  | Some _ =>
      (h_parent s = true /\ out = mkHresult nil (Some ctxErr)) \/
      (failed (h_primary s) /\ (h_fallback s = NotStarted \/ failed (h_fallback s)))
  end.

Definition hedge_inv (s : hedge) : Prop :=
  (h_fallback s <> NotStarted -> h_timer s = true) /\
  match h_phase s with
  | FirstSelect => pending s (h_primary s) /\ h_fallback s = NotStarted
  | SecondSelect => pending s (h_primary s) /\ pending s (h_fallback s)
  | AwaitFallback => failed (h_primary s) /\ pending s (h_fallback s)
  | AwaitPrimary => pending s (h_primary s) /\ failed (h_fallback s)
  | Returned out => outcome_ok s out
  end.

Lemma outcome_received (s : hedge) r :
  (h_primary s = Received r /\ (h_fallback s = NotStarted \/ failed (h_fallback s))) \/
  (failed (h_primary s) /\ h_fallback s = Received r) ->
  outcome_ok s r.
Proof.
  intros H. unfold outcome_ok. destruct (hr_err r) eqn:Er.
  - right. destruct H as [(Hp & [Hf|Hf])|(Hp & Hf)];
      rewrite ?Hp, ?Hf; simpl; rewrite ?Er; auto.
  - exists r. tauto.
Qed.

Lemma outcome_success (s : hedge) r :
  h_primary s = Received r \/ h_fallback s = Received r -> hr_err r = None ->
  outcome_ok s (mkHresult (hr_val r) None).
Proof. intros H Hr. by exists r. Qed.

Lemma hedge_select_inv c s s' : hedge_inv s -> hedge_select c s = Some s' -> hedge_inv s'.
Proof.
  intros [Ht Hp] Es. unfold hedge_select, ctx_done, is_returned in Es.
  destruct s as [ph p f t par]. simpl in *.
  destruct ph, c; try done; unfold hedge_inv; simpl in *; repeat case_match; simplify_eq/=;
    unfold pending, ctx_done, is_returned in *; simpl in *;
    rewrite ?orb_false_r in *;
    (split; [intuition congruence|]);
    try (apply outcome_received; simpl; tauto);
    try (left; tauto); try tauto;
    try (eexists; split; [eauto|]; done); intuition congruence.
Qed.

(** Between the caller's steps a goroutine stays as it is or, while inside
    its call, makes its result pending; the flags only rise. *)
Definition advances (s' : hedge) (g g' : goroutine) : Prop :=
  g' = g \/ (g = Running /\ pending s' g').

Definition env_advances (s s' : hedge) : Prop :=
  h_phase s' = h_phase s /\ (h_timer s = true -> h_timer s' = true) /\
  (h_parent s = true -> h_parent s' = true) /\
  advances s' (h_primary s) (h_primary s') /\ advances s' (h_fallback s) (h_fallback s').

Lemma ctx_done_mono s s' : env_advances s s' -> ctx_done s = true -> ctx_done s' = true.
Proof.
  intros (Hp & _ & Hc & _). unfold ctx_done, is_returned. rewrite Hp, !orb_true_iff. tauto.
Qed.

Lemma pending_advances s s' g g' :
  env_advances s s' -> advances s' g g' -> pending s g -> pending s' g'.
Proof.
  intros He [->|[-> ?]]; [|done]. destruct g; simpl; try done. by apply ctx_done_mono.
Qed.

Lemma fixed_advances s' g g' : advances s' g g' -> g <> Running -> g' = g.
Proof. intros [|[? _]]; done. Qed.

Lemma failed_advances s' g g' : advances s' g g' -> failed g -> failed g'.
Proof. intros [->|[-> _]]; done. Qed.

Lemma outcome_advances s s' out : env_advances s s' -> outcome_ok s out -> outcome_ok s' out.
Proof.
  intros (_ & _ & Hc & Hp & Hf). unfold outcome_ok. destruct (hr_err out).
  - intros [[? ?]|[? [Hn|?]]]; [left; auto|right..]; (split; [by eapply failed_advances|]).
    + left. rewrite <-Hn. eapply fixed_advances; [done|]. by rewrite Hn.
    + right. by eapply failed_advances.
  - intros (r & Hr & ?). exists r. split; [|done].
    destruct Hr as [Hr|Hr]; [left|right]; rewrite <-Hr;
      (eapply fixed_advances; [done|by rewrite Hr]).
Qed.

Lemma env_advances_inv s s' : env_advances s s' -> hedge_inv s -> hedge_inv s'.
Proof.
  intros He [Ht Hi]. pose proof He as (Hph & Hti & Hpar & Hp & Hf). split.
  - intros Hn. apply Hti, Ht. intros E0. apply Hn. rewrite <-E0.
    eapply fixed_advances; [done|]. by rewrite E0.
  - rewrite Hph. destruct (h_phase s);
      [destruct Hi as [Hi1 Hi2]; split..|by eapply outcome_advances];
      try (by eapply pending_advances); try (by eapply failed_advances).
    rewrite <-Hi2. eapply fixed_advances; [done|]. by rewrite Hi2.
Qed.

Lemma hedge_step_inv s s' : hedge_inv s -> hedge_step s s' -> hedge_inv s'.
Proof.
  intros Hi Hs. destruct Hs; [by eapply hedge_select_inv|..];
    (eapply env_advances_inv; [|done]);
    repeat split; simpl; auto; unfold advances; rewrite ?H; simpl; auto.
Qed.

Lemma hedge_reachable_inv s : hedge_reachable s -> hedge_inv s.
Proof.
  intros [par H]. assert (hedge_inv (hedge_init par)) as H0 by done.
  induction H as [|s1 s2 s3 Hs _ IH]; [done|]. eauto using hedge_step_inv.
Qed.

(** Every [select] waits for the context too. *)
Lemma select_ctx_ready s : is_returned s = false -> ctx_done s = true ->
  exists c s', hedge_select c s = Some s'.
Proof.
  intros Hr Hc. exists FromCtx. unfold hedge_select, is_returned in *. rewrite Hc.
  destruct (h_phase s); eauto. done.
Qed.

(** Only the returned result mentions the context's error. *)
Lemma hedge_inv_not_returned (s : hedge) :
  hedge_inv s -> is_returned s = false ->
  (h_fallback s <> NotStarted -> h_timer s = true) /\
  match h_phase s with
  | FirstSelect => pending s (h_primary s) /\ h_fallback s = NotStarted
  | SecondSelect => pending s (h_primary s) /\ pending s (h_fallback s)
  | AwaitFallback => failed (h_primary s) /\ pending s (h_fallback s)
  | AwaitPrimary => pending s (h_primary s) /\ failed (h_fallback s)
  | Returned _ => False
  end.
Proof. intros [Ht Hi] Hr. split; [done|]. unfold is_returned in Hr. by destruct (h_phase s). Qed.

(** The number of [select] statements the caller can still execute. *)
Definition hedge_rank (s : hedge) : nat :=
  match h_phase s with
  | FirstSelect => 3 | SecondSelect => 2 | AwaitFallback | AwaitPrimary => 1 | Returned _ => 0
  end.

(** A run in which the caller has taken [n] cases of its [select]s, with
    any other steps in between. *)
Inductive hedge_runs : nat -> hedge -> hedge -> Prop :=
| runs_refl s : hedge_runs 0 s s
| runs_select n c s s1 s2 : hedge_select c s = Some s1 -> hedge_runs n s1 s2 -> hedge_runs (S n) s s2
| runs_other n s s1 s2 : hedge_step s s1 -> hedge_runs n s1 s2 -> hedge_runs n s s2.

Lemma select_rank c s s' : hedge_select c s = Some s' -> (hedge_rank s' < hedge_rank s)%nat.
Proof.
  unfold hedge_select, hedge_rank. destruct s as [ph p f t par]. simpl.
  destruct ph, c; try done; repeat case_match; intros [= <-]; simpl in *; simplify_eq; lia.
Qed.

Lemma step_rank s s' : hedge_step s s' -> (hedge_rank s' <= hedge_rank s)%nat.
Proof. intros [c s0 s1 Hc| | | | | |]; [by apply Nat.lt_le_incl, (select_rank c)|done..]. Qed.

Lemma hedge_runs_rank n parent s : hedge_runs n (hedge_init parent) s -> (n + hedge_rank s <= 3)%nat.
Proof.
  change 3%nat with (hedge_rank (hedge_init parent)). generalize (hedge_init parent) as s0. intros s0.
  induction 1 as [s0|n c s0 s1 s2 Hc _ IH|n s0 s1 s2 Hs _ IH]; [lia|apply select_rank in Hc; lia|apply step_rank in Hs; lia].
Qed.

Lemma hedge_runs_steps n s0 s : hedge_runs n s0 s -> rtc hedge_step s0 s.
Proof.
  induction 1 as [|n c s0 s1 s2 Hc _ IH|n s0 s1 s2 Hs _ IH]; [done|..]; eapply rtc_l; [by eapply step_select|done|done|done].
Qed.

(** Some case is ready when no call is running. *)
Lemma ready_select s :
  hedge_reachable s -> is_returned s = false -> h_primary s <> Running -> h_fallback s <> Running ->
  exists c s', hedge_select c s = Some s'.
Proof.
  intros Hr Hn Hp Hf. apply hedge_reachable_inv in Hr as [_ Hi].
  destruct (ctx_done s) eqn:Hc; [by apply select_ctx_ready|].
  destruct s as [ph p f t par]. simpl in *. unfold pending in Hi. rewrite Hc in Hi.
  destruct ph; try done; destruct Hi as [Hi1 Hi2].
  1,2,4: destruct p; try done; by eexists FromPrimary, _.
  destruct f; try done; by eexists FromFallback, _.
Qed.

End hedge.

Arguments mkHresult {V E}.
Arguments mkHedge {V E}.
Arguments NotStarted {V E}.
Arguments Running {V E}.
Arguments Dropped {V E}.
Arguments FirstSelect {V E}.
Arguments SecondSelect {V E}.
Arguments AwaitFallback {V E}.
Arguments AwaitPrimary {V E}.

(** C30. Every interleaving of [DoHedge] returns a sound result: a value with
    a nil error is the value of a call that succeeded; an error is returned
    only if the caller's context is done or the primary failed and the
    fallback failed too or was never started (a failing hedge never masks a
    primary that may still succeed); and the fallback is started only after
    the hedge timer has fired. *)
Theorem DoHedge_outcome {V E} (nil : V) (ctxErr : E) s out :
  hedge_reachable nil ctxErr s -> h_phase s = Returned out ->
  outcome_ok nil ctxErr s out /\ (h_fallback s <> NotStarted -> h_timer s = true).
Proof.
  intros Hr Hp. destruct (hedge_reachable_inv _ _ _ Hr) as [Ht Hi]. by rewrite Hp in Hi.
Qed.

Definition ex_hedged : hedge (V := Z) (E := Z) :=
  mkHedge (Returned (mkHresult 7 None)) Running (Received (mkHresult 7 None)) true false.

(** The fallback overtakes a primary that is still running. *)
Lemma ex_hedged_reachable : hedge_reachable 0 1 ex_hedged.
Proof.
  exists false. unfold hedge_init.
  eapply rtc_l; [by apply step_timer|]. simpl.
  eapply rtc_l; [by apply (step_select _ _ FromTimer)|]. simpl.
  eapply rtc_l; [by apply (step_fallback _ _ (mkHresult 7 None))|]. simpl.
  eapply rtc_l; [by apply (step_select _ _ FromFallback)|]. apply rtc_refl.
Qed.

Lemma DoHedge_outcome_witness :
  outcome_ok 0 1 ex_hedged (mkHresult 7 None) /\
  (h_fallback ex_hedged <> NotStarted -> h_timer ex_hedged = true).
Proof.
  exact (DoHedge_outcome 0 1 ex_hedged (mkHresult 7 None) ex_hedged_reachable eq_refl).
Defined.

(** C31. [DoHedge] never blocks once its calls have ended: in every reachable
    state that has not returned, if neither goroutine is inside its call then
    some case of the current [select] is ready.  And whatever the goroutines,
    the timer and the context do, running or not, it executes at most three
    [select] statements: a run that has taken [n] cases has at most [3 - n]
    left, and none once it has returned. *)
Theorem DoHedge_progress {V E} (nil : V) (ctxErr : E) n parent s :
  hedge_runs nil ctxErr n (hedge_init parent) s ->
  (n + hedge_rank s <= 3)%nat /\
  (is_returned s = false <-> (0 < hedge_rank s)%nat) /\
  (is_returned s = false -> h_primary s <> Running -> h_fallback s <> Running ->
   exists c s', hedge_select nil ctxErr c s = Some s').
Proof.
  intros Hr. pose proof (hedge_runs_rank _ _ _ _ _ Hr) as Hn. split; [exact Hn|].
  split; [unfold is_returned, hedge_rank; destruct (h_phase s); (split; [intros; lia || done|intros; lia || done])|].
  apply ready_select. exists parent. by eapply hedge_runs_steps.
Qed.

Definition ex_primary_failed : hedge (V := Z) (E := Z) :=
  mkHedge AwaitFallback (Received (mkHresult 0 (Some 5))) (Sent (mkHresult 7 None)) true false.

(** After the timer, and after the failure of the primary. *)
Lemma ex_primary_failed_runs : hedge_runs 0 1 2 (hedge_init false) ex_primary_failed.
Proof.
  unfold hedge_init.
  eapply runs_other; [by apply step_timer|]. simpl.
  eapply (runs_select _ _ _ FromTimer); [done|]. simpl.
  eapply runs_other; [by apply (step_primary _ _ (mkHresult 0 (Some 5)))|]. simpl.
  eapply (runs_select _ _ _ FromPrimary); [done|]. simpl.
  eapply runs_other; [by apply (step_fallback _ _ (mkHresult 7 None))|]. apply runs_refl.
Qed.

Lemma DoHedge_progress_witness :
  (2 + hedge_rank ex_primary_failed <= 3)%nat /\
  exists c s', hedge_select 0 1 c ex_primary_failed = Some s'.
Proof.
  destruct (DoHedge_progress 0 1 2 false ex_primary_failed ex_primary_failed_runs) as (Hn & _ & Hs).
  split; [exact Hn|]. by apply Hs.
Defined.
