(* ===== verification/Budget.v ===== *)
(** * Monthly budgets: [internal/budget/budget.go]

    The manager keeps one usage record per tenant and month, in process or in
    a Redis hash.  A request reserves an estimate before it calls a provider
    and then commits the actual usage or cancels.  Each operation below is the
    critical section the code runs under its mutex (or as one Lua script), so
    concurrent requests are sequences of these operations. *)

From S2P Require Import Prelude GoFloat GoStrings Pricing.
From Stdlib Require Import Ascii String.
Open Scope string_scope.
Open Scope list_scope.
Open Scope Z_scope.

Definition defaultCostPerTokenUSD : float64 := f64_const 1 100000.
Definition budgetTTLSeconds : Z := 35 * 24 * 60 * 60.

Inductive BudgetError :=
| TokenBudgetExceeded (tokens limit : Z)
| USDBudgetExceeded (usd limit : float64)
| BudgetUnavailable            (** wraps [ErrUnavailable] *)
| ReservationDenied
| ExceededAfterAdjustment.

(** ** Quota checks *)

Definition quotaError (tokenLimit : Z) (usdLimit : float64) (tokens : Z) (usd : float64)
    : option BudgetError :=
  if (0 <? tokenLimit) && (tokenLimit <=? tokens) then Some (TokenBudgetExceeded tokens tokenLimit)
  else if (0 <? usdLimit) && (usdLimit <=? usd) then Some (USDBudgetExceeded usd usdLimit)
  else None.

Definition reservationQuotaError (tokenLimit : Z) (usdLimit : float64) (tokens : Z) (usd : float64)
    : option BudgetError :=
  if (0 <? tokenLimit) && (tokenLimit <? tokens) then Some (TokenBudgetExceeded tokens tokenLimit)
  else if (0 <? usdLimit) && (usdLimit <? usd) then Some (USDBudgetExceeded usd usdLimit)
  else None.

(** ** The Lua scripts

    A script runs atomically on the hash of one key.  Lua numbers are
    [float64]; [HINCRBY] is exact on the stored integer, [HINCRBYFLOAT] is
    Redis's own addition. *)
Record budget_hash := mkBudgetHash { bh_tokens : Z; bh_usd : float64; bh_ttl : Z }.

Section scripts.
Context (HINCRBYFLOAT : float64 -> float64 -> float64).

(** [tonumber(redis.call("HGET", key, ...)) or 0]. *)
Definition hget_tokens (h : option budget_hash) : Z := from_option bh_tokens 0 h.
Definition hget_usd (h : option budget_hash) : float64 := from_option bh_usd 0 h.

Definition budgetReserveScript (token_limit : Z) (usd_limit : float64) (reserve_tokens : Z)
    (reserve_usd : float64) (ttl : Z) (h : option budget_hash) : option budget_hash * Z :=
  let tokens := f64_of_int (hget_tokens h) in
  let usd := hget_usd h in
  if (0 <? token_limit) && (f64_of_int token_limit <? fadd tokens (f64_of_int reserve_tokens))
  then (h, 0)
  else if (0 <? usd_limit) && (usd_limit <? fadd usd reserve_usd) then (h, 0)
  else
    (Some (mkBudgetHash (hget_tokens h + reserve_tokens) (HINCRBYFLOAT usd reserve_usd) ttl), 1).

(** Here the new token count is the Lua number itself, written back by
    [HSET]; [f64_to_int] reads it back as the integer it denotes. *)
Definition budgetAdjustScript (delta_tokens : Z) (delta_usd : float64) (token_limit : Z)
    (usd_limit : float64) (ttl : Z) (h : option budget_hash) : option budget_hash * Z :=
  let tokens := fadd (f64_of_int (hget_tokens h)) (f64_of_int delta_tokens) in
  let usd := fadd (hget_usd h) delta_usd in
  let tokens := if tokens <? 0 then 0 else tokens in
  let usd := if usd <? 0 then 0 else usd in
  let over := 0 in
  let over := if (0 <? token_limit) && (f64_of_int token_limit <? tokens) then 1 else over in
  let over := if (0 <? usd_limit) && (usd_limit <? usd) then 1 else over in
  (Some (mkBudgetHash (f64_to_int tokens) usd ttl), over).

End scripts.

(** ** The distributed store

    What the manager uses of [redisstore.Store] and of the Redis client: the
    world [W] holds the connection and the server.  A script call fails, or
    answers with an integer or with something else. *)
Inductive script_reply := ReplyInt (n : Z) | ReplyOther.

Class BudgetStore (Store W : Type) := {
  bs_Active : Store -> W -> bool;
  bs_HMGet : Store -> string -> W -> W * result (list (option string)) unit;
  bs_reserve : Store -> string -> Z -> float64 -> Z -> float64 -> Z -> W ->
               W * result script_reply unit;
  bs_adjust : Store -> string -> Z -> float64 -> Z -> float64 -> Z -> W ->
              W * result script_reply unit;
  (** [budgetKey]: SHA-256 of the tenant, in hexadecimal. *)
  bs_sha256_hex : string -> string;
  (** [strconv.Atoi] and [strconv.ParseFloat] with the error dropped. *)
  bs_Atoi : string -> Z;
  bs_ParseFloat : string -> float64;
}.

Record usage := mkUsage { u_tokens : Z; u_usd : float64; u_month : string }.

Definition memKey (tenant month : string) : string :=
  tenant +:+ String "000"%char month.

Section manager.
Context {Store W : Type} `{BudgetStore Store W}.

Record Manager := mkManager {
  m_mem : gmap string usage;
  m_redisStore : option Store;
  m_enabled : bool;
  m_tokens : Z;
  m_usd : float64;
  m_costPerTokenUSD : float64;
  m_catalog : option Catalog;
}.

Record Reservation := mkReservation {
  rv_tenant : string;
  rv_month : string;
  rv_reservedTokens : Z;
  rv_reservedUSD : float64;
  rv_once : bool;                 (** [once] has run *)
  rv_err : option BudgetError;
}.

(** [catalog, _ = pricing.NewCatalog(nil, cost, ...)]. *)
Definition fallback_catalog (cost : float64) : option Catalog :=
  match NewCatalog [] cost DefaultCurrency "" UnknownUseFallback with
  | Ok c => Some c
  | Err _ => None
  end.

Definition NewConfiguredWithStore (enabled : bool) (tokens : Z) (usd costPerTokenUSD : float64)
    (store : option Store) (catalog : option Catalog) : Manager :=
  let cost := if costPerTokenUSD <? 0 then 0 else costPerTokenUSD in
  let catalog := match catalog with Some c => Some c | None => fallback_catalog cost end in
  mkManager ∅ store enabled tokens usd cost catalog.

(** [redisstore.NewStatic(nil)] is nil: [store] is the adapted client. *)
Definition NewWithPricing (tokens : Z) (usd costPerTokenUSD : float64) (store : option Store)
    (catalog : option Catalog) : Manager :=
  NewConfiguredWithStore ((0 <? tokens) || (0 <? usd)) tokens usd costPerTokenUSD store catalog.

Definition NewWithCost (tokens : Z) (usd costPerTokenUSD : float64) (store : option Store) : Manager :=
  NewWithPricing tokens usd costPerTokenUSD store (fallback_catalog costPerTokenUSD).

Definition New (tokens : Z) (usd : float64) (store : option Store) : Manager :=
  NewWithCost tokens usd defaultCostPerTokenUSD store.

Definition with_mem (m : Manager) (mem : gmap string usage) : Manager :=
  mkManager mem (m_redisStore m) (m_enabled m) (m_tokens m) (m_usd m) (m_costPerTokenUSD m)
    (m_catalog m).

Definition SetRedisStore (m : Manager) (store : option Store) : Manager :=
  mkManager (m_mem m) store (m_enabled m) (m_tokens m) (m_usd m) (m_costPerTokenUSD m) (m_catalog m).

Definition Manager_UpdateConfig (m : Manager) (enabled : bool) (tokens : Z)
    (usd costPerTokenUSD : float64) (catalog : option Catalog) : Manager :=
  let cost := if costPerTokenUSD <? 0 then 0 else costPerTokenUSD in
  let catalog := match catalog with Some c => Some c | None => fallback_catalog cost end in
  mkManager (m_mem m) (m_redisStore m) enabled tokens usd cost catalog.

(** *** Cost estimates *)

Definition CostForTokens (m : Manager) (tokens : Z) : float64 :=
  if tokens <=? 0 then 0 else fmul (f64_of_int tokens) (m_costPerTokenUSD m).

Definition CostForChat (m : Manager) (provider model : string) (promptTokens completionTokens : Z)
    : result Estimate PricingError :=
  match m_catalog m with
  | Some c => Catalog_Chat c provider model promptTokens completionTokens
  | None =>
      Ok (mkEstimate (CostForTokens m (iadd promptTokens completionTokens)) false DefaultCurrency "")
  end.

Definition Manager_EstimateChat (m : Manager) (model : string) (promptTokens completionTokens : Z)
    : result Estimate PricingError :=
  match m_catalog m with
  | Some c => Catalog_EstimateChat c model promptTokens completionTokens
  | None =>
      Ok (mkEstimate (CostForTokens m (iadd promptTokens completionTokens)) false DefaultCurrency "")
  end.

Definition CostForEmbedding (m : Manager) (provider model : string) (tokens : Z)
    : result Estimate PricingError :=
  match m_catalog m with
  | Some c => Catalog_Embedding c provider model tokens
  | None => Ok (mkEstimate (CostForTokens m tokens) false DefaultCurrency "")
  end.

(** *** Usage records *)

Definition budgetKey (tenant month : string) : string :=
  "budget:" +:+ bs_sha256_hex tenant +:+ ":" +:+ month.

(** [parseInt] and [parseFloat] on the reply of [HMGET]. *)
Definition parseInt (values : list (option string)) (index : nat) : Z :=
  match values !! index with
  | Some (Some v) => bs_Atoi v
  | _ => 0
  end.
Definition parseFloat (values : list (option string)) (index : nat) : float64 :=
  match values !! index with
  | Some (Some v) => bs_ParseFloat v
  | _ => 0
  end.

(** [store != nil && store.Active()], on the snapshot of the store. *)
Definition active_store (m : Manager) (w : W) : option Store :=
  match m_redisStore m with
  | Some s => if bs_Active s w then Some s else None
  | None => None
  end.

(** The manager keeps the books itself: it has no store, or one that is never
    active. *)
Definition in_memory (m : Manager) : Prop := forall w, active_store m w = None.

Definition checkMem (m : Manager) (tenant month : string) : option BudgetError :=
  match m_mem m !! memKey tenant month with
  | None => None
  | Some u => quotaError (m_tokens m) (m_usd m) (u_tokens u) (u_usd u)
  end.

Definition checkRedis (m : Manager) (s : Store) (tenant month : string) (w : W)
    : W * option BudgetError :=
  match bs_HMGet s (budgetKey tenant month) w with
  | (w1, Err _) => (w1, Some BudgetUnavailable)
  | (w1, Ok val) => (w1, quotaError (m_tokens m) (m_usd m) (parseInt val 0) (parseFloat val 1))
  end.

Definition Check (m : Manager) (tenant month : string) (w : W) : W * option BudgetError :=
  if negb (m_enabled m) || str_eqb tenant "" then (w, None)
  else
    match active_store m w with
    | Some s => checkRedis m s tenant month w
    | None => (w, checkMem m tenant month)
    end.

(** A missing record is created before the quota is checked. *)
Definition reserveMem (m : Manager) (tenant month : string) (tokens : Z) (usd : float64)
    : Manager * option BudgetError :=
  let key := memKey tenant month in
  let u := default (mkUsage 0 0 month) (m_mem m !! key) in
  match reservationQuotaError (m_tokens m) (m_usd m) (iadd (u_tokens u) tokens)
          (fadd (u_usd u) usd) with
  | Some err => (with_mem m (<[key := u]> (m_mem m)), Some err)
  | None =>
      (with_mem m (<[key := mkUsage (iadd (u_tokens u) tokens) (fadd (u_usd u) usd) (u_month u)]>
                     (m_mem m)), None)
  end.

Definition reserveRedis (m : Manager) (s : Store) (tenant month : string) (tokens : Z)
    (usd : float64) (w : W) : W * option BudgetError :=
  match bs_reserve s (budgetKey tenant month) (m_tokens m) (m_usd m) tokens usd budgetTTLSeconds w with
  | (w1, Err _) => (w1, Some BudgetUnavailable)
  | (w1, Ok ReplyOther) => (w1, Some BudgetUnavailable)
  | (w1, Ok (ReplyInt allowed)) =>
      if negb (allowed =? 1) then (w1, Some ReservationDenied) else (w1, None)
  end.

(** [Reserve]: [Ok None] is the nil reservation of a disabled manager. *)
Definition Reserve (m : Manager) (tenant month : string) (tokens0 : Z) (usd0 : float64) (w : W)
    : Manager * W * result (option Reservation) BudgetError :=
  if negb (m_enabled m) || str_eqb tenant "" then (m, w, Ok None)
  else
    let tokens := if tokens0 <? 0 then 0 else tokens0 in
    let usd := if usd0 <? 0 then 0 else usd0 in
    let reservation := mkReservation tenant month tokens usd false None in
    match active_store m w with
    | Some s =>
        match reserveRedis m s tenant month tokens usd w with
        | (w1, Some err) => (m, w1, Err err)
        | (w1, None) => (m, w1, Ok (Some reservation))
        end
    | None =>
        match reserveMem m tenant month tokens usd with
        | (m1, Some err) => (m1, w, Err err)
        | (m1, None) => (m1, w, Ok (Some reservation))
        end
    end.

Definition adjustRedis (m : Manager) (s : Store) (tenant month : string) (deltaTokens : Z)
    (deltaUSD : float64) (w : W) : W * option BudgetError :=
  match bs_adjust s (budgetKey tenant month) deltaTokens deltaUSD (m_tokens m) (m_usd m)
          budgetTTLSeconds w with
  | (w1, Err _) => (w1, Some BudgetUnavailable)
  | (w1, Ok ReplyOther) => (w1, Some BudgetUnavailable)
  | (w1, Ok (ReplyInt over)) =>
      if over =? 1 then (w1, Some ExceededAfterAdjustment) else (w1, None)
  end.

(** The usage after an adjustment, clamped at zero. *)
Definition usage_adjust (u : usage) (deltaTokens : Z) (deltaUSD : float64) : usage :=
  let tokens := iadd (u_tokens u) deltaTokens in
  let usd := fadd (u_usd u) deltaUSD in
  mkUsage (if tokens <? 0 then 0 else tokens) (if usd <? 0 then 0 else usd) (u_month u).

Definition adjustMem (m : Manager) (tenant month : string) (deltaTokens : Z) (deltaUSD : float64)
    : Manager * option BudgetError :=
  let key := memKey tenant month in
  let finish u :=
    let u' := usage_adjust u deltaTokens deltaUSD in
    (with_mem m (<[key := u']> (m_mem m)),
     reservationQuotaError (m_tokens m) (m_usd m) (u_tokens u') (u_usd u')) in
  match m_mem m !! key with
  | Some u => finish u
  | None =>
      if (deltaTokens <=? 0) && (deltaUSD <=? 0) then (m, None)
      else finish (mkUsage 0 0 month)
  end.

Definition adjust (m : Manager) (tenant month : string) (deltaTokens : Z) (deltaUSD : float64)
    (w : W) : Manager * W * option BudgetError :=
  match active_store m w with
  | Some s =>
      let '(w1, err) := adjustRedis m s tenant month deltaTokens deltaUSD w in (m, w1, err)
  | None =>
      let '(m1, err) := adjustMem m tenant month deltaTokens deltaUSD in (m1, w, err)
  end.

(** [r.once.Do(func() { r.err = r.manager.adjust(...) })]. *)
Definition reservation_finish (m : Manager) (r : Reservation) (deltaTokens : Z)
    (deltaUSD : float64) (w : W) : Manager * W * Reservation :=
  if rv_once r then (m, w, r)
  else
    let '(m1, w1, err) := adjust m (rv_tenant r) (rv_month r) deltaTokens deltaUSD w in
    (m1, w1, mkReservation (rv_tenant r) (rv_month r) (rv_reservedTokens r) (rv_reservedUSD r)
               true err).

(** Methods on a non-nil reservation; a nil one does nothing. *)
Definition Commit (m : Manager) (r : Reservation) (actualTokens0 : Z) (actualUSD0 : float64) (w : W)
    : Manager * W * Reservation * option BudgetError :=
  let actualTokens := if actualTokens0 <? 0 then 0 else actualTokens0 in
  let actualUSD := if actualUSD0 <? 0 then 0 else actualUSD0 in
  let '(m1, w1, r1) :=
    reservation_finish m r (isub actualTokens (rv_reservedTokens r))
      (fsub actualUSD (rv_reservedUSD r)) w in
  (m1, w1, r1, rv_err r1).

Definition Cancel (m : Manager) (r : Reservation) (w : W) : Manager * W * Reservation :=
  reservation_finish m r (wrap64 (- rv_reservedTokens r)) (- rv_reservedUSD r) w.

Definition Record_ (m : Manager) (tenant month : string) (tokens : Z) (usd : float64) (w : W)
    : Manager * W :=
  if negb (m_enabled m) || str_eqb tenant "" then (m, w)
  else (adjust m tenant month tokens usd w).1.

End manager.

(** ** The ledger of a manager

    A run of the in-process manager: the reservations handed out so far, each
    with the amount of tokens it stands for (its estimate until it is
    finished, then the committed usage or nothing), and the amounts recorded
    directly. *)
Section ledger.
Context {Store W : Type} `{BudgetStore Store W}.
Implicit Types (m : Manager (Store := Store)) (w : W).

Inductive BudgetOp :=
| OpReserve (tenant month : string) (tokens : Z) (usd : float64)
| OpCommit (id : nat) (tokens : Z) (usd : float64)
| OpCancel (id : nat)
| OpRecord (tenant month : string) (tokens : Z) (usd : float64)
| OpConfig (enabled : bool) (tokens : Z) (usd cost : float64) (catalog : option Catalog).

Record ledger := mkLedger {
  l_manager : Manager (Store := Store);
  l_world : W;
  l_reservations : list (Reservation * Z);
  l_recorded : list (string * Z);
}.

Definition ledger_exec (s : ledger) (op : BudgetOp) : ledger :=
  let m := l_manager s in
  let w := l_world s in
  match op with
  | OpReserve tenant month tokens usd =>
      let '(m1, w1, res) := Reserve m tenant month tokens usd w in
      let new := match res with Ok (Some r) => [(r, rv_reservedTokens r)] | _ => [] end in
      mkLedger m1 w1 (l_reservations s ++ new) (l_recorded s)
  | OpCommit id tokens usd =>
      match l_reservations s !! id with
      | None => s
      | Some (r, a) =>
          let '(m1, w1, r1, _) := Commit m r tokens usd w in
          let a1 := if rv_once r then a else Z.max 0 tokens in
          mkLedger m1 w1 (<[id := (r1, a1)]> (l_reservations s)) (l_recorded s)
      end
  | OpCancel id =>
      match l_reservations s !! id with
      | None => s
      | Some (r, a) =>
          let '(m1, w1, r1) := Cancel m r w in
          let a1 := if rv_once r then a else 0 in
          mkLedger m1 w1 (<[id := (r1, a1)]> (l_reservations s)) (l_recorded s)
      end
  | OpRecord tenant month tokens usd =>
      let '(m1, w1) := Record_ m tenant month tokens usd w in
      let new := if negb (m_enabled m) || str_eqb tenant "" then []
                 else [(memKey tenant month, tokens)] in
      mkLedger m1 w1 (l_reservations s) (l_recorded s ++ new)
  | OpConfig enabled tokens usd cost catalog =>
      mkLedger (Manager_UpdateConfig m enabled tokens usd cost catalog) w
        (l_reservations s) (l_recorded s)
  end.

Definition ledger_run (s : ledger) (ops : list BudgetOp) : ledger := foldl ledger_exec s ops.

(** Tokens on the books for a key, and the tokens accounted to it. *)
Definition usage_tokens m (key : string) : Z := from_option u_tokens 0 (m_mem m !! key).

Definition rv_key (r : Reservation) : string := memKey (rv_tenant r) (rv_month r).
Definition amount_for (key : string) (x : Reservation * Z) : Z :=
  if str_eqb (rv_key x.1) key then x.2 else 0.
Definition recorded_for (key : string) (x : string * Z) : Z :=
  if str_eqb x.1 key then x.2 else 0.
Definition charged (s : ledger) (key : string) : Z :=
  sum_with (amount_for key) (l_reservations s) + sum_with (recorded_for key) (l_recorded s).

(** By how much commits went over their reservations. *)
Definition overrun_for (key : string) (x : Reservation * Z) : Z :=
  if str_eqb (rv_key x.1) key then Z.max 0 (x.2 - rv_reservedTokens x.1) else 0.
Definition overrun (s : ledger) (key : string) : Z :=
  sum_with (overrun_for key) (l_reservations s) + sum_with (recorded_for key) (l_recorded s).

(** Operations with token counts a request can have. *)
Definition op_ok (B : Z) (op : BudgetOp) : Prop :=
  match op with
  | OpReserve _ _ tokens _ => tokens <= B
  | OpCommit _ tokens _ => tokens <= B
  | OpRecord _ _ tokens _ => 0 <= tokens <= B
  | _ => True
  end.

(** A reservation on the books: it has a usage record, and stands for its
    estimate until it is finished. *)
Definition entry_ok m (B : Z) (x : Reservation * Z) : Prop :=
  0 <= rv_reservedTokens x.1 <= B /\ 0 <= x.2 <= B /\
  (rv_once x.1 = false -> x.2 = rv_reservedTokens x.1) /\
  is_Some (m_mem m !! rv_key x.1).

Record ledger_inv (B : Z) (n : Z) (s : ledger) : Prop := {
  li_store : in_memory (l_manager s);
  li_res : Forall (entry_ok (l_manager s) B) (l_reservations s);
  li_rec : Forall (fun x => 0 <= x.2) (l_recorded s);
  li_total : sum_with snd (l_reservations s) + sum_with snd (l_recorded s) <= B * n;
  li_acct : forall key, usage_tokens (l_manager s) key = charged s key;
}.

Lemma recorded_nonneg l key :
  Forall (fun x => 0 <= x.2) l -> 0 <= sum_with (recorded_for key) l.
Proof.
  intros Hc. apply sum_with_nonneg. eapply List.Forall_impl; [|exact Hc].
  intros [k a] ?; unfold recorded_for; simpl in *; go_lia.
Qed.

Lemma overrun_nonneg s key :
  Forall (fun x => 0 <= x.2) (l_recorded s) -> 0 <= overrun s key.
Proof.
  intros Hc. unfold overrun. pose proof (recorded_nonneg _ key Hc).
  assert (0 <= sum_with (overrun_for key) (l_reservations s)); [|lia].
  apply sum_with_nonneg, Forall_forall. intros x _. unfold overrun_for. go_lia.
Qed.

Lemma charged_bounds B n s key : ledger_inv B n s -> 0 <= charged s key <= B * n.
Proof.
  intros [_ Hr Hc Ht _]. unfold charged.
  assert (0 <= sum_with (amount_for key) (l_reservations s)
            <= sum_with snd (l_reservations s)).
  { split; [apply sum_with_nonneg|apply sum_with_le]; (eapply List.Forall_impl; [|exact Hr]);
      intros [r a] (_ & ? & _); unfold amount_for; simpl in *; go_lia. }
  assert (0 <= sum_with (recorded_for key) (l_recorded s) <= sum_with snd (l_recorded s)).
  { split; [apply sum_with_nonneg|apply sum_with_le]; (eapply List.Forall_impl; [|exact Hc]);
      intros [k a] ?; unfold recorded_for; simpl in *; go_lia. }
  lia.
Qed.

(** *** What one operation does to the books *)

Definition mem_le m m' : Prop := forall key, is_Some (m_mem m !! key) -> is_Some (m_mem m' !! key).

Lemma entry_ok_mono m m' B x : mem_le m m' -> entry_ok m B x -> entry_ok m' B x.
Proof. intros Hm (? & ? & ? & ?). split_and!; auto; lia. Qed.

Lemma usage_with_mem m key u k :
  usage_tokens (with_mem m (<[key := u]> (m_mem m))) k =
  if str_eqb key k then u_tokens u else usage_tokens m k.
Proof.
  unfold usage_tokens, str_eqb. simpl. case_bool_decide; subst.
  - by rewrite lookup_insert_eq.
  - by rewrite lookup_insert_ne.
Qed.

Lemma mem_le_insert m key u : mem_le m (with_mem m (<[key := u]> (m_mem m))).
Proof.
  intros k Hk. simpl. destruct (decide (key = k)) as [->|].
  - rewrite lookup_insert_eq. eauto.
  - by rewrite lookup_insert_ne.
Qed.

(** [reserveMem] adds exactly the tokens asked for, within the limit, or
    leaves every usage as it was. *)
Lemma reserveMem_spec m tenant month tokens usd :
  let key := memKey tenant month in
  int64_range (usage_tokens m key + tokens) ->
  let '(m', err) := reserveMem m tenant month tokens usd in
  m_redisStore m' = m_redisStore m /\ m_tokens m' = m_tokens m /\
  mem_le m m' /\ is_Some (m_mem m' !! key) /\
  (forall k, usage_tokens m' k =
     usage_tokens m k + (if err is None then if str_eqb key k then tokens else 0 else 0)) /\
  (err = None -> 0 < m_tokens m -> usage_tokens m' key <= m_tokens m).
Proof.
  cbv zeta. intros Hr. unfold reserveMem. set (key := memKey tenant month) in *.
  set (u := default _ _).
  assert (u_tokens u = usage_tokens m key) as Hu.
  { subst u. unfold usage_tokens. by destruct (m_mem m !! key). }
  rewrite <-Hu in Hr. rewrite iadd_id by done.
  destruct (reservationQuotaError _ _ _ _) eqn:E; split_and!; try done;
    try (simpl; rewrite lookup_insert_eq; by eauto); try exact (mem_le_insert _ _ _);
    try (intros k; rewrite usage_with_mem; unfold str_eqb; case_bool_decide; subst; simpl; lia).
  intros _ Hl. rewrite usage_with_mem, str_eqb_refl. simpl.
  unfold reservationQuotaError in E. go_lia.
Qed.

Lemma usage_adjust_tokens u dt du :
  int64_range (u_tokens u + dt) -> 0 <= u_tokens u + dt ->
  u_tokens (usage_adjust u dt du) = u_tokens u + dt.
Proof. intros Hr Hn. unfold usage_adjust. simpl. rewrite iadd_id by done. go_lia. Qed.

(** [adjustMem] moves the books of its key by [delta]; the clamp is not
    reached from books that cover the adjustment. *)
Lemma adjustMem_spec m tenant month dt du :
  let key := memKey tenant month in
  int64_range (usage_tokens m key + dt) -> 0 <= usage_tokens m key + dt ->
  let m' := (adjustMem m tenant month dt du).1 in
  m_redisStore m' = m_redisStore m /\ m_tokens m' = m_tokens m /\ mem_le m m' /\
  (forall k, usage_tokens m' k = usage_tokens m k + (if str_eqb key k then dt else 0)).
Proof.
  cbv zeta. intros Hr Hn. unfold adjustMem. set (key := memKey tenant month) in *.
  unfold usage_tokens in Hr, Hn.
  destruct (m_mem m !! key) as [u|] eqn:Hu; simpl in *;
    [|destruct ((dt <=? 0) && (du <=? 0)) eqn:Hz; simpl].
  1,3: split_and!; [done..|exact (mem_le_insert _ _ _)|]; intros k; rewrite usage_with_mem;
    unfold str_eqb; case_bool_decide; subst; [|lia];
    rewrite usage_adjust_tokens by done; unfold usage_tokens; by rewrite Hu.
  split_and!; [done..|intros k; done|]. intros k. go_lia.
Qed.

Lemma ledger_init_inv B m w :
  0 <= B -> in_memory m -> m_mem m = ∅ -> ledger_inv B 0 (mkLedger m w [] []).
Proof.
  intros HB Hs Hm. split; simpl; try done; [lia|]. intros key.
  unfold usage_tokens, charged. by rewrite Hm, lookup_empty.
Qed.

Lemma ledger_inv_weaken B n s : 0 <= B -> ledger_inv B n s -> ledger_inv B (n + 1) s.
Proof. intros HB []. split; try done. lia. Qed.

Lemma amount_for_insert key l id r a r1 a1 :
  l !! id = Some (r, a) -> rv_key r1 = rv_key r ->
  sum_with (amount_for key) (<[id := (r1, a1)]> l) =
  sum_with (amount_for key) l + (if str_eqb (rv_key r) key then a1 - a else 0).
Proof.
  intros Hl Hk. rewrite (sum_with_insert _ _ _ _ _ Hl). unfold amount_for. simpl. rewrite Hk. go_lia.
Qed.

Lemma Forall_entry_mono m m' B l :
  mem_le m m' -> Forall (entry_ok m B) l -> Forall (entry_ok m' B) l.
Proof. intros Hm Hl. eapply List.Forall_impl; [|exact Hl]. intros. by eapply entry_ok_mono. Qed.

Lemma in_memory_eq m m' : m_redisStore m' = m_redisStore m -> in_memory m -> in_memory m'.
Proof. intros E Hm w. specialize (Hm w). unfold active_store in *. by rewrite E. Qed.
Lemma no_store_in_memory m : m_redisStore m = None -> in_memory m.
Proof. intros E w. unfold active_store. by rewrite E. Qed.

(** The books of a key cover each reservation made on it. *)
Lemma charged_covers B n s id r a :
  ledger_inv B n s -> l_reservations s !! id = Some (r, a) -> a <= charged s (rv_key r).
Proof.
  intros [_ Hr Hc _ _] Hl. unfold charged.
  pose proof (recorded_nonneg _ (rv_key r) Hc).
  assert (amount_for (rv_key r) (r, a) <= sum_with (amount_for (rv_key r)) (l_reservations s)) as Hel.
  { eapply sum_with_elem_le; [|done]. eapply List.Forall_impl; [|exact Hr].
    intros [r' a'] (_ & ? & _). unfold amount_for; simpl in *; go_lia. }
  unfold amount_for in Hel at 1. simpl in Hel. rewrite str_eqb_refl in Hel. lia.
Qed.

(** Finishing an open reservation replaces its amount by [a1]. *)
Lemma finish_inv B n s id r a a1 dt du :
  ledger_inv B n s -> B * (n + 1) <= max_int64 ->
  l_reservations s !! id = Some (r, a) -> rv_once r = false ->
  0 <= a1 <= B -> dt = a1 - rv_reservedTokens r ->
  let '(m1, w1, r1) := reservation_finish (l_manager s) r dt du (l_world s) in
  ledger_inv B (n + 1) (mkLedger m1 w1 (<[id := (r1, a1)]> (l_reservations s)) (l_recorded s)) /\
  rv_reservedTokens r1 = rv_reservedTokens r /\ rv_key r1 = rv_key r /\
  m_tokens m1 = m_tokens (l_manager s).
Proof.
  intros Hi HB Hl Ho Ha1 ->. pose proof Hi as [Hs Hr Hc Ht Hacc].
  pose proof (Forall_lookup_1 _ _ _ _ Hr Hl) as (Hres & Ha & Hopen & Hmem). simpl in *.
  specialize (Hopen Ho). subst a.
  unfold reservation_finish, adjust. rewrite Ho, Hs.
  pose proof (charged_bounds B n s (rv_key r) Hi) as Hch.
  pose proof (charged_covers B n s id r _ Hi Hl) as Hle.
  pose proof (adjustMem_spec (l_manager s) (rv_tenant r) (rv_month r)
    (a1 - rv_reservedTokens r) du) as Hadj. simpl in Hadj.
  unfold rv_key in Hch, Hle. rewrite Hacc in Hadj.
  destruct (adjustMem _ _ _ _ _) as [m1 err]. simpl in *.
  destruct Hadj as (Hs1 & Hlim & Hmle & Hus); [unfold int64_range, min_int64; lia|lia|].
  split; [|done]. split; simpl.
  - by eapply in_memory_eq.
  - apply Forall_insert; [by eapply Forall_entry_mono|]. split_and!; simpl; try lia; try done; by apply Hmle.
  - done.
  - rewrite (sum_with_insert _ _ _ _ _ Hl). simpl. lia.
  - intros key. rewrite Hus, Hacc. unfold charged. simpl.
    rewrite (amount_for_insert key _ _ r (rv_reservedTokens r)) by done. unfold rv_key. lia.
Qed.

(** Commit and Cancel, with the amount the reservation stands for after. *)
Lemma finished_inv B n s id r a dt du :
  0 <= B -> ledger_inv B n s -> l_reservations s !! id = Some (r, a) -> rv_once r = true ->
  let '(m1, w1, r1) := reservation_finish (l_manager s) r dt du (l_world s) in
  mkLedger m1 w1 (<[id := (r1, a)]> (l_reservations s)) (l_recorded s) = s.
Proof.
  intros HB Hi Hl Ho. unfold reservation_finish. rewrite Ho.
  rewrite list_insert_id by done. by destruct s.
Qed.

(** What the quota theorem follows along a run: the books of a key exceed
    the limit at most by overruns and direct records. *)
Definition within_quota (L : Z) (s : ledger) : Prop :=
  m_tokens (l_manager s) = L /\
  forall key, charged s key <= L + overrun s key.

(** A fresh reservation adds its tokens to its key and is not an overrun. *)
Lemma charged_new m m' w w' l rec tenant month t d key :
  charged (mkLedger m w (l ++ [(mkReservation tenant month t d false None, t)]) rec) key =
  charged (mkLedger m' w' l rec) key + (if str_eqb (memKey tenant month) key then t else 0).
Proof.
  unfold charged. simpl. rewrite sum_with_app. simpl. unfold amount_for at 2.
  unfold rv_key. simpl. lia.
Qed.

Lemma overrun_new m m' w w' l rec tenant month t d key :
  overrun (mkLedger m w (l ++ [(mkReservation tenant month t d false None, t)]) rec) key =
  overrun (mkLedger m' w' l rec) key.
Proof. unfold overrun. simpl. rewrite sum_with_app. simpl. unfold overrun_for at 2. simpl. go_lia. Qed.

Lemma Reserve_inv B n s tenant month tokens usd :
  0 <= B -> B * (n + 1) <= max_int64 -> tokens <= B -> ledger_inv B n s ->
  ledger_inv B (n + 1) (ledger_exec s (OpReserve tenant month tokens usd)) /\
  (forall L, 0 < L -> within_quota L s ->
     within_quota L (ledger_exec s (OpReserve tenant month tokens usd))).
Proof.
  intros HB Hn Ht Hi. simpl. unfold Reserve. destruct (negb _ || _).
  { rewrite app_nil_r. destruct s. split; [by apply ledger_inv_weaken|done]. }
  pose proof Hi as [Hs Hr Hc Htot Hacc]. rewrite !Hs.
  set (t := if tokens <? 0 then 0 else tokens). assert (0 <= t <= B) as Htb by (subst t; go_lia).
  set (d := if usd <? 0 then 0 else usd). clearbody t d. clear tokens usd Ht.
  pose proof (charged_bounds B n s (memKey tenant month) Hi) as Hb.
  pose proof (reserveMem_spec (l_manager s) tenant month t d) as Hspec. cbv zeta in Hspec.
  rewrite Hacc in Hspec.
  destruct (reserveMem _ _ _ _ _) as [m1 err].
  destruct Hspec as (Hs1 & Hlim & Hmle & Hsome & Hus & Hq); [unfold int64_range, min_int64; lia|].
  destruct err as [err|]; simpl in *.
  { rewrite app_nil_r. split.
    - split; simpl; [by eapply in_memory_eq|by eapply Forall_entry_mono|done|lia|].
      intros key. rewrite Hus, Hacc. unfold charged. simpl. lia.
    - intros L HL [Hm Hw]. by split; simpl; [congruence|]. }
  split.
  - split; simpl; [by eapply in_memory_eq| |done| |].
    + apply Forall_app. split; [by eapply Forall_entry_mono|].
      constructor; [|constructor]. split_and!; simpl; try lia; done.
    + rewrite sum_with_app. simpl. lia.
    + intros key. rewrite (charged_new _ (l_manager s) _ (l_world s)), Hus, Hacc. by destruct s.
  - intros L HL [Hm Hw]. split; simpl; [congruence|]. intros key. specialize (Hw key).
    rewrite (overrun_new _ (l_manager s) _ (l_world s)), (charged_new _ (l_manager s) _ (l_world s)).
    destruct s as [m w l rec]; simpl in *. unfold str_eqb. case_bool_decide as Hk; [subst key|lia].
    specialize (Hus (memKey tenant month)). rewrite str_eqb_refl, Hacc in Hus.
    specialize (Hq eq_refl ltac:(lia)).
    pose proof (overrun_nonneg (mkLedger m w l rec) (memKey tenant month) Hc). lia.
Qed.

Lemma finish_quota L s id r r1 a a1 m1 w1 :
  l_reservations s !! id = Some (r, a) -> a = rv_reservedTokens r ->
  rv_reservedTokens r1 = rv_reservedTokens r -> rv_key r1 = rv_key r ->
  m_tokens m1 = m_tokens (l_manager s) -> within_quota L s ->
  within_quota L (mkLedger m1 w1 (<[id := (r1, a1)]> (l_reservations s)) (l_recorded s)).
Proof.
  intros Hl Ha Hres Hk Hm [Hlim Hw]. split; simpl; [congruence|]. intros key. specialize (Hw key).
  unfold charged, overrun in *. simpl.
  rewrite (amount_for_insert key _ _ r a) by done. rewrite (sum_with_insert _ _ _ _ _ Hl).
  unfold overrun_for at 2 3. simpl. rewrite Hk, Hres. go_lia.
Qed.

(** [Commit] and [Cancel] of a reservation are the same step, with the
    committed usage or nothing as the new amount. *)
Lemma finish_step B n s id r a a1 dt du :
  0 <= B -> B * (n + 1) <= max_int64 -> ledger_inv B n s ->
  l_reservations s !! id = Some (r, a) -> 0 <= a1 <= B ->
  dt = a1 - rv_reservedTokens r ->
  let '(m1, w1, r1) := reservation_finish (l_manager s) r dt du (l_world s) in
  let s' := mkLedger m1 w1 (<[id := (r1, if rv_once r then a else a1)]> (l_reservations s))
              (l_recorded s) in
  ledger_inv B (n + 1) s' /\ (forall L, within_quota L s -> within_quota L s').
Proof.
  intros HB Hn Hi Hl Ha1 Hdt. pose proof (li_res _ _ _ Hi) as Hr.
  pose proof (Forall_lookup_1 _ _ _ _ Hr Hl) as (_ & _ & Hopen & _). simpl in Hopen.
  destruct (rv_once r) eqn:Ho.
  - pose proof (finished_inv B n s id r a dt du HB Hi Hl Ho) as Hf.
    destruct (reservation_finish _ _ _ _ _) as [[m1 w1] r1]. cbv zeta. rewrite Hf.
    split; [by apply ledger_inv_weaken|done].
  - pose proof (finish_inv B n s id r a a1 dt du Hi Hn Hl Ho Ha1 Hdt) as Hf.
    destruct (reservation_finish _ _ _ _ _) as [[m1 w1] r1].
    destruct Hf as (Hf & Hres & Hk & Hm). split; [done|].
    intros L HL. by eapply finish_quota; eauto.
Qed.

Lemma Record_inv B n s tenant month tokens usd :
  B * (n + 1) <= max_int64 -> 0 <= tokens <= B -> ledger_inv B n s ->
  ledger_inv B (n + 1) (ledger_exec s (OpRecord tenant month tokens usd)) /\
  (forall L, within_quota L s -> within_quota L (ledger_exec s (OpRecord tenant month tokens usd))).
Proof.
  intros Hn Ht Hi. simpl. unfold Record_. destruct (negb _ || _).
  { rewrite app_nil_r. destruct s. split; [apply ledger_inv_weaken; [lia|done]|done]. }
  pose proof Hi as [Hs Hr Hc Htot Hacc]. unfold adjust. rewrite !Hs.
  pose proof (charged_bounds B n s (memKey tenant month) Hi) as Hb.
  pose proof (adjustMem_spec (l_manager s) tenant month tokens usd) as Hadj. cbv zeta in Hadj.
  rewrite Hacc in Hadj. destruct (adjustMem _ _ _ _ _) as [m1 err]. simpl in *.
  destruct Hadj as (Hs1 & Hlim & Hmle & Hus); [unfold int64_range, min_int64; lia|lia|].
  assert (forall key, sum_with (recorded_for key) (l_recorded s ++ [(memKey tenant month, tokens)]) =
    sum_with (recorded_for key) (l_recorded s) +
    (if str_eqb (memKey tenant month) key then tokens else 0)) as Hsum.
  { intros key. rewrite sum_with_app. simpl. unfold recorded_for at 2. simpl. lia. }
  split; [split; simpl|].
  - by eapply in_memory_eq.
  - by eapply Forall_entry_mono.
  - apply Forall_app. split; [done|]. constructor; [simpl; lia|constructor].
  - rewrite sum_with_app. simpl. lia.
  - intros key. rewrite Hus, Hacc. unfold charged. simpl. rewrite Hsum. lia.
  - intros L [Hm Hw]. split; simpl; [congruence|]. intros key. specialize (Hw key).
    unfold charged, overrun in *. simpl. rewrite Hsum. lia.
Qed.

(** Reconfigurations that keep the token limit. *)
Definition keeps_limit (L : Z) (op : BudgetOp) : Prop :=
  match op with OpConfig _ tokens _ _ _ => tokens = L | _ => True end.

Lemma ledger_exec_inv B n s op :
  0 <= B -> 0 <= n -> B * (n + 1) <= max_int64 -> op_ok B op -> ledger_inv B n s ->
  ledger_inv B (n + 1) (ledger_exec s op) /\
  (forall L, 0 < L -> keeps_limit L op -> within_quota L s -> within_quota L (ledger_exec s op)).
Proof.
  intros HB H0 Hn Hop Hi. assert (B <= max_int64) as HBm by nia.
  destruct op as [te mo t u|id t u|id|te mo t u|en t u co ca]; simpl in Hop.
  - pose proof (Reserve_inv B n s te mo t u HB Hn Hop Hi) as [? ?]. split; auto.
  - simpl. destruct (l_reservations s !! id) as [[r a]|] eqn:Hl; [|split; [by apply ledger_inv_weaken|done]].
    unfold Commit. pose proof (li_res _ _ _ Hi) as Hr.
    pose proof (Forall_lookup_1 _ _ _ _ Hr Hl) as ([Hr0 HrB] & _ & _ & _). simpl in *.
    replace (if t <? 0 then 0 else t) with (Z.max 0 t) by go_lia.
    rewrite isub_id by (unfold int64_range, min_int64, max_int64 in *; lia).
    pose proof (finish_step B n s id r a (Z.max 0 t) _
      (fsub (if u <? 0 then 0 else u) (rv_reservedUSD r)) HB Hn Hi Hl ltac:(lia) eq_refl) as Hf.
    destruct (reservation_finish _ _ _ _ _) as [[m1 w1] r1]. split; apply Hf || auto.
    intros L _ _. apply Hf.
  - simpl. destruct (l_reservations s !! id) as [[r a]|] eqn:Hl; [|split; [by apply ledger_inv_weaken|done]].
    unfold Cancel. pose proof (li_res _ _ _ Hi) as Hr.
    pose proof (Forall_lookup_1 _ _ _ _ Hr Hl) as ([Hr0 HrB] & _ & _ & _). simpl in *.
    rewrite wrap64_id by (unfold int64_range, min_int64, max_int64 in *; lia).
    pose proof (finish_step B n s id r a 0 _ (- rv_reservedUSD r) HB Hn Hi Hl ltac:(lia) eq_refl) as Hf.
    destruct (reservation_finish _ _ _ _ _) as [[m1 w1] r1]. split; [apply Hf|].
    intros L _ _. apply Hf.
  - pose proof (Record_inv B n s te mo t u Hn Hop Hi) as [? ?]. split; auto.
  - simpl. split.
    + apply ledger_inv_weaken; [done|]. destruct Hi. by split.
    + intros L _ -> [_ Hw]. by split.
Qed.

Lemma ledger_run_inv B ops n s :
  0 <= B -> 0 <= n -> B * (n + Z.of_nat (List.length ops)) <= max_int64 -> Forall (op_ok B) ops ->
  ledger_inv B n s ->
  ledger_inv B (n + Z.of_nat (List.length ops)) (ledger_run s ops) /\
  (forall L, 0 < L -> Forall (keeps_limit L) ops -> within_quota L s -> within_quota L (ledger_run s ops)).
Proof.
  intros HB. revert n s. induction ops as [|op ops IH]; intros n s H0 Hn Hops Hi; simpl in *.
  { rewrite Z.add_0_r. auto. }
  inversion Hops; subst.
  pose proof (ledger_exec_inv B n s op HB H0 ltac:(nia) ltac:(done) Hi) as [Hi1 Hq1].
  destruct (IH (n + 1) (ledger_exec s op)) as [Hi2 Hq2]; [lia|nia|done|done|].
  replace (n + Z.of_nat (S (List.length ops))) with (n + 1 + Z.of_nat (List.length ops)) by lia.
  split; [done|]. intros L HL Hk Hw. inversion Hk; subst. auto.
Qed.

End ledger.

(** ** Theorems *)

(** A store that runs the scripts on a map of hashes and is never down. *)
#[export] Instance map_store : BudgetStore unit (gmap string budget_hash) := {|
  bs_Active _ _ := true;
  bs_HMGet _ _ w := (w, Ok []);
  bs_reserve _ key tl ul t u ttl w :=
    let '(h, n) := budgetReserveScript fadd tl ul t u ttl (w !! key) in
    (from_option (fun h => <[key := h]> w) w h, Ok (ReplyInt n));
  bs_adjust _ key dt du tl ul ttl w :=
    let '(h, n) := budgetAdjustScript dt du tl ul ttl (w !! key) in
    (from_option (fun h => <[key := h]> w) w h, Ok (ReplyInt n));
  bs_sha256_hex s := s;
  bs_Atoi _ := 0;
  bs_ParseFloat _ := 0;
|}.

Definition ex_manager (tokens : Z) : Manager (Store := unit) := New tokens 0 None.
Definition ex_ledger (tokens : Z) : ledger (Store := unit) (W := gmap string budget_hash) := mkLedger (ex_manager tokens) ∅ [] [].

Definition ex_ops : list BudgetOp :=
  [OpReserve "acme" "2026-09" 60 0; OpReserve "acme" "2026-09" 60 0; OpCommit 0 70 0;
   OpReserve "acme" "2026-09" 20 0; OpCancel 1; OpCommit 1 5 0; OpRecord "acme" "2026-09" 3 0].

(** C3. Exact accounting, by the in-process manager and as long as the totals
    fit in 64 bits: after any sequence of reservations, commits,
    cancellations, direct records and reconfigurations, by any interleaving
    of requests, the tokens on the books of every tenant and month are the
    estimates of its open reservations plus the committed and recorded
    usage: nothing is lost, counted twice or left over after a cancel. *)
Theorem budget_accounting {Store W} `{BudgetStore Store W} (m : Manager (Store := Store)) (w : W)
    B ops key :
  0 <= B -> B * Z.of_nat (List.length ops) <= max_int64 -> Forall (op_ok B) ops ->
  in_memory m -> m_mem m = ∅ ->
  let s := ledger_run (mkLedger m w [] []) ops in
  usage_tokens (l_manager s) key = charged s key.
Proof.
  intros HB Hn Hops Hs Hm. cbv zeta.
  destruct (ledger_run_inv B ops 0 (mkLedger m w [] [])) as [Hi _]; try done.
  - by apply ledger_init_inv.
  - apply Hi.
Qed.

Lemma budget_accounting_witness :
  usage_tokens (l_manager (ledger_run (ex_ledger 100) ex_ops)) (memKey "acme" "2026-09") =
  charged (ledger_run (ex_ledger 100) ex_ops) (memKey "acme" "2026-09").
Proof.
  apply (budget_accounting (ex_manager 100) ∅ 70 ex_ops (memKey "acme" "2026-09"));
    [lia|vm_compute; congruence|repeat constructor; simpl; lia|by apply no_store_in_memory|reflexivity].
Defined.

(** The run of the witness: the second reservation is refused, the first
    commits ten tokens over its estimate, and the third is cancelled once. *)
Example ex_ops_usage :
  let s := ledger_run (ex_ledger 100) ex_ops in
  usage_tokens (l_manager s) (memKey "acme" "2026-09") = 73 /\
  List.length (l_reservations s) = 2%nat /\
  overrun s (memKey "acme" "2026-09") = 13.
Proof. vm_compute. done. Qed.

(** C13. Hard quota, of the in-process manager and as long as the totals fit in
    64 bits: under a token limit [L] the books of a tenant and month
    exceed [L] at most by what completed requests used beyond their own
    reservations and by direct records; admission never overshoots, however
    many requests are in flight. *)
Theorem budget_quota {Store W} `{BudgetStore Store W} (m : Manager (Store := Store)) (w : W)
    B L ops key :
  0 <= B -> B * Z.of_nat (List.length ops) <= max_int64 -> Forall (op_ok B) ops ->
  in_memory m -> m_mem m = ∅ ->
  0 < L -> m_tokens m = L -> Forall (keeps_limit L) ops ->
  let s := ledger_run (mkLedger m w [] []) ops in
  usage_tokens (l_manager s) key <= L + overrun s key.
Proof.
  intros HB Hn Hops Hs Hm HL Hlim Hk. cbv zeta.
  destruct (ledger_run_inv B ops 0 (mkLedger m w [] [])) as [Hi Hq]; try done.
  { by apply ledger_init_inv. }
  destruct (Hq L HL Hk) as [_ Hw].
  { split; [done|]. intros k. unfold charged, overrun. simpl. lia. }
  rewrite (li_acct _ _ _ Hi). apply Hw.
Qed.

Lemma budget_quota_witness :
  usage_tokens (l_manager (ledger_run (ex_ledger 100) ex_ops)) (memKey "acme" "2026-09") <=
  100 + overrun (ledger_run (ex_ledger 100) ex_ops) (memKey "acme" "2026-09").
Proof.
  apply (budget_quota (ex_manager 100) ∅ 70 100 ex_ops (memKey "acme" "2026-09"));
    [lia|vm_compute; congruence|repeat constructor; simpl; lia|by apply no_store_in_memory|reflexivity|lia
    |reflexivity|repeat constructor].
Defined.

(** The bound on the token counts is needed: a reservation whose sum
    with the usage leaves 64 bits wraps around, passes the limit it exceeds,
    and leaves negative usage on the books. *)
Theorem Reserve_overflow :
  exists m r,
    Reserve (ledger_run (ex_ledger 100) [OpReserve "acme" "2026-09" 1 0]).(l_manager)
      "acme" "2026-09" max_int64 0 ∅ = (m, ∅, Ok (Some r)) /\
    usage_tokens m (memKey "acme" "2026-09") = min_int64.
Proof. eexists _, _. split; vm_compute; reflexivity. Qed.

Section once.
Context {Store W : Type} `{BudgetStore Store W}.

Lemma reservation_finish_once m r dt du w :
  rv_once (reservation_finish m r dt du w).2 = true.
Proof.
  unfold reservation_finish. destruct (rv_once r) eqn:E; [done|].
  by destruct (adjust _ _ _ _ _ _) as [[? ?] ?].
Qed.

Lemma reservation_finish_again m r dt du w :
  rv_once r = true -> reservation_finish m r dt du w = (m, w, r).
Proof. intros E. unfold reservation_finish. by rewrite E. Qed.

End once.

(** A reservation is finalized at most once: after a [Commit] or a
    [Cancel], on either backend, every further [Commit] or [Cancel] leaves
    the books, the store and the reservation as they are and returns the
    error of the first. *)
Theorem reservation_finalized_once {Store W} `{BudgetStore Store W}
    (m : Manager (Store := Store)) (w : W) r t u t' u' :
  (let '(m1, w1, r1, err) := Commit m r t u w in
   Commit m1 r1 t' u' w1 = (m1, w1, r1, err) /\ Cancel m1 r1 w1 = (m1, w1, r1)) /\
  (let '(m1, w1, r1) := Cancel m r w in
   Commit m1 r1 t' u' w1 = (m1, w1, r1, rv_err r1) /\ Cancel m1 r1 w1 = (m1, w1, r1)).
Proof.
  unfold Commit, Cancel. split;
    match goal with |- context [reservation_finish m r ?dt ?du w] =>
      pose proof (reservation_finish_once m r dt du w) as Ho;
      destruct (reservation_finish m r dt du w) as [[m1 w1] r1] end; simpl in Ho;
    by rewrite !reservation_finish_again.
Qed.

(** ** The Lua scripts implement the in-process books *)
Section refinement.
Context {Store : Type}.
Implicit Types m : Manager (Store := Store).

(** The hash of a key and a usage record hold the same numbers. *)
Definition hash_rel (h : option budget_hash) (u : usage) : Prop :=
  hget_tokens h = u_tokens u /\ hget_usd h = u_usd u.

Definition usage_of m (key : string) (month : string) : usage :=
  default (mkUsage 0 0 month) (m_mem m !! key).

(** Counts for which Lua's numbers are exact. *)
Definition lua_exact (z : Z) : Prop := Z.abs z <= 2 ^ 52.

Lemma lua_sum_ltb L a b : lua_exact L -> lua_exact a -> lua_exact b ->
  (f64_of_int L <? fadd (f64_of_int a) (f64_of_int b)) = (L <? a + b).
Proof.
  unfold lua_exact. intros. rewrite fadd_of_int by lia. apply f64_of_int_ltb; lia.
Qed.

Lemma lua_exact_range a b : lua_exact a -> lua_exact b -> int64_range (a + b).
Proof. unfold lua_exact, int64_range, min_int64, max_int64. lia. Qed.

End refinement.

(** C33. The reserve script takes the decision [reserveMem] takes on the same
    books, changes nothing when it refuses, and otherwise moves the token
    count exactly as [reserveMem] does (counts up to 2^52). *)
Theorem budgetReserveScript_refines {Store} HINCRBYFLOAT (m : Manager (Store := Store))
    tenant month tokens usd ttl h :
  let key := memKey tenant month in
  let u := usage_of m key month in
  hash_rel h u -> lua_exact (u_tokens u) -> lua_exact tokens -> lua_exact (m_tokens m) ->
  let '(m', err) := reserveMem m tenant month tokens usd in
  let '(h', reply) :=
    budgetReserveScript HINCRBYFLOAT (m_tokens m) (m_usd m) tokens usd ttl h in
  reply = (if err is None then 1 else 0) /\
  (reply = 0 -> h' = h) /\
  hget_tokens h' = u_tokens (usage_of m' key month).
Proof.
  cbv zeta. intros [Ht Hu] Hx1 Hx2 Hx3. unfold reserveMem, budgetReserveScript, reservationQuotaError.
  fold (usage_of m (memKey tenant month) month). set (u := usage_of m _ _) in *.
  rewrite Ht, Hu, lua_sum_ltb by done. rewrite iadd_id by by apply lua_exact_range.
  destruct ((0 <? m_tokens m) && _); [|destruct ((0 <? m_usd m) && _)];
    (split_and!; [done..|]); unfold usage_of; simpl; rewrite lookup_insert_eq; simpl; by rewrite ?Ht.
Qed.

Definition ex_hash : budget_hash := mkBudgetHash 60 0 0.
Definition ex_books : Manager (Store := unit) :=
  with_mem (ex_manager 100) {[ memKey "acme" "2026-09" := mkUsage 60 0 "2026-09" ]}.

Lemma budgetReserveScript_refines_witness :
  let '(m', err) := reserveMem ex_books "acme" "2026-09" 41 0 in
  let '(h', reply) := budgetReserveScript fadd 100 0 41 0 budgetTTLSeconds (Some ex_hash) in
  reply = (if err is None then 1 else 0) /\
  (reply = 0 -> h' = Some ex_hash) /\
  hget_tokens h' = u_tokens (usage_of m' (memKey "acme" "2026-09") "2026-09").
Proof.
  apply (budgetReserveScript_refines fadd ex_books "acme" "2026-09" 41 0 budgetTTLSeconds
    (Some ex_hash)); unfold lua_exact; vm_compute; (split; reflexivity) || congruence.
Defined.

(** The adjust script leaves exactly the books [adjustMem] leaves, tokens
    and dollars, and reports an overrun exactly when [adjustMem] returns an
    error (counts up to 2^52, on a key that has books). *)
Theorem budgetAdjustScript_refines {Store} (m : Manager (Store := Store)) tenant month dt du ttl h u :
  let key := memKey tenant month in
  m_mem m !! key = Some u -> hash_rel h u ->
  lua_exact (u_tokens u) -> lua_exact dt -> lua_exact (m_tokens m) ->
  let '(m', err) := adjustMem m tenant month dt du in
  let '(h', over) := budgetAdjustScript dt du (m_tokens m) (m_usd m) ttl h in
  hash_rel h' (usage_of m' key month) /\ over = (if err is None then 0 else 1).
Proof.
  cbv zeta. intros Hm [Ht Hu] Hx1 Hx2 Hx3. unfold adjustMem. rewrite Hm.
  unfold budgetAdjustScript. rewrite Ht, Hu. unfold hash_rel, usage_of. simpl.
  rewrite lookup_insert_eq. simpl. rewrite iadd_id by by apply lua_exact_range.
  unfold lua_exact in *. rewrite fadd_of_int by lia.
  assert ((if f64_of_int (u_tokens u + dt) <? 0 then 0 else f64_of_int (u_tokens u + dt)) =
    f64_of_int (if u_tokens u + dt <? 0 then 0 else u_tokens u + dt)) as ->.
  { rewrite <-f64_of_int_0 at 1. rewrite f64_of_int_ltb by lia.
    destruct (u_tokens u + dt <? 0); [by rewrite f64_of_int_0|done]. }
  set (t := if u_tokens u + dt <? 0 then 0 else u_tokens u + dt).
  assert (Z.abs t <= 2 ^ 53) by (subst t; go_lia).
  rewrite f64_to_int_of_int by done. rewrite f64_of_int_ltb by lia.
  split; [done|]. unfold reservationQuotaError.
  destruct ((0 <? m_tokens m) && _), ((0 <? m_usd m) && _); done.
Qed.

Lemma budgetAdjustScript_refines_witness :
  let '(m', err) := adjustMem ex_books "acme" "2026-09" 50 0 in
  let '(h', over) := budgetAdjustScript 50 0 100 0 budgetTTLSeconds (Some ex_hash) in
  hash_rel h' (usage_of m' (memKey "acme" "2026-09") "2026-09") /\
  over = (if err is None then 0 else 1).
Proof.
  apply (budgetAdjustScript_refines ex_books "acme" "2026-09" 50 0 budgetTTLSeconds (Some ex_hash)
    (mkUsage 60 0 "2026-09")); unfold lua_exact; vm_compute; (split; reflexivity) || congruence.
Defined.

(** ** Failing closed, isolation and the price of unknown models *)

(** With a live distributed store, [Reserve] fails closed: it succeeds
    exactly when the script answered 1.  An outage, a malformed reply or any
    other number is an error, and the in-process books are not touched. *)
Theorem Reserve_fails_closed {Store W} `{BudgetStore Store W} (m : Manager (Store := Store)) (w : W)
    s tenant month t u :
  m_enabled m = true -> tenant <> "" -> active_store m w = Some s ->
  let '(m', w', res) := Reserve m tenant month t u w in
  let reply := bs_reserve s (budgetKey tenant month) (m_tokens m) (m_usd m) (Z.max 0 t) (Z.max 0 u)
                 budgetTTLSeconds w in
  m' = m /\ w' = reply.1 /\ res <> Ok None /\
  (is_ok res = true <-> reply.2 = Ok (ReplyInt 1)).
Proof.
  intros He Ht Hs. unfold Reserve. rewrite He, Hs.
  assert (str_eqb tenant "" = false) as -> by by apply bool_decide_eq_false_2. simpl.
  replace (if t <? 0 then 0 else t) with (Z.max 0 t) by go_lia.
  replace (if u <? 0 then 0 else u) with (Z.max 0 u) by go_lia.
  unfold reserveRedis. destruct (bs_reserve _ _ _ _ _ _ _ _) as [w1 [[n|]|e]]; simpl;
    [destruct (n =? 1) eqn:En; simpl|..];
    (split_and!; [done..|split; try done]); [intros _; do 2 f_equal|intros [= ->]]; lia.
Qed.

Lemma Reserve_fails_closed_witness :
  let m := SetRedisStore (ex_manager 100) (Some tt) in
  let '(m', w', res) := Reserve m "acme" "2026-09" 10 0 ∅ in
  let reply := bs_reserve tt (budgetKey "acme" "2026-09") 100 0 10 0 budgetTTLSeconds ∅ in
  m' = m /\ w' = reply.1 /\ res <> Ok None /\ (is_ok res = true <-> reply.2 = Ok (ReplyInt 1)).
Proof.
  apply (Reserve_fails_closed (SetRedisStore (ex_manager 100) (Some tt)) ∅ tt "acme" "2026-09" 10 0);
    done.
Defined.

(** Keys of well-formed months ("2006-01", seven bytes) do not collide, even
    for tenants with NUL bytes in their name. *)
Lemma memKey_inj t t' mo mo' :
  String.length mo = String.length mo' -> memKey t mo = memKey t' mo' -> t = t' /\ mo = mo'.
Proof.
  intros Hl He. apply string_app_inj_tail in He as [-> He]; [|simpl; lia].
  by simplify_eq.
Qed.

(** Tenants are isolated: reserving for, or adjusting, one tenant and
    month leaves the records of every other tenant and month as they were. *)
Theorem budget_isolation {Store} (m : Manager (Store := Store)) tenant month t u tenant' month' :
  String.length month = String.length month' -> (tenant, month) <> (tenant', month') ->
  m_mem (reserveMem m tenant month t u).1 !! memKey tenant' month' =
    m_mem m !! memKey tenant' month' /\
  m_mem (adjustMem m tenant month t u).1 !! memKey tenant' month' =
    m_mem m !! memKey tenant' month'.
Proof.
  intros Hl Hne.
  assert (memKey tenant month <> memKey tenant' month') as Hk.
  { intros [-> ->]%memKey_inj; done. }
  unfold reserveMem, adjustMem. split.
  - destruct (reservationQuotaError _ _ _ _); simpl; by rewrite lookup_insert_ne.
  - destruct (m_mem m !! memKey tenant month); [simpl; by rewrite lookup_insert_ne|].
    destruct (_ && _); simpl; [done|by rewrite lookup_insert_ne].
Qed.

Lemma budget_isolation_witness :
  m_mem (reserveMem ex_books "globex" "2026-09" 7 0).1 !! memKey "acme" "2026-09" =
    m_mem ex_books !! memKey "acme" "2026-09" /\
  m_mem (adjustMem ex_books "globex" "2026-09" 7 0).1 !! memKey "acme" "2026-09" =
    m_mem ex_books !! memKey "acme" "2026-09".
Proof. apply (budget_isolation ex_books "globex" "2026-09" 7 0); done. Defined.

(** A manager without price rules prices a chat a million times below
    its own per-token cost: [CostForTokens] multiplies by
    [cost_per_token_usd], while the catalog it built from the same number
    reads it as a price per million tokens. *)
Theorem fallback_price_unit {Store} enabled tokens usd cost (store : option Store) provider model p q :
  0 <= cost -> 0 <= p -> 0 <= q -> 0 < p + q <= max_int64 ->
  let m := NewConfiguredWithStore enabled tokens usd cost store None in
  exists e,
    CostForChat m provider model p q = Ok e /\ e_Known e = false /\
    e_USD e = fdiv (CostForTokens m (p + q)) (f64_of_int 1000000).
Proof.
  intros Hc Hp Hq Hr. cbv zeta. unfold NewConfiguredWithStore, CostForChat, fallback_catalog, NewCatalog.
  replace (cost <? 0) with false by lia. simpl m_catalog.
  replace (cost <? 0) with false by lia. simpl.
  unfold Catalog_Chat, CostForTokens. simpl.
  replace (p <? 0) with false by lia. replace (q <? 0) with false by lia.
  rewrite iadd_id by (unfold int64_range, min_int64, max_int64 in *; lia).
  replace (p + q <=? 0) with false by lia. by eexists.
Qed.

Lemma fallback_price_unit_witness :
  exists e,
    CostForChat (ex_manager 0) "openai" "gpt-4o" 600000 400000 = Ok e /\ e_Known e = false /\
    e_USD e = fdiv (CostForTokens (ex_manager 0) 1000000) (f64_of_int 1000000).
Proof.
  apply (fallback_price_unit (Store := unit) false 0 0 defaultCostPerTokenUSD None "openai" "gpt-4o"
    600000 400000); vm_compute; (split; congruence) || congruence.
Defined.

(** A million tokens at the default $0.00001 per token: ten dollars by
    [CostForTokens], a thousandth of a cent by the catalog. *)
Example fallback_price_example :
  CostForTokens (ex_manager 0) 1000000 = f64_of_int 10 /\
  CostForChat (ex_manager 0) "openai" "gpt-4o" 600000 400000 =
    Ok (mkEstimate (f64_const 1 100000) false "USD" "").
Proof. split; vm_compute; reflexivity. Qed.

(** ** One reservation, whatever it wraps around *)
Section settle.
Context {Store W : Type} `{BudgetStore Store W}.
Implicit Types m : Manager (Store := Store).

(** The counters of the in-process books are counters. *)
Definition books_ok m : Prop := forall key, 0 <= usage_tokens m key <= max_int64.

Lemma reserveMem_usage m tenant month tokens usd :
  let '(m', err) := reserveMem m tenant month tokens usd in
  m_redisStore m' = m_redisStore m /\
  forall k, usage_tokens m' k =
    match err with
    | None => if str_eqb (memKey tenant month) k then iadd (usage_tokens m k) tokens else usage_tokens m k
    | Some _ => usage_tokens m k
    end.
Proof.
  unfold reserveMem. set (key := memKey tenant month). set (u := default _ _).
  assert (u_tokens u = usage_tokens m key) as Hu.
  { subst u. unfold usage_tokens. by destruct (m_mem m !! key). }
  destruct (reservationQuotaError _ _ _ _); split; try done; intros k;
    rewrite usage_with_mem; unfold str_eqb; case_bool_decide as E; rewrite <-?E; simpl; congruence.
Qed.

Lemma adjustMem_usage m tenant month dt du :
  int64_range dt ->
  let m' := (adjustMem m tenant month dt du).1 in
  m_redisStore m' = m_redisStore m /\
  forall k, usage_tokens m' k =
    if str_eqb (memKey tenant month) k then Z.max 0 (iadd (usage_tokens m k) dt) else usage_tokens m k.
Proof.
  intros Hdt. unfold adjustMem. set (key := memKey tenant month).
  assert (forall u, u_tokens (usage_adjust u dt du) = Z.max 0 (iadd (u_tokens u) dt)) as Hu.
  { intros u. unfold usage_adjust. simpl. go_lia. }
  destruct (m_mem m !! key) as [u|] eqn:Eu; simpl; [|destruct (_ && _) eqn:Ez; simpl];
    (split; [done|]); intros k; rewrite ?usage_with_mem; unfold str_eqb;
    case_bool_decide as Ek; subst; rewrite ?Hu; try done; unfold usage_tokens; rewrite ?Eu; simpl; try done.
  rewrite iadd_id by done. go_lia.
Qed.

(** Cancelling [rv], if there is one, restores the counters [f]. *)
Definition restores m (f : string -> Z) (rv : option Reservation) : Prop :=
  forall w, let m2 := match rv with Some rv => (Cancel m rv w).1.1 | None => m end in
    in_memory m2 /\ forall k, usage_tokens m2 k = f k.

(** A cancelled reservation leaves no trace in the token books, even if the
    reservation wrapped around; a refused one leaves none at all. *)
Lemma Reserve_restores m tenant month tokens usd w :
  in_memory m -> books_ok m ->
  match Reserve m tenant month tokens usd w with
  | (m1, _, Ok rv) => restores m1 (usage_tokens m) rv
  | (m1, _, Err _) => restores m1 (usage_tokens m) None
  end.
Proof.
  intros Hs Hb. unfold Reserve. rewrite !Hs. destruct (_ || _); [by intros ?|]. cbv zeta.
  set (t := if tokens <? 0 then 0 else tokens). set (u := if usd <? 0 then 0 else usd).
  pose proof (reserveMem_usage m tenant month t u) as Hr.
  destruct (reserveMem m tenant month t u) as [m1 [e|]]; destruct Hr as [Hs1 Hu1];
    intros w'; [split; [by eapply in_memory_eq|done]|].
  apply (in_memory_eq _ _ Hs1) in Hs. unfold Cancel, reservation_finish, adjust. simpl. rewrite !Hs.
  pose proof (adjustMem_usage m1 tenant month (wrap64 (- t)) (- u) (wrap64_range _)) as Ha.
  destruct (adjustMem m1 tenant month _ _) as [m2 e]. destruct Ha as [Hs2 Hu2].
  split; [by eapply in_memory_eq|]. intros k. simpl in *. rewrite Hu2, Hu1.
  unfold str_eqb. case_bool_decide as Ek; subst; [|done]. pose proof (Hb (memKey tenant month)).
  rewrite iadd_isub; [lia|]. unfold int64_range, min_int64. lia.
Qed.

(** Adding and then correcting is adding the corrected amount, modulo 2^64. *)
Lemma iadd_correct u t a : iadd (iadd u t) (isub a t) = iadd u a.
Proof.
  unfold iadd, isub. rewrite wrap64_add_l, (Z.add_comm (u + t)), wrap64_add_l. f_equal. lia.
Qed.

(** An open reservation of the in-process manager. *)
Definition open_reservation m (f : string -> Z) (key : string) (rv : Reservation) : Prop :=
  in_memory m /\ rv_once rv = false /\ memKey (rv_tenant rv) (rv_month rv) = key /\
  forall k, usage_tokens m k = if str_eqb key k then iadd (f k) (rv_reservedTokens rv) else f k.

Lemma Reserve_opens m tenant month tokens usd w m1 w1 rv :
  in_memory m -> m_enabled m = true -> tenant <> "" ->
  Reserve m tenant month tokens usd w = (m1, w1, Ok rv) ->
  exists rv', rv = Some rv' /\ open_reservation m1 (usage_tokens m) (memKey tenant month) rv'.
Proof.
  intros Hs He Ht. unfold Reserve. rewrite !Hs, He. unfold str_eqb.
  rewrite bool_decide_eq_false_2 by done. simpl. cbv zeta.
  match goal with |- context [reserveMem m ?a ?b ?c ?d] =>
    pose proof (reserveMem_usage m a b c d) as Hr; destruct (reserveMem m a b c d) as [m' [e|]] end; [done|].
  intros [= -> _ <-]. destruct Hr as [Hs1 Hu]. eexists. split; [done|].
  split_and!; [by eapply in_memory_eq|done|done|exact Hu].
Qed.

Lemma Commit_charges m f key rv actual usd w m1 w1 rv1 err :
  open_reservation m f key rv -> int64_range actual ->
  Commit m rv actual usd w = (m1, w1, rv1, err) ->
  in_memory m1 /\
  forall k, usage_tokens m1 k = if str_eqb key k then Z.max 0 (iadd (f k) (Z.max 0 actual)) else f k.
Proof.
  intros (Hs & Ho & Hk & Hu) Ha. unfold Commit, reservation_finish, adjust. rewrite Ho, !Hs. cbv zeta.
  set (a := if actual <? 0 then 0 else actual). assert (a = Z.max 0 actual) as <- by (subst a; go_lia).
  match goal with |- context [adjustMem m ?t ?mo ?d ?u] =>
    pose proof (adjustMem_usage m t mo d u (wrap64_range _)) as Hm; destruct (adjustMem m t mo d u) as [m' e] end.
  simpl in Hm. intros [= <- _ _ _]. destruct Hm as [Hs' Hu']. split; [by eapply in_memory_eq|]. intros k. rewrite Hu', Hk, Hu.
  destruct (str_eqb key k); [|done]. by rewrite iadd_correct.
Qed.

End settle.
