(* ===== verification/RateLimit.v ===== *)
(** * Rate limiting: [internal/ratelimit]

    Token buckets per key, kept in sixteen shards of an in-process limiter
    ([token_bucket.go]) or in Redis hashes driven by a Lua script
    ([redis.go]), and the resolution of per-tenant and per-model limits
    ([override.go]).  Token counts are [float64], as in the code; operations
    that read the clock take the reading [now]. *)

From S2P Require Import Prelude GoFloat GoStrings.
From Stdlib Require Import Ascii String.
Open Scope string_scope.
Open Scope list_scope.
Open Scope Z_scope.

(** ** The in-process limiter *)

Record bucket := mkBucket {
  bk_tokens : float64;
  bk_lastRefill : Z;
  bk_lastSeen : Z;
}.

Abbreviation shard := (gmap string bucket).

Record Limiter := mkLimiter {
  lm_shards : list shard;
  lm_rate : float64;
  lm_burst : float64;
  lm_ttl : Z;
}.

(** [float64(requestsPerMinute) / 60.0]. *)
Definition rpm_rate (rpm : Z) : float64 := fdiv (f64_of_int rpm) (f64_of_int 60).

Definition NewLimiter (requestsPerMinute burst : Z) : Limiter :=
  mkLimiter (replicate 16 ∅) (rpm_rate requestsPerMinute) (f64_of_int burst) (10 * Minute).

(** FNV-1a, 32 bits. *)
Definition fnv32a (key : string) : Z :=
  foldl (fun h b => Z.lxor h (Z.of_N (N_of_ascii b)) * 16777619 mod 2 ^ 32) 2166136261 (bytes key).

Definition shardFor (key : string) : nat := Z.to_nat (fnv32a key mod 16).

(** The refill of [refillLocked]: [elapsed * rate] more tokens, at most [burst]. *)
Definition refill_tokens (tokens elapsed rate burst : float64) : float64 :=
  let tokens := fadd tokens (fmul elapsed rate) in
  if burst <? tokens then burst else tokens.

(** [now.Sub(t).Seconds()]; [Sub] saturates. *)
Definition elapsed_seconds (now t : Z) : float64 :=
  Duration_Seconds (Z.max min_int64 (Z.min max_int64 (now - t))).

Definition refillLocked (sh : shard) (key : string) (rate burst : float64) (now : Z)
    : shard * bucket :=
  match sh !! key with
  | None =>
      let b := mkBucket burst now now in (<[key := b]> sh, b)
  | Some b =>
      let b := mkBucket
                 (refill_tokens (bk_tokens b) (elapsed_seconds now (bk_lastRefill b)) rate burst)
                 now now in
      (<[key := b]> sh, b)
  end.

Definition with_shard (l : Limiter) (i : nat) (sh : shard) : Limiter :=
  mkLimiter (<[i := sh]> (lm_shards l)) (lm_rate l) (lm_burst l) (lm_ttl l).

Definition shard_at (l : Limiter) (i : nat) : shard := default ∅ (lm_shards l !! i).

Definition AllowWithLimits (l : Limiter) (key : string) (n0 requestsPerMinute burst now : Z)
    : Limiter * bool :=
  let n := if n0 <=? 0 then 1 else n0 in
  if (requestsPerMinute <=? 0) || (burst <=? 0) then (l, false)
  else
    let rate := rpm_rate requestsPerMinute in
    let maxTokens := f64_of_int burst in
    let i := shardFor key in
    let '(sh, b) := refillLocked (shard_at l i) key rate maxTokens now in
    if bk_tokens b <? f64_of_int n then (with_shard l i sh, false)
    else
      let b := mkBucket (fsub (bk_tokens b) (f64_of_int n)) (bk_lastRefill b) (bk_lastSeen b) in
      (with_shard l i (<[key := b]> sh), true).

Definition UpdateLimits (l : Limiter) (requestsPerMinute burst : Z) : Limiter :=
  mkLimiter (lm_shards l)
    (if 0 <? requestsPerMinute then rpm_rate requestsPerMinute else lm_rate l)
    (if 0 <? burst then f64_of_int burst else lm_burst l) (lm_ttl l).

Definition GetLimits (l : Limiter) : Z * Z :=
  (f64_to_int (fmul (lm_rate l) (f64_of_int 60)), f64_to_int (lm_burst l)).

Definition AllowN (l : Limiter) (key : string) (n now : Z) : Limiter * bool :=
  let '(rpm, burst) := GetLimits l in AllowWithLimits l key n rpm burst now.

Definition Allow (l : Limiter) (key : string) (now : Z) : Limiter * bool := AllowN l key 1 now.

Definition SetBurstForTesting (l : Limiter) (burst : Z) : Limiter :=
  mkLimiter (lm_shards l) (lm_rate l) (f64_of_int burst) (lm_ttl l).

Definition RetryAfterWithLimits (l : Limiter) (key : string) (requestsPerMinute burst now : Z)
    : Limiter * Z :=
  if (requestsPerMinute <=? 0) || (burst <=? 0) then (l, Second)
  else
    let i := shardFor key in
    let rate := rpm_rate requestsPerMinute in
    let '(sh, b) := refillLocked (shard_at l i) key rate (f64_of_int burst) now in
    let l := with_shard l i sh in
    if f64_of_int 1 <=? bk_tokens b then (l, 0)
    else
      let seconds := fdiv (fsub (f64_of_int 1) (bk_tokens b)) rate in
      (l, f64_to_int (fmul seconds (f64_of_int Second))).

Definition RetryAfter (l : Limiter) (key : string) (now : Z) : Limiter * Z :=
  let '(rpm, burst) := GetLimits l in RetryAfterWithLimits l key rpm burst now.

Definition Tokens (l : Limiter) (key : string) (now : Z) : Limiter * float64 :=
  let i := shardFor key in
  let '(sh, b) := refillLocked (shard_at l i) key (lm_rate l) (lm_burst l) now in
  (with_shard l i sh, bk_tokens b).

(** One tick of [cleanupLoop]. *)
Definition cleanup (l : Limiter) (now : Z) : Limiter :=
  let cutoff := now - lm_ttl l in
  mkLimiter (filter (fun kv : string * bucket => ~ (bk_lastSeen kv.2 < cutoff)) <$> lm_shards l)
    (lm_rate l) (lm_burst l) (lm_ttl l).

Definition EstimateTokens (messagesChars : Z) : Z :=
  if messagesChars <=? 0 then 1
  else
    let tokens := Z.quot messagesChars 4 in
    if tokens <? 1 then 1 else tokens.

(** ** Overrides *)

Record RateLimitOverride := mkOverride {
  ov_Tenant : string;
  ov_ModelPattern : string;
  ov_RPM : Z;
  ov_Burst : Z;
}.

Record OverrideStore := mkOverrideStore {
  os_defaultRPM : Z;
  os_defaultBurst : Z;
  os_overrides : list RateLimitOverride;
}.

Definition matchPattern (pattern s : string) : bool :=
  if str_eqb pattern s then true
  else if Contains pattern "*" then path_matches pattern s
  else false.

Definition matchSpecificity (pattern value : string) : Z :=
  if str_eqb pattern "" || str_eqb pattern "*" then 0
  else if str_eqb pattern value then 2
  else 1.

Definition override_matches (tenant model : string) (ov : RateLimitOverride) : bool :=
  (str_eqb (ov_Tenant ov) "" || str_eqb (ov_Tenant ov) tenant || str_eqb (ov_Tenant ov) "*") &&
  (str_eqb (ov_ModelPattern ov) "" || str_eqb (ov_ModelPattern ov) "*"
   || matchPattern (ov_ModelPattern ov) model).

Definition override_score (tenant model : string) (ov : RateLimitOverride) : Z :=
  matchSpecificity (ov_Tenant ov) tenant + matchSpecificity (ov_ModelPattern ov) model.

(** One iteration of the loop of [Resolve]: [rpm], [burst] and [bestScore]. *)
Definition Resolve_step (tenant model : string) (acc : Z * Z * Z) (ov : RateLimitOverride)
    : Z * Z * Z :=
  let '(rpm, burst, bestScore) := acc in
  if override_matches tenant model ov then
    let score := override_score tenant model ov in
    if score <? bestScore then acc
    else (if 0 <? ov_RPM ov then ov_RPM ov else rpm,
          if 0 <? ov_Burst ov then ov_Burst ov else burst, score)
  else acc.

Definition Resolve (o : OverrideStore) (tenant model : string) : Z * Z :=
  (foldl (Resolve_step tenant model) (os_defaultRPM o, os_defaultBurst o, -1) (os_overrides o)).1.

(** [NewOverrideStore] and [Reload] copy the three fields of the config. *)
Definition OverrideStore_Reload (o : OverrideStore) (rpm burst : Z) (ovs : list RateLimitOverride)
    : OverrideStore :=
  mkOverrideStore rpm burst ovs.

(** ** The Redis limiter *)

Record rate_hash := mkRateHash { rh_tokens : float64; rh_last_refill : float64; rh_ttl : Z }.

(** The Lua script on the hash of one key: the new hash, and the two-element
    reply. *)
Definition luaScript (rate burst now : float64) (ttl : Z) (requested : float64)
    (h : option rate_hash) : rate_hash * (Z * float64) :=
  let tokens :=
    match h with
    | None => burst
    | Some h =>
        let elapsed := fsub now (rh_last_refill h) in
        let tokens := fadd (rh_tokens h) (fmul elapsed rate) in
        if burst <? tokens then burst else tokens
    end in
  let '(tokens, allowed) :=
    if requested <=? tokens then (fsub tokens requested, 1) else (tokens, 0) in
  (mkRateHash tokens now ttl, (allowed, tokens)).

(** The reply as the client sees it: a list whose first element is an
    integer, or anything else. *)
Inductive rate_reply := RateReply (allowed : Z) | RateOther.

(** What the limiter uses of the store: one script run on the world [W]. *)
Class RateStore (Store W : Type) := {
  rs_run : Store -> string -> float64 -> float64 -> float64 -> Z -> Z -> W ->
           W * result rate_reply unit;
}.

Section redis.
Context {Store W : Type} `{RateStore Store W}.

Record RedisLimiter := mkRedisLimiter {
  rl_store : option Store;
  rl_rate : float64;
  rl_burst : float64;
  rl_fallback : Limiter;
  rl_degraded : bool;
}.

Definition NewRedisWithStore (store : option Store) (requestsPerMinute burst : Z) : RedisLimiter :=
  mkRedisLimiter store (rpm_rate requestsPerMinute) (f64_of_int burst)
    (NewLimiter requestsPerMinute burst) false.

Definition rl_set (r : RedisLimiter) (fallback : Limiter) (degraded : bool) : RedisLimiter :=
  mkRedisLimiter (rl_store r) (rl_rate r) (rl_burst r) fallback degraded.

(** [float64(time.Now().UnixNano()) / 1e9]. *)
Definition unix_seconds (now : Z) : float64 := fdiv (f64_of_int now) (f64_of_int 1000000000).

Definition Redis_AllowWithLimits (r : RedisLimiter) (key : string) (n0 requestsPerMinute burst now : Z)
    (w : W) : RedisLimiter * W * bool :=
  let n := if n0 <=? 0 then 1 else n0 in
  if (requestsPerMinute <=? 0) || (burst <=? 0) then (r, w, false)
  else
    let rate := rpm_rate requestsPerMinute in
    let local w :=
      let '(fb, ok) := AllowWithLimits (rl_fallback r) key n requestsPerMinute burst now in
      (rl_set r fb true, w, ok) in
    match rl_store r with
    | None => local w
    | Some s =>
        match rs_run s ("ratelimit:" +:+ key) rate (f64_of_int burst) (unix_seconds now) 600 n w with
        | (w1, Err _) => local w1
        | (w1, Ok (RateReply v)) => (rl_set r (rl_fallback r) false, w1, v =? 1)
        | (w1, Ok RateOther) => local w1
        end
    end.

Definition redis_limits (r : RedisLimiter) : Z * Z :=
  (f64_to_int (fmul (rl_rate r) (f64_of_int 60)), f64_to_int (rl_burst r)).

Definition Redis_AllowN (r : RedisLimiter) (key : string) (n now : Z) (w : W) :=
  let '(rpm, burst) := redis_limits r in Redis_AllowWithLimits r key n rpm burst now w.

Definition Redis_Allow (r : RedisLimiter) (key : string) (now : Z) (w : W) := Redis_AllowN r key 1 now w.

Definition Redis_RetryAfterWithLimits (r : RedisLimiter) (key : string)
    (requestsPerMinute burst now : Z) : RedisLimiter * Z :=
  if requestsPerMinute <=? 0 then (r, Second)
  else if rl_degraded r then
    let '(fb, d) := RetryAfterWithLimits (rl_fallback r) key requestsPerMinute burst now in
    (rl_set r fb (rl_degraded r), d)
  else
    (r, f64_to_int (fmul (fdiv (f64_of_int 60) (f64_of_int requestsPerMinute)) (f64_of_int Second))).

Definition Redis_RetryAfter (r : RedisLimiter) (key : string) (now : Z) : RedisLimiter * Z :=
  let '(rpm, burst) := redis_limits r in Redis_RetryAfterWithLimits r key rpm burst now.

Definition Redis_UpdateLimits (r : RedisLimiter) (requestsPerMinute burst : Z) : RedisLimiter :=
  if (requestsPerMinute <=? 0) || (burst <=? 0) then r
  else
    mkRedisLimiter (rl_store r) (rpm_rate requestsPerMinute) (f64_of_int burst)
      (UpdateLimits (rl_fallback r) requestsPerMinute burst) (rl_degraded r).

End redis.

(** ** Refill arithmetic *)
Section refill.

Lemma rpm_rate_nonneg rpm : 0 <= rpm -> 0 <= rpm_rate rpm.
Proof.
  intros. apply fdiv_nonneg; [by apply f64_of_int_nonneg|].
  pose proof (f64_of_int_pos 60). pose proof f64_one_pos. lia.
Qed.

(** The tokens credited for [dt] nanoseconds, against the exact
    [dt * rpm / 60e9]: the four roundings add less than [2^-50] of it. *)
Lemma refill_gain_upper rpm dt :
  0 < rpm <= 2 ^ 53 -> 0 <= dt <= max_int64 ->
  fmul (Duration_Seconds dt) (rpm_rate rpm) * (60 * Second) * 2 ^ 53
    <= dt * rpm * f64_one * (2 ^ 53 + 8).
Proof.
  intros Hr Hd. pose proof (Duration_Seconds_upper dt Hd) as He.
  pose proof (fdiv_int_upper rpm 60 ltac:(lia) ltac:(lia)) as Hu.
  pose proof (fdiv_int_lower rpm 60 ltac:(lia) ltac:(lia)) as Hl.
  fold (rpm_rate rpm) in Hu, Hl. pose proof f64_one_big as H1.
  pose proof (Duration_Seconds_nonneg dt ltac:(lia)) as He0.
  pose proof (rpm_rate_nonneg rpm ltac:(lia)) as Hr0.
  assert (Duration_Seconds dt = 0 \/ 2 ^ 100 <= Duration_Seconds dt) as Hc.
  { assert (dt = 0 \/ 0 < dt) as [->|] by lia; [left; by vm_compute|right].
    apply Duration_Seconds_lower. lia. }
  pose proof (fmul_upper (Duration_Seconds dt) (rpm_rate rpm) He0 Hr0) as Hm.
  set (e := Duration_Seconds dt) in *. set (r := rpm_rate rpm) in *. set (g := fmul e r) in *.
  assert (g * f64_one * 2 ^ 53 <= e * r * f64_eps) as Hg.
  { apply Hm. destruct Hc as [->|Hc]; [left; lia|right]. nia. }
  clearbody e r g. clear Hm Hc Hl.
  assert (e * r * (Second * 60) * 2 ^ 159 <= dt * rpm * f64_one * f64_one * f64_eps ^ 3) as Her.
  { replace (e * r * (Second * 60) * 2 ^ 159) with ((e * Second * 2 ^ 106) * (r * 60 * 2 ^ 53)) by ring.
    replace (dt * rpm * f64_one * f64_one * f64_eps ^ 3) with
      ((dt * f64_one * f64_eps ^ 2) * (rpm * f64_one * f64_eps)) by ring.
    apply Z.mul_le_mono_nonneg; unfold Second in *; nia. }
  assert (g * (60 * Second) * 2 ^ 212 <= dt * rpm * f64_one * f64_eps ^ 4) as Hgg.
  { apply (Z.mul_le_mono_pos_r _ _ f64_one); [lia|].
    replace (g * (60 * Second) * 2 ^ 212 * f64_one) with
      ((g * f64_one * 2 ^ 53) * ((60 * Second) * 2 ^ 159)) by ring.
    replace (dt * rpm * f64_one * f64_eps ^ 4 * f64_one) with
      ((dt * rpm * f64_one * f64_one * f64_eps ^ 3) * f64_eps) by ring.
    assert (e * r * f64_eps * ((60 * Second) * 2 ^ 159) =
      e * r * (Second * 60) * 2 ^ 159 * f64_eps) as Heq by ring.
    unfold Second, f64_eps in *. nia. }
  assert (f64_eps ^ 4 <= 2 ^ 159 * (2 ^ 53 + 8)) as Hp by (vm_compute; congruence).
  assert (0 <= dt * rpm * f64_one) by nia.
  assert (g * (60 * Second) * 2 ^ 53 * 2 ^ 159 <= dt * rpm * f64_one * (2 ^ 53 + 8) * 2 ^ 159); [|lia].
  nia.
Qed.

End refill.

(** ** One map of buckets

    The specification the sharded limiter implements: a single map from keys
    to buckets, on which a request refills the bucket of its key and takes
    its tokens if they are there. *)
Definition refilled (b : option bucket) (rate burst : float64) (now : Z) : bucket :=
  match b with
  | None => mkBucket burst now now
  | Some b =>
      mkBucket (refill_tokens (bk_tokens b) (elapsed_seconds now (bk_lastRefill b)) rate burst) now now
  end.

Definition taken (b : bucket) (n : Z) : bucket * bool :=
  if bk_tokens b <? f64_of_int n then (b, false)
  else (mkBucket (fsub (bk_tokens b) (f64_of_int n)) (bk_lastRefill b) (bk_lastSeen b), true).

Definition flat_allow (m : gmap string bucket) (key : string) (n rpm burst now : Z)
    : gmap string bucket * bool :=
  if (rpm <=? 0) || (burst <=? 0) then (m, false)
  else
    let '(b, ok) := taken (refilled (m !! key) (rpm_rate rpm) (f64_of_int burst) now) (Z.max 1 n) in
    (<[key := b]> m, ok).

Definition flat_cleanup (m : gmap string bucket) (ttl now : Z) : gmap string bucket :=
  filter (fun kv : string * bucket => ~ (bk_lastSeen kv.2 < now - ttl)) m.

(** The limiter represents the map: every key is in its own shard. *)
Definition limiter_rel (l : Limiter) (m : gmap string bucket) : Prop :=
  List.length (lm_shards l) = 16%nat /\
  forall key, shard_at l (shardFor key) !! key = m !! key.

Section sharding.
Implicit Types (l : Limiter) (m : gmap string bucket).

Lemma shardFor_lt key : (shardFor key < 16)%nat.
Proof. unfold shardFor. pose proof (Z.mod_pos_bound (fnv32a key) 16). lia. Qed.

Lemma shard_at_with_shard l i j sh : (i < List.length (lm_shards l))%nat ->
  shard_at (with_shard l i sh) j = if decide (i = j) then sh else shard_at l j.
Proof.
  intros Hi. unfold shard_at. simpl. case_decide; subst.
  - by rewrite list_lookup_insert_eq.
  - by rewrite list_lookup_insert_ne.
Qed.

Lemma limiter_rel_set l m key sh b :
  limiter_rel l m -> sh = <[key := b]> (shard_at l (shardFor key)) ->
  limiter_rel (with_shard l (shardFor key) sh) (<[key := b]> m).
Proof.
  intros [Hl Hm] ->. split; [simpl; by rewrite length_insert|]. intros k.
  rewrite shard_at_with_shard by (rewrite Hl; apply shardFor_lt).
  destruct (decide (key = k)) as [->|Hne].
  - rewrite decide_True by done. by rewrite !lookup_insert_eq.
  - rewrite (lookup_insert_ne m) by done. case_decide as E; [|apply Hm].
    rewrite lookup_insert_ne by done. rewrite E. apply Hm.
Qed.

Lemma refillLocked_eq sh key rate burst now :
  refillLocked sh key rate burst now =
  (<[key := refilled (sh !! key) rate burst now]> sh, refilled (sh !! key) rate burst now).
Proof. unfold refillLocked, refilled. by destruct (sh !! key). Qed.

Lemma AllowWithLimits_flat l m key n rpm burst now :
  limiter_rel l m ->
  let '(l', ok) := AllowWithLimits l key n rpm burst now in
  let '(m', ok') := flat_allow m key n rpm burst now in
  ok = ok' /\ limiter_rel l' m'.
Proof.
  intros Hr. pose proof Hr as [_ Hm]. unfold AllowWithLimits, flat_allow.
  destruct ((rpm <=? 0) || (burst <=? 0)); [done|].
  rewrite refillLocked_eq, Hm. unfold taken.
  replace (if n <=? 0 then 1 else n) with (Z.max 1 n) by go_lia.
  destruct (bk_tokens _ <? _); (split; [done|]); apply limiter_rel_set; try done.
  by rewrite insert_insert_eq.
Qed.

Lemma cleanup_flat l m now :
  limiter_rel l m -> limiter_rel (cleanup l now) (flat_cleanup m (lm_ttl l) now).
Proof.
  intros [Hl Hm]. split; [simpl; by rewrite length_fmap|]. intros key.
  specialize (Hm key). unfold shard_at in *. simpl. rewrite list_lookup_fmap.
  pose proof (shardFor_lt key) as Hs.
  destruct (lookup_lt_is_Some_2 (lm_shards l) (shardFor key)) as [sh Hsh]; [lia|].
  rewrite Hsh in *. simpl in *. unfold flat_cleanup.
  apply option_eq. intros b. rewrite !map_lookup_filter_Some. by rewrite Hm.
Qed.

Lemma NewLimiter_rel rpm burst : limiter_rel (NewLimiter rpm burst) ∅.
Proof.
  split; [done|]. intros key. unfold shard_at, NewLimiter. cbn [lm_shards].
  rewrite lookup_replicate_2 by apply shardFor_lt. done.
Qed.

End sharding.

(** C29. Sharding is transparent: a limiter that represents a map of buckets
    answers every request as the single map would and represents the map
    after it, and the same for the cleanup tick.  In particular a request
    never touches the bucket of another key. *)
Theorem sharded_limiter_refines l m key n rpm burst now :
  limiter_rel l m ->
  (let '(l', ok) := AllowWithLimits l key n rpm burst now in
   let '(m', ok') := flat_allow m key n rpm burst now in
   ok = ok' /\ limiter_rel l' m' /\ forall k, k <> key -> m' !! k = m !! k) /\
  limiter_rel (cleanup l now) (flat_cleanup m (lm_ttl l) now).
Proof.
  intros Hr. split; [|by apply cleanup_flat].
  pose proof (AllowWithLimits_flat l m key n rpm burst now Hr) as Hf.
  destruct (AllowWithLimits _ _ _ _ _ _) as [l' ok].
  assert (forall k, k <> key -> (flat_allow m key n rpm burst now).1 !! k = m !! k) as Hk.
  { intros k Hk. unfold flat_allow. destruct (_ || _); [done|].
    destruct (taken _ _). simpl. by rewrite lookup_insert_ne. }
  destruct (flat_allow _ _ _ _ _ _) as [m' ok']. naive_solver.
Qed.

Lemma sharded_limiter_refines_witness :
  (let '(l', ok) := AllowWithLimits (NewLimiter 60 2) "k" 1 60 2 0 in
   let '(m', ok') := flat_allow ∅ "k" 1 60 2 0 in
   ok = ok' /\ limiter_rel l' m' /\ forall k, k <> "k" -> m' !! k = (∅ : gmap string bucket) !! k) /\
  limiter_rel (cleanup (NewLimiter 60 2) 0) (flat_cleanup ∅ (10 * Minute) 0).
Proof. exact (sharded_limiter_refines (NewLimiter 60 2) ∅ "k" 1 60 2 0 (NewLimiter_rel 60 2)). Defined.

(** ** Operations on a shared limiter

    What the handlers, the reload callback and the ticker do to the one
    limiter of the process.  Each runs under the lock of its shard, and
    reads the clock there, so any run is a sequence of them.  [Allow], [AllowN]
    and [RetryAfter] are the first two under the limiter's own limits. *)
Inductive limiter_op :=
| OpAllow (key : string) (n rpm burst now : Z)
| OpRetryAfter (key : string) (rpm burst now : Z)
| OpUpdateLimits (rpm burst : Z)
| OpCleanup (now : Z).

Definition limiter_do (l : Limiter) (op : limiter_op) : Limiter * bool :=
  match op with
  | OpAllow key n rpm burst now => AllowWithLimits l key n rpm burst now
  | OpRetryAfter key rpm burst now => ((RetryAfterWithLimits l key rpm burst now).1, false)
  | OpUpdateLimits rpm burst => (UpdateLimits l rpm burst, false)
  | OpCleanup now => (cleanup l now, false)
  end.

(** The tokens an operation asks for [key]. *)
Definition asks (key : string) (op : limiter_op) : Z :=
  match op with OpAllow k n _ _ _ => if str_eqb k key then Z.max 1 n else 0 | _ => 0 end.

(** Tokens admitted for [key] by a sequence of operations. *)
Fixpoint admitted (l : Limiter) (key : string) (ops : list limiter_op) : Z :=
  match ops with
  | [] => 0
  | op :: ops => let '(l', ok) := limiter_do l op in (if ok then asks key op else 0) + admitted l' key ops
  end.

(** The same on the single map. *)
Definition flat_do (ttl : Z) (m : gmap string bucket) (op : limiter_op) : gmap string bucket * bool :=
  match op with
  | OpAllow key n rpm burst now => flat_allow m key n rpm burst now
  | OpRetryAfter key rpm burst now =>
      (if (rpm <=? 0) || (burst <=? 0) then m
       else <[key := refilled (m !! key) (rpm_rate rpm) (f64_of_int burst) now]> m, false)
  | OpUpdateLimits _ _ => (m, false)
  | OpCleanup now => (flat_cleanup m ttl now, false)
  end.

Fixpoint flat_admitted (ttl : Z) (m : gmap string bucket) (key : string) (ops : list limiter_op) : Z :=
  match ops with
  | [] => 0
  | op :: ops =>
      let '(m', ok) := flat_do ttl m op in (if ok then asks key op else 0) + flat_admitted ttl m' key ops
  end.

Lemma RetryAfterWithLimits_flat l m key rpm burst now :
  limiter_rel l m ->
  limiter_rel (RetryAfterWithLimits l key rpm burst now).1
    (if (rpm <=? 0) || (burst <=? 0) then m
     else <[key := refilled (m !! key) (rpm_rate rpm) (f64_of_int burst) now]> m).
Proof.
  intros Hr. pose proof Hr as [_ Hm]. unfold RetryAfterWithLimits.
  destruct (_ || _); [done|]. rewrite refillLocked_eq, Hm.
  destruct (f64_of_int 1 <=? _); by apply limiter_rel_set.
Qed.

Lemma AllowWithLimits_ttl l key n rpm burst now :
  lm_ttl (AllowWithLimits l key n rpm burst now).1 = lm_ttl l.
Proof.
  unfold AllowWithLimits. destruct (_ || _); [done|]. rewrite refillLocked_eq. by destruct (bk_tokens _ <? _).
Qed.

Lemma RetryAfterWithLimits_ttl l key rpm burst now :
  lm_ttl (RetryAfterWithLimits l key rpm burst now).1 = lm_ttl l.
Proof.
  unfold RetryAfterWithLimits. destruct (_ || _); [done|]. rewrite refillLocked_eq. by destruct (_ <=? _).
Qed.

Lemma limiter_do_flat l m op :
  limiter_rel l m ->
  let '(l', ok) := limiter_do l op in
  let '(m', ok') := flat_do (lm_ttl l) m op in
  ok = ok' /\ limiter_rel l' m' /\ lm_ttl l' = lm_ttl l.
Proof.
  intros Hr. destruct op as [key n rpm burst now|key rpm burst now|rpm burst|now]; simpl.
  - pose proof (AllowWithLimits_flat l m key n rpm burst now Hr) as Hf.
    pose proof (AllowWithLimits_ttl l key n rpm burst now) as Ht.
    destruct (AllowWithLimits _ _ _ _ _ _), (flat_allow _ _ _ _ _ _). naive_solver.
  - split; [done|]. split; [by apply RetryAfterWithLimits_flat|apply RetryAfterWithLimits_ttl].
  - done.
  - split; [done|]. split; [by apply cleanup_flat|done].
Qed.

Lemma admitted_flat l m key ops :
  limiter_rel l m -> admitted l key ops = flat_admitted (lm_ttl l) m key ops.
Proof.
  revert l m. induction ops as [|op ops IH]; intros l m Hr; simpl; [done|].
  pose proof (limiter_do_flat l m op Hr) as Hf.
  destruct (limiter_do l op), (flat_do _ m op). destruct Hf as (-> & Hf & <-). by rewrite (IH _ _ Hf).
Qed.

(** ** How much a bucket can admit

    [rpm] and [burst] are the largest limits used for the key; a request may
    come under lower ones. *)
Section admission.
Context (rpm burst : Z) (Hrpm : 0 < rpm <= 2 ^ 53) (Hburst : 0 < burst <= 2 ^ 53).

Definition within (rpm' burst' : Z) : Prop := 0 < rpm' <= rpm /\ 0 < burst' <= burst.

Definition bucket_ok (b : bucket) : Prop :=
  f64_rep (bk_tokens b) /\ 0 <= bk_tokens b <= f64_of_int burst.

Lemma burst_exact : f64_of_int burst = burst * f64_one.
Proof. apply f64_of_int_exact. lia. Qed.

Lemma refill_tokens_bound t g burst' :
  f64_rep t -> 0 <= t -> 0 <= g -> 0 < burst' <= burst ->
  let f := fadd t g in
  let t' := if f64_of_int burst' <? f then f64_of_int burst' else f in
  f64_rep t' /\ 0 <= t' <= f64_of_int burst /\
  t' * 2 ^ 53 <= (t + g) * 2 ^ 53 + 2 * f64_of_int burst.
Proof.
  intros Ht Htb Hg Hb. cbv zeta. pose proof (fadd_nonneg t g ltac:(lia) Hg) as Hf0.
  assert (0 < f64_of_int burst' <= f64_of_int burst) as Hbb.
  { rewrite burst_exact, f64_of_int_exact by lia. pose proof f64_one_pos. nia. }
  pose proof (f64_round_error (t + g)) as He. fold (fadd t g) in He.
  destruct (f64_of_int burst' <? fadd t g) eqn:E.
  - split_and!; [auto with go|lia|lia|].
    assert (f64_of_int burst' <= t + g); [|lia].
    destruct (Z.le_gt_cases (f64_of_int burst') (t + g)) as [|Hlt]; [done|].
    pose proof (f64_round_mono (t + g) 1 (f64_of_int burst') 1 ltac:(lia) ltac:(lia) ltac:(lia)) as Hm.
    rewrite (f64_round_rep (f64_of_int burst')) in Hm by auto with go.
    unfold fadd in E. lia.
  - split_and!; [auto with go|lia|lia|]. lia.
Qed.

(** One request: what it leaves plus what it admits is at most what was there
    plus the refill, up to three roundings. *)
Lemma take_bound b n t g :
  bucket_ok b -> 1 <= n <= 2 ^ 53 -> bk_tokens b * 2 ^ 53 <= (t + g) * 2 ^ 53 + 2 * f64_of_int burst ->
  let '(b', ok) := taken b n in
  bucket_ok b' /\ bk_lastRefill b' = bk_lastRefill b /\ bk_lastSeen b' = bk_lastSeen b /\
  (bk_tokens b' + (if ok then n else 0) * f64_one) * 2 ^ 53
    <= (t + g) * 2 ^ 53 + 3 * f64_of_int burst.
Proof.
  intros [Hr Hb] Hn Ht. unfold taken. pose proof f64_one_pos.
  rewrite (f64_of_int_exact n) by lia.
  destruct (bk_tokens b <? n * f64_one) eqn:E.
  - do 3 (split; [done|]). lia.
  - pose proof (fsub_upper (bk_tokens b) (n * f64_one) ltac:(lia)) as Hu.
    pose proof (fsub_nonneg (bk_tokens b) (n * f64_one) ltac:(lia)) as H0.
    pose proof (fsub_le_l (bk_tokens b) (n * f64_one) Hr ltac:(nia)) as Hle.
    split; [split; simpl; [auto with go|lia]|]. do 2 (split; [done|]). simpl.
    unfold f64_eps in Hu. nia.
Qed.

(** How many of the operations touch the bucket of [key]. *)
Definition touches (key : string) (op : limiter_op) : bool :=
  match op with
  | OpAllow k _ _ _ _ | OpRetryAfter k _ _ _ => str_eqb k key
  | _ => false
  end.

Definition calls_of (key : string) (ops : list limiter_op) : Z :=
  sum_with (fun op => if touches key op then 1 else 0) ops.

(** The operations on [key] stay within the limits, the clock readings lie in
    order between [t] and [tend], and if the ticker runs, a bucket
    refills within the time to live. *)
Fixpoint ops_ok (ttl : Z) (key : string) (t tend : Z) (ops : list limiter_op) : Prop :=
  match ops with
  | [] => t <= tend
  | OpAllow k n rpm' burst' now :: ops =>
      (k = key -> within rpm' burst' /\ n <= 2 ^ 53) /\ t <= now /\ ops_ok ttl key now tend ops
  | OpRetryAfter k rpm' burst' now :: ops =>
      (k = key -> within rpm' burst') /\ t <= now /\ ops_ok ttl key now tend ops
  | OpUpdateLimits _ _ :: ops => ops_ok ttl key t tend ops
  | OpCleanup now :: ops =>
      burst * Minute <= ttl * rpm /\ t <= now /\ ops_ok ttl key now tend ops
  end.

Lemma ops_ok_le ttl key t tend ops : ops_ok ttl key t tend ops -> t <= tend.
Proof.
  revert t. induction ops as [|[] ops IH]; intros t; simpl; [done|..]; [| |auto|];
    intros (_ & ? & Hc); specialize (IH _ Hc); lia.
Qed.

(** What the bucket of the key still allows when its last refill was at [t]:
    its tokens, and the refill of the time left. *)
Definition room (b : option bucket) (t tend k : Z) : Z :=
  match b with
  | None => f64_of_int burst
  | Some b => bk_tokens b
  end * (60 * Second) * 2 ^ 53
  + 3 * k * f64_of_int burst * (60 * Second)
  + (tend - match b with None => t | Some b => bk_lastRefill b end) * rpm * f64_one * (2 ^ 53 + 8).

Definition entry_fine (b : option bucket) (t : Z) : Prop :=
  match b with
  | None => True
  | Some b => bucket_ok b /\ bk_lastRefill b <= t /\ bk_lastSeen b = bk_lastRefill b
  end.

Lemma entry_fine_mono b t t' : entry_fine b t -> t <= t' -> entry_fine b t'.
Proof. destruct b; simpl; [|done]. intros (? & ? & ?) ?. split_and!; [done|lia|done]. Qed.

Lemma refill_gain_within rpm' dt :
  0 < rpm' <= rpm -> 0 <= dt <= max_int64 ->
  0 <= fmul (Duration_Seconds dt) (rpm_rate rpm') /\
  fmul (Duration_Seconds dt) (rpm_rate rpm') * (60 * Second) * 2 ^ 53
    <= dt * rpm * f64_one * (2 ^ 53 + 8).
Proof.
  intros Hr Hd. split.
  - apply fmul_nonneg; [apply Duration_Seconds_nonneg; lia|apply rpm_rate_nonneg; lia].
  - etransitivity; [apply refill_gain_upper; lia|]. pose proof f64_one_pos.
    assert (dt * rpm' <= dt * rpm) by (apply Z.mul_le_mono_nonneg_l; lia). nia.
Qed.

(** A refill of the key's bucket moves room from the future to the present. *)
Lemma refilled_bound b rpm' burst' t now :
  entry_fine b t -> t <= now -> within rpm' burst' ->
  exists t0 g,
    bucket_ok (refilled b (rpm_rate rpm') (f64_of_int burst') now) /\
    bk_lastRefill (refilled b (rpm_rate rpm') (f64_of_int burst') now) = now /\
    bk_lastSeen (refilled b (rpm_rate rpm') (f64_of_int burst') now) = now /\
    bk_tokens (refilled b (rpm_rate rpm') (f64_of_int burst') now) * 2 ^ 53
      <= (t0 + g) * 2 ^ 53 + 2 * f64_of_int burst /\
    forall tend k,
      (t0 + g) * (60 * Second) * 2 ^ 53 + 3 * k * f64_of_int burst * (60 * Second)
      + (tend - now) * rpm * f64_one * (2 ^ 53 + 8) <= room b t tend k.
Proof.
  intros Hb Hn [Hr' Hb']. pose proof burst_exact as HB. pose proof f64_one_pos as H1.
  destruct b as [b|]; simpl in Hb.
  - destruct Hb as [[Hr Hb] [Hl _]]. simpl refilled. unfold elapsed_seconds.
    set (dt := Z.max min_int64 (Z.min max_int64 (now - bk_lastRefill b))).
    assert (0 <= dt <= max_int64 /\ dt <= now - bk_lastRefill b) as [Hdt Hdt'].
    { subst dt. unfold min_int64, max_int64. lia. }
    destruct (refill_gain_within rpm' dt Hr' Hdt) as [Hg0 Hg].
    set (g := fmul _ _) in *. unfold refill_tokens. fold g.
    pose proof (refill_tokens_bound (bk_tokens b) g burst' Hr ltac:(lia) Hg0 Hb') as Ht. cbv zeta in Ht.
    set (t' := if _ <? _ then _ else _) in *. destruct Ht as (Hrt & Hbt & Ht).
    exists (bk_tokens b), g. do 4 (split; [done|]). intros tend k. unfold room.
    assert (dt * (rpm * f64_one) <= (now - bk_lastRefill b) * (rpm * f64_one)) as Hdr
      by (apply Z.mul_le_mono_nonneg_r; nia).
    clearbody g t'. unfold Second in *. clear - Hdr Hg. lia.
  - exists (f64_of_int burst), 0. simpl refilled.
    assert (0 < f64_of_int burst' <= f64_of_int burst) as Hbb.
    { rewrite HB, f64_of_int_exact by lia. nia. }
    split; [split; simpl; [auto with go|lia]|]. do 2 (split; [done|]). split; [simpl; lia|].
    intros tend k. unfold room.
    assert (0 <= (now - t) * (rpm * f64_one)) as Hdr by (apply Z.mul_nonneg_nonneg; nia).
    unfold Second in *. clear - Hdr. lia.
Qed.

(** A request for the key, and a question when to come back. *)
Lemma refilled_step b n rpm' burst' t now tend k :
  entry_fine b t -> t <= now -> within rpm' burst' -> n <= 2 ^ 53 -> 0 <= k ->
  let '(b', ok) := taken (refilled b (rpm_rate rpm') (f64_of_int burst') now) (Z.max 1 n) in
  entry_fine (Some b') now /\
  (if ok then Z.max 1 n else 0) * f64_one * (60 * Second) * 2 ^ 53 + room (Some b') now tend k
    <= room b t tend (k + 1).
Proof.
  intros Hb Hn Hw Hmax Hk.
  destruct (refilled_bound b rpm' burst' t now Hb Hn Hw) as (t0 & g & Hok & Hl & Hs & Ht & Hroom).
  specialize (Hroom tend (k + 1)).
  pose proof (take_bound _ (Z.max 1 n) t0 g Hok ltac:(lia) Ht) as Hk'.
  destruct (taken _ _) as [b' ok]. destruct Hk' as (Hok' & Hlast & Hseen & Hle).
  rewrite Hl in Hlast. rewrite Hs in Hseen. split.
  - split_and!; [done|lia|congruence].
  - unfold room at 1. rewrite Hlast. set (a := if ok then _ else _) in *. clearbody a.
    unfold Second in *. clear - Hle Hroom. lia.
Qed.

Lemma refilled_only_step b rpm' burst' t now tend k :
  entry_fine b t -> t <= now -> within rpm' burst' -> 0 <= k ->
  entry_fine (Some (refilled b (rpm_rate rpm') (f64_of_int burst') now)) now /\
  room (Some (refilled b (rpm_rate rpm') (f64_of_int burst') now)) now tend k <= room b t tend (k + 1).
Proof.
  intros Hb Hn Hw Hk.
  destruct (refilled_bound b rpm' burst' t now Hb Hn Hw) as (t0 & g & Hok & Hl & Hs & Ht & Hroom).
  specialize (Hroom tend (k + 1)). set (b' := refilled _ _ _ _) in *. clearbody b'. split.
  - split_and!; [done|lia|congruence].
  - unfold room at 1. rewrite Hl. pose proof burst_exact. pose proof f64_one_pos.
    assert (0 <= burst * f64_one) by nia. unfold Second in *. lia.
Qed.

Lemma room_mono b t t' tend k : t <= t' -> room b t' tend k <= room b t tend k.
Proof.
  intros. unfold room. pose proof f64_one_pos.
  assert (0 <= (t' - t) * (rpm * f64_one)) by (apply Z.mul_nonneg_nonneg; nia).
  destruct b; lia.
Qed.

(** Forgetting a bucket idle for [ttl] gives nothing that its refill would
    not have given. *)
Lemma room_evicted b ttl t tend now k :
  entry_fine (Some b) t -> bk_lastSeen b < now - ttl -> burst * Minute <= ttl * rpm ->
  room None now tend k <= room (Some b) t tend k.
Proof.
  intros ([_ [Hb _]] & _ & Hs) Hl Hm. rewrite Hs in Hl. unfold room. rewrite burst_exact.
  pose proof f64_one_pos. unfold Minute in Hm.
  assert (burst * (60 * Second) <= (now - bk_lastRefill b) * rpm) as Hle.
  { unfold Second in *. assert (ttl * rpm <= (now - bk_lastRefill b) * rpm)
      by (apply Z.mul_le_mono_nonneg_r; lia). lia. }
  assert (burst * (60 * Second) * f64_one <= (now - bk_lastRefill b) * rpm * f64_one)
    by (apply Z.mul_le_mono_nonneg_r; lia).
  assert (0 <= burst * (60 * Second) * f64_one) by (unfold Second; nia).
  unfold Second in *. lia.
Qed.

Lemma room_end b t tend : entry_fine b t -> t <= tend -> 0 <= room b t tend 0.
Proof.
  intros He Hle. unfold room. pose proof f64_one_pos. pose proof burst_exact.
  assert (forall x, 0 <= x -> 0 <= x * (rpm * f64_one)) as Hm by (intros; apply Z.mul_nonneg_nonneg; nia).
  destruct b as [b|]; simpl in He; unfold Second.
  - destruct He as ([_ ?] & ? & _). specialize (Hm (tend - bk_lastRefill b) ltac:(lia)). lia.
  - specialize (Hm (tend - t) ltac:(lia)). nia.
Qed.

Lemma calls_of_nonneg key ops : 0 <= calls_of key ops.
Proof. apply sum_with_nonneg, Forall_forall. intros. go_lia. Qed.

(** One operation of the sequence, on the bucket of [key]. *)
Lemma flat_do_step ttl m key t tend op ops :
  entry_fine (m !! key) t -> ops_ok ttl key t tend (op :: ops) ->
  let '(m', ok) := flat_do ttl m op in
  exists t', entry_fine (m' !! key) t' /\ ops_ok ttl key t' tend ops /\
  (if ok then asks key op else 0) * f64_one * (60 * Second) * 2 ^ 53
    + room (m' !! key) t' tend (calls_of key ops) <= room (m !! key) t tend (calls_of key (op :: ops)).
Proof.
  intros He Hc. pose proof (calls_of_nonneg key ops) as Hcs.
  destruct op as [k n rpm' burst' now|k rpm' burst' now|rpm' burst'|now]; simpl in Hc; simpl flat_do; cbn [asks].
  1,2: change (calls_of key (?op :: ops)) with ((if str_eqb k key then 1 else 0) + calls_of key ops);
    destruct Hc as (Hw & Hle & Hc); unfold str_eqb; case_bool_decide as E; [subst k|rewrite Z.add_0_l].
  - destruct (Hw eq_refl) as [Hw' Hn]. unfold flat_allow.
    replace ((rpm' <=? 0) || (burst' <=? 0)) with false by (destruct Hw'; lia).
    pose proof (refilled_step (m !! key) n rpm' burst' t now tend (calls_of key ops) He Hle Hw' Hn Hcs) as Hs.
    destruct (taken _ _) as [b' ok]. exists now. rewrite lookup_insert_eq.
    rewrite (Z.add_comm 1). tauto.
  - destruct (flat_allow m k n rpm' burst' now) as [m' ok] eqn:Ef. exists now.
    assert (m' !! key = m !! key) as ->.
    { unfold flat_allow in Ef. destruct (_ || _); [congruence|]. destruct (taken _ _).
      simplify_eq. by rewrite lookup_insert_ne. }
    split; [by eapply entry_fine_mono|]. split; [done|].
    pose proof (room_mono (m !! key) t now tend (calls_of key ops) Hle). destruct ok; lia.
  - specialize (Hw eq_refl). replace ((rpm' <=? 0) || (burst' <=? 0)) with false by (destruct Hw; lia).
    exists now. rewrite lookup_insert_eq, (Z.add_comm 1).
    destruct (refilled_only_step (m !! key) rpm' burst' t now tend (calls_of key ops) He Hle Hw Hcs).
    split; [done|]. split; [done|]. lia.
  - exists now.
    assert (forall b, (if (rpm' <=? 0) || (burst' <=? 0) then m else <[k:=b]> m) !! key = m !! key) as ->.
    { intros b. destruct (_ || _); [done|]. by rewrite lookup_insert_ne. }
    split; [by eapply entry_fine_mono|]. split; [done|].
    pose proof (room_mono (m !! key) t now tend (calls_of key ops) Hle). lia.
  - exists t. split; [done|]. split; [done|]. change (calls_of key (_ :: ops)) with (calls_of key ops). lia.
  - destruct Hc as (Hb & Hle & Hc). change (calls_of key (_ :: ops)) with (calls_of key ops).
    exists now. unfold flat_cleanup. destruct (m !! key) as [b|] eqn:Hk.
    + destruct (decide (bk_lastSeen b < now - ttl)) as [Hl|Hl].
      * rewrite map_lookup_filter_None_2 by (right; intros b' Hb'; simplify_eq/=; tauto).
        split; [done|]. split; [done|].
        pose proof (room_evicted b ttl t tend now (calls_of key ops) He Hl Hb). lia.
      * rewrite (map_lookup_filter_Some_2 _ _ _ b) by done.
        split; [by eapply entry_fine_mono|]. split; [done|].
        pose proof (room_mono (Some b) t now tend (calls_of key ops) Hle). lia.
    + rewrite map_lookup_filter_None_2 by auto. split; [done|]. split; [done|].
      pose proof (room_mono None t now tend (calls_of key ops) Hle). lia.
Qed.

Lemma flat_admitted_bound ttl m key t tend ops :
  entry_fine (m !! key) t -> ops_ok ttl key t tend ops ->
  flat_admitted ttl m key ops * f64_one * (60 * Second) * 2 ^ 53
    <= room (m !! key) t tend (calls_of key ops).
Proof.
  revert m t. induction ops as [|op ops IH]; intros m t He Hc.
  - simpl in Hc. cbn [flat_admitted]. pose proof (room_end (m !! key) t tend He Hc). done.
  - pose proof (flat_do_step ttl m key t tend op ops He Hc) as Hs. cbn [flat_admitted].
    destruct (flat_do ttl m op) as [m' ok]. destruct Hs as (t' & He' & Hc' & Hs).
    specialize (IH m' t' He' Hc'). lia.
Qed.

End admission.

(** C2. The rate limit holds: in any interleaving within [tend - t]
    nanoseconds of requests, questions when to come back, changes of the
    limits and cleanup ticks, over any keys, a fresh limiter admits for each
    key at most the largest burst plus the largest [requestsPerMinute] per
    minute elapsed that a request for the key was resolved to.  Cleanup ticks
    need the burst to refill within the ten minutes a bucket is kept
    ([burst <= 10 * rpm]; [cleanup_restores_burst] shows what happens
    otherwise).  The two error terms are those of the code's [float64]
    arithmetic: less than [2^-50] of the refill and [3 * 2^-53] of the burst
    per operation on the key. *)
Theorem rate_limit_bound rpm0 burst0 rpm burst t tend key ops :
  0 < rpm <= 2 ^ 53 -> 0 < burst <= 2 ^ 53 -> ops_ok rpm burst (10 * Minute) key t tend ops ->
  admitted (NewLimiter rpm0 burst0) key ops * (60 * Second) * 2 ^ 53
    <= burst * (60 * Second) * (2 ^ 53 + 3 * calls_of key ops)
       + (tend - t) * rpm * (2 ^ 53 + 8).
Proof.
  intros Hr Hb Hc. rewrite (admitted_flat _ ∅) by apply NewLimiter_rel.
  pose proof (flat_admitted_bound rpm burst Hr Hb (10 * Minute) ∅ key t tend ops) as Hf.
  rewrite lookup_empty in Hf. specialize (Hf I Hc). unfold room in Hf. rewrite (burst_exact burst Hb) in Hf.
  change (lm_ttl (NewLimiter rpm0 burst0)) with (10 * Minute).
  pose proof f64_one_pos. nia.
Qed.

(** A burst of five requests against three tokens, a question when to come
    back, a sixth request a second later, at 60 requests per minute, a lower
    limit by an override, and a tick that forgets the bucket. *)
Definition ex_ops : list limiter_op :=
  [OpAllow "a" 1 60 3 0; OpAllow "a" 1 60 3 0; OpAllow "b" 1 90 9 0; OpAllow "a" 1 60 3 0;
   OpAllow "a" 1 60 3 0; OpRetryAfter "a" 60 3 0; OpUpdateLimits 120 6; OpAllow "a" 1 60 3 Second;
   OpAllow "a" 1 30 2 Second; OpCleanup (12 * Minute); OpAllow "a" 2 60 2 (12 * Minute)].

Lemma rate_limit_bound_witness :
  admitted (NewLimiter 60 3) "a" ex_ops = 6 /\
  admitted (NewLimiter 60 3) "a" ex_ops * (60 * Second) * 2 ^ 53
    <= 3 * (60 * Second) * (2 ^ 53 + 3 * calls_of "a" ex_ops)
       + (12 * Minute - 0) * 60 * (2 ^ 53 + 8).
Proof.
  split; [vm_compute; reflexivity|].
  apply (rate_limit_bound 60 3 60 3 0 (12 * Minute) "a" ex_ops); [lia|lia|].
  vm_compute. repeat split; congruence.
Defined.

(** ** The limits a limiter reads back *)

(** [GetLimits] converts the stored rate back to an integer by
    truncation: it returns the configured requests per minute or one less,
    and 123 comes back as 122, so [Allow] and [AllowN], which go through it,
    then enforce a lower limit than configured. *)
Theorem GetLimits_truncates rpm burst :
  0 < rpm <= 2 ^ 40 -> 0 <= burst <= 2 ^ 53 ->
  rpm - 1 <= (GetLimits (NewLimiter rpm burst)).1 <= rpm /\
  (GetLimits (NewLimiter rpm burst)).2 = burst /\
  (GetLimits (NewLimiter 123 burst)).1 = 122.
Proof.
  intros Hr Hb. split_and!; [| | |by vm_compute].
  3: { unfold GetLimits. simpl. apply f64_to_int_of_int. lia. }
  all: unfold GetLimits; simpl; pose proof f64_one_big as H1.
  all: pose proof (fdiv_int_error rpm 60 ltac:(lia) ltac:(lia)) as He; fold (rpm_rate rpm) in He.
  all: pose proof (f64_round_error_frac (rpm_rate rpm * f64_of_int 60) f64_one) as Hp.
  all: fold (fmul (rpm_rate rpm) (f64_of_int 60)) in Hp.
  all: rewrite (f64_of_int_exact 60) in * by lia; set (r := rpm_rate rpm) in *;
    set (p := fmul _ _) in *.
  all: assert (rpm * f64_one <= 2 * (r * 60)) by lia.
  all: specialize (Hp ltac:(lia) ltac:(right; nia)).
  all: replace (p * f64_one - r * (60 * f64_one)) with ((p - r * 60) * f64_one) in Hp by lia.
  all: rewrite Z.abs_mul, (Z.abs_eq f64_one) in Hp by lia.
  all: assert (Z.abs (p - r * 60) * 2 ^ 53 <= r * 60) by nia.
  all: assert (rpm * f64_one <= 2 ^ 40 * f64_one) by nia.
  all: unfold f64_to_int; rewrite Z.quot_div_nonneg by lia.
  - apply Z.div_le_lower_bound; lia.
  - apply Z.lt_succ_r, Z.div_lt_upper_bound; lia.
Qed.

Lemma GetLimits_truncates_witness :
  60 - 1 <= (GetLimits (NewLimiter 60 3)).1 <= 60 /\
  (GetLimits (NewLimiter 60 3)).2 = 3 /\ (GetLimits (NewLimiter 123 3)).1 = 122.
Proof. apply (GetLimits_truncates 60 3); lia. Defined.

(** ** Eviction of idle buckets *)

Lemma elapsed_seconds_ttl now t ttl :
  0 <= ttl <= max_int64 -> t + ttl <= now ->
  Duration_Seconds ttl <= elapsed_seconds now t.
Proof.
  intros. unfold elapsed_seconds. apply Duration_Seconds_mono; unfold min_int64, max_int64 in *; lia.
Qed.

(** A bucket idle for the limiter's time to live is full again, if the refill
    of that time reaches the burst. *)
Lemma idle_bucket_full b rpm burst ttl now :
  0 < rpm -> 0 <= bk_tokens b -> 0 <= ttl <= max_int64 -> bk_lastRefill b + ttl <= now ->
  f64_of_int burst <= fmul (Duration_Seconds ttl) (rpm_rate rpm) ->
  refilled (Some b) (rpm_rate rpm) (f64_of_int burst) now =
  refilled None (rpm_rate rpm) (f64_of_int burst) now.
Proof.
  intros Hr Ht Httl Hn Hb. simpl. f_equal. unfold refill_tokens.
  pose proof (elapsed_seconds_ttl now (bk_lastRefill b) ttl Httl Hn) as He.
  pose proof (rpm_rate_nonneg rpm ltac:(lia)) as Hr0.
  assert (f64_of_int burst <= fadd (bk_tokens b) (fmul (elapsed_seconds now (bk_lastRefill b)) (rpm_rate rpm))).
  { etransitivity; [exact Hb|].
    assert (fmul (Duration_Seconds ttl) (rpm_rate rpm) <=
      fmul (elapsed_seconds now (bk_lastRefill b)) (rpm_rate rpm)) as Hm.
    { apply f64_round_mono; [auto with go..|]. pose proof f64_one_pos.
      apply Z.mul_le_mono_nonneg_r; [lia|]. apply Z.mul_le_mono_nonneg_r; lia. }
    etransitivity; [exact Hm|]. rewrite fadd_comm. apply fadd_ge_l; auto with go. }
  go_lia.
Qed.

(** Buckets as the limiter leaves them. *)
Definition map_ok (m : gmap string bucket) : Prop :=
  map_Forall (fun _ b => 0 <= bk_tokens b /\ bk_lastRefill b = bk_lastSeen b) m.

(** Evicting idle buckets is invisible to clients whose bucket refills
    within the time to live: before or after a cleanup tick, every later
    request gets the same answer. *)
Theorem cleanup_invisible l m key n rpm burst now now' :
  limiter_rel l m -> map_ok m -> 0 < rpm -> 0 <= lm_ttl l <= max_int64 -> now <= now' ->
  f64_of_int burst <= fmul (Duration_Seconds (lm_ttl l)) (rpm_rate rpm) ->
  (AllowWithLimits (cleanup l now) key n rpm burst now').2 =
  (AllowWithLimits l key n rpm burst now').2.
Proof.
  intros Hr Hm Hrpm Httl Hn Hb.
  pose proof (AllowWithLimits_flat l m key n rpm burst now' Hr) as H1.
  pose proof (AllowWithLimits_flat _ _ key n rpm burst now' (cleanup_flat l m now Hr)) as H2.
  destruct (AllowWithLimits l _ _ _ _ _), (AllowWithLimits (cleanup l now) _ _ _ _ _).
  assert ((flat_allow (flat_cleanup m (lm_ttl l) now) key n rpm burst now').2 =
          (flat_allow m key n rpm burst now').2) as Hfl.
  { unfold flat_allow. destruct (_ || _); [done|].
    assert (refilled (flat_cleanup m (lm_ttl l) now !! key) (rpm_rate rpm) (f64_of_int burst) now' =
            refilled (m !! key) (rpm_rate rpm) (f64_of_int burst) now') as ->;
      [|by destruct (taken _ _)].
    unfold flat_cleanup. destruct (m !! key) as [bk|] eqn:Hk.
    - destruct (decide (bk_lastSeen bk < now - lm_ttl l)) as [Hl|Hl].
      + rewrite map_lookup_filter_None_2 by (right; intros b' Hb'; simplify_eq; tauto).
        destruct (Hm _ _ Hk). symmetry. eapply idle_bucket_full; eauto. lia.
      + by rewrite (map_lookup_filter_Some_2 _ _ _ bk).
    - by rewrite map_lookup_filter_None_2 by auto. }
  destruct (flat_allow m _ _ _ _ _), (flat_allow (flat_cleanup m _ _) _ _ _ _ _).
  simpl in *. destruct H1 as [-> _], H2 as [-> _]. done.
Qed.

(** One token left by a request at time zero. *)
Definition ex_idle : gmap string bucket := {[ "a" := mkBucket (f64_of_int 1) 0 0 ]}.
Definition ex_idle_limiter : Limiter :=
  with_shard (NewLimiter 60 3) (shardFor "a") {[ "a" := mkBucket (f64_of_int 1) 0 0 ]}.

Lemma ex_idle_rel : limiter_rel ex_idle_limiter ex_idle.
Proof.
  unfold ex_idle_limiter, ex_idle.
  rewrite <-(insert_empty (M := gmap string) "a").
  apply limiter_rel_set; [apply NewLimiter_rel|].
  unfold shard_at, NewLimiter. cbn [lm_shards].
  rewrite lookup_replicate_2 by apply shardFor_lt. done.
Qed.

Lemma cleanup_invisible_witness :
  (AllowWithLimits (cleanup ex_idle_limiter (11 * Minute)) "a" 3 60 3 (12 * Minute)).2 =
  (AllowWithLimits ex_idle_limiter "a" 3 60 3 (12 * Minute)).2.
Proof.
  apply (cleanup_invisible ex_idle_limiter ex_idle "a" 3 60 3 (11 * Minute) (12 * Minute) ex_idle_rel);
    [|vm_compute; (split; congruence) || congruence..].
  unfold map_ok, ex_idle. apply map_Forall_singleton. vm_compute. split; congruence.
Defined.

(** The refill hypothesis of [cleanup_invisible] is needed: at one
    request per minute and a burst of 100, a drained bucket idle for eleven
    minutes has eleven tokens, but the cleanup tick forgets it, and the next
    request finds a full burst again. *)
Theorem cleanup_restores_burst :
  let l0 := NewLimiter 1 100 in
  let '(l1, ok1) := AllowWithLimits l0 "a" 100 1 100 0 in
  ok1 = true /\
  (AllowWithLimits l1 "a" 12 1 100 (11 * Minute)).2 = false /\
  (AllowWithLimits (cleanup l1 (11 * Minute)) "a" 100 1 100 (11 * Minute)).2 = true.
Proof. vm_compute. repeat split. Qed.
