(* ===== verification/RateBackend.v ===== *)
(** * The rate-limit interface and its implementations

    [ratelimit.Backend] as a type class with the laws its clients (the HTTP
    middleware and the handlers) rely on, discharged by the in-process and
    the Redis limiter; the Redis limiter against the in-process one; and the
    resolution of overrides. *)

From S2P Require Import Prelude GoFloat GoStrings RateLimit.
From Stdlib Require Import String.
Open Scope string_scope.
Open Scope list_scope.
Open Scope Z_scope.

(** An operation may act on a world [W] beside the limiter. *)
Class Backend (L W : Type) := {
  be_AllowN : L -> string -> Z -> Z -> W -> L * W * bool;
  be_AllowWithLimits : L -> string -> Z -> Z -> Z -> Z -> W -> L * W * bool;
  be_RetryAfterWithLimits : L -> string -> Z -> Z -> Z -> L * Z;
  be_RetryAfter : L -> string -> Z -> L * Z;
  be_UpdateLimits : L -> Z -> Z -> L;
}.

(** The contract: a non-positive count is a request for one token; limits
    that are not positive refuse without touching the state; updates that are
    not positive are ignored. *)
Class BackendLaws (L W : Type) `{Backend L W} := {
  be_count : forall l key n rpm burst now w,
    n <= 0 -> be_AllowWithLimits l key n rpm burst now w = be_AllowWithLimits l key 1 rpm burst now w;
  be_disabled : forall l key n rpm burst now w,
    rpm <= 0 \/ burst <= 0 -> be_AllowWithLimits l key n rpm burst now w = (l, w, false);
  be_update : forall l rpm burst, rpm <= 0 -> burst <= 0 -> be_UpdateLimits l rpm burst = l;
}.

Definition in_process {W} (w : W) (a : Limiter * bool) : Limiter * W * bool := (a.1, w, a.2).

#[export] Instance limiter_backend {W} : Backend Limiter W := {|
  be_AllowN l key n now w := in_process w (AllowN l key n now);
  be_AllowWithLimits l key n rpm burst now w := in_process w (AllowWithLimits l key n rpm burst now);
  be_RetryAfterWithLimits := RetryAfterWithLimits;
  be_RetryAfter := RetryAfter;
  be_UpdateLimits := UpdateLimits;
|}.

#[export] Instance limiter_laws {W} : BackendLaws Limiter W.
Proof.
  split.
  - intros l key n rpm burst now w Hn. simpl. unfold AllowWithLimits.
    by replace (n <=? 0) with true by lia.
  - intros l key n rpm burst now w Hd. simpl. unfold AllowWithLimits.
    by replace ((rpm <=? 0) || (burst <=? 0)) with true by lia.
  - intros [sh r b t] rpm burst Hr Hb. simpl. unfold UpdateLimits. simpl.
    replace (0 <? rpm) with false by lia. by replace (0 <? burst) with false by lia.
Qed.

Section redis.
Context {Store W : Type} `{RateStore Store W}.
Implicit Types (r : RedisLimiter (Store := Store)) (w : W).

#[export] Instance redis_backend : Backend (RedisLimiter (Store := Store)) W := {|
  be_AllowN := Redis_AllowN;
  be_AllowWithLimits := Redis_AllowWithLimits;
  be_RetryAfterWithLimits := Redis_RetryAfterWithLimits;
  be_RetryAfter := Redis_RetryAfter;
  be_UpdateLimits := Redis_UpdateLimits;
|}.

#[export] Instance redis_laws : BackendLaws (RedisLimiter (Store := Store)) W.
Proof.
  split.
  - intros r key n rpm burst now w Hn. simpl. unfold Redis_AllowWithLimits.
    by replace (n <=? 0) with true by lia.
  - intros r key n rpm burst now w Hd. simpl. unfold Redis_AllowWithLimits.
    by replace ((rpm <=? 0) || (burst <=? 0)) with true by lia.
  - intros r rpm burst Hr Hb. simpl. unfold Redis_UpdateLimits.
    by replace ((rpm <=? 0) || (burst <=? 0)) with true by lia.
Qed.

(** The outcome of a script call, as far as the limiter looks at it. *)
Definition decided (reply : result rate_reply unit) : option bool :=
  match reply with
  | Ok (RateReply v) => Some (v =? 1)
  | _ => None
  end.

(** The script's answer to a request, if there is a store. *)
Definition ask_redis r key n rpm burst now w : W * option bool :=
  match rl_store r with
  | None => (w, None)
  | Some s =>
      let '(w1, reply) :=
        rs_run s ("ratelimit:" +:+ key) (rpm_rate rpm) (f64_of_int burst) (unix_seconds now) 600 n w in
      (w1, decided reply)
  end.

Lemma Redis_AllowWithLimits_eq r key n rpm burst now w :
  0 < rpm -> 0 < burst -> 1 <= n ->
  Redis_AllowWithLimits r key n rpm burst now w =
  match ask_redis r key n rpm burst now w with
  | (w1, Some ok) => (rl_set r (rl_fallback r) false, w1, ok)
  | (w1, None) =>
      let '(fb, ok) := AllowWithLimits (rl_fallback r) key n rpm burst now in
      (rl_set r fb true, w1, ok)
  end.
Proof.
  intros Hr Hb Hn. unfold Redis_AllowWithLimits, ask_redis.
  replace (n <=? 0) with false by lia.
  replace ((rpm <=? 0) || (burst <=? 0)) with false by lia.
  destruct (rl_store r) as [s|]; [|done].
  by destruct (rs_run _ _ _ _ _ _ _ _) as [w1 [[v|]|e]].
Qed.

End redis.

(** The Redis limiter decides by the script when it answers, and by the
    in-process limiter exactly when it does not: then the answer and the new
    fallback state are those of the in-process limiter and the limiter is
    degraded; an answer leaves the fallback untouched and ends degraded mode. *)
Theorem redis_falls_back {Store W} `{RateStore Store W} (r : RedisLimiter (Store := Store)) (w : W)
    key n rpm burst now :
  0 < rpm -> 0 < burst -> 1 <= n ->
  let '(r', w', ok) := Redis_AllowWithLimits r key n rpm burst now w in
  let '(w1, answer) := ask_redis r key n rpm burst now w in
  w' = w1 /\ rl_store r' = rl_store r /\ rl_rate r' = rl_rate r /\ rl_burst r' = rl_burst r /\
  match answer with
  | Some a => ok = a /\ rl_fallback r' = rl_fallback r /\ rl_degraded r' = false
  | None => (rl_fallback r', ok) = AllowWithLimits (rl_fallback r) key n rpm burst now /\
            rl_degraded r' = true
  end.
Proof.
  intros Hr Hb Hn. rewrite Redis_AllowWithLimits_eq by done.
  destruct (ask_redis _ _ _ _ _ _ _) as [w1 [a|]]; [done|].
  by destruct (AllowWithLimits _ _ _ _ _ _).
Qed.

(** A server that runs the script, and is down while the flag is set. *)
#[export] Instance map_rate_store : RateStore unit (bool * gmap string rate_hash) := {|
  rs_run _ key rate burst now ttl n (w : bool * gmap string rate_hash) :=
    if w.1 then (w, Err tt)
    else
      let '(h, (allowed, _)) := luaScript rate burst now ttl (f64_of_int n) (w.2 !! key) in
      ((false, <[key := h]> w.2), Ok (RateReply allowed));
|}.

Definition ex_redis : RedisLimiter (Store := unit) := NewRedisWithStore (Some tt) 60 3.

Lemma redis_falls_back_witness :
  let '(r', w', ok) := Redis_AllowWithLimits ex_redis "a" 2 60 3 0 (true, ∅) in
  let '(w1, answer) := ask_redis ex_redis "a" 2 60 3 0 (true, ∅) in
  w' = w1 /\ rl_store r' = rl_store ex_redis /\ rl_rate r' = rl_rate ex_redis /\
  rl_burst r' = rl_burst ex_redis /\
  match answer with
  | Some a => ok = a /\ rl_fallback r' = rl_fallback ex_redis /\ rl_degraded r' = false
  | None => (rl_fallback r', ok) = AllowWithLimits (rl_fallback ex_redis) "a" 2 60 3 0 /\
            rl_degraded r' = true
  end.
Proof. apply (redis_falls_back ex_redis (true, ∅) "a" 2 60 3 0); lia. Defined.

(** The Lua script is the in-process bucket: on a hash and a bucket with
    the same tokens, and the same elapsed seconds, it refills, clamps,
    decides and charges exactly as the in-process limiter does. *)
Theorem luaScript_refines rate burst now ttl n (h : option rate_hash) (b : option bucket) t :
  match h, b with
  | None, None => True
  | Some h, Some b =>
      rh_tokens h = bk_tokens b /\ fsub now (rh_last_refill h) = elapsed_seconds t (bk_lastRefill b)
  | _, _ => False
  end ->
  let '(h', (allowed, rest)) := luaScript rate burst now ttl (f64_of_int n) h in
  let '(b', ok) := taken (refilled b rate burst t) n in
  rh_tokens h' = bk_tokens b' /\ rest = bk_tokens b' /\ (allowed =? 1) = ok /\
  rh_last_refill h' = now /\ bk_lastRefill b' = t.
Proof.
  intros Hr. unfold luaScript, taken, refilled, refill_tokens.
  destruct h as [h|], b as [b|]; try done; [destruct Hr as [-> ->]|]; simpl; rewrite Z.leb_antisym;
    match goal with |- context [?x <? f64_of_int n] => by destruct (x <? f64_of_int n) end.
Qed.

Lemma luaScript_refines_witness :
  let '(h', (allowed, rest)) :=
    luaScript (rpm_rate 60) (f64_of_int 3) (f64_of_int 7) 600 (f64_of_int 2)
      (Some (mkRateHash (f64_of_int 1) (f64_of_int 5) 600)) in
  let '(b', ok) :=
    taken (refilled (Some (mkBucket (f64_of_int 1) (5 * Second) (5 * Second)))
             (rpm_rate 60) (f64_of_int 3) (7 * Second)) 2 in
  rh_tokens h' = bk_tokens b' /\ rest = bk_tokens b' /\ (allowed =? 1) = ok /\
  rh_last_refill h' = f64_of_int 7 /\ bk_lastRefill b' = 7 * Second.
Proof.
  apply (luaScript_refines (rpm_rate 60) (f64_of_int 3) (f64_of_int 7) 600 2
    (Some (mkRateHash (f64_of_int 1) (f64_of_int 5) 600))
    (Some (mkBucket (f64_of_int 1) (5 * Second) (5 * Second))) (7 * Second)).
  split; vm_compute; reflexivity.
Defined.

(** ** Overrides *)

(** [ov] is the most specific match of a list, the last one among equals. *)
Definition most_specific (tenant model : string) (ovs : list RateLimitOverride)
    (ov : RateLimitOverride) : Prop :=
  exists l1 l2, ovs = l1 ++ ov :: l2 /\ override_matches tenant model ov = true /\
    (forall ov', ov' ∈ l1 -> override_matches tenant model ov' = true ->
       override_score tenant model ov' <= override_score tenant model ov) /\
    (forall ov', ov' ∈ l2 -> override_matches tenant model ov' = true ->
       override_score tenant model ov' < override_score tenant model ov).

Section resolve.
Context (tenant model : string) (drpm dburst : Z).

Lemma override_score_nonneg ov : 0 <= override_score tenant model ov.
Proof. unfold override_score, matchSpecificity. go_lia. Qed.

Definition resolve_inv (ovs : list RateLimitOverride) (acc : Z * Z * Z) : Prop :=
  let '(rpm, burst, best) := acc in
  (best = -1 /\ (rpm, burst) = (drpm, dburst) /\
     forall ov, ov ∈ ovs -> override_matches tenant model ov = false) \/
  (exists ov, most_specific tenant model ovs ov /\
     (rpm, burst, best) = (ov_RPM ov, ov_Burst ov, override_score tenant model ov)).

(** An override seen later replaces the best one unless it is less specific. *)
Lemma most_specific_snoc_skip ovs ov x :
  most_specific tenant model ovs ov ->
  (override_matches tenant model x = true ->
   override_score tenant model x < override_score tenant model ov) ->
  most_specific tenant model (ovs ++ [x]) ov.
Proof.
  intros (l1 & l2 & -> & Hm & H1 & H2) Hx. exists l1, (l2 ++ [x]).
  split; [by rewrite <-app_assoc|]. split_and!; try done.
  intros ov' [Hin| ->%list_elem_of_singleton]%elem_of_app Hov; auto.
Qed.

Lemma most_specific_snoc_take ovs x :
  override_matches tenant model x = true ->
  (forall ov', ov' ∈ ovs -> override_matches tenant model ov' = true ->
     override_score tenant model ov' <= override_score tenant model x) ->
  most_specific tenant model (ovs ++ [x]) x.
Proof.
  intros Hx Hle. exists ovs, []. split_and!; try done. intros ov' Hin. by apply elem_of_nil in Hin.
Qed.

Lemma most_specific_max ovs ov ov' :
  most_specific tenant model ovs ov -> ov' ∈ ovs -> override_matches tenant model ov' = true ->
  override_score tenant model ov' <= override_score tenant model ov.
Proof.
  intros (l1 & l2 & -> & _ & H1 & H2) [Hin|[->|Hin]%elem_of_cons]%elem_of_app Hm; auto; [lia|].
  specialize (H2 _ Hin Hm). lia.
Qed.

Lemma Resolve_step_inv ovs x acc :
  (override_matches tenant model x = true -> 0 < ov_RPM x /\ 0 < ov_Burst x) ->
  resolve_inv ovs acc -> resolve_inv (ovs ++ [x]) (Resolve_step tenant model acc x).
Proof.
  intros Hpos Hi. destruct acc as [[rpm burst] best]. unfold Resolve_step.
  pose proof (override_score_nonneg x) as Hs.
  destruct (override_matches tenant model x) eqn:Hx.
  - destruct (Hpos eq_refl) as [Hr Hb]. destruct (override_score tenant model x <? best) eqn:E.
    + destruct Hi as [(-> & _)|(ov & Hms & [= -> -> ->])]; [lia|].
      right. exists ov. split; [|done]. apply most_specific_snoc_skip; [done|lia].
    + right. exists x. split.
      * apply most_specific_snoc_take; [done|]. intros ov' Hin Hm'.
        destruct Hi as [(_ & _ & Hno)|(ov & Hms & [= -> -> ->])]; [by rewrite Hno in Hm'|].
        pose proof (most_specific_max _ _ _ Hms Hin Hm'). lia.
      * replace (0 <? ov_RPM x) with true by lia. by replace (0 <? ov_Burst x) with true by lia.
  - destruct Hi as [(-> & Hd & Hno)|(ov & Hms & He)]; [left|right].
    + split_and!; try done. intros ov [Hin| ->%list_elem_of_singleton]%elem_of_app; auto.
    + exists ov. split; [|done]. apply most_specific_snoc_skip; [done|congruence].
Qed.

End resolve.

(** When every matching override sets both of its limits, [Resolve]
    returns those of the most specific one, the last among equally specific
    ones, and the defaults when none matches. *)
Theorem Resolve_most_specific o tenant model :
  (forall ov, ov ∈ os_overrides o -> override_matches tenant model ov = true ->
     0 < ov_RPM ov /\ 0 < ov_Burst ov) ->
  (exists ov, most_specific tenant model (os_overrides o) ov /\
     Resolve o tenant model = (ov_RPM ov, ov_Burst ov)) \/
  (Resolve o tenant model = (os_defaultRPM o, os_defaultBurst o) /\
     forall ov, ov ∈ os_overrides o -> override_matches tenant model ov = false).
Proof.
  intros Hpos. unfold Resolve.
  assert (resolve_inv tenant model (os_defaultRPM o) (os_defaultBurst o) (os_overrides o)
    (foldl (Resolve_step tenant model) (os_defaultRPM o, os_defaultBurst o, -1) (os_overrides o))) as Hi.
  { revert Hpos. induction (os_overrides o) as [|x ovs IH] using rev_ind; intros Hpos.
    - left. split_and!; try done. intros ov Hin. by apply elem_of_nil in Hin.
    - rewrite foldl_app. simpl. apply Resolve_step_inv.
      + intros Hx. apply Hpos; [set_solver|done].
      + apply IH. intros ov Hin. apply Hpos. set_solver. }
  destruct (foldl _ _ _) as [[rpm burst] best]. simpl in *.
  destruct Hi as [(_ & [= -> ->] & Hno)|(ov & Hms & [= -> -> _])]; [right|left]; eauto.
Qed.

Definition ex_overrides : OverrideStore :=
  mkOverrideStore 60 10
    [mkOverride "acme" "" 100 20; mkOverride "acme" "gpt-*" 30 5; mkOverride "*" "gpt-4o" 40 8].

Lemma Resolve_most_specific_witness :
  (exists ov, most_specific "acme" "gpt-4o" (os_overrides ex_overrides) ov /\
     Resolve ex_overrides "acme" "gpt-4o" = (ov_RPM ov, ov_Burst ov)) \/
  (Resolve ex_overrides "acme" "gpt-4o" = (60, 10) /\
     forall ov, ov ∈ os_overrides ex_overrides -> override_matches "acme" "gpt-4o" ov = false).
Proof.
  apply (Resolve_most_specific ex_overrides "acme" "gpt-4o").
  intros ov Hin _. simpl in Hin.
  repeat (apply elem_of_cons in Hin as [->|Hin]; [by vm_compute|]). by apply elem_of_nil in Hin.
Defined.

(** An override that leaves a limit at zero keeps it from the overrides
    before it, but not from those after it: here the burst of the tenant-wide
    rule reaches the more specific one only when it comes first. *)
Example Resolve_partial :
  Resolve (mkOverrideStore 60 10 [mkOverride "acme" "" 100 20; mkOverride "acme" "gpt-4o" 30 0])
    "acme" "gpt-4o" = (30, 20) /\
  Resolve (mkOverrideStore 60 10 [mkOverride "acme" "gpt-4o" 30 0; mkOverride "acme" "" 100 20])
    "acme" "gpt-4o" = (30, 10).
Proof. vm_compute. done. Qed.
