(* ===== verification/Cache.v ===== *)
(** * Response caches: [internal/cache/memory.go], [cache.go], [redis.go]

    The in-memory LRU cache on the structures of the code: a doubly linked
    list of elements ([container/list]) and a map from keys to elements, both
    pointing to the same mutable entries.  It refines a list of entries in
    order of use.  The interface [Cache] is a type class whose laws the
    in-memory and the Redis cache discharge. *)

From Stdlib Require Import String.
From S2P Require Import Prelude GoStrings.
Open Scope string_scope.
Open Scope list_scope.
Open Scope Z_scope.

Record entry := mkEntry { en_key : string; en_value : string; en_expiresAt : Z }.

Record Stats := mkStats { st_Hits : Z; st_Misses : Z; st_Size : Z }.

(** ** The linked list and the map

    An element is a number; the heap holds the entry it points to.  The list
    holds elements front to back. *)
Record Memory := mkMemory {
  mm_maxSize : Z;
  mm_ll : list nat;
  mm_heap : gmap nat entry;
  mm_items : gmap string nat;
  mm_next : nat;
  mm_hits : Z;
  mm_misses : Z;
}.

Definition NewMemory (maxSize : Z) : Memory :=
  mkMemory (if maxSize <=? 0 then 1000 else maxSize) [] ∅ ∅ 0 0 0.

Definition with_list (m : Memory) (ll : list nat) (heap : gmap nat entry) (items : gmap string nat)
    (next : nat) : Memory :=
  mkMemory (mm_maxSize m) ll heap items next (mm_hits m) (mm_misses m).

Definition with_counts (m : Memory) (hits misses : Z) : Memory :=
  mkMemory (mm_maxSize m) (mm_ll m) (mm_heap m) (mm_items m) (mm_next m) hits misses.

(** [ll.Remove(el)] and [ll.MoveToFront(el)] of an element of the list. *)
Definition ll_remove (el : nat) (ll : list nat) : list nat := filter (fun x => x <> el) ll.
Definition ll_front (el : nat) (ll : list nat) : list nat := el :: ll_remove el ll.

(** [Get]; [el.Value] is the entry of the heap (a nil dereference otherwise,
    which [mem_wf] excludes). *)
Definition Memory_Get (m : Memory) (key : string) (now : Z) : Memory * option string :=
  let miss m := (with_counts m (mm_hits m) (iadd (mm_misses m) 1), None) in
  match mm_items m !! key with
  | None => miss m
  | Some el =>
      match mm_heap m !! el with
      | None => miss m
      | Some ent =>
          if en_expiresAt ent <? now then
            miss (with_list m (ll_remove el (mm_ll m)) (mm_heap m) (delete key (mm_items m)) (mm_next m))
          else
            let m := with_list m (ll_front el (mm_ll m)) (mm_heap m) (mm_items m) (mm_next m) in
            (with_counts m (iadd (mm_hits m) 1) (mm_misses m), Some (en_value ent))
      end
  end.

Definition Memory_Set (m : Memory) (key value : string) (ttl now : Z) : Memory :=
  match mm_items m !! key with
  | Some el =>
      with_list m (ll_front el (mm_ll m))
        (alter (fun ent => mkEntry (en_key ent) value (now + ttl)) el (mm_heap m))
        (mm_items m) (mm_next m)
  | None =>
      let m :=
        if mm_maxSize m <=? Z.of_nat (List.length (mm_ll m)) then
          match list.last (mm_ll m) with
          | Some back =>
              match mm_heap m !! back with
              | Some ent =>
                  with_list m (ll_remove back (mm_ll m)) (mm_heap m)
                    (delete (en_key ent) (mm_items m)) (mm_next m)
              | None => m
              end
          | None => m
          end
        else m in
      let el := mm_next m in
      with_list m (el :: mm_ll m) (<[el := mkEntry key value (now + ttl)]> (mm_heap m))
        (<[key := el]> (mm_items m)) (S el)
  end.

Definition Memory_Delete (m : Memory) (key : string) : Memory :=
  match mm_items m !! key with
  | Some el =>
      with_list m (ll_remove el (mm_ll m)) (mm_heap m) (delete key (mm_items m)) (mm_next m)
  | None => m
  end.

Definition Memory_Stats (m : Memory) : Stats :=
  mkStats (mm_hits m) (mm_misses m) (Z.of_nat (List.length (mm_ll m))).

(** ** The abstract LRU cache: entries in order of use, most recent first *)

Definition lru_find (key : string) (l : list entry) : option entry :=
  head (filter (fun e => en_key e = key) l).
Definition lru_remove (key : string) (l : list entry) : list entry :=
  filter (fun e => en_key e <> key) l.

Definition lru_get (l : list entry) (key : string) (now : Z) : list entry * option string :=
  match lru_find key l with
  | None => (l, None)
  | Some e =>
      if en_expiresAt e <? now then (lru_remove key l, None)
      else (e :: lru_remove key l, Some (en_value e))
  end.

Definition lru_set (max : Z) (l : list entry) (key value : string) (ttl now : Z) : list entry :=
  let e := mkEntry key value (now + ttl) in
  match lru_find key l with
  | Some _ => e :: lru_remove key l
  | None => e :: (if max <=? Z.of_nat (List.length l) then removelast l else l)
  end.

(** ** Well-formedness and the abstraction *)

Definition entry_at (heap : gmap nat entry) (el : nat) : entry := default (mkEntry "" "" 0) (heap !! el).
Definition entries (m : Memory) : list entry := entry_at (mm_heap m) <$> mm_ll m.

(** Every listed element holds an entry whose key maps back to it, and the
    map holds no other elements. *)
Record mem_wf (m : Memory) : Prop := {
  mw_nodup : NoDup (mm_ll m);
  mw_max : 1 <= mm_maxSize m;
  mw_heap : forall el, el ∈ mm_ll m -> is_Some (mm_heap m !! el);
  mw_fresh : forall el, el ∈ mm_ll m -> (el < mm_next m)%nat;
  mw_items : forall key el, mm_items m !! key = Some el <->
                            el ∈ mm_ll m /\ en_key (entry_at (mm_heap m) el) = key;
}.

Definition mem_rel (m : Memory) (l : list entry) : Prop := mem_wf m /\ entries m = l.

Section lists.
Implicit Types (ll : list nat) (heap : gmap nat entry).

Lemma elem_of_ll_remove el x ll : x ∈ ll_remove el ll <-> x ∈ ll /\ x <> el.
Proof. unfold ll_remove. rewrite list_elem_of_filter. tauto. Qed.

Lemma ll_remove_nodup el ll : NoDup ll -> NoDup (ll_remove el ll).
Proof. apply list.NoDup_filter. Qed.

Lemma ll_front_nodup el ll : NoDup ll -> NoDup (ll_front el ll).
Proof.
  intros Hn. constructor; [rewrite elem_of_ll_remove; tauto|by apply ll_remove_nodup].
Qed.

Lemma elem_of_ll_front el x ll : el ∈ ll -> x ∈ ll_front el ll <-> x ∈ ll.
Proof.
  intros He. unfold ll_front. rewrite elem_of_cons, elem_of_ll_remove.
  destruct (decide (x = el)) as [->|]; tauto.
Qed.

(** Removing an element from the list removes its key from the entries, when
    no other element has that key. *)
Lemma remove_entries heap ll el key :
  (forall x, x ∈ ll -> en_key (entry_at heap x) = key <-> x = el) ->
  entry_at heap <$> ll_remove el ll = lru_remove key (entry_at heap <$> ll).
Proof.
  unfold ll_remove, lru_remove. induction ll as [|x ll IH]; intros Hk; [done|]. csimpl.
  rewrite !filter_cons. pose proof (Hk x ltac:(set_solver)) as Hx.
  specialize (IH ltac:(intros; apply Hk; set_solver)).
  do 2 case_decide; csimpl; rewrite ?IH; tauto.
Qed.

Lemma find_entries heap ll key el :
  (forall x, x ∈ ll -> en_key (entry_at heap x) = key <-> x = el) ->
  el ∈ ll -> lru_find key (entry_at heap <$> ll) = Some (entry_at heap el).
Proof.
  unfold lru_find. induction ll as [|x ll IH]; intros Hk Hin; [by apply elem_of_nil in Hin|]. csimpl.
  rewrite filter_cons. pose proof (Hk x ltac:(set_solver)) as Hx. case_decide as E; simpl.
  - apply Hx in E. by subst.
  - apply IH; [intros; apply Hk; set_solver|]. apply elem_of_cons in Hin as [->|]; [tauto|done].
Qed.

Lemma find_entries_none heap ll key :
  (forall x, x ∈ ll -> en_key (entry_at heap x) <> key) ->
  lru_find key (entry_at heap <$> ll) = None.
Proof.
  unfold lru_find. induction ll as [|x ll IH]; intros Hk; [done|]. csimpl.
  rewrite filter_cons. case_decide as E; [|apply IH; set_solver].
  exfalso. eapply Hk; [|done]. set_solver.
Qed.

(** The back of the list is what [removelast] drops. *)
Lemma ll_remove_last ll el : NoDup ll -> list.last ll = Some el -> ll_remove el ll = removelast ll.
Proof.
  intros Hn Hl. apply list.last_Some in Hl as [l' ->]. rewrite removelast_last.
  apply list.NoDup_app in Hn as (Hn & Hd & _). unfold ll_remove. rewrite list.filter_app.
  rewrite (filter_cons_False) by tauto. rewrite filter_nil, app_nil_r.
  induction l' as [|x l' IH]; [done|]. rewrite filter_cons_True; [f_equal; apply IH|].
  - by inversion Hn.
  - set_solver.
  - intros ->. apply (Hd el); set_solver.
Qed.

End lists.

Section refinement.
Implicit Types m : Memory.

Lemma mem_key m key el : mem_wf m -> mm_items m !! key = Some el ->
  forall x, x ∈ mm_ll m -> en_key (entry_at (mm_heap m) x) = key <-> x = el.
Proof.
  intros Hw Hi x Hx. split; intros E.
  - pose proof (proj2 (mw_items m Hw key x) (conj Hx E)). congruence.
  - subst x. by apply (mw_items m Hw).
Qed.

Lemma mem_key_none m key : mem_wf m -> mm_items m !! key = None ->
  forall x, x ∈ mm_ll m -> en_key (entry_at (mm_heap m) x) <> key.
Proof.
  intros Hw Hi x Hx E. pose proof (proj2 (mw_items m Hw key x) (conj Hx E)). congruence.
Qed.

Lemma entry_at_some (heap : gmap nat entry) el e : heap !! el = Some e -> entry_at heap el = e.
Proof. intros E. unfold entry_at. by rewrite E. Qed.

(** Removing a mapped element from the list and its key from the map. *)
Lemma remove_rel m key el :
  mem_wf m -> mm_items m !! key = Some el ->
  mem_rel (with_list m (ll_remove el (mm_ll m)) (mm_heap m) (delete key (mm_items m)) (mm_next m))
    (lru_remove key (entries m)).
Proof.
  intros Hw Hi. pose proof (mem_key m key el Hw Hi) as Hk. pose proof Hw as [Hn Hm Hh Hf Hit].
  split; [split; simpl|].
  - by apply ll_remove_nodup.
  - done.
  - intros x [Hx _]%elem_of_ll_remove. auto.
  - intros x [Hx _]%elem_of_ll_remove. auto.
  - intros k x. rewrite elem_of_ll_remove. destruct (decide (k = key)) as [->|Hne].
    + rewrite lookup_delete_eq. split; [done|]. intros [[Hx Hxe] Hxk]. by apply Hk in Hxk.
    + rewrite lookup_delete_ne, Hit by done. split; [|tauto]. intros [Hx <-]. split_and!; try done.
      intros ->. apply Hne. by apply Hk.
  - unfold entries. simpl. by apply remove_entries.
Qed.

(** Moving a mapped element to the front, with a new value. *)
Lemma front_rel m key el e heap :
  mem_wf m -> mm_items m !! key = Some el ->
  (forall x, en_key (entry_at heap x) = en_key (entry_at (mm_heap m) x)) ->
  (forall x, is_Some (mm_heap m !! x) -> is_Some (heap !! x)) ->
  (forall x, x <> el -> entry_at heap x = entry_at (mm_heap m) x) -> entry_at heap el = e ->
  mem_rel (with_list m (ll_front el (mm_ll m)) heap (mm_items m) (mm_next m))
    (e :: lru_remove key (entries m)).
Proof.
  intros Hw Hi Hkey Hsome Hne He. pose proof (mem_key m key el Hw Hi) as Hk.
  pose proof Hw as [Hn Hm Hh Hf Hit]. pose proof (proj1 (Hit key el) Hi) as [Hel _].
  split; [split; simpl|].
  - by apply ll_front_nodup.
  - done.
  - intros x Hx%elem_of_ll_front; auto.
  - intros x Hx%elem_of_ll_front; auto.
  - intros k x. rewrite elem_of_ll_front, Hkey by done. apply Hit.
  - unfold entries, ll_front. csimpl. rewrite He. f_equal.
    rewrite <-(remove_entries _ _ el) by done. apply list_fmap_ext. intros i x Hx.
    apply Hne. apply list_elem_of_lookup_2, elem_of_ll_remove in Hx. tauto.
Qed.

Lemma counts_rel m l h c : mem_rel m l -> mem_rel (with_counts m h c) l.
Proof. intros [[] He]. by split. Qed.

Lemma Get_rel m key now :
  mem_wf m ->
  let '(m', r) := Memory_Get m key now in
  let '(l', r') := lru_get (entries m) key now in
  r = r' /\ mem_rel m' l'.
Proof.
  intros Hw. unfold Memory_Get, lru_get. destruct (mm_items m !! key) as [el|] eqn:Hi.
  - pose proof (proj1 (mw_items m Hw key el) Hi) as [Hel _].
    destruct (mw_heap m Hw el Hel) as [ent He]. rewrite He.
    unfold entries. rewrite (find_entries _ _ key el) by (done || by apply mem_key).
    rewrite (entry_at_some _ _ _ He). destruct (en_expiresAt ent <? now).
    + split; [done|]. by apply counts_rel, remove_rel.
    + split; [done|]. apply counts_rel, front_rel; auto. by apply entry_at_some.
  - unfold entries. rewrite find_entries_none by by apply mem_key_none.
    split; [done|]. by apply counts_rel.
Qed.

(** A new element in front of a list that has room and lacks the key. *)
Lemma push_rel m key value exp :
  mem_wf m -> mm_items m !! key = None ->
  mem_rel (with_list m (mm_next m :: mm_ll m) (<[mm_next m := mkEntry key value exp]> (mm_heap m))
             (<[key := mm_next m]> (mm_items m)) (S (mm_next m)))
    (mkEntry key value exp :: entries m).
Proof.
  intros Hw Hi. pose proof (mem_key_none m key Hw Hi) as Hk. pose proof Hw as [Hn Hm Hh Hf Hit].
  assert (forall x, x ∈ mm_ll m -> x <> mm_next m) as Hfresh by (intros x Hx%Hf; lia).
  assert (forall x, x ∈ mm_ll m ->
    entry_at (<[mm_next m := mkEntry key value exp]> (mm_heap m)) x = entry_at (mm_heap m) x) as Hat.
  { intros x Hx. unfold entry_at. rewrite lookup_insert_ne; [done|]. intros <-. by eapply Hfresh. }
  assert (entry_at (<[mm_next m := mkEntry key value exp]> (mm_heap m)) (mm_next m) =
    mkEntry key value exp) as Hnew by (unfold entry_at; by rewrite lookup_insert_eq).
  split; [split; simpl|].
  - constructor; [|done]. intros Hin. by apply (Hfresh _ Hin).
  - done.
  - intros x [->|Hx]%elem_of_cons; [by rewrite lookup_insert_eq; eauto|].
    rewrite lookup_insert_ne; [auto|]. intros <-. by eapply Hfresh.
  - intros x [->|Hx%Hf]%elem_of_cons; lia.
  - intros k x. rewrite elem_of_cons. destruct (decide (k = key)) as [->|Hne].
    + rewrite lookup_insert_eq. split; [intros [= <-]; by rewrite Hnew; auto|].
      intros [[->|Hx] Hxk]; [done|]. rewrite Hat in Hxk by done. by apply Hk in Hxk.
    + rewrite lookup_insert_ne, Hit by done. split.
      * intros [Hx <-]. rewrite Hat by done. auto.
      * intros [[->|Hx] Hxk]; [rewrite Hnew in Hxk; by simpl in Hxk|]. by rewrite Hat in Hxk.
  - unfold entries. csimpl. rewrite Hnew. f_equal. apply list_fmap_ext. intros i x Hx.
    apply Hat. by eapply list_elem_of_lookup_2.
Qed.

Lemma entries_length m : List.length (entries m) = List.length (mm_ll m).
Proof. apply length_fmap. Qed.

Lemma Set_rel m key value ttl now :
  mem_wf m ->
  mem_rel (Memory_Set m key value ttl now) (lru_set (mm_maxSize m) (entries m) key value ttl now).
Proof.
  intros Hw. unfold Memory_Set, lru_set. destruct (mm_items m !! key) as [el|] eqn:Hi.
  - pose proof (proj1 (mw_items m Hw key el) Hi) as [Hel Hkey].
    destruct (mw_heap m Hw el Hel) as [ent He].
    assert (lru_find key (entries m) = Some ent) as ->.
    { unfold entries. rewrite (find_entries _ _ key el) by (done || by apply mem_key).
      by rewrite (entry_at_some _ _ _ He). }
    rewrite (entry_at_some _ _ _ He) in Hkey. apply front_rel; auto; unfold entry_at.
    + intros x. destruct (decide (x = el)) as [->|]; [rewrite lookup_alter_eq, He|rewrite lookup_alter_ne by done]; done.
    + intros x Hx. destruct (decide (x = el)) as [->|];
        [rewrite lookup_alter_eq, He; simpl; eauto|by rewrite lookup_alter_ne].
    + intros x Hx. by rewrite lookup_alter_ne.
    + rewrite lookup_alter_eq, He. simpl. by rewrite Hkey.
  - assert (lru_find key (entries m) = None) as ->.
    { unfold entries. apply find_entries_none. by apply mem_key_none. }
    rewrite entries_length. destruct (mm_maxSize m <=? _) eqn:Hfull; [|by apply push_rel].
    destruct (list.last (mm_ll m)) as [back|] eqn:Hb.
    + pose proof Hb as Hin. apply list.last_Some_elem_of in Hin.
      destruct (mw_heap m Hw back Hin) as [ent He]. rewrite He.
      assert (mm_items m !! en_key ent = Some back) as Hib.
      { apply (mw_items m Hw). split; [done|]. by rewrite (entry_at_some _ _ _ He). }
      pose proof (remove_rel m _ back Hw Hib) as [Hw' He'].
      replace (removelast (entries m)) with
        (entries (with_list m (ll_remove back (mm_ll m)) (mm_heap m)
                    (delete (en_key ent) (mm_items m)) (mm_next m))).
      * apply push_rel; [done|]. simpl. destruct (decide (en_key ent = key)) as [->|].
        -- apply lookup_delete_eq.
        -- by rewrite lookup_delete_ne.
      * unfold entries. simpl. rewrite ll_remove_last by (done || apply Hw).
        apply list.last_Some in Hb as [l' Hl']. rewrite Hl', fmap_app. csimpl.
        by rewrite !removelast_last.
    + apply list.last_None in Hb. pose proof (mw_max m Hw). rewrite Hb in Hfull.
      cbn [List.length] in Hfull. apply Z.leb_le in Hfull. simpl in Hfull. lia.
Qed.

Lemma Delete_rel m key : mem_wf m -> mem_rel (Memory_Delete m key) (lru_remove key (entries m)).
Proof.
  intros Hw. unfold Memory_Delete. destruct (mm_items m !! key) as [el|] eqn:Hi; [by apply remove_rel|].
  split; [done|]. pose proof (mem_key_none m key Hw Hi) as Hk. unfold entries, lru_remove.
  induction (mm_ll m) as [|x ll IH]; [done|]. csimpl.
  rewrite filter_cons_True by (apply Hk; set_solver). f_equal. apply IH. set_solver.
Qed.

End refinement.

(** ** Runs of the cache *)
Inductive CacheOp :=
| CGet (key : string) (now : Z)
| CSet (key value : string) (ttl now : Z)
| CDelete (key : string).

Definition op_key (op : CacheOp) : string :=
  match op with CGet k _ | CSet k _ _ _ | CDelete k => k end.

Definition mem_exec (m : Memory) (op : CacheOp) : Memory * option string :=
  match op with
  | CGet k now => Memory_Get m k now
  | CSet k v ttl now => (Memory_Set m k v ttl now, None)
  | CDelete k => (Memory_Delete m k, None)
  end.

Definition lru_exec (max : Z) (l : list entry) (op : CacheOp) : list entry * option string :=
  match op with
  | CGet k now => lru_get l k now
  | CSet k v ttl now => (lru_set max l k v ttl now, None)
  | CDelete k => (lru_remove k l, None)
  end.

(** The answers of a sequence of operations, and the state they leave. *)
Fixpoint mem_run (m : Memory) (ops : list CacheOp) : Memory * list (option string) :=
  match ops with
  | [] => (m, [])
  | op :: ops =>
      let '(m1, r) := mem_exec m op in
      let '(m2, rs) := mem_run m1 ops in (m2, r :: rs)
  end.

Fixpoint lru_run (max : Z) (l : list entry) (ops : list CacheOp) : list entry * list (option string) :=
  match ops with
  | [] => (l, [])
  | op :: ops =>
      let '(l1, r) := lru_exec max l op in
      let '(l2, rs) := lru_run max l1 ops in (l2, r :: rs)
  end.

Section runs.

Lemma NewMemory_wf maxSize : mem_rel (NewMemory maxSize) [].
Proof.
  split; [split; simpl|done]; try constructor; try set_solver.
  go_lia.
Qed.

Lemma mem_exec_max m op : mm_maxSize (mem_exec m op).1 = mm_maxSize m.
Proof.
  destruct op; simpl; unfold Memory_Get, Memory_Set, Memory_Delete; repeat case_match; done.
Qed.

Lemma mem_exec_rel m op :
  mem_wf m ->
  let '(m', r) := mem_exec m op in
  let '(l', r') := lru_exec (mm_maxSize m) (entries m) op in
  r = r' /\ mem_rel m' l'.
Proof.
  intros Hw. destruct op as [k now|k v ttl now|k]; simpl.
  - by apply Get_rel.
  - split; [done|]. by apply Set_rel.
  - split; [done|]. by apply Delete_rel.
Qed.

Lemma mem_run_rel m ops :
  mem_wf m ->
  let '(m', rs) := mem_run m ops in
  let '(l', rs') := lru_run (mm_maxSize m) (entries m) ops in
  rs = rs' /\ mem_rel m' l'.
Proof.
  revert m. induction ops as [|op ops IH]; intros m Hw; simpl; [by split|].
  pose proof (mem_exec_rel m op Hw) as He. pose proof (mem_exec_max m op) as Hm.
  destruct (mem_exec m op) as [m1 r]. simpl in Hm.
  destruct (lru_exec _ _ _) as [l1 r']. destruct He as [-> [Hw1 <-]].
  specialize (IH m1 Hw1). rewrite Hm in IH.
  destruct (mem_run m1 ops) as [m2 rs]. destruct (lru_run _ _ ops) as [l2 rs'].
  by destruct IH as [-> ?].
Qed.

(** *** The abstract cache *)

Definition keys (l : list entry) : list string := en_key <$> l.

Lemma keys_remove k l : keys (lru_remove k l) = filter (fun x => x <> k) (keys l).
Proof.
  unfold keys, lru_remove. induction l as [|e l IH]; [done|]. csimpl.
  rewrite !filter_cons. case_decide; csimpl; [by f_equal|done].
Qed.

Lemma lru_remove_length k l : (List.length (lru_remove k l) <= List.length l)%nat.
Proof. apply length_filter. Qed.

Lemma lru_find_some k l e : lru_find k l = Some e -> en_key e = k /\ e ∈ l.
Proof.
  unfold lru_find. intros He. assert (e ∈ filter (fun e => en_key e = k) l) as Hin.
  { destruct (filter _ l); [done|]. simplify_eq/=. set_solver. }
  by apply list_elem_of_filter in Hin.
Qed.

Lemma lru_remove_shorter k l e :
  lru_find k l = Some e -> (List.length (lru_remove k l) < List.length l)%nat.
Proof.
  intros [Hk Hin]%lru_find_some. unfold lru_remove.
  apply (length_filter_lt _ l e); [done|naive_solver].
Qed.

Lemma lru_exec_length max l op :
  1 <= max -> Z.of_nat (List.length l) <= max ->
  Z.of_nat (List.length (lru_exec max l op).1) <= max.
Proof.
  intros Hm Hl. destruct op as [k now|k v ttl now|k]; simpl.
  - unfold lru_get. destruct (lru_find k l) as [e|] eqn:He; simpl; [|done].
    pose proof (lru_remove_shorter k l e He). destruct (en_expiresAt e <? now); simpl; lia.
  - unfold lru_set. destruct (lru_find k l) as [e|] eqn:He; simpl.
    + pose proof (lru_remove_shorter k l e He). lia.
    + destruct (max <=? Z.of_nat (List.length l)) eqn:E; [|lia].
      rewrite removelast_firstn_len, length_firstn. lia.
  - pose proof (lru_remove_length k l). lia.
Qed.

Lemma lru_run_length max l ops :
  1 <= max -> Z.of_nat (List.length l) <= max ->
  Z.of_nat (List.length (lru_run max l ops).1) <= max.
Proof.
  intros Hm. revert l. induction ops as [|op ops IH]; intros l Hl; simpl; [done|].
  pose proof (lru_exec_length max l op Hm Hl). destruct (lru_exec max l op) as [l1 r]. simpl in *.
  specialize (IH l1 ltac:(done)). by destruct (lru_run max l1 ops).
Qed.

(** *** Retention: an entry behind fewer than [max] other keys is not evicted *)

(** [e] is in the cache, behind entries with keys of [K] only. *)
Definition behind (K : gset string) (e : entry) (l : list entry) : Prop :=
  NoDup (keys l) /\ exists l1 l2, l = l1 ++ e :: l2 /\ forall x, x ∈ keys l1 -> x ∈ K.

Lemma behind_remove K e l k : k <> en_key e -> behind K e l -> behind K e (lru_remove k l).
Proof.
  intros Hk [Hn (l1 & l2 & -> & HK)]. split.
  - rewrite keys_remove. by apply list.NoDup_filter.
  - exists (lru_remove k l1), (lru_remove k l2). split.
    + unfold lru_remove. rewrite list.filter_app. by rewrite filter_cons_True.
    + intros x. rewrite keys_remove, list_elem_of_filter. intros [_ ?]. auto.
Qed.

Lemma behind_cons K e l e' :
  en_key e' ∈ K -> en_key e' ∉ keys l -> behind K e l -> behind K e (e' :: l).
Proof.
  intros HK Hnin [Hn (l1 & l2 & -> & H1)]. split; [by constructor|].
  exists (e' :: l1), l2. split; [done|]. intros x. csimpl. intros [->|]%elem_of_cons; auto.
Qed.

Lemma not_in_removed k l : k ∉ keys (lru_remove k l).
Proof. rewrite keys_remove, list_elem_of_filter. tauto. Qed.

Lemma lru_find_not_in k l : lru_find k l = None -> k ∉ keys l.
Proof.
  unfold lru_find, keys. intros Hf Hin. apply list_elem_of_fmap in Hin as (e & -> & Hin).
  assert (e ∈ filter (fun e' => en_key e' = en_key e) l) as He by by apply list_elem_of_filter.
  destruct (filter _ l); [by apply elem_of_nil in He|done].
Qed.

Lemma removelast_keys l x : x ∈ keys (removelast l) -> x ∈ keys l.
Proof.
  induction l as [|e l IH]; [done|]. destruct l as [|e' l]; [simpl; by intros ?%elem_of_nil|].
  change (removelast (e :: e' :: l)) with (e :: removelast (e' :: l)). csimpl. set_solver.
Qed.

Lemma removelast_keys_nodup l : NoDup (keys l) -> NoDup (keys (removelast l)).
Proof.
  induction l as [|e l IH]; [done|]. destruct l as [|e' l]; [constructor|].
  change (removelast (e :: e' :: l)) with (e :: removelast (e' :: l)). csimpl.
  intros Hn. inversion Hn; subst. constructor; [|by apply IH].
  intros Hin. by apply (removelast_keys (e' :: l)) in Hin.
Qed.

Lemma nodup_size (K : gset string) (xs : list string) :
  NoDup xs -> (forall x, x ∈ xs -> x ∈ K) -> (List.length xs <= size K)%nat.
Proof.
  intros Hn HK. rewrite <-(size_list_to_set (C := gset string) xs) by done.
  apply subseteq_size. intros x Hx. apply HK. by apply elem_of_list_to_set in Hx.
Qed.

(** A full cache drops its last entry, which is not [e]. *)
Lemma behind_evict K e l max k :
  Z.of_nat (size K) < max -> k ∈ K -> k ∉ keys l -> max <= Z.of_nat (List.length l) ->
  behind K e l -> behind K e (removelast l).
Proof.
  intros Hs Hk Hnk Hl [Hn (l1 & l2 & -> & H1)]. split; [by apply removelast_keys_nodup|].
  assert (l2 <> []) as Hl2.
  { intros ->. rewrite length_app in Hl. simpl in Hl.
    assert (List.length (k :: keys l1) <= size K)%nat as Hsz.
    { apply nodup_size.
      - unfold keys in *. rewrite fmap_app in Hn, Hnk. constructor; [set_solver|].
        by apply list.NoDup_app in Hn as [? _].
      - intros x [->|Hx]%elem_of_cons; auto. }
    simpl in Hsz. unfold keys in Hsz. rewrite length_fmap in Hsz. lia. }
  exists l1, (removelast l2). split; [|done].
  rewrite removelast_app by done. f_equal. by destruct l2.
Qed.

Lemma behind_exec K e l max op :
  Z.of_nat (size K) < max -> op_key op ∈ K -> en_key e ∉ K -> behind K e l ->
  behind K e (lru_exec max l op).1.
Proof.
  intros Hs Hop He Hb. assert (op_key op <> en_key e) as Hne by (intros E; by rewrite E in Hop).
  destruct op as [k now|k v ttl now|k]; simpl in *; [| |by apply behind_remove].
  - unfold lru_get. destruct (lru_find k l) as [e'|] eqn:Hf; [|done].
    apply lru_find_some in Hf as [Hk' _]. pose proof (behind_remove K e l k Hne Hb).
    destruct (en_expiresAt e' <? now); simpl; [done|]. apply behind_cons; [by rewrite Hk'| |done].
    rewrite Hk'. apply not_in_removed.
  - unfold lru_set. destruct (lru_find k l) as [e'|] eqn:Hf.
    + apply behind_cons; [done|apply not_in_removed|by apply behind_remove].
    + apply lru_find_not_in in Hf. destruct (max <=? Z.of_nat (List.length l)) eqn:E.
      * apply behind_cons; [done| |apply (behind_evict K e l max k); auto; lia].
        simpl. intros Hin%removelast_keys. done.
      * by apply behind_cons.
Qed.

Lemma behind_run K e l max ops :
  Z.of_nat (size K) < max -> (forall op, op ∈ ops -> op_key op ∈ K) -> en_key e ∉ K ->
  behind K e l -> behind K e (lru_run max l ops).1.
Proof.
  intros Hs Hops He. revert l. induction ops as [|op ops IH]; intros l Hb; simpl; [done|].
  pose proof (behind_exec K e l max op Hs ltac:(apply Hops; set_solver) He Hb) as Hb1.
  destruct (lru_exec max l op) as [l1 r]. simpl in Hb1.
  specialize (IH ltac:(intros; apply Hops; set_solver) l1 Hb1). by destruct (lru_run max l1 ops).
Qed.

Lemma behind_get K e l now :
  behind K e l -> now <= en_expiresAt e -> (lru_get l (en_key e) now).2 = Some (en_value e).
Proof.
  intros [Hn (l1 & l2 & -> & _)] Hexp. unfold lru_get.
  assert (lru_find (en_key e) (l1 ++ e :: l2) = Some e) as ->.
  { unfold lru_find. rewrite list.filter_app. unfold keys in Hn. rewrite fmap_app in Hn.
    apply list.NoDup_app in Hn as (_ & Hd & _).
    assert (filter (fun e' => en_key e' = en_key e) l1 = []) as ->.
    { destruct (filter _ l1) as [|x fl] eqn:Hf; [done|]. exfalso.
      assert (x ∈ filter (fun e' => en_key e' = en_key e) l1) as Hx by (rewrite Hf; set_solver).
      apply list_elem_of_filter in Hx as [Hxk Hx]. apply (Hd (en_key x)); [by apply list_elem_of_fmap_2|].
      rewrite Hxk. csimpl. set_solver. }
    by rewrite filter_cons_True. }
  by replace (en_expiresAt e <? now) with false by lia.
Qed.

End runs.

Lemma entries_nodup m : mem_wf m -> NoDup (keys (entries m)).
Proof.
  intros Hw. unfold keys, entries. rewrite <-list_fmap_compose.
  apply NoDup_fmap_2_strong; [|apply Hw]. intros x y Hx Hy Hk. simpl in Hk.
  pose proof (proj2 (mw_items m Hw _ x) (conj Hx eq_refl)) as Hix.
  pose proof (proj2 (mw_items m Hw _ y) (conj Hy eq_refl)) as Hiy.
  rewrite Hk in Hix. congruence.
Qed.

(** The operations of the examples: "b" is used after "a", so "a" is evicted
    by "c"; "b" expires. *)
Definition ex_cache_ops : list CacheOp :=
  [CSet "a" "1" 100 0; CSet "b" "2" 10 0; CGet "b" 5; CSet "c" "3" 100 6; CGet "a" 7; CGet "c" 8;
   CGet "b" 11; CDelete "c"; CGet "c" 12].

(** C25. The linked list with its key map is an LRU cache: over any sequence
    of operations a new cache gives the answers of the abstract list of
    entries in order of use, keeps list and map consistent, and never holds
    more than its maximal number of entries. *)
Theorem memory_refines_lru maxSize ops :
  let max := if maxSize <=? 0 then 1000 else maxSize in
  let '(m, answers) := mem_run (NewMemory maxSize) ops in
  let '(l, answers') := lru_run max [] ops in
  answers = answers' /\ mem_rel m l /\ st_Size (Memory_Stats m) <= max.
Proof.
  cbv zeta. destruct (NewMemory_wf maxSize) as [Hw He].
  pose proof (mem_run_rel (NewMemory maxSize) ops Hw) as Hr. rewrite He in Hr.
  change (mm_maxSize (NewMemory maxSize)) with (if maxSize <=? 0 then 1000 else maxSize) in Hr.
  pose proof (lru_run_length (if maxSize <=? 0 then 1000 else maxSize) [] ops) as Hl.
  destruct (mem_run _ _) as [m a], (lru_run _ _ _) as [l a']. destruct Hr as [-> [Hw' Hl']].
  split; [done|]. split; [done|]. simpl in *. rewrite <-entries_length, Hl'. go_lia.
Qed.

Example ex_cache_answers :
  (mem_run (NewMemory 2) ex_cache_ops).2 =
  [None; None; Some "2"; None; None; Some "3"; None; None; None].
Proof. vm_compute. reflexivity. Qed.

(** Eviction is least recently used: after a key is set, as long as the
    operations that follow touch fewer than the maximal number of other keys,
    the entry is still there, and a lookup within its time to live returns
    the value that was set. *)
Theorem lru_retention m key value ttl t0 ops (K : gset string) now :
  mem_wf m -> Z.of_nat (size K) < mm_maxSize m -> key ∉ K ->
  (forall op, op ∈ ops -> op_key op ∈ K) -> now <= t0 + ttl ->
  (Memory_Get (mem_run (Memory_Set m key value ttl t0) ops).1 key now).2 = Some value.
Proof.
  intros Hw Hs Hk Hops Hnow. pose proof (Set_rel m key value ttl t0 Hw) as [Hw1 He1].
  pose proof (mem_run_rel _ ops Hw1) as Hr.
  assert (mm_maxSize (Memory_Set m key value ttl t0) = mm_maxSize m) as Hm
    by exact (mem_exec_max m (CSet key value ttl t0)).
  rewrite Hm in Hr.
  assert (behind K (mkEntry key value (t0 + ttl)) (entries (Memory_Set m key value ttl t0))) as Hb.
  { split; [by apply entries_nodup|]. rewrite He1. unfold lru_set.
    destruct (lru_find key (entries m)); eexists [], _; (split; [done|by intros x ?%elem_of_nil]). }
  pose proof (behind_run K (mkEntry key value (t0 + ttl)) _ (mm_maxSize m) ops Hs Hops Hk Hb) as Hb2.
  destruct (mem_run _ ops) as [m2 rs], (lru_run _ _ ops) as [l2 rs'].
  destruct Hr as [_ [Hw2 He2]]. simpl in *. subst l2.
  pose proof (Get_rel m2 key now Hw2) as Hg. destruct (Memory_Get m2 key now) as [m3 r].
  pose proof (behind_get K _ _ now Hb2 Hnow) as Hv. simpl in Hv.
  destruct (lru_get _ _ _) as [l3 r']. simpl in *. destruct Hg as [-> _]. done.
Qed.

Lemma lru_retention_witness :
  (Memory_Get (mem_run (Memory_Set (NewMemory 2) "a" "1" 100 0)
     [CSet "b" "2" 10 1; CSet "b" "3" 10 2; CGet "b" 3; CDelete "b"]).1 "a" 50).2 = Some "1".
Proof.
  apply (lru_retention (NewMemory 2) "a" "1" 100 0
    [CSet "b" "2" 10 1; CSet "b" "3" 10 2; CGet "b" 3; CDelete "b"] {[ "b" ]} 50).
  - apply NewMemory_wf.
  - vm_compute. reflexivity.
  - set_solver.
  - intros op Hin. repeat (apply elem_of_cons in Hin as [->|Hin]; [simpl; set_solver|]).
    by apply elem_of_nil in Hin.
  - lia.
Defined.

(** ** The interface and its implementations *)

(** [cache.Cache], for caches whose operations may act on a world [W]. *)
Class Cache (C W : Type) := {
  ca_Get : C -> string -> Z -> W -> C * W * option string;
  ca_Set : C -> string -> string -> Z -> Z -> W -> C * W;
  ca_Delete : C -> string -> W -> C * W;
}.

(** What clients rely on, with [ca_holds c k v] for: some lookup of [k] may
    return [v].  A lookup returns what is held under its key, and nothing but
    [Set], under its own key, adds to what is held. *)
Class CacheLaws (C W : Type) `{Cache C W} := {
  ca_holds : C -> string -> string -> Prop;
  ca_get_holds : forall c k now w v, (ca_Get c k now w).2 = Some v -> ca_holds c k v;
  ca_get_mono : forall c k now w k' v, ca_holds (ca_Get c k now w).1.1 k' v -> ca_holds c k' v;
  ca_set_mono : forall c k v ttl now w k' v',
    ca_holds (ca_Set c k v ttl now w).1 k' v' -> ca_holds c k' v' \/ (k' = k /\ v' = v);
  ca_delete_mono : forall c k w k' v, ca_holds (ca_Delete c k w).1 k' v -> ca_holds c k' v;
}.

(** The in-memory cache together with the proof that it is consistent. *)
Definition memory : Type := { m : Memory | mem_wf m }.

Lemma mem_exec_wf m op : mem_wf m -> mem_wf (mem_exec m op).1.
Proof.
  intros Hw. pose proof (mem_exec_rel m op Hw) as He. destruct (mem_exec m op) as [m' r].
  destruct (lru_exec _ _ _). apply He.
Qed.

Definition memory_step (c : memory) (op : CacheOp) : memory :=
  (mem_exec (`c) op).1 ↾ mem_exec_wf (`c) op (proj2_sig c).

#[export] Instance memory_cache {W} : Cache memory W := {|
  ca_Get c k now w := (memory_step c (CGet k now), w, (Memory_Get (`c) k now).2);
  ca_Set c k v ttl now w := (memory_step c (CSet k v ttl now), w);
  ca_Delete c k w := (memory_step c (CDelete k), w);
|}.

Section laws.

Lemma elem_of_lru_remove k e l : e ∈ lru_remove k l <-> e ∈ l /\ en_key e <> k.
Proof. unfold lru_remove. rewrite list_elem_of_filter. tauto. Qed.

Lemma lru_get_holds l k now v :
  (lru_get l k now).2 = Some v -> exists e, e ∈ l /\ en_key e = k /\ en_value e = v.
Proof.
  unfold lru_get. destruct (lru_find k l) as [e|] eqn:Hf; [|done].
  apply lru_find_some in Hf as [Hk Hin]. destruct (_ <? _); [done|]. intros [= <-]. eauto.
Qed.

Lemma lru_get_mono l k now e : e ∈ (lru_get l k now).1 -> e ∈ l.
Proof.
  unfold lru_get. destruct (lru_find k l) as [e'|] eqn:Hf; [|done].
  apply lru_find_some in Hf as [_ Hin]. destruct (_ <? _); simpl.
  - by intros [? _]%elem_of_lru_remove.
  - by intros [->|[? _]%elem_of_lru_remove]%elem_of_cons.
Qed.

Lemma removelast_elem {A} (l : list A) x : x ∈ removelast l -> x ∈ l.
Proof.
  induction l as [|e l IH]; [done|]. destruct l as [|e' l]; [simpl; by intros ?%elem_of_nil|].
  change (removelast (e :: e' :: l)) with (e :: removelast (e' :: l)). set_solver.
Qed.

Lemma lru_set_mono max l k v ttl now e :
  e ∈ lru_set max l k v ttl now -> e ∈ l \/ e = mkEntry k v (now + ttl).
Proof.
  unfold lru_set. destruct (lru_find k l).
  - intros [->|[? _]%elem_of_lru_remove]%elem_of_cons; auto.
  - intros [->|Hin]%elem_of_cons; [auto|]. destruct (_ <=? _); [left; by apply removelast_elem|auto].
Qed.

(** What the memory holds, expired or not. *)
Definition memory_holds (c : memory) (k v : string) : Prop := exists e, e ∈ entries (`c) /\ en_key e = k /\ en_value e = v.

#[export] Instance memory_laws {W} : CacheLaws memory W.
Proof.
  exists memory_holds; unfold memory_holds.
  - intros [m Hw] k now w v. simpl. pose proof (Get_rel m k now Hw) as Hg.
    pose proof (lru_get_holds (entries m) k now v) as Hh.
    destruct (Memory_Get m k now), (lru_get _ _ _). simpl in *. destruct Hg as [-> _]. auto.
  - intros [m Hw] k now w k' v. simpl. pose proof (Get_rel m k now Hw) as Hg.
    pose proof (lru_get_mono (entries m) k now) as Hm.
    destruct (Memory_Get m k now), (lru_get _ _ _). simpl in *. destruct Hg as [_ [_ ->]]. naive_solver.
  - intros [m Hw] k v ttl now w k' v'. simpl. pose proof (Set_rel m k v ttl now Hw) as [_ ->].
    intros (e & Hin & <- & <-). apply lru_set_mono in Hin as [Hin| ->]; [left; eauto|by right].
  - intros [m Hw] k w k' v. simpl. pose proof (Delete_rel m k Hw) as [_ ->].
    intros (e & [Hin Hne]%elem_of_lru_remove & <- & <-). eauto.
Defined.

End laws.
