(* ===== verification/CacheSemantic.v ===== *)
(** * The semantic cache: [internal/cache/semantic.go]

    A vector index over any exact cache.  Everything here is proved against
    the [Cache] interface, so it holds for the in-memory cache and for any
    other implementation of the laws. *)

From Stdlib Require Import Ascii String.
From S2P Require Import Prelude GoFloat GoStrings Cache.
Open Scope string_scope.
Open Scope list_scope.
Open Scope Z_scope.

Record semanticEntry := mkSemanticEntry {
  se_namespace : string;
  se_key : string;
  se_vector : list float64;
  se_expiresAt : Z;
  se_lastUsed : Z;
}.

Record semanticCandidate := mkCandidate { sc_entry : semanticEntry; sc_score : float64 }.

(** The three sums of the loop of [cosine]. *)
Fixpoint cosine_sums (a b : list float64) (acc : float64 * float64 * float64)
    : float64 * float64 * float64 :=
  match a, b with
  | x :: a, y :: b =>
      let '(dot, normA, normB) := acc in
      cosine_sums a b (fadd dot (fmul x y), fadd normA (fmul x x), fadd normB (fmul y y))
  | _, _ => acc
  end.

Definition cosine (a b : list float64) : float64 :=
  if (Z.of_nat (List.length a) =? 0) || negb (Nat.eqb (List.length a) (List.length b)) then 0
  else
    let '(dot, normA, normB) := cosine_sums a b (0, 0, 0) in
    if (normA =? 0) || (normB =? 0) then 0
    else fdiv dot (fmul (f64_sqrt normA) (f64_sqrt normB)).

Section semantic.
Context {C X W : Type} `{!Cache C W, !CacheLaws C W}.
(** [EmbeddingFunc]: a call of the injected embedding provider, on state of
    its own and the world. *)
Context (embed : string -> X * W -> (X * W) * result (list float64) unit).

Record Semantic := mkSemantic {
  sm_exact : C;
  sm_enabled : bool;
  sm_threshold : float64;
  sm_topK : Z;
  sm_maxEntries : Z;
  sm_embed : bool;               (** an embedder was injected *)
  sm_entries : list semanticEntry;
  sm_clock : Z;
}.

Definition NewSemanticWithEmbedder (exact : C) (enabled : bool) (threshold : float64)
    (topK maxEntries : Z) (has_embed : bool) : Semantic :=
  mkSemantic exact enabled
    (if threshold <=? 0 then f64_const 97 100 else threshold)
    (if topK <=? 0 then 3 else topK)
    (if maxEntries <=? 0 then 1000 else maxEntries)
    has_embed [] 0.

Definition NewSemantic (exact : C) (enabled : bool) (threshold : float64) : Semantic :=
  NewSemanticWithEmbedder exact enabled threshold 3 1000 false.

Definition sm_with (s : Semantic) (exact : C) (entries : list semanticEntry) (clock : Z) : Semantic :=
  mkSemantic exact (sm_enabled s) (sm_threshold s) (sm_topK s) (sm_maxEntries s) (sm_embed s)
    entries clock.

Definition Semantic_Get (s : Semantic) (key : string) (now : Z) (w : W) : Semantic * W * option string :=
  let '(c, w, r) := ca_Get (sm_exact s) key now w in (sm_with s c (sm_entries s) (sm_clock s), w, r).

Definition Semantic_Set (s : Semantic) (key value : string) (ttl now : Z) (w : W) : Semantic * W :=
  let '(c, w) := ca_Set (sm_exact s) key value ttl now w in (sm_with s c (sm_entries s) (sm_clock s), w).

Definition Semantic_Delete (s : Semantic) (key : string) (w : W) : Semantic * W :=
  let '(c, w) := ca_Delete (sm_exact s) key w in
  (sm_with s c (filter (fun e => se_key e <> key) (sm_entries s)) (sm_clock s), w).

(** One iteration of the scan of [Lookup]: the kept entries and the
    candidates. *)
Definition scan_step (s : Semantic) (namespace : string) (vector : list float64) (now : Z)
    (acc : list semanticEntry * list semanticCandidate) (e : semanticEntry)
    : list semanticEntry * list semanticCandidate :=
  let '(filtered, candidates) := acc in
  if se_expiresAt e <? now then acc
  else
    let filtered := filtered ++ [e] in
    if negb (str_eqb (se_namespace e) namespace)
       || negb (Nat.eqb (List.length (se_vector e)) (List.length vector)) then (filtered, candidates)
    else
      let score := cosine vector (se_vector e) in
      if sm_threshold s <=? score then (filtered, candidates ++ [mkCandidate e score])
      else (filtered, candidates).

Definition by_score (a b : semanticCandidate) : bool := sc_score b <? sc_score a.

(** [touch]: the first entry of that key and namespace. *)
Fixpoint touch (key namespace : string) (clock : Z) (es : list semanticEntry) : list semanticEntry :=
  match es with
  | [] => []
  | e :: es =>
      if str_eqb (se_key e) key && str_eqb (se_namespace e) namespace
      then mkSemanticEntry (se_namespace e) (se_key e) (se_vector e) (se_expiresAt e) clock :: es
      else e :: touch key namespace clock es
  end.

(** The loop over the best candidates. *)
Fixpoint try_candidates (s : Semantic) (namespace : string) (now : Z) (cs : list semanticCandidate) (w : W)
    : Semantic * W * option string :=
  match cs with
  | [] => (s, w, None)
  | c :: cs =>
      match ca_Get (sm_exact s) (se_key (sc_entry c)) now w with
      | (ex, w, Some value) =>
          let clock := (sm_clock s + 1) mod 2 ^ 64 in
          (sm_with s ex (touch (se_key (sc_entry c)) namespace clock (sm_entries s)) clock, w, Some value)
      | (ex, w, None) => try_candidates (sm_with s ex (sm_entries s) (sm_clock s)) namespace now cs w
      end
  end.

Definition Lookup (s : Semantic) (namespace query : string) (now : Z) (xw : X * W)
    : Semantic * (X * W) * option string :=
  if negb (sm_enabled s) || negb (sm_embed s) || str_eqb query "" then (s, xw, None)
  else
    match embed query xw with
    | (xw, Err _) => (s, xw, None)
    | (xw, Ok []) => (s, xw, None)
    | ((x, w), Ok vector) =>
        let '(filtered, candidates) :=
          foldl (scan_step s namespace vector now) ([], []) (sm_entries s) in
        let s := sm_with s (sm_exact s) filtered (sm_clock s) in
        let candidates := stable_sort by_score candidates in
        let candidates := take (Z.to_nat (sm_topK s)) candidates in
        let '(s, w, r) := try_candidates s namespace now candidates w in
        (s, (x, w), r)
    end.

(** The inner loop of the eviction: the index of the first entry with the
    smallest [lastUsed]. *)
Fixpoint oldest_from (i : nat) (best : nat) (bestUsed : Z) (es : list semanticEntry) : nat :=
  match es with
  | [] => best
  | e :: es =>
      if se_lastUsed e <? bestUsed then oldest_from (S i) i (se_lastUsed e) es
      else oldest_from (S i) best bestUsed es
  end.

Definition oldest (es : list semanticEntry) : nat :=
  match es with [] => 0 | e :: es => oldest_from 1 0 (se_lastUsed e) es end.

(** [append(entries[:oldest], entries[oldest+1:]...)] while there are too
    many entries; each turn drops one. *)
Fixpoint evict (fuel : nat) (maxEntries : Z) (es : list semanticEntry) : list semanticEntry :=
  match fuel with
  | O => es
  | S fuel =>
      if maxEntries <? Z.of_nat (List.length es) then
        let i := oldest es in evict fuel maxEntries (take i es ++ drop (S i) es)
      else es
  end.

Definition SetSemantic (s : Semantic) (namespace query key value : string) (ttl now : Z) (xw : X * W)
    : Semantic * (X * W) :=
  let '(s, w) := Semantic_Set s key value ttl now xw.2 in
  let xw := (xw.1, w) in
  if negb (sm_enabled s) || negb (sm_embed s) || str_eqb query "" then (s, xw)
  else
    match embed query xw with
    | (xw, Err _) => (s, xw)
    | (xw, Ok []) => (s, xw)
    | (xw, Ok vector) =>
        let clock := (sm_clock s + 1) mod 2 ^ 64 in
        let filtered :=
          filter (fun e => ~ (se_expiresAt e < now \/ (se_namespace e = namespace /\ se_key e = key)))
            (sm_entries s) in
        let es := filtered ++ [mkSemanticEntry namespace key vector (now + ttl) clock] in
        (sm_with s (sm_exact s) (evict (List.length es) (sm_maxEntries s) es) clock, xw)
    end.

(** ** What a lookup may return *)

(** The entries of the scan are unexpired entries of the index, in order, and
    the candidates are those of the namespace that are similar enough. *)
Definition eligible_entry (s : Semantic) (namespace : string) (vector : list float64) (now : Z)
    (e : semanticEntry) : Prop :=
  e ∈ sm_entries s /\ se_namespace e = namespace /\ now <= se_expiresAt e /\
  List.length (se_vector e) = List.length vector /\ sm_threshold s <= cosine vector (se_vector e).

Definition scan_ok (s : Semantic) (namespace : string) (vector : list float64) (now : Z)
    (seen : list semanticEntry) (acc : list semanticEntry * list semanticCandidate) : Prop :=
  (forall e, e ∈ acc.1 -> e ∈ seen) /\
  (forall c, c ∈ acc.2 -> sc_entry c ∈ seen /\ sc_score c = cosine vector (se_vector (sc_entry c)) /\
     se_namespace (sc_entry c) = namespace /\ now <= se_expiresAt (sc_entry c) /\
     List.length (se_vector (sc_entry c)) = List.length vector /\ sm_threshold s <= sc_score c).

Lemma scan_step_ok s ns v now seen acc e :
  scan_ok s ns v now seen acc -> scan_ok s ns v now (seen ++ [e]) (scan_step s ns v now acc e).
Proof.
  destruct acc as [fl cs]. intros [Hf Hc]. simpl in *.
  assert (forall x, x ∈ seen -> x ∈ seen ++ [e]) as Hin by (intros; apply elem_of_app; auto).
  assert (e ∈ seen ++ [e]) as He by (apply elem_of_app; right; by apply list_elem_of_singleton).
  assert (forall x, x ∈ fl ++ [e] -> x ∈ seen ++ [e]) as Hf'.
  { intros x [Hx| ->%list_elem_of_singleton]%elem_of_app; auto. }
  assert (forall c, c ∈ cs -> sc_entry c ∈ seen ++ [e] /\ sc_score c = cosine v (se_vector (sc_entry c)) /\
     se_namespace (sc_entry c) = ns /\ now <= se_expiresAt (sc_entry c) /\
     List.length (se_vector (sc_entry c)) = List.length v /\ sm_threshold s <= sc_score c) as Hc'.
  { intros c Hcin. destruct (Hc c Hcin). auto. }
  unfold scan_step, str_eqb. destruct (_ <? _) eqn:Hx; [split; simpl; auto|].
  case_bool_decide as Hn; simpl; [|split; simpl; auto].
  destruct (Nat.eqb _ _) eqn:Hl; simpl; [|split; simpl; auto].
  apply Nat.eqb_eq in Hl.
  destruct (_ <=? _) eqn:Ht; split; simpl; auto.
  intros c [Hcin| ->%list_elem_of_singleton]%elem_of_app; [auto|]. simpl.
  split_and!; try done; lia.
Qed.

Lemma scan_ok_all s ns v now :
  scan_ok s ns v now (sm_entries s) (foldl (scan_step s ns v now) ([], []) (sm_entries s)).
Proof.
  apply (foldl_prefix_inv _ (scan_ok s ns v now)).
  - split; intros x Hx; by apply elem_of_nil in Hx.
  - intros. by apply scan_step_ok.
Qed.

Lemma try_candidates_ok s ns now cs w :
  let '(s', _, r) := try_candidates s ns now cs w in
  (forall k v, ca_holds (sm_exact s') k v -> ca_holds (sm_exact s) k v) /\
  (forall v, r = Some v -> exists c, c ∈ cs /\ ca_holds (sm_exact s) (se_key (sc_entry c)) v) /\
  (forall e, e ∈ sm_entries s' -> exists e', e' ∈ sm_entries s /\
     se_namespace e' = se_namespace e /\ se_key e' = se_key e).
Proof.
  revert s w. induction cs as [|c cs IH]; intros s w; simpl; [naive_solver|].
  pose proof (ca_get_holds (sm_exact s) (se_key (sc_entry c)) now w) as Hh.
  pose proof (ca_get_mono (sm_exact s) (se_key (sc_entry c)) now w) as Hm.
  destruct (ca_Get _ _ _ _) as [[ex w1] [v|]]; simpl in *.
  - split_and!; [done|intros ? [= <-]; exists c; split; [set_solver|auto]|].
    intros e. clear. induction (sm_entries s) as [|e0 es IHe]; simpl; [naive_solver|].
    destruct (_ && _); simpl; intros [->|He]%elem_of_cons; simpl;
      try (eexists; split; [|split; [reflexivity|reflexivity]]; set_solver).
    destruct (IHe He) as (e' & ? & ? & ?). exists e'. split; [set_solver|done].
  - specialize (IH (sm_with s ex (sm_entries s) (sm_clock s)) w1).
    destruct (try_candidates _ ns now cs w1) as [[s' w'] r]. simpl in IH.
    destruct IH as (I1 & I2 & I3). split_and!; [auto| |done].
    intros v' Hv. destruct (I2 v' Hv) as (c' & ? & ?). exists c'. split; [set_solver|auto].
Qed.

(** What one lookup does: it returns a value the exact cache holds for an
    eligible entry, and adds nothing to the index or the cache. *)
Lemma Lookup_ok s ns q now xw :
  let '(s', _, r) := Lookup s ns q now xw in
  (forall k v, ca_holds (sm_exact s') k v -> ca_holds (sm_exact s) k v) /\
  (forall e, e ∈ sm_entries s' -> exists e', e' ∈ sm_entries s /\
     se_namespace e' = se_namespace e /\ se_key e' = se_key e) /\
  (forall v, r = Some v -> exists vec xw', embed q xw = (xw', Ok vec) /\
     exists e, eligible_entry s ns vec now e /\ ca_holds (sm_exact s) (se_key e) v).
Proof.
  unfold Lookup. destruct (_ || _); [naive_solver|].
  destruct (embed q xw) as [[x w] [[|y vec]|]] eqn:He; [naive_solver| |naive_solver].
  set (vector := y :: vec) in *. pose proof (scan_ok_all s ns vector now) as [Hf Hc].
  destruct (foldl _ _ _) as [fl cs]. simpl in Hf, Hc.
  set (s1 := sm_with s (sm_exact s) fl (sm_clock s)).
  set (top := take _ (stable_sort by_score cs)).
  pose proof (try_candidates_ok s1 ns now top w) as Ht.
  destruct (try_candidates s1 ns now top w) as [[s' w'] r]. destruct Ht as (T1 & T2 & T3). split_and!.
  - exact T1.
  - intros e Hin. destruct (T3 e Hin) as (e' & He' & ?). exists e'. split; [by apply Hf|done].
  - intros v Hv. exists vector, (x, w). split; [done|]. destruct (T2 v Hv) as (c & Hin & Hh).
    exists (sc_entry c). split; [|exact Hh].
    assert (c ∈ cs) as Hcs.
    { rewrite (stable_sort_perm by_score cs). by eapply elem_of_take_1. }
    destruct (Hc c Hcs) as (? & Hs & ? & ? & ? & ?). unfold eligible_entry. rewrite <-Hs. done.
Qed.

Lemma evict_elem fuel max es e : e ∈ evict fuel max es -> e ∈ es.
Proof.
  revert es. induction fuel as [|fuel IH]; intros es; simpl; [done|].
  destruct (_ <? _); [|done]. intros Hin%IH. apply elem_of_app in Hin as [Hin|Hin].
  - by eapply elem_of_take_1.
  - by eapply elem_of_drop_1.
Qed.

Lemma oldest_from_lt i best bu es :
  (best < i)%nat -> (oldest_from i best bu es < i + List.length es)%nat.
Proof.
  revert i best bu. induction es as [|e es IH]; intros i best bu Hb; simpl; [lia|].
  destruct (_ <? _); [specialize (IH (S i) i (se_lastUsed e))|specialize (IH (S i) best bu)]; lia.
Qed.

Lemma oldest_lt es : es <> [] -> (oldest es < List.length es)%nat.
Proof.
  destruct es as [|e es]; [done|]. intros _. simpl.
  pose proof (oldest_from_lt 1 0 (se_lastUsed e) es). lia.
Qed.

(** Enough fuel: the loop ends with at most [maxEntries] entries. *)
Lemma evict_length fuel max es :
  1 <= max -> (List.length es <= fuel)%nat -> Z.of_nat (List.length (evict fuel max es)) <= max.
Proof.
  intros Hm. revert es. induction fuel as [|fuel IH]; intros es Hl; simpl; [lia|].
  destruct (max <? Z.of_nat (List.length es)) eqn:E; [|lia]. apply IH.
  apply Z.ltb_lt in E.
  assert (es <> []) as Hne by (intros ->; simpl in E; lia).
  pose proof (oldest_lt es Hne). rewrite length_app, length_take, length_drop. lia.
Qed.

(** ** Runs *)
Inductive SemOp :=
| SGet (key : string) (now : Z)
| SSet (key value : string) (ttl now : Z)
| SDelete (key : string)
| SLookup (namespace query : string) (now : Z)
| SSetSemantic (namespace query key value : string) (ttl now : Z).

Definition sem_exec (s : Semantic) (op : SemOp) (xw : X * W) : Semantic * (X * W) * option string :=
  match op with
  | SGet k now => let '(s, w, r) := Semantic_Get s k now xw.2 in (s, (xw.1, w), r)
  | SSet k v ttl now => let '(s, w) := Semantic_Set s k v ttl now xw.2 in (s, (xw.1, w), None)
  | SDelete k => let '(s, w) := Semantic_Delete s k xw.2 in (s, (xw.1, w), None)
  | SLookup ns q now => Lookup s ns q now xw
  | SSetSemantic ns q k v ttl now => let '(s, xw) := SetSemantic s ns q k v ttl now xw in (s, xw, None)
  end.

Definition sem_run (s : Semantic) (ops : list SemOp) (xw : X * W) : Semantic * (X * W) :=
  foldl (fun sw op => (sem_exec sw.1 op sw.2).1) (s, xw) ops.

(** What the past operations stored and indexed. *)
Definition stored (ops : list SemOp) (key value : string) : Prop :=
  exists ttl now, SSet key value ttl now ∈ ops \/
    exists ns q, SSetSemantic ns q key value ttl now ∈ ops.
Definition indexed (ops : list SemOp) (namespace key : string) : Prop :=
  exists q v ttl now, SSetSemantic namespace q key v ttl now ∈ ops.

Definition sem_inv (ops : list SemOp) (s : Semantic) : Prop :=
  (forall k v, ca_holds (sm_exact s) k v -> stored ops k v) /\
  (forall e, e ∈ sm_entries s -> indexed ops (se_namespace e) (se_key e)) /\
  1 <= sm_maxEntries s /\ Z.of_nat (List.length (sm_entries s)) <= sm_maxEntries s.

Lemma stored_snoc ops op k v : stored ops k v -> stored (ops ++ [op]) k v.
Proof.
  intros (ttl & now & Hs). exists ttl, now.
  destruct Hs as [Hs|(ns & q & Hs)]; [left|right; exists ns, q]; set_solver.
Qed.

Lemma indexed_snoc ops op ns k : indexed ops ns k -> indexed (ops ++ [op]) ns k.
Proof. intros (q & v & ttl & now & Hs). exists q, v, ttl, now. set_solver. Qed.

Lemma touch_length key ns clock es : List.length (touch key ns clock es) = List.length es.
Proof. induction es as [|e es IH]; simpl; [done|]. destruct (_ && _); simpl; auto. Qed.

Lemma try_candidates_length s ns now cs w :
  List.length (sm_entries (try_candidates s ns now cs w).1.1) = List.length (sm_entries s) /\
  sm_maxEntries (try_candidates s ns now cs w).1.1 = sm_maxEntries s.
Proof.
  revert s w. induction cs as [|c cs IH]; intros s w; simpl; [done|].
  destruct (ca_Get _ _ _ _) as [[ex w1] [v|]]; simpl; [by rewrite touch_length|].
  apply (IH (sm_with s ex (sm_entries s) (sm_clock s))).
Qed.

Lemma scan_length s ns v now es :
  (List.length (foldl (scan_step s ns v now) ([], []) es).1 <= List.length es)%nat.
Proof.
  apply (foldl_prefix_inv _ (fun es (acc : list semanticEntry * list semanticCandidate) =>
    List.length acc.1 <= List.length es)%nat); [done|].
  intros l x [fl cs] Hl. unfold scan_step. rewrite length_app. simpl in *.
  repeat case_match; simpl; rewrite ?length_app; simpl; lia.
Qed.

Lemma Lookup_length s ns q now w :
  (List.length (sm_entries (Lookup s ns q now w).1.1) <= List.length (sm_entries s))%nat /\
  sm_maxEntries (Lookup s ns q now w).1.1 = sm_maxEntries s.
Proof.
  unfold Lookup. destruct (_ || _); [done|]. destruct (embed q w) as [[x w'] [[|y vec]|]]; try done.
  pose proof (scan_length s ns (y :: vec) now (sm_entries s)) as Hl.
  destruct (foldl _ _ _) as [fl cs]. simpl in Hl.
  match goal with |- context [try_candidates ?s1 ns now ?t w'] =>
    pose proof (try_candidates_length s1 ns now t w') as Ht; destruct (try_candidates s1 ns now t w') as [[? ?] ?] end.
  simpl in *. destruct Ht as [-> ->]. done.
Qed.

Lemma sem_exec_inv ops s op w : sem_inv ops s -> sem_inv (ops ++ [op]) (sem_exec s op w).1.1.
Proof.
  intros (Hh & He & Hm & Hl). destruct op as [k now|k v ttl now|k|ns q now|ns q k v ttl now]; simpl.
  - unfold Semantic_Get. pose proof (ca_get_mono (sm_exact s) k now w.2) as Hg.
    destruct (ca_Get _ _ _ _) as [[? ?] ?]; simpl in *. split_and!; simpl; auto using stored_snoc, indexed_snoc.
  - unfold Semantic_Set. pose proof (ca_set_mono (sm_exact s) k v ttl now w.2) as Hs. destruct (ca_Set _ _ _ _ _ _).
    split_and!; simpl; auto using indexed_snoc. intros k' v' [Hv|[-> ->]]%Hs.
    + auto using stored_snoc.
    + exists ttl, now. left. set_solver.
  - unfold Semantic_Delete. pose proof (ca_delete_mono (sm_exact s) k w.2) as Hd. destruct (ca_Delete _ _ _).
    split_and!; simpl; [| |done|].
    + intros k' v' Hv%Hd. auto using stored_snoc.
    + intros e [_ Hin]%list_elem_of_filter. auto using indexed_snoc.
    + pose proof (length_filter (fun e => se_key e <> k) (sm_entries s)). lia.
  - pose proof (Lookup_ok s ns q now w) as Hok. pose proof (Lookup_length s ns q now w) as [Hlen Hmax].
    destruct (Lookup s ns q now w) as [[s' w'] r]. simpl in *. destruct Hok as (Hx & Hy & _).
    split_and!; [auto using stored_snoc| |lia|lia].
    intros e Hin. destruct (Hy e Hin) as (e' & Hin' & <- & <-). auto using indexed_snoc.
  - assert (forall k' v', ca_holds (ca_Set (sm_exact s) k v ttl now w.2).1 k' v' ->
      stored (ops ++ [SSetSemantic ns q k v ttl now]) k' v') as Hst.
    { intros k' v' [Hv|[-> ->]]%ca_set_mono; [auto using stored_snoc|].
      exists ttl, now. right. exists ns, q. set_solver. }
    unfold SetSemantic, Semantic_Set. destruct (ca_Set _ _ _ _ _ _) as [ex w1]. simpl in Hst. destruct (_ || _).
    { split_and!; simpl; auto using indexed_snoc. }
    destruct (embed q _) as [w' [[|x vec]|]];
      [split_and!; simpl; auto using indexed_snoc| |split_and!; simpl; auto using indexed_snoc].
    split_and!; simpl; [done| |done|by apply evict_length].
    intros e Hin%evict_elem. apply elem_of_app in Hin as [Hin| ->%list_elem_of_singleton].
    + apply list_elem_of_filter in Hin as [_ Hin]. auto using indexed_snoc.
    + exists q, v, ttl, now. set_solver.
Qed.

Lemma sem_run_inv s w ops : sem_inv [] s -> sem_inv ops (sem_run s ops w).1.
Proof.
  intros Hi. unfold sem_run.
  apply (foldl_prefix_inv _ (fun ops (sw : Semantic * (X * W)) => sem_inv ops sw.1)); [done|].
  intros l op [s' w'] Hs. by apply sem_exec_inv.
Qed.

End semantic.

(** The empty in-memory cache as a law-abiding exact cache. *)
Definition empty_memory (maxSize : Z) : memory := NewMemory maxSize ↾ proj1 (NewMemory_wf maxSize).

(** An embedder with two directions: queries that start with "a", and others. *)
Definition ex_embed (q : string) (w : unit * unit) : (unit * unit) * result (list float64) unit :=
  (w, Ok (if HasPrefix q "a" then [f64_of_int 1; 0] else [0; f64_of_int 1])).

Definition ex_semantic : Semantic (C := memory) :=
  NewSemanticWithEmbedder (empty_memory 10) true (f64_const 9 10) 3 2 true.

Definition ex_sem_ops : list SemOp :=
  [SSetSemantic "ns1" "apple" "k1" "v1" 100 0; SSetSemantic "ns2" "avocado" "k2" "v2" 100 1].

(** C26. Semantic lookups never leave their namespace: over any exact cache
    that keeps the [Cache] contract, and after any operations, a lookup that
    answers returns a value that was stored under a key indexed in the same
    namespace by [SetSemantic], for an unexpired entry whose vector has the
    query's dimension and a cosine of at least the threshold; and the index
    never holds more than its maximal number of entries. *)
Theorem semantic_lookup_sound {C X W} `{!Cache C W, !CacheLaws C W}
    (embed : string -> X * W -> (X * W) * result (list float64) unit)
    (c : C) enabled threshold topK maxEntries has_embed ops w ns q now v :
  (forall k v, ~ ca_holds c k v) ->
  let s0 := NewSemanticWithEmbedder c enabled threshold topK maxEntries has_embed in
  let '(s, w1) := sem_run embed s0 ops w in
  (Lookup embed s ns q now w1).2 = Some v ->
  Z.of_nat (List.length (sm_entries s)) <= (if maxEntries <=? 0 then 1000 else maxEntries) /\
  exists vec w2 e,
    embed q w1 = (w2, Ok vec) /\ eligible_entry s ns vec now e /\
    indexed ops ns (se_key e) /\ stored ops (se_key e) v.
Proof.
  intros Hempty. cbv zeta. set (s0 := NewSemanticWithEmbedder _ _ _ _ _ _).
  assert (sem_inv [] s0) as Hi0.
  { split_and!; simpl; [by intros k v' ?%Hempty|by intros e ?%elem_of_nil|go_lia|go_lia]. }
  pose proof (sem_run_inv embed s0 w ops Hi0) as (Hh & He & _ & Hl).
  assert (forall ops s w, sm_maxEntries (sem_run embed s ops w).1 = sm_maxEntries s) as Hmax.
  { clear. intros ops. induction ops as [|op ops IH]; intros s w; [done|].
    unfold sem_run in *. simpl. destruct (sem_exec embed s op w) as [[s' w'] r] eqn:E.
    simpl. rewrite IH. destruct op as [k now|k v ttl now|k|ns q now|ns q k v ttl now]; simpl in E.
    - unfold Semantic_Get in E. destruct (ca_Get _ _ _ _) as [[? ?] ?]. by simplify_eq/=.
    - unfold Semantic_Set in E. destruct (ca_Set _ _ _ _ _ _). by simplify_eq/=.
    - unfold Semantic_Delete in E. destruct (ca_Delete _ _ _). by simplify_eq/=.
    - pose proof (Lookup_length embed s ns q now w) as [_ Hm]. by rewrite E in Hm.
    - unfold SetSemantic, Semantic_Set in E. repeat case_match; by simplify_eq/=. }
  rewrite Hmax in Hl. destruct (sem_run embed s0 ops w) as [s w1]. simpl in *.
  pose proof (Lookup_ok embed s ns q now w1) as Hok.
  destruct (Lookup embed s ns q now w1) as [[s' w'] r]. simpl in *. destruct Hok as (_ & _ & Hr).
  intros Hv. split; [exact Hl|]. destruct (Hr v Hv) as (vec & w2 & Hemb & e & Hel & Hho).
  exists vec, w2, e. split_and!; auto. destruct Hel as (Hin & <- & _). auto.
Qed.

Lemma semantic_lookup_sound_witness :
  let '(s, w1) := sem_run ex_embed ex_semantic ex_sem_ops (tt, tt) in
  (Lookup ex_embed s "ns1" "apricot" 5 w1).2 = Some "v1" /\
  Z.of_nat (List.length (sm_entries s)) <= 2 /\
  exists vec w2 e,
    ex_embed "apricot" w1 = (w2, Ok vec) /\ eligible_entry s "ns1" vec 5 e /\
    indexed ex_sem_ops "ns1" (se_key e) /\ stored ex_sem_ops (se_key e) "v1".
Proof.
  assert ((Lookup ex_embed (sem_run ex_embed ex_semantic ex_sem_ops (tt, tt)).1 "ns1" "apricot" 5
    (sem_run ex_embed ex_semantic ex_sem_ops (tt, tt)).2).2 = Some "v1") as Hv by (vm_compute; reflexivity).
  pose proof (semantic_lookup_sound ex_embed (empty_memory 10) true (f64_const 9 10) 3 2 true
    ex_sem_ops (tt, tt) "ns1" "apricot" 5 "v1") as Hs.
  change (NewSemanticWithEmbedder (empty_memory 10) true (f64_const 9 10) 3 2 true)
    with ex_semantic in Hs. cbv zeta in Hs.
  destruct (sem_run ex_embed ex_semantic ex_sem_ops (tt, tt)) as [s w1].
  split; [exact Hv|]. apply Hs; [|exact Hv].
  intros k v (e & Hin & _). by apply elem_of_nil in Hin.
Defined.
