(* ===== verification/CacheKeys.v ===== *)
(** * Cache keys: [internal/cache/key.go], [embedding_key.go]

    A key is the SHA-256, in hexadecimal, of the JSON of the request fields
    that shape a response, and of an identity before it.  The digest is a
    parameter; the theorems assume it does not collide on the values at
    hand. *)

From Stdlib Require Import Ascii String.
From S2P Require Import Prelude GoFloat GoStrings Types.
Open Scope string_scope.
Open Scope list_scope.
Open Scope Z_scope.

(** The members of a struct: [omitempty] drops those without a value. *)
Definition members (l : list (string * option json)) : list (string * json) :=
  omap (fun kv : string * option json => pair kv.1 <$> kv.2) l.
Definition nonempty_str (s : string) : option json := if str_eqb s "" then None else Some (JStr s).
Definition nonempty_list {A} (f : A -> json) (l : list A) : option json :=
  match l with [] => None | _ => Some (JArr (f <$> l)) end.

Definition jbool (b : bool) : json := JBool b.
Definition enc_Tool (t : Tool) : json :=
  JObj [("type", JStr (tool_Type t));
        ("function", JObj (members
           [("name", Some (JStr (tfn_Name (tool_Function t))));
            ("description", nonempty_str (tfn_Description (tool_Function t)));
            ("parameters", tfn_Parameters (tool_Function t))]))].
Definition enc_ResponseFormat (f : ResponseFormat) : json := JObj [("type", JStr (rf_Type f))].
Definition enc_StreamOptions (o : StreamOptions) : json :=
  JObj (if so_IncludeUsage o then [("include_usage", JBool true)] else []).
Definition enc_AudioRequest (a : AudioRequest) : json :=
  JObj [("voice", JStr (ar_Voice a)); ("format", JStr (ar_Format a))].

Definition enc_messages (l : list ChatMessage) : json :=
  match l with [] => JNull | _ => JArr (ChatMessage_MarshalJSON <$> l) end.

(** [json.Marshal(cacheKeyPayload{...})], members in the order of the struct;
    nil messages are null. *)
Definition cacheKeyPayload (req : ChatRequest) : json :=
  JObj (members [
    ("model", Some (JStr (req_Model req)));
    ("messages", Some (enc_messages (req_Messages req)));
    ("temperature", JFloat <$> req_Temperature req);
    ("max_tokens", JInt <$> req_MaxTokens req);
    ("max_completion_tokens", JInt <$> req_MaxCompletionTokens req);
    ("top_p", JFloat <$> req_TopP req);
    ("presence_penalty", JFloat <$> req_PresencePenalty req);
    ("frequency_penalty", JFloat <$> req_FrequencyPenalty req);
    ("logprobs", jbool <$> req_Logprobs req);
    ("top_logprobs", JInt <$> req_TopLogprobs req);
    ("seed", JInt <$> req_Seed req);
    ("tools", nonempty_list enc_Tool (req_Tools req));
    ("tool_choice", req_ToolChoice req);
    ("parallel_tool_calls", jbool <$> req_ParallelToolCalls req);
    ("response_format", enc_ResponseFormat <$> req_ResponseFormat req);
    ("stop", req_Stop req);
    ("n", JInt <$> req_N req);
    ("stream_options", enc_StreamOptions <$> req_StreamOptions req);
    ("user", nonempty_str (req_User req));
    ("service_tier", nonempty_str (req_ServiceTier req));
    ("reasoning_effort", nonempty_str (req_ReasoningEffort req));
    ("modalities", nonempty_list JStr (req_Modalities req));
    ("audio", enc_AudioRequest <$> req_Audio req)]).

Definition embeddingKeyPayload (req : EmbeddingRequest) : json :=
  JObj (members [
    ("model", Some (JStr (er_Model req))); ("input", Some (er_Input req));
    ("encoding_format", nonempty_str (er_EncodingFormat req));
    ("dimensions", JInt <$> er_Dimensions req);
    ("user", nonempty_str (er_User req))]).

Section keys.
(** The hexadecimal SHA-256 of a JSON text, and of a string. *)
Context (sha256_json : json -> string) (sha256 : string -> string).

Definition BuildKey (req : ChatRequest) : string := sha256_json (cacheKeyPayload req).

Definition BuildKeyForIdentity (req : ChatRequest) (identity : string) : string :=
  if str_eqb identity "" then BuildKey req
  else sha256 (identity +:+ ":" +:+ BuildKey req).

(** [scope.Messages = nil; scope.Stream = false] on a copy. *)
Definition scope_of (req : ChatRequest) : ChatRequest :=
  mkChatRequest (req_Model req) [] (req_Temperature req) (req_MaxTokens req)
    (req_MaxCompletionTokens req) (req_TopP req) (req_PresencePenalty req)
    (req_FrequencyPenalty req) (req_Logprobs req) (req_TopLogprobs req) (req_Seed req) false
    (req_StreamOptions req) (req_Tools req) (req_ToolChoice req) (req_ParallelToolCalls req)
    (req_ResponseFormat req) (req_Stop req) (req_N req) (req_User req) (req_ServiceTier req)
    (req_ReasoningEffort req) (req_Modalities req) (req_Audio req).

Definition BuildSemanticNamespace (req : ChatRequest) (identity : string) : string :=
  let base := BuildKey (scope_of req) in
  if str_eqb identity "" then base else sha256 (identity +:+ ":" +:+ base).

Definition BuildEmbeddingKey (req : EmbeddingRequest) : string := sha256_json (embeddingKeyPayload req).

Definition BuildEmbeddingKeyForIdentity (req : EmbeddingRequest) (identity : string) : string :=
  let base := BuildEmbeddingKey req in
  if str_eqb identity "" then base else sha256 (identity +:+ ":" +:+ base).

End keys.

(** [SemanticQuery]: roles, texts and image URLs, one line per message. *)
Definition part_query (p : ContentPart) : string :=
  match cp_ImageURL p with Some i => " image:" +:+ img_URL i | None => "" end.
Definition message_query (m : ChatMessage) : string :=
  msg_Role m +:+ ":" +:+ ChatMessage_Text m +:+
  String.concat "" (part_query <$> parts_of m) +:+ String "010"%char "".
Definition SemanticQuery (req : ChatRequest) : string :=
  String.concat "" (message_query <$> req_Messages req).

(** ** What a key determines *)

Section members.

Lemma members_keys l k v : (k, v) ∈ members l -> k ∈ l.*1.
Proof.
  unfold members. intros Hin. apply list_elem_of_omap in Hin as ([k' o] & Hin & He).
  destruct o; simplify_eq/=. apply list_elem_of_fmap. by exists (k, Some v).
Qed.

(** Structs with the same distinct member names have the same members only if
    all their values agree. *)
Lemma members_inj l l' :
  l.*1 = l'.*1 -> NoDup l.*1 -> members l = members l' -> l = l'.
Proof.
  revert l'. induction l as [|[k o] l IH]; intros [|[k' o'] l'] Hk Hn E; try done.
  csimpl in *. injection Hk as <- Hk. inversion Hn as [|? ? Hnin Hn']; subst.
  assert (forall ms v, members ms = (k, v) :: members l -> k ∉ ms.*1 -> False) as Hno.
  { intros ms v Hms Hnot. apply Hnot, (members_keys ms k v). rewrite Hms. set_solver. }
  assert (forall v, members l = (k, v) :: members l' -> False) as Hno1.
  { intros v Hms. apply Hnin, (members_keys l k v). rewrite Hms. set_solver. }
  assert (forall v, (k, v) :: members l = members l' -> False) as Hno2.
  { intros v Hms. apply Hnin. rewrite Hk. apply (members_keys l' k v). rewrite <-Hms. set_solver. }
  unfold members in E, Hno1, Hno2. simpl in E. destruct o as [v|], o' as [v'|]; simpl in E.
  - injection E as -> E. f_equal. by apply IH.
  - by apply Hno2 in E.
  - by apply Hno1 in E.
  - f_equal. by apply IH.
Qed.

Lemma nonempty_str_inj s s' : nonempty_str s = nonempty_str s' -> s = s'.
Proof. unfold nonempty_str, str_eqb. repeat case_bool_decide; congruence. Qed.

Lemma nonempty_list_inj {A} (f : A -> json) l l' :
  (forall x y, f x = f y -> x = y) -> nonempty_list f l = nonempty_list f l' -> l = l'.
Proof.
  intros Hf. destruct l, l'; try done. intros [= Hx Hl]. f_equal; [by apply Hf|].
  by apply (list_fmap_eq_inj _ Hf).
Qed.

Lemma option_fmap_inj' {A} (f : A -> json) (o o' : option A) :
  (forall x y, f x = f y -> x = y) -> f <$> o = f <$> o' -> o = o'.
Proof. intros Hf. destruct o, o'; simpl; intros [=]; f_equal; auto. Qed.

Lemma enc_Tool_inj t t' : enc_Tool t = enc_Tool t' -> t = t'.
Proof.
  destruct t as [ty [n d p]], t' as [ty' [n' d' p']]. unfold enc_Tool. cbn [tool_Type tool_Function tfn_Name tfn_Description tfn_Parameters].
  remember (members [("name", Some (JStr n)); ("description", nonempty_str d); ("parameters", p)]) as ms.
  remember (members [("name", Some (JStr n')); ("description", nonempty_str d'); ("parameters", p')]) as ms'.
  intros [= -> ->]. rewrite Heqms' in Heqms. symmetry in Heqms.
  apply members_inj in Heqms; [|done|by apply (bool_decide_unpack _)].
  injection Heqms as -> Hd ->. by apply nonempty_str_inj in Hd as ->.
Qed.

Lemma enc_simple_inj :
  (forall x y : bool, jbool x = jbool y -> x = y) /\ (forall x y, JInt x = JInt y -> x = y) /\
  (forall x y, JFloat x = JFloat y -> x = y) /\ (forall x y, JStr x = JStr y -> x = y) /\
  (forall x y, enc_ResponseFormat x = enc_ResponseFormat y -> x = y) /\
  (forall x y, enc_StreamOptions x = enc_StreamOptions y -> x = y) /\
  (forall x y, enc_AudioRequest x = enc_AudioRequest y -> x = y).
Proof.
  unfold jbool, enc_ResponseFormat, enc_StreamOptions, enc_AudioRequest. split_and!; try congruence.
  - by intros [x] [y] [= ->].
  - by intros [[]] [[]].
  - by intros [v f] [v' f'] [= -> ->].
Qed.

Lemma messages_inj l l' :
  Forall message_wf l -> Forall message_wf l' -> enc_messages l = enc_messages l' -> l = l'.
Proof.
  intros Hl Hl' E. unfold enc_messages in E.
  assert (ChatMessage_MarshalJSON <$> l = ChatMessage_MarshalJSON <$> l') as E'
    by (destruct l, l'; try done; by apply (f_equal (fun j => match j with JArr x => x | _ => [] end)) in E).
  apply (fmap_inj_Forall ChatMessage_MarshalJSON message_wf); try done.
  intros m m' Hm Hm' Em. pose proof (unmarshal_marshal m Hm) as Hd.
  rewrite Em, (unmarshal_marshal m' Hm') in Hd. congruence.
Qed.

End members.

(** Requests that agree on everything but the streaming flag. *)
Definition same_shape (r r' : ChatRequest) : Prop :=
  scope_of r = scope_of r' /\ req_Messages r = req_Messages r'.

Lemma payload_inj r r' :
  Forall message_wf (req_Messages r) -> Forall message_wf (req_Messages r') ->
  cacheKeyPayload r = cacheKeyPayload r' -> same_shape r r'.
Proof.
  intros Hw Hw' Hp. destruct enc_simple_inj as (I1 & I2 & I3 & I4 & I5 & I6 & I7).
  unfold cacheKeyPayload in Hp. apply (f_equal (fun j => match j with JObj ms => ms | _ => [] end)) in Hp.
  apply members_inj in Hp; [|done|by apply (bool_decide_unpack _)].
  destruct r, r'. unfold same_shape, scope_of. simpl in *.
  injection Hp. clear Hp. intros.
  repeat match goal with
    | E : nonempty_str _ = _ |- _ => apply nonempty_str_inj in E
    | E : nonempty_list _ _ = _ |- _ => apply nonempty_list_inj in E; [|by auto using enc_Tool_inj]
    | E : _ <$> _ = _ |- _ => apply option_fmap_inj' in E; [|by auto]
    | E : enc_messages _ = _ |- _ => apply messages_inj in E; [|done..]
    end.
  subst. done.
Qed.

(** No collisions among the JSON texts [ps] and the strings [xs], nor between
    the two; digests of JSON texts have one length. *)
Record digest_ok (sha256_json : json -> string) (sha256 : string -> string)
    (ps : list json) (xs : list string) : Prop := {
  dg_json : forall p p', p ∈ ps -> p' ∈ ps -> sha256_json p = sha256_json p' -> p = p';
  dg_str : forall x x', x ∈ xs -> x' ∈ xs -> sha256 x = sha256 x' -> x = x';
  dg_cross : forall p x, p ∈ ps -> x ∈ xs -> sha256_json p <> sha256 x;
  dg_length : forall p p', p ∈ ps -> p' ∈ ps ->
    String.length (sha256_json p) = String.length (sha256_json p');
}.

(** C27. The exact cache never crosses clients or request shapes: when the
    digest does not collide on the values involved, two requests have the
    same key only if they come from the same identity and agree on the model,
    the messages and every other field except [stream]. *)
Theorem cache_key_isolates sha256_json sha256 r r' identity identity' :
  digest_ok sha256_json sha256 [cacheKeyPayload r; cacheKeyPayload r']
    [identity +:+ ":" +:+ BuildKey sha256_json r; identity' +:+ ":" +:+ BuildKey sha256_json r'] ->
  Forall message_wf (req_Messages r) -> Forall message_wf (req_Messages r') ->
  BuildKeyForIdentity sha256_json sha256 r identity = BuildKeyForIdentity sha256_json sha256 r' identity' ->
  identity = identity' /\ same_shape r r'.
Proof.
  intros [Hj Hs Hc Hl] Hw Hw' E. unfold BuildKeyForIdentity, BuildKey, str_eqb in *.
  assert (sha256_json (cacheKeyPayload r) = sha256_json (cacheKeyPayload r') -> same_shape r r') as Hb.
  { intros Hk. apply payload_inj; try done. apply Hj; set_solver. }
  repeat case_bool_decide; subst.
  - auto.
  - exfalso. eapply Hc; [| |exact E]; set_solver.
  - exfalso. eapply Hc; [| |symmetry; exact E]; set_solver.
  - apply Hs in E; [|set_solver..].
    apply string_app_inj_tail in E as [-> E].
    + apply string_app_inj_tail in E as [_ E]; [auto|]. apply Hl; set_solver.
    + rewrite !string_length_app. f_equal. apply Hl; set_solver.
Qed.

(** Digests good enough for two requests: the model's name, and a tag. *)
Definition ex_request (model : string) : ChatRequest :=
  mkChatRequest model [text_message "user" "hi"] None (Some 5) None None None None None None None
    false None [] None None None None None "" "" "" [] None.
Definition ex_sha_json (j : json) : string :=
  match j with JObj ((_, JStr m) :: _) => m | _ => "" end.
Definition ex_sha (s : string) : string := "#" +:+ s.

Lemma cache_key_isolates_witness :
  BuildKeyForIdentity ex_sha_json ex_sha (ex_request "m") "t1" =
    BuildKeyForIdentity ex_sha_json ex_sha (ex_request "m") "t1" /\
  "t1" = "t1" /\ same_shape (ex_request "m") (ex_request "m").
Proof.
  split; [reflexivity|].
  apply (cache_key_isolates ex_sha_json ex_sha (ex_request "m") (ex_request "m") "t1" "t1"); [|..|reflexivity].
  - split; intros x y Hx Hy; repeat (apply elem_of_cons in Hx as [->|Hx]); try by apply elem_of_nil in Hx.
    all: repeat (apply elem_of_cons in Hy as [->|Hy]); try by apply elem_of_nil in Hy.
    all: done.
  - constructor; [split; [by right|by intros]|constructor].
  - constructor; [split; [by right|by intros]|constructor].
Defined.
