(* ===== verification/Auth.v ===== *)
(** * Authentication: [internal/auth]

    API keys are stored under their SHA-256 ([hashKey], a parameter); the
    middleware turns a request into a call of the next handler, a 401 or a
    403. *)

From Stdlib Require Import Ascii String.
From S2P Require Import Prelude GoStrings.
Open Scope string_scope.
Open Scope list_scope.
Open Scope Z_scope.

(** [config.APIKeyConfig]. *)
Record APIKeyConfig := mkAPIKeyConfig {
  ak_Key : string;
  ak_Tenant : string;
  ak_Scopes : list string;
  ak_ExpiresAt : option Z;
}.

Record Key := mkKey {
  k_Tenant : string;
  k_Scopes : list string;
  k_ExpiresAt : option Z;
  k_hash : string;
}.

(** A key left as an unexpanded environment variable, or empty. *)
Definition key_ignored (key : string) : bool :=
  str_eqb key "" || ((3 <? go_len key) && HasPrefix key "${").

Definition HasScope (k : Key) (scope : string) : bool :=
  match k_Scopes k with
  | [] => true
  | scopes => existsb (fun s => str_eqb s scope || str_eqb s "*") scopes
  end.

(** [strings.SplitN(s, " ", 2)]: the text before and after the first space. *)
Fixpoint split_space (s : list ascii) : option (list ascii * list ascii) :=
  match s with
  | [] => None
  | c :: s =>
      if bool_decide (c = " "%char) then Some ([], s)
      else match split_space s with
           | Some (a, b) => Some (c :: a, b)
           | None => None
           end
  end.
Definition SplitN2 (s : string) : option (string * string) :=
  match split_space (bytes s) with
  | Some (a, b) => Some (string_of_list_ascii a, string_of_list_ascii b)
  | None => None
  end.

Record HttpRequest := mkHttpRequest {
  hr_Method : string;
  hr_Path : string;
  hr_Authorization : string;
  hr_TenantID : string;              (** the [X-Tenant-ID] header *)
  hr_ctxTenant : option string;      (** [tenantKey] of the context *)
  hr_ctxScopes : option (list string);
}.

Definition requiredScope (r : HttpRequest) : string :=
  if str_eqb (hr_Method r) "GET" && str_eqb (hr_Path r) "/v1/models" then "models:read"
  else if str_eqb (hr_Method r) "POST" && str_eqb (hr_Path r) "/v1/chat/completions" then "chat:write"
  else if str_eqb (hr_Method r) "POST" && str_eqb (hr_Path r) "/v1/embeddings" then "embeddings:write"
  else "".

Definition TenantFromContext (r : HttpRequest) : string := default "" (hr_ctxTenant r).
Definition ScopesFromContext (r : HttpRequest) : list string := default [] (hr_ctxScopes r).

(** What the middleware does with a request: pass it on, possibly changed,
    or answer with an error. *)
Inductive auth_outcome :=
| Pass (r : HttpRequest)
| AuthError (msg : string)       (** 401, [invalid_api_key] *)
| ScopeError (scope : string).   (** 403, [insufficient_scope] *)

Section auth.
Context (hashKey : string -> string).

Abbreviation AuthStore := (gmap string Key).

Definition key_of (c : APIKeyConfig) : Key :=
  mkKey (ak_Tenant c) (ak_Scopes c) (ak_ExpiresAt c) (hashKey (ak_Key c)).

Definition Store_Reload (keys : list APIKeyConfig) : AuthStore :=
  foldl (fun m c => if key_ignored (ak_Key c) then m else <[hashKey (ak_Key c) := key_of c]> m) ∅ keys.

Definition NewStore (keys : list APIKeyConfig) : AuthStore := Store_Reload keys.

Definition expired (k : Key) (now : Z) : bool :=
  match k_ExpiresAt k with Some t => t <? now | None => false end.

Definition Authenticate (s : AuthStore) (rawKey : string) (now : Z) : option Key :=
  let h := hashKey rawKey in
  match s !! h with
  | None => None
  | Some k =>
      if expired k now then None
      else if negb (str_eqb h (k_hash k)) then None
      else Some k
  end.

Definition Middleware (s : AuthStore) (r : HttpRequest) (now : Z) : auth_outcome :=
  if HasPrefix (hr_Path r) "/health" || str_eqb (hr_Path r) "/metrics" then Pass r
  else if negb (HasPrefix (hr_Path r) "/v1/") then Pass r
  else if str_eqb (hr_Authorization r) "" then AuthError "missing Authorization header"
  else
    match SplitN2 (hr_Authorization r) with
    | None => AuthError "Authorization must be Bearer <token>"
    | Some (scheme, rest) =>
        if negb (EqualFold scheme "Bearer") then AuthError "Authorization must be Bearer <token>"
        else
          match Authenticate s (TrimSpace rest) now with
          | None => AuthError "invalid or expired API key"
          | Some key =>
              let scope := requiredScope r in
              if negb (str_eqb scope "") && negb (HasScope key scope) then ScopeError scope
              else
                Pass (mkHttpRequest (hr_Method r) (hr_Path r) (hr_Authorization r) (k_Tenant key)
                        (Some (k_Tenant key)) (Some (k_Scopes key)))
          end
    end.

(** ** The store *)

(** The configuration of a key: the last one in the list that is usable. *)
Definition configured (keys : list APIKeyConfig) (h : string) : option APIKeyConfig :=
  list.last (filter (fun c => key_ignored (ak_Key c) = false /\ hashKey (ak_Key c) = h) keys).

Lemma Reload_lookup keys h : Store_Reload keys !! h = key_of <$> configured keys h.
Proof.
  unfold Store_Reload, configured.
  apply (foldl_prefix_inv _ (fun ks m => m !! h = key_of <$> list.last (filter _ ks))); [done|].
  intros l c m IH. rewrite list.filter_app. destruct (key_ignored (ak_Key c)) eqn:Hi.
  - rewrite (filter_cons_False _ c) by (intros [? _]; congruence). by rewrite filter_nil, app_nil_r.
  - destruct (decide (hashKey (ak_Key c) = h)) as [<-|Hne].
    + rewrite (filter_cons_True _ c) by done. by rewrite filter_nil, list.last_snoc, lookup_insert_eq.
    + rewrite (filter_cons_False _ c) by (intros [_ ?]; congruence).
      by rewrite filter_nil, app_nil_r, lookup_insert_ne.
Qed.

Lemma Authenticate_eq keys raw now k :
  Authenticate (Store_Reload keys) raw now = Some k <->
  exists c, configured keys (hashKey raw) = Some c /\ k = key_of c /\ expired k now = false.
Proof.
  unfold Authenticate. rewrite Reload_lookup.
  destruct (configured keys (hashKey raw)) as [c|] eqn:Hc; simpl;
    [|split; [done|by intros (c & ? & _)]].
  assert (str_eqb (hashKey raw) (hashKey (ak_Key c)) = true) as ->.
  { apply str_eqb_true. unfold configured in Hc. apply list.last_Some_elem_of in Hc.
    apply list_elem_of_filter in Hc as [[_ ?] _]. done. }
  destruct (expired (key_of c) now) eqn:He; simpl; split.
  - done.
  - intros (c' & [= <-] & -> & ?). congruence.
  - intros [= <-]. eauto.
  - by intros (c' & [= <-] & -> & _).
Qed.

End auth.

(** ** Theorems *)

Definition ex_keys : list APIKeyConfig :=
  [mkAPIKeyConfig "sk-1" "acme" ["chat:write"] None; mkAPIKeyConfig "${KEY}" "ghost" [] None;
   mkAPIKeyConfig "sk-2" "globex" [] (Some 100); mkAPIKeyConfig "sk-1" "acme2" ["models:read"] None].

(** A key authenticates exactly if it is configured: when the digest does
    not collide with the presented key, [Authenticate] answers with the last
    usable configuration of that key (its tenant, scopes and expiry), and
    only before it expires; placeholders of unset variables never do. *)
Theorem Authenticate_configured hashKey keys raw now k :
  (forall c, c ∈ keys -> hashKey (ak_Key c) = hashKey raw -> ak_Key c = raw) ->
  Authenticate hashKey (Store_Reload hashKey keys) raw now = Some k <->
  exists c, list.last (filter (fun c => ak_Key c = raw) keys) = Some c /\
    key_ignored raw = false /\ k = key_of hashKey c /\ expired k now = false.
Proof.
  intros Hinj. rewrite Authenticate_eq.
  assert (configured hashKey keys (hashKey raw) =
    if key_ignored raw then None else list.last (filter (fun c => ak_Key c = raw) keys)) as ->.
  { unfold configured. destruct (key_ignored raw) eqn:Hi.
    - by rewrite filter_none by (intros c Hin [Hc Hh%Hinj]; [congruence|done]).
    - f_equal. apply filter_ext_in. intros c Hin. split; [intros [_ Hh]; by apply Hinj|].
      intros <-. auto. }
  destruct (key_ignored raw); [split; [by intros (? & ? & _)|by intros (? & _ & ? & _)]|].
  split; [intros (c & ? & ? & ?)|intros (c & ? & _ & ? & ?)]; eauto.
Qed.

Lemma Authenticate_configured_witness :
  Authenticate id (Store_Reload id ex_keys) "sk-1" 0 = Some (mkKey "acme2" ["models:read"] None "sk-1") <->
  exists c, list.last (filter (fun c => ak_Key c = "sk-1") ex_keys) = Some c /\
    key_ignored "sk-1" = false /\ mkKey "acme2" ["models:read"] None "sk-1" = key_of id c /\
    expired (mkKey "acme2" ["models:read"] None "sk-1") 0 = false.
Proof. apply (Authenticate_configured id ex_keys "sk-1" 0). by intros c _ ?. Defined.

(** C28. No unauthenticated request reaches a [/v1/] handler: if the
    middleware passes one on, its header holds a bearer token that
    authenticates, the key has the scope its route requires, and the tenant
    seen downstream, in the context and in the header, is the key's, whatever
    tenant the client claimed. *)
Theorem Middleware_guards hashKey s r now r' :
  HasPrefix (hr_Path r) "/v1/" = true -> Middleware hashKey s r now = Pass r' ->
  exists scheme rest k,
    SplitN2 (hr_Authorization r) = Some (scheme, rest) /\ EqualFold scheme "Bearer" = true /\
    Authenticate hashKey s (TrimSpace rest) now = Some k /\
    (requiredScope r = "" \/ HasScope k (requiredScope r) = true) /\
    TenantFromContext r' = k_Tenant k /\ hr_TenantID r' = k_Tenant k /\
    ScopesFromContext r' = k_Scopes k /\
    hr_Method r' = hr_Method r /\ hr_Path r' = hr_Path r.
Proof.
  intros Hp. unfold Middleware. rewrite Hp.
  assert (HasPrefix (hr_Path r) "/health" || str_eqb (hr_Path r) "/metrics" = false) as ->.
  { unfold HasPrefix in *. destruct (bytes (hr_Path r)) as [|a [|b l]] eqn:E; try done.
    - by apply andb_true_iff in Hp as [_ ?].
    - simpl in Hp. rewrite !andb_true_iff, !bool_decide_eq_true in Hp. destruct Hp as (<- & <- & _).
      simpl. unfold str_eqb. rewrite bool_decide_eq_false_2; [done|]. intros Hm.
      by rewrite Hm in E. }
  simpl. destruct (str_eqb (hr_Authorization r) ""); [done|].
  destruct (SplitN2 _) as [[scheme rest]|] eqn:Hs; [|done].
  destruct (EqualFold scheme "Bearer") eqn:Hb; simpl; [|done].
  destruct (Authenticate _ _ _ _) as [k|] eqn:Hk; [|done].
  destruct (negb (str_eqb (requiredScope r) "") && negb (HasScope k (requiredScope r))) eqn:Hsc; [done|].
  intros [= <-]. exists scheme, rest, k. split_and!; try done.
  rewrite andb_false_iff, !negb_false_iff, str_eqb_true in Hsc. tauto.
Qed.

Definition ex_chat_request : HttpRequest :=
  mkHttpRequest "POST" "/v1/chat/completions" "Bearer sk-2" "evil" None None.

Lemma Middleware_guards_witness :
  exists scheme rest k,
    SplitN2 "Bearer sk-2" = Some (scheme, rest) /\ EqualFold scheme "Bearer" = true /\
    Authenticate id (Store_Reload id ex_keys) (TrimSpace rest) 7 = Some k /\
    (requiredScope ex_chat_request = "" \/ HasScope k (requiredScope ex_chat_request) = true) /\
    "globex" = k_Tenant k /\ "globex" = k_Tenant k /\ [] = k_Scopes k /\
    "POST" = "POST" /\ "/v1/chat/completions" = "/v1/chat/completions".
Proof.
  apply (Middleware_guards id (Store_Reload id ex_keys) ex_chat_request 7
    (mkHttpRequest "POST" "/v1/chat/completions" "Bearer sk-2" "globex" (Some "globex") (Some [])));
    vm_compute; reflexivity.
Defined.

(** A key without the scope of the route is refused with that scope. *)
Example scope_refused :
  Middleware id (Store_Reload id ex_keys)
    (mkHttpRequest "POST" "/v1/chat/completions" "bearer  sk-1" "" None None) 0 =
  ScopeError "chat:write".
Proof. vm_compute. reflexivity. Qed.
