(* ===== verification/Router.v ===== *)
(** * Model routing: [internal/proxy/router.go]

    The registry resolves a model name to a provider: by weights for an exact
    name, by exact name, by weights for a pattern, by pattern.  A provider is
    a value of a type [P] with a name and a list of models.  Patterns that
    look like regular expressions are compiled by [regexp.Compile], a
    parameter; globs are translated to regular expressions whose matching is
    spelled out here.  A random draw threads the state of the generator. *)

From Stdlib Require Import Ascii String.
From stdpp Require Import sorting.
From S2P Require Import Prelude GoFloat GoStrings Types.
Open Scope string_scope.
Open Scope list_scope.
Open Scope Z_scope.

(** ** Patterns *)

Definition looksLikeRegex (s : string) : bool :=
  Contains s ".*" || Contains s "^" || Contains s "$" || Contains s "(" || Contains s "|".

Definition isPattern (s : string) : bool :=
  Contains s "*" || Contains s "?" || Contains s "[" || looksLikeRegex s.

Definition newline : ascii := "010"%char.

(** The regular expression [^...$] built from a quoted glob, on runes: a star is
    [.*], a question mark is [.], anything else is itself; a dot matches no
    newline. *)
Fixpoint glob_regexp (p : list Z) : list Z -> bool :=
  match p with
  | [] => fun s => match s with [] => true | _ => false end
  | c :: p =>
      if c =? byte_val "*" then
        fix star (s : list Z) : bool :=
          glob_regexp p s ||
          match s with
          | [] => false
          | x :: s => negb (x =? byte_val newline) && star s
          end
      else if c =? byte_val "?" then
        fun s => match s with
                 | [] => false
                 | x :: s => negb (x =? byte_val newline) && glob_regexp p s
                 end
      else
        fun s => match s with
                 | [] => false
                 | x :: s => (c =? x) && glob_regexp p s
                 end
  end.

Definition regexp : Type := string -> bool.

Record WeightedConfig := mkWeightedConfig { wc_Provider : string; wc_Name : string; wc_Weight : Z }.

Definition ProviderName (w : WeightedConfig) : string :=
  if negb (str_eqb (wc_Provider w) "") then wc_Provider w else wc_Name w.

Section router.
Context {P : Type} (Name : P -> string) (Models : P -> list string).
(** [regexp.Compile]; [None] is an error. *)
Context (regexp_Compile : string -> option regexp).
(** [rand.New(rand.NewSource(seed))], and [rnd.Intn(n)] for [n > 0]. *)
Context {Rng : Type} (NewSource : Z -> Rng) (Intn : Rng -> Z -> Rng * Z).

Definition compilePattern (pattern : string) : option regexp * bool :=
  (* [regexp.Compile] refuses what is not UTF-8 *)
  let glob := if ValidString pattern then Some (fun model => glob_regexp (runes pattern) (runes model)) else None in
  if looksLikeRegex pattern then
    match regexp_Compile pattern with
    | Some re => (Some re, true)
    | None => (glob, false)
    end
  else (glob, false).

Record patternEntry := mkPatternEntry {
  pe_provider : P;
  pe_pattern : string;
  pe_regex : option regexp;
  pe_isRegex : bool;
}.

Record weightedEntry := mkWeightedEntry { we_provider : P; we_weight : Z }.

Record Registry := mkRegistry {
  rg_byName : gmap string P;
  rg_byModel : gmap string P;
  rg_order : list P;
  rg_aliases : gmap string (list string);
  rg_weighted : gmap string (list weightedEntry);
  rg_patterns : list patternEntry;
  rg_rnd : Rng;
}.

(** The inner loop of [NewRegistryWithWeighted]. *)
Definition add_model (p : P) (r : Registry) (model : string) : Registry :=
  if isPattern model then
    let '(re, isRegex) := compilePattern model in
    mkRegistry (rg_byName r) (rg_byModel r) (rg_order r) (rg_aliases r) (rg_weighted r)
      (rg_patterns r ++ [mkPatternEntry p model re isRegex]) (rg_rnd r)
  else
    mkRegistry (rg_byName r) (<[model := p]> (rg_byModel r)) (rg_order r) (rg_aliases r)
      (rg_weighted r) (rg_patterns r) (rg_rnd r).

Definition add_provider (r : Registry) (p : P) : Registry :=
  foldl (add_model p)
    (mkRegistry (<[Name p := p]> (rg_byName r)) (rg_byModel r) (rg_order r ++ [p]) (rg_aliases r)
       (rg_weighted r) (rg_patterns r) (rg_rnd r)) (Models p).

(** The weighted entries of one model whose providers are registered. *)
Definition weighted_entries (byName : gmap string P) (entries : list WeightedConfig)
    : list weightedEntry :=
  foldl (fun we e =>
    match byName !! ProviderName e with
    | Some prov => we ++ [mkWeightedEntry prov (wc_Weight e)]
    | None => we
    end) [] entries.

Definition NewRegistryWithWeighted (providers : list P) (aliases : gmap string (list string))
    (weighted : gmap string (list WeightedConfig)) : Registry :=
  let r := foldl add_provider (mkRegistry ∅ ∅ [] aliases ∅ [] (NewSource 42)) providers in
  let w := omap (fun entries => match weighted_entries (rg_byName r) entries with
                                | [] => None
                                | we => Some we
                                end) weighted in
  mkRegistry (rg_byName r) (rg_byModel r) (rg_order r) (rg_aliases r) w (rg_patterns r) (rg_rnd r).

Definition NewRegistryWithAliases (providers : list P) (aliases : gmap string (list string)) : Registry :=
  NewRegistryWithWeighted providers aliases ∅.

Definition NewRegistry (providers : list P) : Registry := NewRegistryWithAliases providers ∅.

Definition with_rnd (r : Registry) (rnd : Rng) : Registry :=
  mkRegistry (rg_byName r) (rg_byModel r) (rg_order r) (rg_aliases r) (rg_weighted r)
    (rg_patterns r) rnd.

Definition SetRandSeed (r : Registry) (seed : Z) : Registry := with_rnd r (NewSource seed).

Definition matchesPattern (entry : patternEntry) (model : string) : bool :=
  match pe_regex entry with
  | Some re => re model
  | None => path_matches (pe_pattern entry) model
  end.

(** ** Weighted choice *)

Definition total_weight (entries : list weightedEntry) : Z :=
  foldl (fun total e => iadd total (we_weight e)) 0 entries.

(** The index of the first entry whose accumulated weight exceeds [n], the
    last one by default. *)
Fixpoint pick_index (n acc : Z) (entries : list weightedEntry) : nat :=
  match entries with
  | [] | [_] => 0
  | e :: entries =>
      let acc := iadd acc (we_weight e) in
      if n <? acc then 0 else S (pick_index n acc entries)
  end.

(** Errors: [ErrNoProvider], or the panic of [Intn] on a negative total. *)
Inductive resolve_error := ErrNoProvider (model : string) | RoutePanic.

Definition entry_provider (entries : list weightedEntry) (i : nat) : result P resolve_error :=
  match entries !! i with Some e => Ok (we_provider e) | None => Err RoutePanic end.

Definition pickWeighted (rnd : Rng) (entries : list weightedEntry) : Rng * result P resolve_error :=
  let total := total_weight entries in
  if total =? 0 then (rnd, entry_provider entries 0)
  else if total <? 0 then (rnd, Err RoutePanic)
  else let '(rnd, n) := Intn rnd total in (rnd, entry_provider entries (pick_index n 0 entries)).

(** ** Resolution *)

(** More specific patterns first: longer ones, then in lexical order. *)
Definition key_less (a b : string) : bool :=
  if negb (Nat.eqb (String.length a) (String.length b))
  then Nat.ltb (String.length b) (String.length a)
  else String.ltb a b.

(** [for key := range r.weighted] in some order [ks], keeping the patterns. *)
Definition weighted_keys (ks : list string) : list string :=
  stable_sort key_less (filter (fun k => isPattern k = true) ks).

Definition key_matches (key model : string) : bool :=
  match (compilePattern key).1 with
  | Some re => re model || path_matches key model
  | None => path_matches key model
  end.

Definition Resolve (r : Registry) (model : string) : Registry * result P resolve_error :=
  let pick entries := let '(rnd, p) := pickWeighted (rg_rnd r) entries in (with_rnd r rnd, p) in
  match rg_weighted r !! model with
  | Some ((_ :: _) as we) => pick we
  | _ =>
      match rg_byModel r !! model with
      | Some p => (r, Ok p)
      | None =>
          let keys := weighted_keys ((map_to_list (rg_weighted r)).*1) in
          match list_find (fun k => key_matches k model = true) keys with
          | Some (_, key) => pick (default [] (rg_weighted r !! key))
          | None =>
              let candidates :=
                foldl (fun cs pe => if matchesPattern pe model then cs ++ [pe_provider pe] else cs)
                  [] (rg_patterns r) in
              match candidates with
              | [] => (r, Err (ErrNoProvider model))
              | [p] => (r, Ok p)
              | _ =>
                  let '(rnd, idx) := Intn (rg_rnd r) (Z.of_nat (List.length candidates)) in
                  (with_rnd r rnd,
                   match candidates !! Z.to_nat idx with Some p => Ok p | None => Err RoutePanic end)
              end
          end
      end
  end.

Definition Registry_Get (r : Registry) (name : string) : option P := rg_byName r !! name.
Definition Registry_All (r : Registry) : list P := rg_order r.
Definition Registry_Aliases (r : Registry) (model : string) : list string :=
  default [] (rg_aliases r !! model).

Definition Registry_Reload (r : Registry) (providers : list P) (aliases : gmap string (list string))
    (weighted : gmap string (list WeightedConfig)) : Registry :=
  with_rnd (NewRegistryWithWeighted providers aliases weighted) (rg_rnd r).

Definition UpdateAliases (r : Registry) (aliases : gmap string (list string)) : Registry :=
  mkRegistry (rg_byName r) (rg_byModel r) (rg_order r) aliases (rg_weighted r) (rg_patterns r)
    (rg_rnd r).

(** ** Aliases *)

Definition matchesModelPattern (pattern model : string) : bool :=
  if str_eqb pattern model then true
  else if isPattern pattern then
    match (compilePattern pattern).1 with
    | Some re => if re model then true else path_matches pattern model
    | None => path_matches pattern model
    end
  else false.

Definition alias_owned (fallback : P) (t : string) : bool :=
  existsb (fun m => str_eqb m t || matchesModelPattern m t || matchesModelPattern t m) (Models fallback).

Definition with_model (req : ChatRequest) (model : string) : ChatRequest :=
  mkChatRequest model (req_Messages req) (req_Temperature req) (req_MaxTokens req)
    (req_MaxCompletionTokens req) (req_TopP req) (req_PresencePenalty req)
    (req_FrequencyPenalty req) (req_Logprobs req) (req_TopLogprobs req) (req_Seed req)
    (req_Stream req) (req_StreamOptions req) (req_Tools req) (req_ToolChoice req)
    (req_ParallelToolCalls req) (req_ResponseFormat req) (req_Stop req) (req_N req) (req_User req)
    (req_ServiceTier req) (req_ReasoningEffort req) (req_Modalities req) (req_Audio req).

Definition RemapForFallback (r : Registry) (req : ChatRequest) (fallback : P) : ChatRequest :=
  match default [] (rg_aliases r !! req_Model req) with
  | [] => req
  | targets =>
      match list_find (fun t => alias_owned fallback t = true) targets with
      | Some (_, t) => with_model req t
      | None =>
          match Models fallback with
          | m :: _ => with_model req m
          | [] => req
          end
      end
  end.

End router.

(** ** The order of weighted patterns *)

Lemma key_less_asym a b : key_less a b = true -> key_less b a = false.
Proof.
  unfold key_less. rewrite (Nat.eqb_sym (String.length b)).
  destruct (Nat.eqb _ _) eqn:E; simpl; [apply string_ltb_asym|].
  rewrite !Nat.ltb_lt, Nat.ltb_ge. lia.
Qed.

Lemma key_less_trans a b c : key_less a b = true -> key_less b c = true -> key_less a c = true.
Proof.
  unfold key_less.
  destruct (Nat.eqb (String.length a) (String.length b)) eqn:E1,
    (Nat.eqb (String.length b) (String.length c)) eqn:E2,
    (Nat.eqb (String.length a) (String.length c)) eqn:E3; simpl;
    rewrite ?Nat.eqb_eq, ?Nat.eqb_neq in *; rewrite ?Nat.ltb_lt; try lia; apply string_ltb_trans.
Qed.

Lemma key_less_total a b : a <> b -> key_less a b = true \/ key_less b a = true.
Proof.
  intros Hne. unfold key_less. rewrite (Nat.eqb_sym (String.length b)).
  destruct (Nat.eqb _ _) eqn:E; simpl; [by apply string_ltb_total|].
  rewrite Nat.eqb_neq in E. rewrite !Nat.ltb_lt. lia.
Qed.

#[export] Instance key_order_trans : Transitive (not_less key_less).
Proof.
  intros a b c Hab Hbc. unfold not_less in *.
  destruct (key_less c a) eqn:E; [|done]. exfalso.
  destruct (decide (a = b)) as [->|Hne]; [congruence|].
  destruct (key_less_total a b Hne) as [H|H]; [|congruence].
  by rewrite (key_less_trans c a b E H) in Hbc.
Qed.

#[export] Instance key_order_antisym : AntiSymm (=) (not_less key_less).
Proof.
  intros a b Hab Hba. unfold not_less in *. destruct (decide (a = b)) as [|Hne]; [done|].
  destruct (key_less_total a b Hne); congruence.
Qed.

(** The order in which Go's map iteration yields the keys does not matter. *)
Lemma weighted_keys_perm ks ks' : ks ≡ₚ ks' -> weighted_keys ks = weighted_keys ks'.
Proof.
  intros Hp. unfold weighted_keys. apply (Sorted_unique (not_less key_less)).
  - apply stable_sort_sorted, key_less_asym.
  - apply stable_sort_sorted, key_less_asym.
  - rewrite <-!stable_sort_perm. by apply filter_Permutation.
Qed.

(** ** Weighted choice is proportional *)
Section pick.
Context {P : Type}.
Implicit Types es : list (weightedEntry (P := P)).

Definition weight_sum es : Z := sum_with we_weight es.
Definition weights_ok es : Prop :=
  Forall (fun e => 0 <= we_weight e) es /\ weight_sum es <= max_int64.

Lemma total_weight_acc acc es :
  Forall (fun e => 0 <= we_weight e) es -> 0 <= acc -> acc + weight_sum es <= max_int64 ->
  foldl (fun total e => iadd total (we_weight e)) acc es = acc + weight_sum es.
Proof.
  intros Hf. revert acc. induction Hf as [|e es He Hf IH]; intros acc Ha Hs; unfold weight_sum in *; simpl in *; [lia|].
  pose proof (sum_with_nonneg we_weight es Hf).
  rewrite iadd_id by (unfold int64_range, min_int64, max_int64 in *; lia).
  rewrite IH by lia. lia.
Qed.

Lemma total_weight_sum es : weights_ok es -> total_weight es = weight_sum es.
Proof. intros [Hf Hs]. unfold total_weight. by rewrite total_weight_acc by (done || lia). Qed.

Lemma pick_index_interval n acc es i :
  Forall (fun e => 0 <= we_weight e) es -> 0 <= acc -> acc + weight_sum es <= max_int64 ->
  acc <= n < acc + weight_sum es -> (i < List.length es)%nat ->
  pick_index n acc es = i <->
  acc + weight_sum (take i es) <= n < acc + weight_sum (take (S i) es).
Proof.
  intros Hf. revert acc i. induction Hf as [|e es He Hf IH]; intros acc i Ha Hs Hn Hi; [simpl in Hi; lia|].
  unfold weight_sum in *. pose proof (sum_with_nonneg we_weight es Hf) as Hes.
  assert (forall j, 0 <= sum_with we_weight (take j es)) as Htk.
  { intros j. apply sum_with_nonneg. by apply Forall_take. }
  assert (iadd acc (we_weight e) = acc + we_weight e) as Hadd.
  { apply iadd_id. simpl in Hs. unfold int64_range, min_int64, max_int64 in *. lia. }
  destruct es as [|e' es]; [destruct i; [simpl in *; lia|simpl in Hi; lia]|].
  change (pick_index n acc (e :: e' :: es)) with
    (if n <? iadd acc (we_weight e) then 0%nat else S (pick_index n (iadd acc (we_weight e)) (e' :: es))).
  rewrite Hadd. destruct i as [|i].
  - simpl (take 0 _). simpl (take 1 _). simpl (sum_with _ _). simpl in Hn.
    destruct (n <? acc + we_weight e) eqn:E; split; intros; try done; lia.
  - change (take (S i) (e :: e' :: es)) with (e :: take i (e' :: es)).
    change (take (S (S i)) (e :: e' :: es)) with (e :: take (S i) (e' :: es)).
    simpl (sum_with _ (e :: _)). specialize (Htk i).
    change (sum_with we_weight (e :: e' :: es)) with (we_weight e + sum_with we_weight (e' :: es)) in *.
    destruct (n <? acc + we_weight e) eqn:E; [split; [done|lia]|].
    specialize (IH (acc + we_weight e) i ltac:(lia) ltac:(lia) ltac:(lia) ltac:(simpl in *; lia)).
    change (take (S i) (e' :: es)) with (e' :: take i es) in IH.
    simpl (sum_with _ (e' :: _)) in IH.
    split; [intros [= H]; apply IH in H; lia|intros H; f_equal; apply IH; lia].
Qed.


Lemma weight_sum_take_mono es i j :
  Forall (fun e => 0 <= we_weight e) es -> (i <= j)%nat ->
  weight_sum (take i es) <= weight_sum (take j es).
Proof.
  intros Hf Hij. unfold weight_sum.
  replace (take i es) with (take i (take j es)) by (rewrite take_take; f_equal; lia).
  rewrite <-(take_drop i (take j es)) at 2. rewrite sum_with_app.
  pose proof (sum_with_nonneg we_weight (drop i (take j es))
    ltac:(by apply Forall_drop, Forall_take)). lia.
Qed.

(** Every draw lands in the interval of exactly one entry. *)
Lemma pick_index_lt n acc es : es <> [] -> (pick_index n acc es < List.length es)%nat.
Proof.
  revert acc. induction es as [|e es IH]; intros acc Hne; [done|].
  destruct es as [|e' es]; [simpl; lia|].
  change (pick_index n acc (e :: e' :: es)) with
    (if n <? iadd acc (we_weight e) then 0%nat else S (pick_index n (iadd acc (we_weight e)) (e' :: es))).
  destruct (n <? _); [simpl; lia|]. specialize (IH (iadd acc (we_weight e)) ltac:(done)). simpl in *. lia.
Qed.

Context {Rng : Type} (Intn : Rng -> Z -> Rng * Z).

(** [Intn] draws from [[0, n)]. *)
Definition intn_ok : Prop := forall rnd n, 0 < n -> 0 <= (Intn rnd n).2 < n.

Lemma pickWeighted_entry rnd es :
  intn_ok -> weights_ok es -> es <> [] ->
  exists i e, es !! i = Some e /\
    (pickWeighted Intn rnd es).2 = Ok (we_provider e) /\
    (0 < weight_sum es ->
     weight_sum (take i es) <= (Intn rnd (weight_sum es)).2 < weight_sum (take (S i) es)).
Proof.
  intros Hr Hok Hne. unfold pickWeighted. rewrite total_weight_sum by done. cbv zeta.
  destruct Hok as [Hf Hs]. pose proof (sum_with_nonneg we_weight es Hf) as H0. fold (weight_sum es) in H0.
  destruct (weight_sum es =? 0) eqn:E.
  { destruct es as [|e es]; [done|]. exists 0%nat, e. split_and!; [done|done|lia]. }
  replace (weight_sum es <? 0) with false by lia. cbv iota.
  specialize (Hr rnd (weight_sum es) ltac:(lia)).
  destruct (Intn rnd (weight_sum es)) as [rnd' n]. simpl in Hr |- *.
  pose proof (pick_index_lt n 0 es Hne) as Hlt.
  destruct (lookup_lt_is_Some_2 es _ Hlt) as [e He].
  exists (pick_index n 0 es), e. split_and!; [done|by unfold entry_provider; rewrite He|].
  intros _. apply (pick_index_interval n 0 es (pick_index n 0 es)); try done; lia.
Qed.

(** C21. An entry is chosen exactly by the draws of an interval as long as its
    weight: the choice is proportional, and a zero weight is never chosen
    unless all are zero, when the first entry is. *)
Theorem pickWeighted_proportional rnd es (Hr : intn_ok) (Hok : weights_ok es) (Hne : es <> []) :
  exists i e, es !! i = Some e /\
    (pickWeighted Intn rnd es).2 = Ok (we_provider e) /\
    (weight_sum es = 0 -> i = 0%nat) /\
    (0 < weight_sum es ->
     0 < we_weight e /\
     forall j, (j < List.length es)%nat ->
       j = i <-> weight_sum (take j es) <= (Intn rnd (weight_sum es)).2 < weight_sum (take (S j) es)).
Proof.
  destruct (decide (weight_sum es = 0)) as [E|E].
  { destruct es as [|e es]; [done|]. exists 0%nat, e. split_and!; [done| |done|lia].
    unfold pickWeighted. by rewrite total_weight_sum, E. }
  destruct (pickWeighted_entry rnd es Hr Hok Hne) as (i & e & He & Hp & Hi). exists i, e.
  split_and!; [done|done|done|]. intros Hpos. specialize (Hi Hpos). destruct Hok as [Hf Hs].
  split.
  - rewrite (take_S_r _ _ _ He) in Hi. unfold weight_sum in Hi. rewrite sum_with_app in Hi.
    simpl in Hi. lia.
  - intros j Hj. split; [by intros ->|]. intros Hn.
    destruct (decide (j < i)%nat);
      [pose proof (weight_sum_take_mono es (S j) i Hf ltac:(lia)); lia|].
    destruct (decide (i < j)%nat);
      [pose proof (weight_sum_take_mono es (S i) j Hf ltac:(lia)); lia|lia].
Qed.

End pick.

Lemma pickWeighted_proportional_witness :
  let es := [mkWeightedEntry "a" 9; mkWeightedEntry "b" 0; mkWeightedEntry "c" 1] in
  let intn := fun (s n : Z) => (s + 1, s `mod` n) in
  exists i e, es !! i = Some e /\
    (pickWeighted intn 19 es).2 = Ok (we_provider e) /\
    (weight_sum es = 0 -> i = 0%nat) /\
    (0 < weight_sum es ->
     0 < we_weight e /\
     forall j, (j < List.length es)%nat ->
       j = i <-> weight_sum (take j es) <= (intn 19 (weight_sum es)).2 < weight_sum (take (S j) es)).
Proof.
  intros es intn. apply (pickWeighted_proportional intn 19 es).
  - intros s n Hn. simpl. apply Z.mod_pos_bound. done.
  - split; [repeat constructor; simpl; lia|]. vm_compute. discriminate.
  - discriminate.
Defined.

(** ** The registry holds what the providers declare *)
Section registry.
Context {P : Type} (Name : P -> string) (Models : P -> list string).
Context (regexp_Compile : string -> option regexp).
Context {Rng : Type} (NewSource : Z -> Rng) (Intn : Rng -> Z -> Rng * Z).
Abbreviation compile := (compilePattern regexp_Compile).
Abbreviation Build := (NewRegistryWithWeighted Name Models regexp_Compile NewSource).
Abbreviation Reg := (Registry (P := P) (Rng := Rng)).

Definition pattern_entry (p : P) (m : string) : patternEntry :=
  mkPatternEntry p m (compile m).1 (compile m).2.
Definition model_patterns (p : P) (ms : list string) : list patternEntry :=
  pattern_entry p <$> filter (fun m => isPattern m = true) ms.

Lemma add_models_spec p ms (r : Reg) :
  let r' := foldl (add_model regexp_Compile p) r ms in
  rg_byName r' = rg_byName r /\ rg_order r' = rg_order r /\ rg_aliases r' = rg_aliases r /\
  rg_patterns r' = rg_patterns r ++ model_patterns p ms /\
  forall m, rg_byModel r' !! m =
    if bool_decide (m ∈ ms /\ isPattern m = false) then Some p else rg_byModel r !! m.
Proof.
  revert r. induction ms as [|x ms IH]; intros r; simpl.
  { split_and!; try done. by rewrite app_nil_r. }
  destruct (IH (add_model regexp_Compile p r x)) as (-> & -> & -> & -> & Hm).
  setoid_rewrite Hm. unfold add_model, model_patterns, pattern_entry.
  destruct (isPattern x) eqn:Ex.
  - destruct (compile x) as [re isre] eqn:Ec. rewrite filter_cons_True by done. csimpl. rewrite Ec.
    split_and!; try done; [by rewrite <-(assoc_L (++))|]. intros m.
    rewrite (bool_decide_ext _ (m ∈ x :: ms /\ isPattern m = false)); [done|].
    rewrite elem_of_cons. split; [tauto|]. intros [[->|?] ?]; [congruence|done].
  - rewrite filter_cons_False by congruence. split_and!; try done. simpl. intros m.
    destruct (decide (m = x)) as [->|Hne].
    + rewrite lookup_insert_eq, (bool_decide_eq_true_2 (x ∈ x :: ms /\ _)); [by case_bool_decide|].
      split; [left|done].
    + rewrite lookup_insert_ne by done.
      rewrite (bool_decide_ext _ (m ∈ x :: ms /\ isPattern m = false)); [done|].
      rewrite elem_of_cons. tauto.
Qed.

(** The providers that declare [model] exactly. *)
Definition owners (ps : list P) (model : string) : list P :=
  filter (fun p => model ∈ Models p /\ isPattern model = false) ps.

Record registry_of (ps : list P) (r : Reg) : Prop := {
  ro_order : rg_order r = ps;
  ro_byName n : rg_byName r !! n = list.last (filter (fun p => Name p = n) ps);
  ro_byModel m : rg_byModel r !! m = list.last (owners ps m);
  ro_patterns : rg_patterns r = ps ≫= fun p => model_patterns p (Models p);
}.

Lemma providers_registered ps r0 :
  rg_byName r0 = ∅ -> rg_byModel r0 = ∅ -> rg_order r0 = [] -> rg_patterns r0 = [] ->
  registry_of ps (foldl (add_provider Name Models regexp_Compile) r0 ps) /\
  rg_aliases (foldl (add_provider Name Models regexp_Compile) r0 ps) = rg_aliases r0.
Proof.
  intros H1 H2 H3 H4.
  apply (foldl_prefix_inv _ (fun ps r => registry_of ps r /\ rg_aliases r = rg_aliases r0)).
  { split; [|done]. split; [done|..|done]; intros; by rewrite ?H1, ?H2, lookup_empty. }
  intros ps' p r [[Ho Hn Hm Hp] Ha]. unfold add_provider.
  match goal with |- context [foldl _ ?r1 _] => pose proof (add_models_spec p (Models p) r1) as Hs end.
  simpl in Hs. destruct Hs as (En & Eo & Ea & Ep & Em). split; [|by rewrite Ea].
  split.
  - by rewrite Eo, Ho.
  - intros n. rewrite En, list.filter_app. destruct (decide (Name p = n)) as [<-|Hne].
    + by rewrite lookup_insert_eq, filter_cons_True, filter_nil, list.last_snoc by done.
    + by rewrite lookup_insert_ne, filter_cons_False, filter_nil, app_nil_r by done.
  - intros m. rewrite Em. unfold owners. rewrite list.filter_app. case_bool_decide as Hd.
    + by rewrite filter_cons_True, filter_nil, list.last_snoc by done.
    + by rewrite filter_cons_False, filter_nil, app_nil_r by done.
  - rewrite Ep, Hp, bind_app. csimpl. by rewrite app_nil_r.
Qed.

Lemma weighted_entries_provider (byName : gmap string P) es e :
  e ∈ weighted_entries byName es -> exists c, c ∈ es /\ byName !! ProviderName c = Some (we_provider e) /\
    we_weight e = wc_Weight c.
Proof.
  unfold weighted_entries.
  apply (foldl_prefix_inv _ (fun es we => e ∈ we -> exists c, c ∈ es /\
    byName !! ProviderName c = Some (we_provider e) /\ we_weight e = wc_Weight c)).
  { by intros ?%elem_of_nil. }
  intros es' c we IH. destruct (byName !! ProviderName c) as [p|] eqn:E.
  - rewrite elem_of_app, list_elem_of_singleton. intros [H| ->].
    + destruct (IH H) as (c' & ? & ?). exists c'. rewrite elem_of_app. tauto.
    + exists c. rewrite elem_of_app, list_elem_of_singleton. simpl. auto.
  - intros H. destruct (IH H) as (c' & ? & ?). exists c'. rewrite elem_of_app. tauto.
Qed.

Lemma Build_registry ps al wc : registry_of ps (Build ps al wc) /\ rg_aliases (Build ps al wc) = al.
Proof.
  unfold NewRegistryWithWeighted. cbv zeta.
  match goal with |- context [foldl _ ?r0 _] => destruct (providers_registered ps r0) as [[] Ha] end; try done.
Qed.

Lemma Build_weighted ps al wc k we :
  rg_weighted (Build ps al wc) !! k = Some we ->
  we <> [] /\ exists es, wc !! k = Some es /\ we = weighted_entries (rg_byName (Build ps al wc)) es.
Proof.
  unfold NewRegistryWithWeighted. cbv zeta. simpl. rewrite lookup_omap.
  destruct (wc !! k) as [es|]; [|done]. simpl.
  destruct (weighted_entries _ es) as [|e we'] eqn:E; [done|]. intros [= <-]. split; [done|]. eauto.
Qed.

Lemma Build_weighted_provider ps al wc k we e :
  rg_weighted (Build ps al wc) !! k = Some we -> e ∈ we -> we_provider e ∈ ps.
Proof.
  intros Hk He. destruct (Build_weighted _ _ _ _ _ Hk) as (_ & es & _ & ->).
  destruct (weighted_entries_provider _ _ _ He) as (c & _ & Hn & _).
  destruct (Build_registry ps al wc) as [Hr _]. rewrite (ro_byName _ _ Hr) in Hn.
  apply list.last_Some in Hn as [l Hl].
  assert (we_provider e ∈ l ++ [we_provider e]) as Hin by (apply elem_of_app; right; by apply list_elem_of_singleton).
  rewrite <-Hl in Hin. by apply list_elem_of_filter in Hin as [_ ?].
Qed.

(** Configured weights: none negative, and no sum that overflows. *)
Definition config_ok (wc : gmap string (list WeightedConfig)) : Prop :=
  forall k es, wc !! k = Some es ->
    Forall (fun c => 0 <= wc_Weight c) es /\ sum_with wc_Weight es <= max_int64.

Lemma weighted_entries_weights (byName : gmap string P) es :
  Forall (fun c => 0 <= wc_Weight c) es ->
  Forall (fun e => 0 <= we_weight e) (weighted_entries byName es) /\
  weight_sum (weighted_entries byName es) <= sum_with wc_Weight es.
Proof.
  intros Hes. unfold weighted_entries. revert Hes.
  apply (foldl_prefix_inv _ (fun es we => Forall _ es ->
    Forall (fun e => 0 <= we_weight e) we /\ weight_sum we <= sum_with wc_Weight es)).
  { by split; [constructor|]. }
  intros es' c we IH [H1 H2]%Forall_app. destruct (IH H1) as [Hf Hs]. unfold weight_sum in *.
  rewrite sum_with_app. simpl. inversion H2; subst.
  destruct (byName !! _); [|split; [done|lia]]. rewrite Forall_app, sum_with_app. simpl.
  split; [split; [done|by constructor]|lia].
Qed.

Lemma Build_weights ps al wc k we :
  config_ok wc -> rg_weighted (Build ps al wc) !! k = Some we -> weights_ok we.
Proof.
  intros Hc Hk. destruct (Build_weighted _ _ _ _ _ Hk) as (_ & es & Hes & ->).
  destruct (Hc _ _ Hes) as [Hf Hs]. destruct (weighted_entries_weights (rg_byName (Build ps al wc)) es Hf).
  split; [done|lia].
Qed.

Definition candidates (entries : list patternEntry) (model : string) : list P :=
  foldl (fun cs pe => if matchesPattern pe model then cs ++ [pe_provider pe] else cs) [] entries.

Lemma candidates_filter entries model :
  candidates entries model = pe_provider <$> filter (fun pe => matchesPattern pe model = true) entries.
Proof.
  unfold candidates. apply (foldl_prefix_inv _ (fun l cs => cs = pe_provider <$>
    filter (fun pe => matchesPattern pe model = true) l)); [done|].
  intros l pe cs ->. rewrite list.filter_app, fmap_app. destruct (matchesPattern pe model) eqn:E.
  - by rewrite filter_cons_True, filter_nil.
  - by rewrite filter_cons_False, filter_nil, app_nil_r by congruence.
Qed.

(** What no step of the resolution matches. *)
Record unroutable (ps : list P) (r : Reg) (model : string) : Prop := {
  un_weighted : rg_weighted r !! model = None;
  un_key k : k ∈ dom (rg_weighted r) -> isPattern k = true -> key_matches regexp_Compile k model = false;
  un_exact p m : p ∈ ps -> m ∈ Models p -> isPattern m = false -> m <> model;
  un_pattern p m : p ∈ ps -> m ∈ Models p -> isPattern m = true ->
    matchesPattern (pattern_entry p m) model = false;
}.

Lemma weighted_keys_elem ks k : k ∈ weighted_keys ks <-> k ∈ ks /\ isPattern k = true.
Proof.
  unfold weighted_keys. rewrite <-stable_sort_perm, list_elem_of_filter. tauto.
Qed.

Lemma registry_pattern ps r p m :
  registry_of ps r -> p ∈ ps -> m ∈ Models p -> isPattern m = true -> pattern_entry p m ∈ rg_patterns r.
Proof.
  intros Hr Hp Hm Hpat. rewrite (ro_patterns _ _ Hr). apply list_elem_of_bind. exists p. split; [|done].
  unfold model_patterns. apply list_elem_of_fmap. exists m. split; [done|]. by apply list_elem_of_filter.
Qed.

Lemma registry_pattern_inv ps r pe :
  registry_of ps r -> pe ∈ rg_patterns r -> pe_provider pe ∈ ps.
Proof.
  intros Hr. rewrite (ro_patterns _ _ Hr). intros (p & Hpe & Hp)%list_elem_of_bind.
  unfold model_patterns in Hpe. apply list_elem_of_fmap in Hpe as (m & -> & _). done.
Qed.

Lemma registry_exact ps r p m :
  registry_of ps r -> p ∈ ps -> m ∈ Models p -> isPattern m = false -> is_Some (rg_byModel r !! m).
Proof.
  intros Hr Hp Hm Hn. rewrite (ro_byModel _ _ Hr). apply list.last_is_Some. intros E.
  assert (p ∈ owners ps m) as H by (by apply list_elem_of_filter). rewrite E in H. by apply elem_of_nil in H.
Qed.

Lemma registry_exact_inv ps r p m : registry_of ps r -> rg_byModel r !! m = Some p -> p ∈ owners ps m.
Proof.
  intros Hr. rewrite (ro_byModel _ _ Hr). intros [l Hl]%list.last_Some. rewrite Hl.
  apply elem_of_app. right. by apply list_elem_of_singleton.
Qed.


Lemma pick_ok ps al wc k we (rnd : Rng) :
  intn_ok Intn -> config_ok wc -> rg_weighted (Build ps al wc) !! k = Some we ->
  exists p, (pickWeighted Intn rnd we).2 = Ok p /\ p ∈ ps.
Proof.
  intros Hi Hc Hk. destruct (Build_weighted _ _ _ _ _ Hk) as [Hne _].
  destruct (pickWeighted_entry Intn rnd we Hi (Build_weights _ _ _ _ _ Hc Hk) Hne) as (i & e & He & Hp & _).
  exists (we_provider e). split; [done|].
  eapply Build_weighted_provider; [done|]. by eapply list_elem_of_lookup_2.
Qed.

Lemma key_found ps al wc k model :
  let r := Build ps al wc in
  list_find (fun k => key_matches regexp_Compile k model = true)
    (weighted_keys ((map_to_list (rg_weighted r)).*1)) = Some k ->
  exists we, rg_weighted r !! k.2 = Some we /\ isPattern k.2 = true /\ key_matches regexp_Compile k.2 model = true.
Proof.
  intros r Hf. destruct k as [i k]. apply list_find_Some in Hf as (Hi & Hm & _).
  apply list_elem_of_lookup_2, weighted_keys_elem in Hi as [Hi Hp].
  apply list_elem_of_fmap in Hi as ([k' we] & -> & Hkw). apply elem_of_map_to_list in Hkw. simpl in *. eauto.
Qed.

Lemma Resolve_outcome ps al wc model (rnd : Rng) (Hi : intn_ok Intn) (Hc : config_ok wc) :
  let r := with_rnd (Build ps al wc) rnd in
  match (Resolve regexp_Compile Intn r model).2 with
  | Ok p => p ∈ ps
  | Err (ErrNoProvider m) => m = model /\ unroutable ps r model
  | Err RoutePanic => False
  end.
Proof.
  intros r. destruct (Build_registry ps al wc) as [Hr _].
  assert (registry_of ps r) as Hr' by (destruct Hr; by split).
  assert (forall k we rnd, rg_weighted r !! k = Some we -> exists p, (pickWeighted Intn rnd we).2 = Ok p /\ p ∈ ps)
    as Hpick by (intros k we rnd0 Hk; exact (pick_ok ps al wc k we rnd0 Hi Hc Hk)).
  unfold Resolve. destruct (rg_weighted r !! model) as [we|] eqn:Ew.
  { destruct (Hpick model we (rg_rnd r) Ew) as (p & Hp & Hin).
    destruct we as [|e we]; [by destruct (Build_weighted _ _ _ _ _ Ew)|].
    destruct (pickWeighted _ _ _) as [rnd' res]. simpl in Hp |- *. rewrite Hp. exact Hin. }
  destruct (rg_byModel r !! model) as [p|] eqn:Em.
  { simpl. pose proof (registry_exact_inv _ _ _ _ Hr' Em) as H. by apply list_elem_of_filter in H as [_ ?]. }
  destruct (list_find _ _) as [[i k]|] eqn:Ek.
  { destruct (key_found ps al wc (i, k) model Ek) as (we & Hwe & _). simpl in Hwe.
    assert (rg_weighted r !! k = Some we) as Hwe' by exact Hwe. rewrite Hwe'. cbn [default from_option].
    destruct (Hpick k we (rg_rnd r) Hwe') as (p & Hp & Hin).
    destruct (pickWeighted _ _ _) as [rnd' res]. simpl in Hp |- *. rewrite Hp. exact Hin. }
  fold (candidates (rg_patterns r) model). rewrite candidates_filter.
  set (l := filter _ (rg_patterns r)).
  assert (forall p, p ∈ pe_provider <$> l -> p ∈ ps) as Hl.
  { intros p Hp. apply list_elem_of_fmap in Hp as (pe & -> & [_ Hpe]%list_elem_of_filter).
    by eapply registry_pattern_inv. }
  destruct (pe_provider <$> l) as [|p [|p' cs]] eqn:El.
  - simpl. split; [done|]. split.
    + done.
    + intros k [we Hk]%elem_of_dom Hp. destruct (key_matches regexp_Compile k model) eqn:E; [|done]. exfalso.
      apply list_find_None in Ek. rewrite list.Forall_forall in Ek. apply (Ek k); [|done].
      apply weighted_keys_elem. split; [|done].
      apply list_elem_of_fmap. exists (k, we). split; [done|]. by apply elem_of_map_to_list.
    + intros p m Hp Hm Hpat ->. destruct (registry_exact ps r p model Hr' Hp Hm Hpat). congruence.
    + intros p m Hp Hm Hpat. destruct (matchesPattern _ model) eqn:E; [|done]. exfalso.
      apply fmap_nil_inv in El. assert (pattern_entry p m ∈ l) as H.
      { apply list_elem_of_filter. split; [done|]. by eapply registry_pattern. }
      rewrite El in H. by apply elem_of_nil in H.
  - simpl. apply Hl. by left.
  - pose proof (Hi (rg_rnd r) (Z.of_nat (List.length (p :: p' :: cs))) ltac:(simpl; lia)) as Hn.
    destruct (Intn _ _) as [rnd' n]. simpl in Hn |- *.
    destruct (_ !! Z.to_nat n) as [q|] eqn:Eq.
    + apply Hl. by eapply list_elem_of_lookup_2.
    + apply lookup_ge_None in Eq. simpl in Eq. lia.
Qed.

(** Resolution is total: the result is a configured provider, or
    [ErrNoProvider] when nothing at all matches the model; it never panics. *)
Theorem Resolve_total ps al wc model (rnd : Rng) (Hi : intn_ok Intn) (Hc : config_ok wc) :
  let r := with_rnd (Build ps al wc) rnd in
  match (Resolve regexp_Compile Intn r model).2 with
  | Ok p => p ∈ ps
  | Err (ErrNoProvider m) => m = model /\ unroutable ps r model
  | Err RoutePanic => False
  end.
Proof. exact (Resolve_outcome ps al wc model rnd Hi Hc). Qed.

(** A model that is not weighted and is declared exactly goes to the last
    provider that declares it, without a draw, whatever patterns match. *)
Lemma Resolve_exact ps al wc model :
  let r := Build ps al wc in
  wc !! model = None -> owners ps model <> [] ->
  Resolve regexp_Compile Intn r model =
    (r, from_option Ok (Err RoutePanic) (list.last (owners ps model))).
Proof.
  intros r Hw Ho. destruct (Build_registry ps al wc) as [Hr _]. fold r in Hr. unfold Resolve.
  destruct (rg_weighted r !! model) as [we|] eqn:Ew.
  { destruct (Build_weighted _ _ _ _ _ Ew) as (_ & es & Hes & _). congruence. }
  rewrite (ro_byModel _ _ Hr). destruct (list.last (owners ps model)) eqn:El; [done|].
  by apply list.last_None in El.
Qed.

(** Resolving advances the generator and nothing else. *)
Lemma Resolve_rnd (r : Reg) model : exists rnd, (Resolve regexp_Compile Intn r model).1 = with_rnd r rnd.
Proof.
  assert (r = with_rnd r (rg_rnd r)) as Hr by (by destruct r).
  unfold Resolve. repeat case_match; simplify_eq/=; eauto.
Qed.

(** A pattern key is chosen only if no more specific key matches. *)
Lemma pattern_key_most_specific ks i k model :
  list_find (fun k => key_matches regexp_Compile k model = true) (weighted_keys ks) = Some (i, k) ->
  forall k', k' ∈ ks -> isPattern k' = true -> key_matches regexp_Compile k' model = true ->
    key_less k' k = false.
Proof.
  intros (Hi & Hm & Hmin)%list_find_Some k' Hk' Hp Hm'.
  assert (k' ∈ weighted_keys ks) as Hin by (by apply weighted_keys_elem).
  apply list_elem_of_lookup_1 in Hin as [j Hj].
  destruct (decide (j < i)%nat) as [Hlt|Hge]; [by destruct (Hmin j k' Hj Hlt)|].
  assert (StronglySorted (not_less key_less) (weighted_keys ks)) as Hs.
  { apply Sorted_StronglySorted; [apply key_order_trans|]. apply stable_sort_sorted, key_less_asym. }
  destruct (decide (i = j)) as [->|Hne].
  { rewrite Hi in Hj. injection Hj as ->.
    destruct (key_less k' k') eqn:E; [|done]. by rewrite (key_less_asym _ _ E) in E. }
  rewrite <-(take_drop_middle _ _ _ Hi) in Hs.
  apply StronglySorted_app_1_r in Hs. inversion Hs as [|? ? _ Hf]; subst.
  rewrite list.Forall_forall in Hf. apply Hf. apply list_elem_of_lookup. exists (j - S i)%nat.
  rewrite lookup_drop. replace (S i + (j - S i))%nat with j by lia. done.
Qed.

End registry.

Lemma with_model_same req : with_model req (req_Model req) = req.
Proof. by destruct req. Qed.

(** Remapping for a fallback changes the model only, and only when the model
    has aliases: to the first alias the fallback owns, else to the first
    model the fallback declares. *)
Theorem RemapForFallback_spec {P Rng : Type} (Models : P -> list string) regexp_Compile
    (r : Registry (P := P) (Rng := Rng)) req fallback :
  let req' := RemapForFallback Models regexp_Compile r req fallback in
  let targets := Registry_Aliases r (req_Model req) in
  let owned t := alias_owned Models regexp_Compile fallback t = true in
  req' = with_model req (req_Model req') /\
  (targets = [] -> req' = req) /\
  (forall l t l', targets = l ++ t :: l' -> Forall (fun u => ~ owned u) l -> owned t -> req_Model req' = t) /\
  (targets <> [] -> Forall (fun u => ~ owned u) targets ->
     req_Model req' = default (req_Model req) (head (Models fallback))).
Proof.
  intros req' targets owned. unfold req', RemapForFallback. fold targets.
  change (default [] (rg_aliases r !! req_Model req)) with targets.
  destruct targets as [|t0 ts] eqn:Et.
  { split_and!; try done; [by rewrite with_model_same|by intros []]. }
  destruct (list_find _ (t0 :: ts)) as [[i t]|] eqn:Ef.
  - apply list_find_Some in Ef as (Hi & Ho & Hmin). split_and!; try done.
    + intros l u l' El Hl Hu. simpl. rewrite El in Hi, Hmin. rewrite list.Forall_forall in Hl.
      destruct (decide (i < List.length l)%nat) as [Hlt|Hge].
      { rewrite lookup_app_l in Hi by done. by destruct (Hl t (list_elem_of_lookup_2 _ _ _ Hi)). }
      destruct (decide (i = List.length l)) as [->|Hne]; [rewrite list_lookup_middle in Hi by done; congruence|].
      destruct (Hmin (List.length l) u); [by rewrite list_lookup_middle|lia|done].
    + intros _ Hall. rewrite list.Forall_forall in Hall. by destruct (Hall t (list_elem_of_lookup_2 _ _ _ Hi)).
  - apply list_find_None in Ef. split_and!; try done.
    + destruct (Models fallback); [by rewrite with_model_same|done].
    + intros l t l' El Hl Ht. rewrite El, list.Forall_app in Ef. destruct Ef as [_ Ef].
      inversion Ef; subst. done.
    + intros _ _. by destruct (Models fallback).
Qed.

(** The fallback may then be asked for a pattern, not a model: here the
    provider serves [gpt-4*] and is sent a request for the model [gpt-4*]. *)
Example remap_sends_pattern :
  let p := ("openai", ["gpt-4*"; "gpt-3.5"]) in
  let r := NewRegistryWithWeighted fst snd (fun _ => None) (fun seed : Z => seed) [p]
             {["claude" := ["mistral"]]} ∅ in
  forall req, req_Model req = "claude" ->
    req_Model (RemapForFallback snd (fun _ => None) r req p) = "gpt-4*".
Proof. intros p r req Hm. unfold RemapForFallback. rewrite Hm. by vm_compute. Qed.

Lemma Resolve_total_witness :
  let ps := [("openai", ["gpt-4o"; "gpt-4*"]); ("mirror", ["gpt-4*"])] in
  let wc := {["claude-*" := [mkWeightedConfig "mirror" "" 3; mkWeightedConfig "openai" "" 1]]} in
  let intn := fun s n => (s + 1, s `mod` n) in
  let r := with_rnd (NewRegistryWithWeighted fst snd (fun _ => None) (fun seed : Z => seed) ps ∅ wc) 7 in
  (Resolve (fun _ => None) intn r "claude-x").2 = Ok ("openai", ["gpt-4o"; "gpt-4*"]) /\
  (Resolve (fun _ => None) intn r "gpt-4-turbo").2 = Ok ("mirror", ["gpt-4*"]) /\
  match (Resolve (fun _ => None) intn r "llama").2 with
  | Ok p => p ∈ ps
  | Err (ErrNoProvider m) => m = "llama" /\ unroutable snd (fun _ => None) ps r "llama"
  | Err RoutePanic => False
  end.
Proof.
  intros ps wc intn r. split_and!; [by vm_compute|by vm_compute|].
  apply (Resolve_total fst snd (fun _ => None) (fun seed : Z => seed) intn ps ∅ wc "llama" 7).
  - intros s n Hn. simpl. apply Z.mod_pos_bound. done.
  - intros k es Hk. unfold wc in Hk. apply lookup_singleton_Some in Hk as [_ <-].
    split; [repeat constructor; simpl; lia|]. vm_compute. discriminate.
Defined.
