(* ===== verification/Provider.v ===== *)
(** * Provider errors: [internal/provider/provider.go]

    A Go error is a value with a chain of wrapped errors, which [errors.Is]
    and [errors.As] walk.  [Panic] is no error value: it stands for the panic
    of a call. *)

From Stdlib Require Import Ascii String.
From stdpp Require Import pretty.
From S2P Require Import Prelude GoStrings.
Open Scope string_scope.
Open Scope list_scope.
Open Scope Z_scope.

Record ProviderError := mkProviderError {
  pv_ProviderName : string;
  pv_StatusCode : Z;
  pv_Message : string;
  pv_Retryable : bool;
  pv_RetryAfter : Z;
}.

Inductive error :=
| Canceled             (** [context.Canceled] *)
| DeadlineExceeded     (** [context.DeadlineExceeded] *)
| NoProvider           (** the sentinel [ErrNoProvider] *)
| EProvider (pe : ProviderError)
| EAllFailed (stream : bool) (model : string)  (** [all providers failed for ...] *)
| EText (msg : string)
| EWrap (msg : string) (err : error)
| Panic.

(** [fmt.Sprintf("[%s] %s (HTTP %d)", ...)] *)
Definition ProviderError_Error (e : ProviderError) : string :=
  "[" +:+ pv_ProviderName e +:+ "] " +:+ pv_Message e +:+ " (HTTP " +:+ pretty (pv_StatusCode e) +:+ ")".

(** [errors.Is(err, target)] for the sentinels. *)
Fixpoint errors_Is (test : error -> bool) (err : error) : bool :=
  test err || match err with EWrap _ err => errors_Is test err | _ => false end.

Definition is_Canceled (e : error) : bool := match e with Canceled => true | _ => false end.
Definition is_DeadlineExceeded (e : error) : bool := match e with DeadlineExceeded => true | _ => false end.
Definition is_NoProvider (e : error) : bool := match e with NoProvider => true | _ => false end.

(** [errors.As(err, &pe)]: the first [ProviderError] of the chain. *)
Fixpoint errors_As (err : error) : option ProviderError :=
  match err with
  | EProvider pe => Some pe
  | EWrap _ err => errors_As err
  | _ => None
  end.

Definition IsRetryable (err : error) : bool :=
  if errors_Is is_Canceled err || errors_Is is_DeadlineExceeded err then false
  else match errors_As err with Some pe => pv_Retryable pe | None => false end.

Definition IsNoProvider (err : error) : bool := errors_Is is_NoProvider err.

(** A retryable error is a provider's, however deep it is wrapped. *)
Lemma IsRetryable_provider err :
  IsRetryable err = true -> exists pe, errors_As err = Some pe /\ pv_Retryable pe = true.
Proof.
  unfold IsRetryable. destruct (_ || _); [done|]. destruct (errors_As err) as [pe|]; [|done]. eauto.
Qed.

Lemma IsRetryable_wrap msg err : IsRetryable (EWrap msg err) = IsRetryable err.
Proof. unfold IsRetryable. done. Qed.
