(* ===== verification/Dispatch.v ===== *)
(** * Dispatching a request: [internal/proxy/handler.go]

    The handler's state and the calls it makes of the providers: [dispatch]
    with retries, circuit breakers, fallbacks and hedging, and [openStream].
    The world [W] holds the network, the clock and the contexts; the methods
    of the class [Env] are the operations on it.  A request is modelled as
    one sequence of operations; the two goroutines of a hedged call are
    interleaved by a schedule that is part of the world. *)

From Stdlib Require Import Ascii String.
From S2P Require Import Prelude GoFloat GoStrings Types Circuit Retry Hedge Router Provider.
Open Scope string_scope.
Open Scope list_scope.
Open Scope Z_scope.

Record hedgeConfig := mkHedgeConfig { hg_Enabled : bool; hg_Delay : Z }.

(** What the schedule lets happen next while two calls race: the caller takes
    a case of its [select]; a call ends (its goroutine sends the result, or
    drops it if the context is done); the timer fires; the context ends. *)
Inductive hedge_event :=
| HSelect (c : hedge_case)
| HPrimary (drop : bool)
| HFallback (drop : bool)
| HTimer
| HCtx.

(** One delivery of a stream's channels to a [select]. *)
Inductive stream_event :=
| SChunk (c : StreamChunk)
| SClosed                      (** the chunk channel is closed *)
| SErr (e : option error)      (** a value of the error channel *)
| SErrClosed
| SDone (e : error).           (** [ctx.Done()], with [ctx.Err()] *)

(** Providers ([provider.Provider]), contexts, the clock and random sources. *)
Class Env (P Ctx Rng W : Type) := {
  p_Name : P -> string;
  p_Models : P -> list string;
  p_Send : P -> Ctx -> ChatRequest -> W -> W * result ChatResponse error;
  p_SendStream : P -> Ctx -> ChatRequest -> W -> W * list stream_event;
  regexp_Compile : string -> option regexp;
  rand_Intn : Rng -> Z -> Rng * Z;
  rand_Int63n : Z -> W -> W * Z;
  time_Now : W -> Z;
  ctx_Err : Ctx -> W -> option error;
  ctx_Wait : Ctx -> Z -> W -> W * option error;
  ctx_WithTimeout : Ctx -> Z -> W -> W * Ctx;
  ctx_WithCancel : Ctx -> W -> W * Ctx;
  ctx_Cancel : Ctx -> W -> W;
  hedge_schedule : W -> list hedge_event;
}.

(** ** The handler *)
Section handler.
Context {P Rng L OS B C : Type}.

Record Handler := mkHandler {
  h_registry : Registry (P := P) (Rng := Rng);
  h_fallbackChain : list string;
  h_retryCfg : RetryConfig;
  h_circuitCfg : CircuitConfig;
  h_circuits : gmap string Breaker;
  h_hedgeCfg : hedgeConfig;
  h_limiter : option L;
  h_overrideStore : option OS;
  h_budgetMgr : option B;
  h_tokenAware : bool;
  h_cache : option C;
  h_cacheTTL : Z;
}.

Definition NewHandlerWithCache (Name : P -> string) (registry : Registry (P := P) (Rng := Rng))
    (fallbackChain : list string) (retryCfg : RetryConfig) (circuitCfg : CircuitConfig)
    (hedge : hedgeConfig) (limiter : option L) (overrides : option OS) (budgetMgr : option B)
    (tokenAware : bool) (c : option C) (ttl : Z) : Handler :=
  mkHandler registry fallbackChain retryCfg circuitCfg
    (foldl (fun m p => <[Name p := NewBreaker circuitCfg]> m) ∅ (Registry_All registry))
    hedge limiter overrides budgetMgr tokenAware c ttl.

Definition NewHandlerWithResilienceAndBudget Name registry fallbackChain retryCfg circuitCfg hedge
    limiter overrides budgetMgr tokenAware : Handler :=
  NewHandlerWithCache Name registry fallbackChain retryCfg circuitCfg hedge limiter overrides
    budgetMgr tokenAware None 0.

Definition NewHandlerWithResilience Name registry fallbackChain retryCfg circuitCfg hedge : Handler :=
  NewHandlerWithResilienceAndBudget Name registry fallbackChain retryCfg circuitCfg hedge
    None None None false.

Definition NewHandlerWithBudget Name registry fallbackChain budgetMgr : Handler :=
  NewHandlerWithResilienceAndBudget Name registry fallbackChain DefaultRetryConfig
    DefaultCircuitConfig (mkHedgeConfig false 0) None None budgetMgr false.

Definition NewHandler Name registry fallbackChain : Handler :=
  NewHandlerWithResilience Name registry fallbackChain DefaultRetryConfig DefaultCircuitConfig
    (mkHedgeConfig false (300 * Millisecond)).

Definition with_registry (h : Handler) r : Handler :=
  mkHandler r (h_fallbackChain h) (h_retryCfg h) (h_circuitCfg h) (h_circuits h) (h_hedgeCfg h)
    (h_limiter h) (h_overrideStore h) (h_budgetMgr h) (h_tokenAware h) (h_cache h) (h_cacheTTL h).
Definition with_circuits (h : Handler) cs : Handler :=
  mkHandler (h_registry h) (h_fallbackChain h) (h_retryCfg h) (h_circuitCfg h) cs (h_hedgeCfg h)
    (h_limiter h) (h_overrideStore h) (h_budgetMgr h) (h_tokenAware h) (h_cache h) (h_cacheTTL h).

(** *** Hot reload *)
Definition SetFallbackChain (h : Handler) chain : Handler :=
  mkHandler (h_registry h) chain (h_retryCfg h) (h_circuitCfg h) (h_circuits h) (h_hedgeCfg h)
    (h_limiter h) (h_overrideStore h) (h_budgetMgr h) (h_tokenAware h) (h_cache h) (h_cacheTTL h).
Definition SetRetryConfig (h : Handler) cfg : Handler :=
  mkHandler (h_registry h) (h_fallbackChain h) cfg (h_circuitCfg h) (h_circuits h) (h_hedgeCfg h)
    (h_limiter h) (h_overrideStore h) (h_budgetMgr h) (h_tokenAware h) (h_cache h) (h_cacheTTL h).
Definition SetCircuitConfig (h : Handler) cfg : Handler :=
  mkHandler (h_registry h) (h_fallbackChain h) (h_retryCfg h) cfg
    (Breaker_UpdateConfig cfg <$> h_circuits h) (h_hedgeCfg h)
    (h_limiter h) (h_overrideStore h) (h_budgetMgr h) (h_tokenAware h) (h_cache h) (h_cacheTTL h).
Definition SetHedgeConfig (h : Handler) cfg : Handler :=
  mkHandler (h_registry h) (h_fallbackChain h) (h_retryCfg h) (h_circuitCfg h) (h_circuits h) cfg
    (h_limiter h) (h_overrideStore h) (h_budgetMgr h) (h_tokenAware h) (h_cache h) (h_cacheTTL h).
Definition SetTokenAware (h : Handler) enabled : Handler :=
  mkHandler (h_registry h) (h_fallbackChain h) (h_retryCfg h) (h_circuitCfg h) (h_circuits h)
    (h_hedgeCfg h) (h_limiter h) (h_overrideStore h) (h_budgetMgr h) enabled (h_cache h)
    (h_cacheTTL h).
Definition SetCache (h : Handler) c ttl : Handler :=
  mkHandler (h_registry h) (h_fallbackChain h) (h_retryCfg h) (h_circuitCfg h) (h_circuits h)
    (h_hedgeCfg h) (h_limiter h) (h_overrideStore h) (h_budgetMgr h) (h_tokenAware h) c ttl.
Definition SetCacheTTL (h : Handler) ttl : Handler :=
  SetCache h (h_cache h) ttl.

(** *** Breakers *)
Definition breaker_cfg (h : Handler) : CircuitConfig :=
  if FailureThreshold (h_circuitCfg h) =? 0 then DefaultCircuitConfig else h_circuitCfg h.

(** [breakerFor]: the breaker of a provider, created on first use. *)
Definition breakerFor (h : Handler) (name : string) : Handler * Breaker :=
  match h_circuits h !! name with
  | Some b => (h, b)
  | None =>
      let b := NewBreaker (breaker_cfg h) in
      (with_circuits h (<[name := b]> (h_circuits h)), b)
  end.

(** A method call on [breakerFor(name)] that returns a value. *)
Definition on_breaker {A} (h : Handler) (name : string) (f : Breaker -> A * Breaker) : Handler * A :=
  let '(h, b) := breakerFor h name in
  let '(a, b) := f b in
  (with_circuits h (<[name := b]> (h_circuits h)), a).

Definition allow (h : Handler) (name : string) (now : Z) : Handler * bool :=
  on_breaker h name (Breaker_Allow now).
Definition state_of (h : Handler) (name : string) (now : Z) : Handler * State :=
  on_breaker h name (Breaker_State now).
Definition record_success (h : Handler) (name : string) : Handler :=
  (on_breaker h name (fun b => (tt, Breaker_RecordSuccess b))).1.
Definition record_failure (h : Handler) (name : string) (now : Z) : Handler :=
  (on_breaker h name (fun b => (tt, Breaker_RecordFailure now b))).1.

End handler.

Arguments Handler : clear implicits.

(** ** Sending *)
Section dispatch.
Context {P Ctx Rng W L OS B C : Type} `{!Env P Ctx Rng W}.
Abbreviation Hd := (Handler P Rng L OS B C).
Abbreviation Name := (p_Name (P := P) (W := W)).
Abbreviation Remap h := (RemapForFallback (p_Models (P := P) (W := W)) regexp_Compile (h_registry h)).
Abbreviation sys := (Hd * W)%type.
Implicit Types (h : Hd) (w : W) (s : sys) (ctx : Ctx) (req : ChatRequest).

(** The variables the closure passed to [resilience.Do] assigns. *)
Record attempt := mkAttempt { at_w : W; at_resp : option ChatResponse; at_lastErr : option error }.

Definition send_once (ctx : Ctx) (p : P) (req : ChatRequest) (a : attempt) : attempt * option error :=
  match p_Send p ctx req (at_w a) with
  | (w, Ok resp) => (mkAttempt w (Some resp) None, None)
  | (w, Err e) => (mkAttempt w (at_resp a) (Some e), Some e)
  end.

Definition attempt_rand (n : Z) (a : attempt) : attempt * Z :=
  let '(w, x) := rand_Int63n n (at_w a) in (mkAttempt w (at_resp a) (at_lastErr a), x).
Definition attempt_wait (ctx : Ctx) (d : Z) (a : attempt) : attempt * option error :=
  let '(w, e) := ctx_Wait ctx d (at_w a) in (mkAttempt w (at_resp a) (at_lastErr a), e).

Definition sendWithRetry (cfg : RetryConfig) (ctx : Ctx) (p : P) (req : ChatRequest) (w : W)
    : W * result ChatResponse error :=
  let '(a, err) := Do IsRetryable (send_once ctx p req) attempt_rand (attempt_wait ctx) cfg
                     (mkAttempt w None None) in
  (at_w a,
   match err with
   | Some err =>
       match ctx_Err ctx (at_w a) with
       | Some ctxErr => Err ctxErr
       | None => Err (default err (at_lastErr a))
       end
   | None => match at_resp a with Some resp => Ok resp | None => Err Panic end
   end).

(** Send through the breaker of [p]: the outcome is recorded. *)
Definition send_recorded (ctx : Ctx) (p : P) (req : ChatRequest) (s : sys)
    : sys * result ChatResponse error :=
  let '(h, w) := s in
  let '(w, r) := sendWithRetry (h_retryCfg h) ctx p req w in
  match r with
  | Ok resp => ((record_success h (Name p), w), Ok resp)
  | Err e => ((record_failure h (Name p) (time_Now w), w), Err e)
  end.

Definition sys_allow (s : sys) (name : string) : sys * bool :=
  let '(h, ok) := allow s.1 name (time_Now s.2) in ((h, s.2), ok).
(** The argument of a log call: [b.State().String()]. *)
Definition sys_state (s : sys) (name : string) : sys :=
  ((state_of s.1 name (time_Now s.2)).1, s.2).

(** *** Hedging *)
Abbreviation raced := (option (ChatResponse * string)).

Definition hedge_body (ctx : Ctx) (req : ChatRequest) (p : P) (s : sys)
    : sys * hresult (V := raced) (E := error) :=
  let mapped := Remap s.1 req p in
  match send_recorded ctx p mapped s with
  | (s, Ok resp) => (s, mkHresult (Some (resp, Name p)) None)
  | (s, Err e) => (s, mkHresult None (Some e))
  end.

Abbreviation race := (hedge (V := raced) (E := error) * sys)%type.

(** The goroutine of a call that is running ends. *)
Definition call_ends (ctx : Ctx) (req : ChatRequest) (p : P) (drop : bool)
    (set : goroutine -> hedge) (x : race) : race :=
  let '(s, r) := hedge_body ctx req p x.2 in
  (set (if drop && ctx_done x.1 then Dropped else Sent r), s).

Definition is_running (g : goroutine (V := raced) (E := error)) : bool :=
  match g with Running => true | _ => false end.

Definition hedge_exec (ctx : Ctx) (req : ChatRequest) (p1 p2 : P) (x : race) (ev : hedge_event) : race :=
  let '(hd, s) := x in
  match ev with
  | HSelect c =>
      match hedge_select None (default Canceled (ctx_Err ctx s.2)) c hd with
      | Some hd => (hd, s)
      | None => x
      end
  | HPrimary drop =>
      if is_running (h_primary hd) then
        call_ends ctx req p1 drop (fun g => mkHedge (h_phase hd) g (h_fallback hd) (h_timer hd) (h_parent hd)) x
      else x
  | HFallback drop =>
      if is_running (h_fallback hd) then
        call_ends ctx req p2 drop (fun g => mkHedge (h_phase hd) (h_primary hd) g (h_timer hd) (h_parent hd)) x
      else x
  | HTimer =>
      if is_returned hd then x
      else (mkHedge (h_phase hd) (h_primary hd) (h_fallback hd) true (h_parent hd), s)
  | HCtx =>
      match ctx_Err ctx s.2 with
      | Some _ => (mkHedge (h_phase hd) (h_primary hd) (h_fallback hd) (h_timer hd) true, s)
      | None => x
      end
  end.

(** A schedule may stop short of the end of [DoHedge]; the awaited calls then
    end one after the other. *)
Definition hedge_next (hd : hedge (V := raced) (E := error)) : hedge_event :=
  let wait g (c : hedge_case) run :=
    match g with Running => run | Sent _ => HSelect c | _ => HSelect FromCtx end in
  match h_phase hd with
  | FirstSelect =>
      match h_primary hd with
      | Sent _ => HSelect FromPrimary
      | _ => if h_timer hd then HSelect FromTimer else HTimer
      end
  | SecondSelect | AwaitPrimary => wait (h_primary hd) FromPrimary (HPrimary false)
  | AwaitFallback => wait (h_fallback hd) FromFallback (HFallback false)
  | Returned _ => HTimer
  end.

Fixpoint hedge_settle (fuel : nat) (ctx : Ctx) (req : ChatRequest) (p1 p2 : P) (x : race) : race :=
  match fuel with
  | O => x
  | S fuel =>
      if is_returned x.1 then x
      else hedge_settle fuel ctx req p1 p2 (hedge_exec ctx req p1 p2 x (hedge_next x.1))
  end.

Definition settle_fuel : nat := 6.

(** Run events until [DoHedge] has returned; give the events left over. *)
Fixpoint hedge_run (ctx : Ctx) (req : ChatRequest) (p1 p2 : P) (x : race) (evs : list hedge_event)
    : race * list hedge_event :=
  match evs with
  | [] => (hedge_settle settle_fuel ctx req p1 p2 x, [])
  | ev :: evs' =>
      if is_returned x.1 then (x, evs)
      else hedge_run ctx req p1 p2 (hedge_exec ctx req p1 p2 x ev) evs'
  end.

(** The first two fallbacks whose breakers allow a call. *)
Fixpoint hedge_candidates (chain : list string) (primaryName : string) (found : list P) (s : sys)
    : sys * list P :=
  match chain with
  | [] => (s, found)
  | name :: chain =>
      if str_eqb name primaryName then hedge_candidates chain primaryName found s
      else
        let '(s, found) :=
          match Registry_Get (h_registry s.1) name with
          | Some p =>
              let '(s, ok) := sys_allow s (Name p) in
              (s, if ok then found ++ [p] else found)
          | None => (s, found)
          end in
        if (List.length found =? 2)%nat then (s, found)
        else hedge_candidates chain primaryName found s
  end.

Definition hedge_timeout (cfg : RetryConfig) : Z := iadd (imul (rt_MaxDelay cfg) 2) (5 * Second).

Definition dispatchHedge (ctx : Ctx) (req : ChatRequest) (primaryName : string) (s : sys)
    : sys * option (ChatResponse * string) :=
  match hedge_candidates (h_fallbackChain s.1) primaryName [] s with
  | (s, p1 :: p2 :: _) =>
      let '(w, hctx) := ctx_WithTimeout ctx (hedge_timeout (h_retryCfg s.1)) s.2 in
      let '((hd, s), rest) :=
        hedge_run hctx req p1 p2 (hedge_init false, (s.1, w)) (hedge_schedule w) in
      let out := match h_phase hd with
                 | Returned (mkHresult v None) => v
                 | _ => None
                 end in
      (* [defer cancel()]; a call that is still running ends afterwards *)
      let '(_, s) := foldl (hedge_exec hctx req p1 p2) (hd, (s.1, ctx_Cancel hctx s.2)) rest in
      (s, out)
  | (s, _) => (s, None)
  end.

(** *** Dispatch *)
Definition resolve (req : ChatRequest) (s : sys) : sys * result P error :=
  let '(r, res) := Resolve regexp_Compile rand_Intn (h_registry s.1) (req_Model req) in
  ((with_registry s.1 r, s.2),
   match res with
   | Ok p => Ok p
   | Err (ErrNoProvider model) => Err (EWrap model NoProvider)
   | Err RoutePanic => Err Panic
   end).

(** The loop over the fallback chain; [last] is [lastErr]. *)
Fixpoint try_fallbacks (chain : list string) (primaryName : string) (ctx : Ctx) (req : ChatRequest)
    (last : option error) (s : sys) : sys * result (ChatResponse * string) error :=
  match chain with
  | [] => (s, Err (default (EAllFailed false (req_Model req)) last))
  | name :: chain =>
      if str_eqb name primaryName then try_fallbacks chain primaryName ctx req last s
      else
        match Registry_Get (h_registry s.1) name with
        | None => try_fallbacks chain primaryName ctx req last s
        | Some fallback =>
            let '(s, ok) := sys_allow s (Name fallback) in
            if negb ok then
              try_fallbacks chain primaryName ctx req last (sys_state s (Name fallback))
            else
              let mapped := Remap s.1 req fallback in
              match send_recorded ctx fallback mapped s with
              | (s, Ok resp) => (s, Ok (resp, Name fallback))
              | (s, Err e) => try_fallbacks chain primaryName ctx req (Some e) s
              end
        end
  end.

(** After the primary was skipped or has failed. *)
Definition dispatch_fallback (ctx : Ctx) (req : ChatRequest) (primaryName : string)
    (last : option error) (s : sys) : sys * result (ChatResponse * string) error :=
  let chain := h_fallbackChain s.1 in
  let '(s, hedged) :=
    if hg_Enabled (h_hedgeCfg s.1) && (1 <? List.length chain)%nat
    then dispatchHedge ctx req primaryName s else (s, None) in
  match hedged with
  | Some (resp, name) => (s, Ok (resp, name))
  | None => try_fallbacks chain primaryName ctx req last s
  end.

Definition dispatch (ctx : Ctx) (req : ChatRequest) (s : sys)
    : sys * result (ChatResponse * string) error :=
  match resolve req s with
  | (s, Err e) => (s, Err e)
  | (s, Ok primary) =>
      let '(s, ok) := sys_allow s (Name primary) in
      if negb ok then dispatch_fallback ctx req (Name primary) None (sys_state s (Name primary))
      else
        match send_recorded ctx primary req s with
        | (s, Ok resp) => (s, Ok (resp, Name primary))
        | (s, Err e) =>
            if negb (IsRetryable e) then (s, Err e)
            else dispatch_fallback ctx req (Name primary) (Some e) s
        end
  end.

(** *** Streaming *)

Record streamSession := mkStreamSession {
  ss_provider : P;
  ss_events : list stream_event;   (** what [ch] and [errCh] still deliver *)
  ss_first : option StreamChunk;
  ss_ctx : Ctx;                    (** the context [cancel] cancels *)
}.

(** [ch] and [errCh] tell whether the channel variable is non-nil; a nil
    channel delivers nothing.  [None]: the [select] blocks for ever. *)
Fixpoint firstStreamChunk (ch errCh : bool) (evs : list stream_event)
    : option (list stream_event * result (option StreamChunk) error) :=
  if negb (ch || errCh) then Some (evs, Ok None)
  else
    match evs with
    | [] => None
    | SChunk c :: evs => if ch then Some (evs, Ok (Some c)) else firstStreamChunk ch errCh evs
    | SClosed :: evs => firstStreamChunk false errCh evs
    | SErr (Some e) :: evs => if errCh then Some (evs, Err e) else firstStreamChunk ch errCh evs
    | SErr None :: evs => firstStreamChunk ch errCh evs
    | SErrClosed :: evs => firstStreamChunk ch false evs
    | SDone e :: evs => Some (evs, Err e)
    end.

Definition stream_providers (h : Hd) (primary : P) : list P :=
  primary ::
  omap (fun name => if str_eqb name (Name primary) then None else Registry_Get (h_registry h) name)
    (h_fallbackChain h).

(** The loop of [openStream]; [first] tells whether [i == 0]. *)
Fixpoint open_loop (first : bool) (ps : list P) (ctx : Ctx) (req : ChatRequest)
    (last : option error) (s : sys) : sys * option (result streamSession error) :=
  match ps with
  | [] => (s, Some (Err (default (EAllFailed true (req_Model req)) last)))
  | p :: ps =>
      let '(s, ok) := sys_allow s (Name p) in
      if negb ok then open_loop false ps ctx req last s
      else
        let mapped := if first then req else Remap s.1 req p in
        let '(w, sctx) := ctx_WithCancel ctx s.2 in
        let '(w, evs) := p_SendStream p sctx mapped w in
        match firstStreamChunk true true evs with
        | None => ((s.1, w), None)
        | Some (_, Err e) =>
            let w := ctx_Cancel sctx w in
            let s := (record_failure s.1 (Name p) (time_Now w), w) in
            if negb (IsRetryable e) then (s, Some (Err e))
            else open_loop false ps ctx req (Some e) s
        | Some (evs, Ok chunk) =>
            ((record_success s.1 (Name p), w), Some (Ok (mkStreamSession p evs chunk sctx)))
        end
  end.

Definition openStream (ctx : Ctx) (req : ChatRequest) (primary : P) (s : sys)
    : sys * option (result streamSession error) :=
  open_loop true (stream_providers s.1 primary) ctx req None s.

End dispatch.

(** What [handleStream] writes after the headers: [data: ...] with a chunk,
    [event: error] with an error, [data: [DONE]]. *)
Inductive frame := FChunk (c : StreamChunk) | FError (e : error) | FDone.

(** The [for] loop of [handleStream]: the frames written, and whether the
    loop has ended. *)
Fixpoint stream_loop (ch errCh : bool) (evs : list stream_event) (out : list frame) : list frame * bool :=
  let continue ch errCh evs out :=
    if negb ch && negb errCh then (out ++ [FDone], true) else stream_loop ch errCh evs out in
  match evs with
  | [] => (out, false)
  | SChunk c :: evs => if ch then continue ch errCh evs (out ++ [FChunk c]) else continue ch errCh evs out
  | SClosed :: evs => if ch then (out ++ [FDone], true) else continue ch errCh evs out
  | SErr (Some e) :: evs =>
      if errCh then (out ++ [FError e; FDone], true) else continue ch errCh evs out
  | SErr None :: evs | SErrClosed :: evs => continue ch false evs out
  | SDone _ :: evs => (out, true)
  end.

Definition stream_frames (first : option StreamChunk) (evs : list stream_event) : list frame * bool :=
  stream_loop true true evs (match first with Some c => [FChunk c] | None => [] end).

(** ** Frame: what the operations leave alone *)
Section frame.
Context {P Ctx Rng W L OS B C : Type} `{!Env P Ctx Rng W}.
Abbreviation Hd := (Handler P Rng L OS B C).
Abbreviation Name := (p_Name (P := P) (W := W)).
Abbreviation sys := (Hd * W)%type.
Implicit Types (h : Hd) (w : W) (s : sys) (ctx : Ctx) (req : ChatRequest) (p : P).

(** The handlers differ in their breakers at most. *)
Definition same_config h h' : Prop := with_circuits h' (h_circuits h) = h.

#[export] Instance same_config_refl : Reflexive same_config.
Proof. by intros []. Qed.
#[export] Instance same_config_trans : Transitive same_config.
Proof. unfold same_config. intros h1 h2 h3 H12 H23. etrans; [|exact H12]. by rewrite <-H23. Qed.

Lemma same_config_registry h h' : same_config h h' -> h_registry h' = h_registry h.
Proof. intros <-. done. Qed.
Lemma same_config_chain h h' : same_config h h' -> h_fallbackChain h' = h_fallbackChain h.
Proof. intros <-. done. Qed.
Lemma same_config_hedge h h' : same_config h h' -> h_hedgeCfg h' = h_hedgeCfg h.
Proof. intros <-. done. Qed.

Lemma same_config_breaker_cfg h h' : same_config h h' -> breaker_cfg h' = breaker_cfg h.
Proof. intros <-. done. Qed.

Lemma on_breaker_frame {A} h n (f : Breaker -> A * Breaker) : same_config h (on_breaker h n f).1.
Proof.
  unfold on_breaker, breakerFor. destruct (h_circuits h !! n) as [b|].
  - destruct (f b). by destruct h.
  - destruct (f (NewBreaker (breaker_cfg h))). by destruct h.
Qed.

(** A method call on one breaker leaves the others alone. *)
Definition breaker_of h n : Breaker := default (NewBreaker (breaker_cfg h)) (h_circuits h !! n).

Lemma on_breaker_circuits {A} h n (f : Breaker -> A * Breaker) :
  h_circuits (on_breaker h n f).1 = <[n := (f (breaker_of h n)).2]> (h_circuits h) /\
  (on_breaker h n f).2 = (f (breaker_of h n)).1.
Proof.
  unfold on_breaker, breakerFor, breaker_of. destruct (h_circuits h !! n) as [b|]; simpl.
  - by destruct (f b).
  - destruct (f _) as [a b]. simpl. by rewrite insert_insert_eq.
Qed.

Lemma sys_allow_frame s n : same_config s.1 (sys_allow s n).1.1.
Proof.
  unfold sys_allow, allow. pose proof (on_breaker_frame s.1 n (Breaker_Allow (time_Now s.2))).
  by destruct (on_breaker _ _ _).
Qed.

Lemma sys_state_frame s n : same_config s.1 (sys_state s n).1.
Proof. unfold sys_state, state_of. simpl. apply on_breaker_frame. Qed.

Lemma send_recorded_frame ctx p req s : same_config s.1 (send_recorded ctx p req s).1.1.
Proof.
  unfold send_recorded. destruct s as [h w]. destruct (sendWithRetry _ _ _ _ _) as [w' [resp|e]];
    unfold record_success, record_failure; apply on_breaker_frame.
Qed.

Lemma hedge_body_frame ctx req p s : same_config s.1 (hedge_body ctx req p s).1.1.
Proof.
  unfold hedge_body.
  match goal with |- context [send_recorded ctx p ?r s] => pose proof (send_recorded_frame ctx p r s) end.
  by destruct (send_recorded _ _ _ _) as [s' [resp|e]].
Qed.

Lemma hedge_exec_frame ctx req p1 p2 x ev : same_config x.2.1 (hedge_exec ctx req p1 p2 x ev).2.1.
Proof.
  destruct x as [hd s]. unfold hedge_exec, call_ends. pose proof (hedge_body_frame ctx req p1 s).
  pose proof (hedge_body_frame ctx req p2 s). simpl.
  destruct (hedge_body ctx req p1 s), (hedge_body ctx req p2 s).
  destruct ev; repeat case_match; simplify_eq/=; try done.
Qed.

Lemma hedge_settle_ind (Q : hedge * sys -> Prop) n ctx req p1 p2 x :
  (forall x ev, Q x -> Q (hedge_exec ctx req p1 p2 x ev)) -> Q x -> Q (hedge_settle n ctx req p1 p2 x).
Proof.
  intros HQ. revert x. induction n as [|n IHn]; intros x Hx; simpl; [done|].
  destruct (is_returned x.1); auto.
Qed.

(** A property the events preserve holds after any schedule. *)
Lemma hedge_run_ind (Q : hedge * sys -> Prop) ctx req p1 p2 x evs :
  (forall x ev, Q x -> Q (hedge_exec ctx req p1 p2 x ev)) -> Q x -> Q (hedge_run ctx req p1 p2 x evs).1.
Proof.
  intros HQ. revert x. induction evs as [|ev evs IH]; intros x Hx; cbn [hedge_run fst].
  - by apply hedge_settle_ind.
  - destruct (is_returned x.1); auto.
Qed.

Lemma hedge_fold_ind (Q : hedge * sys -> Prop) ctx req p1 p2 x evs :
  (forall x ev, Q x -> Q (hedge_exec ctx req p1 p2 x ev)) -> Q x -> Q (foldl (hedge_exec ctx req p1 p2) x evs).
Proof. intros HQ. revert x. induction evs as [|ev evs IH]; simpl; auto. Qed.

Lemma hedge_candidates_frame chain n found s :
  same_config s.1 (hedge_candidates chain n found s).1.1.
Proof.
  revert found s. induction chain as [|name chain IH]; intros found s; simpl; [done|].
  destruct (str_eqb name n); [done|].
  destruct (Registry_Get _ _) as [p|].
  - pose proof (sys_allow_frame s (Name p)) as Hf. destruct (sys_allow s (Name p)) as [s' ok]. simpl in Hf.
    destruct (_ =? 2)%nat; [done|]. etrans; [done|apply IH].
  - destruct (_ =? 2)%nat; [done|apply IH].
Qed.

Lemma dispatchHedge_frame ctx req n s : same_config s.1 (dispatchHedge ctx req n s).1.1.
Proof.
  unfold dispatchHedge. pose proof (hedge_candidates_frame (h_fallbackChain s.1) n [] s) as Hc.
  destruct (hedge_candidates _ _ _ _) as [s1 [|p1 [|p2 ps]]]; try done. simpl in Hc.
  destruct (ctx_WithTimeout _ _ _) as [w hctx].
  pose proof (hedge_run_ind (fun x => same_config s.1 x.2.1) hctx req p1 p2
    (hedge_init false, (s1.1, w)) (hedge_schedule w)) as Hr.
  destruct (hedge_run _ _ _ _ _ _) as [[hd s2] rest]. simpl in Hr.
  assert (same_config s.1 s2.1) as Hs2.
  { apply Hr; [|done]. intros x ev Hx. etrans; [done|]. apply hedge_exec_frame. }
  assert (forall x, same_config s.1 x.2.1 -> same_config s.1 (foldl (hedge_exec hctx req p1 p2) x rest).2.1) as Hl.
  { intros x. apply (hedge_fold_ind (fun x => same_config s.1 x.2.1)).
    intros y ev Hy. etrans; [done|]. apply hedge_exec_frame. }
  specialize (Hl (hd, (s2.1, ctx_Cancel hctx s2.2)) Hs2).
  by destruct (foldl _ _ rest).
Qed.

End frame.

(** ** What a dispatch delivers *)
Section delivery.
Context {P Ctx Rng W L OS B C : Type} `{!Env P Ctx Rng W}.
Abbreviation Hd := (Handler P Rng L OS B C).
Abbreviation Name := (p_Name (P := P) (W := W)).
Abbreviation sys := (Hd * W)%type.
Abbreviation raced := (option (ChatResponse * string)).
Implicit Types (h : Hd) (w : W) (s : sys) (ctx : Ctx) (req : ChatRequest) (p : P).

(** Some call of [Send] on [p] with [req] returned [resp]. *)
Definition delivered p req (resp : ChatResponse) : Prop :=
  exists ctx w w', p_Send p ctx req w = (w', Ok resp).

Lemma retry_loop_success {X E} (retryable : E -> bool) (fn : X -> X * option E) int63n wait n cfg a le (x x' : X) :
  le <> None -> retry_loop retryable fn int63n wait n cfg a le x = (x', None) ->
  exists y, fn y = (x', None).
Proof.
  revert a le x. induction n as [|n IH]; intros a le x Hle; simpl; [intros; simplify_eq|].
  destruct (a <? _); [|intros; simplify_eq]. destruct (fn x) as [y [e|]] eqn:Ef; [|intros; simplify_eq; eauto].
  destruct (negb _); [done|]. destruct (a =? _); [done|]. destruct (retry_delay _ _ _ _) as [y2 d].
  destruct (wait d y2) as [y3 [e'|]]; [done|]. by apply IH.
Qed.

Lemma Do_success {X E} (retryable : E -> bool) (fn : X -> X * option E) int63n wait cfg (x x' : X) :
  Do retryable fn int63n wait cfg x = (x', None) -> exists y, fn y = (x', None).
Proof.
  unfold Do, retry_fuel, retry_normalize. simpl.
  destruct (rt_MaxAttempts cfg <=? 0) eqn:E1.
  - change (Z.to_nat 1) with 1%nat. simpl. destruct (fn x) as [y [e|]] eqn:Ef; [|intros; simplify_eq; eauto].
    destruct (negb _); done.
  - destruct (Z.to_nat (rt_MaxAttempts cfg)) as [|n] eqn:En; [lia|]. simpl.
    replace (0 <? rt_MaxAttempts cfg) with true by lia.
    destruct (fn x) as [y [e|]] eqn:Ef; [|intros; simplify_eq; eauto].
    do 2 (case_match; [done|]). destruct (retry_delay _ _ _ _) as [y2 d].
    destruct (wait d y2) as [y3 [e'|]]; [done|].
    intros Hl. by apply retry_loop_success in Hl.
Qed.

(** A response of [sendWithRetry] is one of the provider. *)
Lemma sendWithRetry_ok cfg ctx p req w resp :
  (sendWithRetry cfg ctx p req w).2 = Ok resp -> delivered p req resp.
Proof.
  unfold sendWithRetry. destruct (Do _ _ _ _ _ _) as [a [err|]] eqn:Ed; simpl.
  { destruct (ctx_Err ctx (at_w a)); done. }
  apply Do_success in Ed as [y Hy]. unfold send_once in Hy.
  destruct (p_Send p ctx req (at_w y)) as [w' [resp'|e]] eqn:Es; [|done]. injection Hy as <-. simpl.
  intros [= <-]. by exists ctx, (at_w y), w'.
Qed.

Lemma send_recorded_ok ctx p req s resp :
  (send_recorded ctx p req s).2 = Ok resp -> delivered p req resp.
Proof.
  unfold send_recorded. destruct s as [h w]. pose proof (sendWithRetry_ok (h_retryCfg h) ctx p req w resp).
  destruct (sendWithRetry _ _ _ _ _) as [w' [r|e]]; simpl in *; [|done]. naive_solver.
Qed.

(** *** The race *)

(** [RemapForFallback] of the registry [r]. *)
Definition remap (r : Registry (P := P) (Rng := Rng)) req p : ChatRequest :=
  RemapForFallback (p_Models (P := P) (W := W)) regexp_Compile r req p.

Definition genuine (r : Registry) req p (res : hresult (V := raced) (E := error)) : Prop :=
  hr_err res = None -> exists resp, hr_val res = Some (resp, Name p) /\ delivered p (remap r req p) resp.

Definition genuine_g (r : Registry) req p (g : goroutine (V := raced) (E := error)) : Prop :=
  match g with Sent res | Received res => genuine r req p res | _ => True end.

Lemma hedge_body_genuine ctx req p s : genuine (h_registry s.1) req p (hedge_body ctx req p s).2.
Proof.
  unfold hedge_body, genuine.
  match goal with |- context [send_recorded ctx p ?q s] =>
    pose proof (send_recorded_ok ctx p q s) as Hs; destruct (send_recorded ctx p q s) as [s' [resp|e]] end;
    simpl; [|done].
  intros _. exists resp. split; [done|]. by apply Hs.
Qed.

Record race_inv (r : Registry) req p1 p2 (x : hedge * sys) : Prop := {
  ri_hedge : exists ctxErr, hedge_inv None ctxErr x.1;
  ri_primary : genuine_g r req p1 (h_primary x.1);
  ri_fallback : genuine_g r req p2 (h_fallback x.1);
  ri_registry : h_registry x.2.1 = r;
}.

Lemma hedge_select_goroutines ctxErr c (hd hd' : hedge (V := raced) (E := error)) :
  hedge_select None ctxErr c hd = Some hd' ->
  (forall r req p, genuine_g r req p (h_primary hd) -> genuine_g r req p (h_primary hd')) /\
  (forall r req p, genuine_g r req p (h_fallback hd) -> genuine_g r req p (h_fallback hd')).
Proof.
  unfold hedge_select. destruct hd as [ph g1 g2 t par]. simpl.
  destruct ph, c; try done; repeat case_match; intros; simplify_eq/=; split; intros; try done.
Qed.

Lemma hedge_select_reinv e1 e2 c (hd hd' : hedge (V := raced) (E := error)) :
  hedge_inv None e1 hd -> hedge_select None e2 c hd = Some hd' -> hedge_inv None e2 hd'.
Proof.
  intros Hi Hs. eapply hedge_select_inv; [|done]. destruct (is_returned hd) eqn:Hr.
  - unfold hedge_select, is_returned in *. by destruct (h_phase hd), c.
  - destruct (hedge_inv_not_returned _ _ _ Hi Hr) as [? Hp]. split; [done|]. by destruct (h_phase hd).
Qed.

(** A goroutine whose call ends. *)
Lemma call_ends_inv r ctx req p1 p2 x drop (first : bool) :
  let p := if first then p1 else p2 in
  let set g := if first
    then mkHedge (h_phase x.1) g (h_fallback x.1) (h_timer x.1) (h_parent x.1)
    else mkHedge (h_phase x.1) (h_primary x.1) g (h_timer x.1) (h_parent x.1) in
  race_inv r req p1 p2 x ->
  (if first then h_primary x.1 else h_fallback x.1) = Running ->
  race_inv r req p1 p2 (call_ends ctx req p drop set x).
Proof.
  intros p set [[e Hi] H1 H2 Hr] Hrun. unfold call_ends.
  pose proof (hedge_body_genuine ctx req p x.2) as Hg. pose proof (hedge_body_frame ctx req p x.2) as Hf.
  destruct (hedge_body ctx req p x.2) as [s' res]. simpl in Hg, Hf.
  apply same_config_registry in Hf.
  assert (hedge_step None e x.1 (set (if drop && ctx_done x.1 then Dropped else Sent res))) as Hs.
  { destruct first, drop; simpl in *; try (apply step_primary || apply step_fallback; done);
      destruct (ctx_done x.1) eqn:Hc; try (by apply step_primary_drop); try (by apply step_fallback_drop);
      by (apply step_primary || apply step_fallback). }
  split.
  - exists e. by eapply hedge_step_inv.
  - destruct first; simpl; [|done]. destruct (drop && _); simpl; [done|]. rewrite <-Hr. done.
  - destruct first; simpl; [done|]. destruct (drop && _); simpl; [done|]. rewrite <-Hr. done.
  - simpl. congruence.
Qed.

Lemma hedge_exec_inv r ctx req p1 p2 x ev :
  race_inv r req p1 p2 x -> race_inv r req p1 p2 (hedge_exec ctx req p1 p2 x ev).
Proof.
  intros Hx. pose proof Hx as [[e Hi] H1 H2 Hr]. destruct x as [hd s]. unfold hedge_exec.
  destruct ev as [c|drop|drop| |].
  - destruct (hedge_select _ _ c hd) as [hd'|] eqn:Hs; [|done].
    destruct (hedge_select_goroutines _ _ _ _ Hs). split; simpl in *; auto.
    eexists. by eapply hedge_select_reinv.
  - destruct (h_primary hd) eqn:E; try done. exact (call_ends_inv r ctx req p1 p2 (hd, s) drop true Hx E).
  - destruct (h_fallback hd) eqn:E; try done. exact (call_ends_inv r ctx req p1 p2 (hd, s) drop false Hx E).
  - destruct (is_returned hd) eqn:E; [done|]. split; simpl in *; try done.
    exists e. eapply hedge_step_inv; [done|]. by apply step_timer.
  - destruct (ctx_Err ctx s.2); [|done]. split; simpl in *; try done.
    exists e. eapply hedge_step_inv; [done|]. by apply step_cancel.
Qed.

Lemma race_inv_init req p1 p2 s : race_inv (h_registry s.1) req p1 p2 (hedge_init false, s).
Proof. split; try done. by exists Canceled. Qed.

(** A race that returned a value returned a response of one of the two. *)
Lemma race_inv_returned r req p1 p2 x v :
  race_inv r req p1 p2 x -> h_phase x.1 = Returned (mkHresult v None) ->
  exists p resp, (p = p1 \/ p = p2) /\ v = Some (resp, Name p) /\ delivered p (remap r req p) resp.
Proof.
  intros [[e [_ Hi]] H1 H2 _] Hp. rewrite Hp in Hi. destruct Hi as (res & Hres & He & Hv). simpl in Hv.
  destruct Hres as [E|E]; rewrite E in *; simpl in *;
    [destruct (H1 He) as (resp & Hr & Hd)|destruct (H2 He) as (resp & Hr & Hd)];
    rewrite Hv in Hr; eauto 10.
Qed.

(** *** Termination of the race *)
Definition settle_rank (hd : hedge (V := raced) (E := error)) : nat :=
  match h_phase hd with
  | FirstSelect => match h_primary hd with Sent _ => 1 | _ => if h_timer hd then 5 else 6 end
  | SecondSelect => match h_primary hd with Running => 4 | _ => 3 end
  | AwaitPrimary => match h_primary hd with Running => 2 | _ => 1 end
  | AwaitFallback => match h_fallback hd with Running => 2 | _ => 1 end
  | Returned _ => 0
  end.

Lemma hedge_next_progress ctx req p1 p2 (x : hedge * sys) e :
  hedge_inv None e x.1 -> is_returned x.1 = false ->
  (settle_rank (hedge_exec ctx req p1 p2 x (hedge_next x.1)).1 < settle_rank x.1)%nat.
Proof.
  intros Hi Hr. destruct (hedge_inv_not_returned _ _ _ Hi Hr) as [_ Hp].
  destruct x as [[ph g1 g2 t par] s]. unfold pending, failed, is_returned, ctx_done in *. simpl in *.
  assert (forall p, exists y, hedge_body ctx req p s = y) as Hb by eauto.
  destruct (Hb p1) as [[s1 r1] Hb1], (Hb p2) as [[s2 r2] Hb2].
  unfold settle_rank, hedge_next, hedge_exec, call_ends.
  destruct ph; try done; destruct Hp as [Hg1 Hg2]; simpl in *;
    [destruct g1, t|destruct g1|destruct g2|destruct g1]; try done; simpl in *; subst; simpl;
    rewrite ?Hb1, ?Hb2; simpl; try lia; unfold hedge_select, ctx_done; simpl in *; rewrite ?Hg1, ?Hg2; simpl; try lia;
    repeat case_match; simplify_eq/=; lia.
Qed.

Lemma settle_rank_fuel hd : (settle_rank hd <= settle_fuel)%nat.
Proof. unfold settle_rank, settle_fuel. repeat case_match; lia. Qed.

Lemma hedge_settle_returns n r ctx req p1 p2 x :
  race_inv r req p1 p2 x -> (settle_rank x.1 <= n)%nat ->
  is_returned (hedge_settle n ctx req p1 p2 x).1 = true.
Proof.
  revert x. induction n as [|n IH]; intros x Hx Hn; simpl.
  - destruct (is_returned x.1) eqn:E; [done|]. destruct Hx as [[e Hi] _ _ _].
    pose proof (hedge_next_progress ctx req p1 p2 x e Hi E). lia.
  - destruct (is_returned x.1) eqn:E; [done|]. pose proof Hx as [[e Hi] _ _ _].
    pose proof (hedge_next_progress ctx req p1 p2 x e Hi E).
    apply IH; [by apply hedge_exec_inv|lia].
Qed.

(** Whatever the schedule, [DoHedge] returns. *)
Lemma hedge_run_returns r ctx req p1 p2 x evs :
  race_inv r req p1 p2 x -> is_returned (hedge_run ctx req p1 p2 x evs).1.1 = true.
Proof.
  revert x. induction evs as [|ev evs IH]; intros x Hx; cbn [hedge_run].
  - eapply hedge_settle_returns; [done|]. apply settle_rank_fuel.
  - destruct (is_returned x.1) eqn:E; [done|]. apply IH. by apply hedge_exec_inv.
Qed.

(** *** Candidates and fallbacks *)

(** [p] is registered under a name of the chain that is not [primary]. *)
Definition fallback_of (h : Hd) (chain : list string) (primary : string) p : Prop :=
  exists n, n ∈ chain /\ n <> primary /\ Registry_Get (h_registry h) n = Some p.

Lemma fallback_of_cons h n chain primary p :
  fallback_of h chain primary p -> fallback_of h (n :: chain) primary p.
Proof. intros (m & ? & ?). exists m. by split; [right|]. Qed.

Lemma fallback_of_same h h' chain primary p :
  same_config h h' -> fallback_of h' chain primary p -> fallback_of h chain primary p.
Proof. intros He (m & ? & ? & Hg). exists m. by rewrite (same_config_registry _ _ He) in Hg. Qed.

Lemma hedge_candidates_fallbacks chain primary found s p :
  p ∈ (hedge_candidates chain primary found s).2 -> p ∈ found \/ fallback_of s.1 chain primary p.
Proof.
  revert found s. induction chain as [|n chain IH]; intros found s; simpl; [by left|].
  destruct (str_eqb n primary) eqn:En.
  { intros H. destruct (IH _ _ H); [by left|right; by apply fallback_of_cons]. }
  destruct (Registry_Get _ n) as [q|] eqn:Eq.
  - pose proof (sys_allow_frame s (Name q)) as Hf. destruct (sys_allow s (Name q)) as [s' ok]. simpl in Hf.
    intros H. assert (p ∈ (if ok then found ++ [q] else found) \/ fallback_of s.1 chain primary p) as Hp.
    { destruct (_ =? 2)%nat; [by left|]. destruct (IH _ _ H); [by left|right]. by eapply fallback_of_same. }
    destruct Hp as [Hp|Hp]; [|right; by apply fallback_of_cons].
    destruct ok; [|by left]. apply elem_of_app in Hp as [Hp|Hp]; [by left|right].
    apply list_elem_of_singleton in Hp as ->. exists n. split; [by left|]. by split; [apply str_eqb_false|].
  - intros H. destruct (_ =? 2)%nat; [by left|].
    destruct (IH _ _ H); [by left|right; by apply fallback_of_cons].
Qed.

Lemma dispatchHedge_delivered ctx req primary s resp name :
  (dispatchHedge ctx req primary s).2 = Some (resp, name) ->
  exists p, name = Name p /\ fallback_of s.1 (h_fallbackChain s.1) primary p /\
    delivered p (remap (h_registry s.1) req p) resp.
Proof.
  unfold dispatchHedge.
  pose proof (hedge_candidates_fallbacks (h_fallbackChain s.1) primary [] s) as Hc.
  pose proof (hedge_candidates_frame (h_fallbackChain s.1) primary [] s) as Hf.
  destruct (hedge_candidates _ _ _ _) as [s1 [|p1 [|p2 ps]]]; try done. simpl in Hc, Hf.
  destruct (ctx_WithTimeout _ _ _) as [w hctx].
  pose proof (race_inv_init req p1 p2 (s1.1, w)) as Hi. simpl in Hi.
  rewrite (same_config_registry _ _ Hf) in Hi.
  pose proof (hedge_run_ind (race_inv (h_registry s.1) req p1 p2) hctx req p1 p2
    (hedge_init false, (s1.1, w)) (hedge_schedule w) (fun x ev => hedge_exec_inv _ _ _ _ _ x ev) Hi) as Hr.
  destruct (hedge_run _ _ _ _ _ _) as [[hd s2] rest]. simpl in Hr.
  destruct (foldl _ _ rest) as [hd' s3]. simpl.
  destruct (h_phase hd) as [| | | |[v [e|]]] eqn:Ep; try done. intros ->.
  destruct (race_inv_returned _ _ _ _ _ _ Hr Ep) as (p & resp' & Hp & Hv & Hd). injection Hv as -> ->.
  exists p. split; [done|]. split; [|done].
  destruct (Hc p) as [H|H]; [|by apply elem_of_nil in H|done].
  destruct Hp as [-> | ->]; [left|right; left].
Qed.

(** [sendWithRetry] gave this error. *)
Definition rejected p req (e : error) : Prop :=
  exists cfg ctx w, (sendWithRetry cfg ctx p req w).2 = Err e.

Lemma send_recorded_err ctx p req s e : (send_recorded ctx p req s).2 = Err e -> rejected p req e.
Proof.
  unfold send_recorded. destruct s as [h w]. intros H. exists (h_retryCfg h), ctx, w.
  destruct (sendWithRetry _ _ _ _ _) as [w' [r|e']]; simpl in *; naive_solver.
Qed.

(** What a loop over fallbacks may return. *)
Definition fallback_result (h : Hd) (chain : list string) primary req (last : option error)
    (res : result (ChatResponse * string) error) : Prop :=
  match res with
  | Ok (resp, name) => exists p, name = Name p /\ fallback_of h chain primary p /\
      delivered p (remap (h_registry h) req p) resp
  | Err e => last = Some e \/ (last = None /\ e = EAllFailed false (req_Model req)) \/
      exists p, fallback_of h chain primary p /\ rejected p (remap (h_registry h) req p) e
  end.

Lemma fallback_result_mono h h' n chain primary req last last' res :
  same_config h h' ->
  last' = last \/ (exists e p, last' = Some e /\ fallback_of h (n :: chain) primary p /\
                     rejected p (remap (h_registry h) req p) e) ->
  fallback_result h' chain primary req last' res -> fallback_result h (n :: chain) primary req last res.
Proof.
  intros He Hl. unfold fallback_result. rewrite (same_config_registry _ _ He).
  assert (forall p, fallback_of h' chain primary p -> fallback_of h (n :: chain) primary p) as Hp.
  { intros p H. apply fallback_of_cons. by eapply fallback_of_same. }
  destruct res as [[resp name]|e].
  - intros (p & ? & ? & ?). exists p. auto.
  - intros [H|[[H ->]|(p & ? & ?)]].
    + destruct Hl as [->|(e' & p & -> & ? & ?)]; [auto|]. injection H as ->.
      right; right. by exists p.
    + destruct Hl as [->|(e' & p & -> & ? & ?)]; [auto|done].
    + right; right. exists p. auto.
Qed.

Lemma try_fallbacks_result chain primary ctx req last s :
  fallback_result s.1 chain primary req last (try_fallbacks chain primary ctx req last s).2.
Proof.
  revert last s. induction chain as [|n chain IH]; intros last s; simpl.
  { destruct last; [by left|right; by left]. }
  destruct (str_eqb n primary) eqn:En; [eapply fallback_result_mono; [done|by left|apply IH]|].
  destruct (Registry_Get _ n) as [q|] eqn:Eq; [|eapply fallback_result_mono; [done|by left|apply IH]].
  assert (fallback_of s.1 (n :: chain) primary q) as Hq.
  { exists n. split; [by left|]. by split; [apply str_eqb_false|]. }
  pose proof (sys_allow_frame s (Name q)) as Hf. destruct (sys_allow s (Name q)) as [s1 ok]. simpl in Hf.
  destruct ok; simpl.
  - pose proof (send_recorded_frame ctx q (remap (h_registry s1.1) req q) s1) as Hsf.
    pose proof (send_recorded_ok ctx q (remap (h_registry s1.1) req q) s1) as Hok.
    pose proof (send_recorded_err ctx q (remap (h_registry s1.1) req q) s1) as Herr.
    unfold remap in Hsf, Hok, Herr. rewrite (same_config_registry _ _ Hf) in *.
    destruct (send_recorded _ _ _ _) as [s2 [resp|e]]; simpl in *.
    + exists q. split; [done|]. split; [done|]. by apply Hok.
    + eapply fallback_result_mono; [etrans; [exact Hf|exact Hsf]| |apply IH].
      right. exists e, q. split; [done|]. split; [done|]. by apply Herr.
  - eapply fallback_result_mono; [|by left|apply IH]. etrans; [exact Hf|apply sys_state_frame].
Qed.

Lemma dispatch_fallback_result ctx req primary last s :
  fallback_result s.1 (h_fallbackChain s.1) primary req last (dispatch_fallback ctx req primary last s).2.
Proof.
  unfold dispatch_fallback. destruct (hg_Enabled _ && _).
  - pose proof (dispatchHedge_frame ctx req primary s) as Hf.
    pose proof (dispatchHedge_delivered ctx req primary s) as Hd.
    destruct (dispatchHedge ctx req primary s) as [s1 [[resp name]|]]; simpl in *.
    + destruct (Hd resp name eq_refl) as (p & ? & ? & ?). exists p. auto.
    + pose proof (try_fallbacks_result (h_fallbackChain s.1) primary ctx req last s1) as Ht.
      unfold fallback_result in *. rewrite (same_config_registry _ _ Hf) in Ht.
      assert (forall c p, fallback_of s1.1 c primary p -> fallback_of s.1 c primary p) as Hp.
      { intros c p. by apply fallback_of_same. }
      destruct (_.2) as [[resp name]|e].
      * destruct Ht as (p & ? & ? & ?). exists p. auto.
      * destruct Ht as [?|[?|(p & ? & ?)]]; [by left|by right; left|].
        right; right. exists p. auto.
  - apply try_fallbacks_result.
Qed.


(** The handler with another state of the generator. *)
Definition drawn (h : Hd) (rnd : Rng) : Hd := with_registry h (with_rnd (h_registry h) rnd).

Lemma drawn_id h : drawn h (rg_rnd (h_registry h)) = h.
Proof. destruct h as [[]]. done. Qed.

Lemma resolve_frame req s :
  exists rnd, (resolve req s).1 = (drawn s.1 rnd, s.2).
Proof.
  unfold resolve, drawn. destruct (Resolve_rnd regexp_Compile rand_Intn (h_registry s.1) (req_Model req)) as [rnd Hr].
  destruct (Resolve _ _ _ _) as [r res]. simpl in Hr. subst. by eexists.
Qed.

Lemma remap_aliases r r' req p : rg_aliases r = rg_aliases r' -> remap r req p = remap r' req p.
Proof. unfold remap, RemapForFallback. by intros ->. Qed.

(** The possible results of [dispatch]. *)
Definition dispatch_result ctx req s (res : result (ChatResponse * string) error) : Prop :=
  match (resolve req s).2 with
  | Err e => res = Err e
  | Ok primary =>
      match res with
      | Ok (resp, name) =>
          (name = Name primary /\ delivered primary req resp) \/
          (exists p, name = Name p /\ fallback_of s.1 (h_fallbackChain s.1) (Name primary) p /\
             delivered p (remap (h_registry s.1) req p) resp)
      | Err e =>
          e = EAllFailed false (req_Model req) \/ rejected primary req e \/
          (exists p, fallback_of s.1 (h_fallbackChain s.1) (Name primary) p /\
             rejected p (remap (h_registry s.1) req p) e)
      end
  end.

Lemma fallback_dispatch_result ctx req s s' primary last res :
  (resolve req s).2 = Ok primary ->
  (last = None \/ exists e, last = Some e /\ rejected primary req e) ->
  h_fallbackChain s'.1 = h_fallbackChain s.1 ->
  rg_aliases (h_registry s'.1) = rg_aliases (h_registry s.1) ->
  rg_byName (h_registry s'.1) = rg_byName (h_registry s.1) ->
  fallback_result s'.1 (h_fallbackChain s'.1) (Name primary) req last res ->
  dispatch_result ctx req s res.
Proof.
  intros Hres Hl Hc Ha Hb. unfold dispatch_result, fallback_result. rewrite Hres, Hc.
  assert (forall p, fallback_of s'.1 (h_fallbackChain s.1) (Name primary) p ->
                    fallback_of s.1 (h_fallbackChain s.1) (Name primary) p) as Hf.
  { intros p (n & ? & ? & Hg). exists n. unfold Registry_Get in *. by rewrite Hb in Hg. }
  assert (forall p, remap (h_registry s'.1) req p = remap (h_registry s.1) req p) as Hm.
  { intros p. by apply remap_aliases. }
  destruct res as [[resp name]|e].
  - intros (p & ? & ? & Hd). right. exists p. rewrite Hm in Hd. auto.
  - intros [H|[[_ H]|(p & ? & Hd)]]; [|by left|].
    + destruct Hl as [Hl|(e' & He & Hr)]; [congruence|]. right; left. congruence.
    + right; right. exists p. rewrite Hm in Hd. auto.
Qed.

End delivery.

Lemma dispatch_sound {P Ctx Rng W L OS B C : Type} `{!Env P Ctx Rng W}
    (ctx : Ctx) (req : ChatRequest) (s : Handler P Rng L OS B C * W) :
  dispatch_result ctx req s (dispatch ctx req s).2.
Proof.
  unfold dispatch. destruct (resolve_frame req s) as (rnd & Hr).
  destruct (resolve req s) as [s1 [primary|e]] eqn:Eres; simpl in Hr; subst s1;
    [|unfold dispatch_result; by rewrite Eres].
  set (s1 := (drawn s.1 rnd, s.2)). pose proof (sys_allow_frame s1 (p_Name primary)) as Hf.
  destruct (sys_allow s1 (p_Name primary)) as [s2 ok] eqn:Eok. simpl in Hf.
  destruct ok; simpl.
  - pose proof (send_recorded_frame ctx primary req s2) as Hs.
    pose proof (send_recorded_ok ctx primary req s2) as Hok.
    pose proof (send_recorded_err ctx primary req s2) as Herr.
    destruct (send_recorded ctx primary req s2) as [s3 [resp|e]]; simpl in *.
    { unfold dispatch_result. rewrite Eres. left. auto. }
    destruct (negb (IsRetryable e)).
    { unfold dispatch_result. rewrite Eres. simpl. right; left. by apply Herr. }
    assert (same_config s1.1 s3.1) as H13 by (by etrans).
    eapply (fallback_dispatch_result ctx req s s3); [by rewrite Eres|right; eauto|..].
    + by rewrite (same_config_chain _ _ H13).
    + by rewrite (same_config_registry _ _ H13).
    + by rewrite (same_config_registry _ _ H13).
    + apply dispatch_fallback_result.
  - assert (same_config s1.1 (sys_state s2 (p_Name primary)).1) as H13 by (etrans; [exact Hf|apply sys_state_frame]).
    eapply (fallback_dispatch_result ctx req s (sys_state s2 (p_Name primary))); [by rewrite Eres|by left|..].
    + by rewrite (same_config_chain _ _ H13).
    + by rewrite (same_config_registry _ _ H13).
    + by rewrite (same_config_registry _ _ H13).
    + apply dispatch_fallback_result.
Qed.

(** ** Who was asked, and which answer is given *)
Section attempts.
Context {P Ctx Rng W L OS B C : Type} `{!Env P Ctx Rng W}.
Abbreviation Hd := (Handler P Rng L OS B C).
Abbreviation Name := (p_Name (P := P) (W := W)).
Abbreviation sys := (Hd * W)%type.
Context (ctx : Ctx) (req : ChatRequest).
Implicit Types (s : sys) (p primary : P).

(** The primary was skipped because its breaker refused, or it was asked and
    failed so that others may be asked: its error, and the state after it. *)
Inductive primary_failed primary s : option error -> sys -> Prop :=
| primary_refused s1 :
    sys_allow s (Name primary) = (s1, false) -> primary_failed primary s None (sys_state s1 (Name primary))
| primary_retryable s1 s2 e :
    sys_allow s (Name primary) = (s1, true) -> send_recorded ctx primary req s1 = (s2, Err e) ->
    IsRetryable e = true -> primary_failed primary s (Some e) s2.

(** The race that precedes the loop over the fallbacks if hedging is on. *)
Definition race_first primary s : sys * option (ChatResponse * string) :=
  if hg_Enabled (h_hedgeCfg s.1) && (1 <? List.length (h_fallbackChain s.1))%nat
  then dispatchHedge ctx req (Name primary) s else (s, None).

(** The fallback of a name of the chain. *)
Definition fallback_at (primary : string) s (n : string) : option P :=
  if str_eqb n primary then None else Registry_Get (h_registry s.1) n.

(** The fallbacks of a part of the chain did not answer: each one in turn was
    refused by its breaker ([None]), or was asked with the request remapped
    for it and gave an error. *)
Inductive none_answered (primary : string) : list string -> sys -> list (option error) -> sys -> Prop :=
| none_left s : none_answered primary [] s [] s
| none_there n chain s es s' :
    fallback_at primary s n = None -> none_answered primary chain s es s' -> none_answered primary (n :: chain) s es s'
| none_allowed n p chain s s1 es s' :
    fallback_at primary s n = Some p -> sys_allow s (Name p) = (s1, false) ->
    none_answered primary chain (sys_state s1 (Name p)) es s' -> none_answered primary (n :: chain) s (None :: es) s'
| none_failed n p chain s s1 s2 e es s' :
    fallback_at primary s n = Some p -> sys_allow s (Name p) = (s1, true) ->
    send_recorded ctx p (remap (h_registry s1.1) req p) s1 = (s2, Err e) ->
    none_answered primary chain s2 es s' -> none_answered primary (n :: chain) s (Some e :: es) s'.

(** The last error among the attempts. *)
Definition last_error (first : option error) (es : list (option error)) : option error :=
  foldl (fun last e => match e with Some _ => e | None => last end) first es.

(** The first fallback of the chain to answer is [p]. *)
Definition first_answer (primary : string) (chain : list string) s (resp : ChatResponse) (name : string) : Prop :=
  exists before n after p es s1 s2,
    chain = before ++ n :: after /\ none_answered primary before s es s1 /\
    fallback_at primary s1 n = Some p /\ sys_allow s1 (Name p) = (s2, true) /\
    (send_recorded ctx p (remap (h_registry s2.1) req p) s2).2 = Ok resp /\ name = Name p.

Definition loop_outcome (primary : string) (chain : list string) s (first : option error)
    (out : sys * result (ChatResponse * string) error) : Prop :=
  match out with
  | (s', Err e) => exists es, none_answered primary chain s es s' /\
      e = default (EAllFailed false (req_Model req)) (last_error first es)
  | (_, Ok (resp, name)) => first_answer primary chain s resp name
  end.

Lemma loop_outcome_cons (primary : string) n chain s s1 first first' out es1 :
  (forall before es s', none_answered primary before s1 es s' -> none_answered primary (n :: before) s (es1 ++ es) s') ->
  last_error first es1 = first' ->
  loop_outcome primary chain s1 first' out -> loop_outcome primary (n :: chain) s first out.
Proof.
  intros Hcons <-. destruct out as [s' [[resp name]|e]]; simpl.
  - intros (before & m & after & p & es & s2 & s3 & -> & Hn & Hrest).
    exists (n :: before), m, after, p, (es1 ++ es), s2, s3. split; [done|]. split; [by apply Hcons|done].
  - intros (es & Hn & ->). exists (es1 ++ es). split; [by apply Hcons|]. unfold last_error. by rewrite foldl_app.
Qed.

Lemma try_fallbacks_outcome chain (primary : string) first s :
  loop_outcome primary chain s first (try_fallbacks chain primary ctx req first s).
Proof.
  revert first s. induction chain as [|n chain IH]; intros first s; simpl try_fallbacks.
  { exists []. by split; [constructor|]. }
  destruct (fallback_at primary s n) as [p|] eqn:Ef; unfold fallback_at in Ef.
  2:{ assert (loop_outcome primary (n :: chain) s first (try_fallbacks chain primary ctx req first s)) as Hl.
      { eapply (loop_outcome_cons _ _ _ s s first first _ []); [|done|apply IH].
        intros before es s' Hb. by apply none_there. }
      by destruct (str_eqb n primary); [|rewrite Ef]. }
  destruct (str_eqb n primary) eqn:En; [done|]. rewrite Ef.
  assert (fallback_at primary s n = Some p) as Hf by (unfold fallback_at; by rewrite En).
  destruct (sys_allow s (Name p)) as [s1 []] eqn:Ea; simpl.
  - fold (remap (h_registry s1.1) req p).
    destruct (send_recorded ctx p (remap (h_registry s1.1) req p) s1) as [s2 [resp|e]] eqn:Es.
    + exists [], n, chain, p, [], s, s1. split; [done|]. split; [constructor|]. do 2 (split; [done|]). by rewrite Es.
    + eapply (loop_outcome_cons _ _ _ s s2 first (Some e) _ [Some e]); [|done|apply IH].
      intros before es s' Hb. by eapply none_failed.
  - eapply (loop_outcome_cons _ _ _ s (sys_state s1 (Name p)) first first _ [None]); [|done|apply IH].
    intros before es s' Hb. by eapply none_allowed.
Qed.

(** Once the primary did not answer: the winner of the race, or else the first
    fallback to answer, or else the last error of all that was tried. *)
Definition fallback_outcome primary s (first : option error)
    (out : sys * result (ChatResponse * string) error) : Prop :=
  let raced := race_first primary s in
  match out.2 with
  | Ok (resp, name) =>
      (raced.2 = Some (resp, name) /\
       exists p, name = Name p /\ fallback_of s.1 (h_fallbackChain s.1) (Name primary) p /\
         delivered p (remap (h_registry s.1) req p) resp) \/
      (raced.2 = None /\ first_answer (Name primary) (h_fallbackChain s.1) raced.1 resp name)
  | Err e =>
      raced.2 = None /\
      exists es, none_answered (Name primary) (h_fallbackChain s.1) raced.1 es out.1 /\
        e = default (EAllFailed false (req_Model req)) (last_error first es)
  end.

Lemma dispatch_fallback_outcome primary first s :
  fallback_outcome primary s first (dispatch_fallback ctx req (Name primary) first s).
Proof.
  unfold dispatch_fallback, fallback_outcome. fold (race_first primary s). cbv zeta.
  assert (forall resp name, (race_first primary s).2 = Some (resp, name) ->
    exists p, name = Name p /\ fallback_of s.1 (h_fallbackChain s.1) (Name primary) p /\
      delivered p (remap (h_registry s.1) req p) resp) as Hr.
  { unfold race_first. intros resp name. destruct (_ && _); [apply dispatchHedge_delivered|done]. }
  destruct (race_first primary s) as [s1 [[resp name]|]]; cbn [fst snd] in *; [left; by eauto|].
  pose proof (try_fallbacks_outcome (h_fallbackChain s.1) (Name primary) first s1) as Hl.
  destruct (try_fallbacks _ _ _ _ _ _) as [s2 [[resp name]|e]]; cbn [fst snd] in *.
  - by right.
  - by split.
Qed.

End attempts.

(** C7. [dispatch] answers with [Resolve]'s error; or with what the primary gave to
    the request itself, a response or an error that is not retryable; or, the
    primary having been refused by its breaker or having failed in a
    retryable way, with the response of the winner of the race between two
    fallbacks if hedging is on, else with that of the first fallback of the
    chain to answer the request remapped for it, every one before it having
    been refused or having failed; and if none answered, with the last error
    that was given.  The gateway's own error is given only if nothing was
    asked outside of a race: the breaker of the primary and those of all
    registered fallbacks refused. *)
Theorem dispatch_outcome {P Ctx Rng W L OS B C : Type} `{!Env P Ctx Rng W}
    (ctx : Ctx) (req : ChatRequest) (s : Handler P Rng L OS B C * W) :
  let out := dispatch ctx req s in
  match resolve req s with
  | (_, Err e) => out.2 = Err e
  | (s1, Ok primary) =>
      (exists s2, sys_allow s1 (p_Name (W := W) primary) = (s2, true) /\
         match (send_recorded ctx primary req s2).2 with
         | Ok resp => out.2 = Ok (resp, p_Name (W := W) primary)
         | Err e => IsRetryable e = false /\ out.2 = Err e
         end) \/
      (exists first s2, primary_failed ctx req primary s1 first s2 /\ fallback_outcome ctx req primary s2 first out)
  end.
Proof.
  unfold dispatch. destruct (resolve req s) as [s1 [primary|e]]; [|done]. cbv zeta.
  destruct (sys_allow s1 _) as [s2 []] eqn:Ea; simpl negb; cbv iota.
  - destruct (send_recorded ctx primary req s2) as [s3 [resp|e]] eqn:Es.
    + left. exists s2. by rewrite Es.
    + destruct (IsRetryable e) eqn:Er; simpl negb; cbv iota.
      * right. exists (Some e), s3. split; [by eapply primary_retryable|apply dispatch_fallback_outcome].
      * left. exists s2. by rewrite Es.
  - right. exists None. eexists. split; [by apply primary_refused|apply dispatch_fallback_outcome].
Qed.

(** ** Invariants of a dispatch *)
Section rule.
Context {P Ctx Rng W L OS B C : Type} `{!Env P Ctx Rng W}.
Abbreviation Hd := (Handler P Rng L OS B C).
Abbreviation Name := (p_Name (P := P) (W := W)).
Abbreviation sys := (Hd * W)%type.
Implicit Types (h : Hd) (w : W) (s : sys) (ctx : Ctx) (req : ChatRequest) (p : P).

(** [J] holds between the calls, [K n] after a call of [n] was allowed and
    before its outcome is recorded. *)
Record dispatch_rule (J : sys -> Prop) (K : string -> sys -> Prop) : Prop := {
  dr_draw h w rnd : J (h, w) -> J (drawn h rnd, w);
  dr_skip s n : J s -> (sys_allow s n).2 = false -> J (sys_allow s n).1;
  dr_allow s n : J s -> (sys_allow s n).2 = true -> K n (sys_allow s n).1;
  dr_record ctx p req s : K (Name p) s -> J (send_recorded ctx p req s).1;
  dr_state s n : J s -> J (sys_state s n);
  dr_hedge ctx req n s : J s -> hg_Enabled (h_hedgeCfg s.1) = true -> J (dispatchHedge ctx req n s).1;
}.

Lemma try_fallbacks_rule J K chain primary ctx req last s :
  dispatch_rule J K -> J s -> J (try_fallbacks chain primary ctx req last s).1.
Proof.
  intros [_ Hskip Hallow Hrec Hst _]. revert last s. induction chain as [|n chain IH]; intros last s Hs; simpl; [done|].
  destruct (str_eqb n primary); [auto|]. destruct (Registry_Get _ n) as [q|]; [|auto].
  specialize (Hskip s (Name q) Hs). specialize (Hallow s (Name q) Hs).
  destruct (sys_allow s (Name q)) as [s1 [|]]; simpl in *; [|auto].
  match goal with |- context [send_recorded ctx q ?r s1] =>
    pose proof (Hrec ctx q r s1 (Hallow eq_refl)) as Hr; destruct (send_recorded ctx q r s1) as [s2 [resp|e]] end;
    simpl in *; auto.
Qed.

Lemma dispatch_rule_sound J K ctx req s : dispatch_rule J K -> J s -> J (dispatch ctx req s).1.
Proof.
  intros HR Hs. pose proof HR as [Hreg Hskip Hallow Hrec Hst Hh]. unfold dispatch.
  destruct (resolve_frame req s) as (rnd & Hr). destruct (resolve req s) as [s1 [primary|e]]; simpl in Hr; subst.
  2:{ apply Hreg. by destruct s. }
  assert (J (drawn s.1 rnd, s.2)) as H1 by (apply Hreg; by destruct s).
  specialize (Hskip _ (Name primary) H1). specialize (Hallow _ (Name primary) H1).
  assert (forall n last s, J s -> J (dispatch_fallback ctx req n last s).1) as Hfb.
  { intros n last s' Hs'. unfold dispatch_fallback. destruct (hg_Enabled _ && _) eqn:E.
    - apply andb_true_iff in E as [E _]. specialize (Hh ctx req n s' Hs' E).
      destruct (dispatchHedge _ _ _ _) as [s2 [[resp name]|]]; simpl in *; [done|].
      by eapply try_fallbacks_rule.
    - by eapply try_fallbacks_rule. }
  destruct (sys_allow _ _) as [s2 [|]]; simpl in *; [|auto].
  specialize (Hrec ctx primary req s2 (Hallow eq_refl)).
  destruct (send_recorded _ _ _ _) as [s3 [resp|e]]; simpl in *; [done|].
  destruct (negb _); auto.
Qed.

(** *** Single breakers *)
Lemma breaker_of_on {A} h n (f : Breaker -> A * Breaker) m :
  breaker_of (on_breaker h n f).1 m = if decide (m = n) then (f (breaker_of h n)).2 else breaker_of h m.
Proof.
  destruct (on_breaker_circuits h n f) as [Hc _]. pose proof (on_breaker_frame h n f) as Hf.
  unfold breaker_of at 1. rewrite Hc. assert (breaker_cfg (on_breaker h n f).1 = breaker_cfg h) as ->.
  { by apply same_config_breaker_cfg. }
  destruct (decide (m = n)) as [->|Hne]; [by rewrite lookup_insert_eq|by rewrite lookup_insert_ne].
Qed.

Lemma sys_allow_breaker s n m :
  breaker_of (sys_allow s n).1.1 m =
    if decide (m = n) then (Breaker_Allow (time_Now s.2) (breaker_of s.1 n)).2 else breaker_of s.1 m.
Proof.
  unfold sys_allow, allow. pose proof (breaker_of_on s.1 n (Breaker_Allow (time_Now s.2)) m) as H.
  by destruct (on_breaker _ _ _).
Qed.

Lemma sys_allow_result s n : (sys_allow s n).2 = (Breaker_Allow (time_Now s.2) (breaker_of s.1 n)).1.
Proof.
  unfold sys_allow, allow. destruct (on_breaker_circuits s.1 n (Breaker_Allow (time_Now s.2))) as [_ <-].
  by destruct (on_breaker _ _ _).
Qed.

Lemma sys_allow_world s n : (sys_allow s n).1.2 = s.2.
Proof. unfold sys_allow. by destruct (allow _ _ _). Qed.

Lemma sys_state_breaker s n m :
  breaker_of (sys_state s n).1 m =
    if decide (m = n) then (Breaker_State (time_Now s.2) (breaker_of s.1 n)).2 else breaker_of s.1 m.
Proof. unfold sys_state, state_of. apply breaker_of_on. Qed.

(** The record of an outcome: a success, or a failure at some time. *)
Definition recorded (b b' : Breaker) : Prop :=
  b' = Breaker_RecordSuccess b \/ exists t, b' = Breaker_RecordFailure t b.

Lemma send_recorded_breaker ctx p req s m :
  exists b', recorded (breaker_of s.1 (Name p)) b' /\
    breaker_of (send_recorded ctx p req s).1.1 m = if decide (m = Name p) then b' else breaker_of s.1 m.
Proof.
  unfold send_recorded. destruct s as [h w]. destruct (sendWithRetry _ _ _ _ _) as [w' [resp|e]]; simpl.
  - exists (Breaker_RecordSuccess (breaker_of h (Name p))). split; [by left|].
    unfold record_success. apply breaker_of_on.
  - exists (Breaker_RecordFailure (time_Now w') (breaker_of h (Name p))). split; [right; eauto|].
    unfold record_failure. apply breaker_of_on.
Qed.

(** *** Half-open slots *)
Definition pend h n : Z := b_halfOpenPend (breaker_of h n).

Lemma Allow_pend now b :
  0 <= b_halfOpenPend b ->
  let b1 := (Breaker_Allow now b).2 in
  (Breaker_Allow now b).1 = true -> forall b2, recorded b1 b2 -> 0 <= b_halfOpenPend b2 <= b_halfOpenPend b.
Proof.
  intros Hp b1 Ht b2 Hr. subst b1. destruct b as [cfg st f su la pd].
  destruct Hr as [->|[t ->]]; unfold Breaker_Allow in *; simpl in *;
    destruct st; simpl in *; breaker_unfold; simpl in *; repeat (case_match; simpl in *; try done); lia.
Qed.

Lemma Allow_skip now b : (Breaker_Allow now b).1 = false -> (Breaker_Allow now b).2 = b.
Proof. unfold Breaker_Allow. repeat case_match; done. Qed.

Lemma State_pend now b : 0 <= b_halfOpenPend b ->
  0 <= b_halfOpenPend (Breaker_State now b).2 <= b_halfOpenPend b.
Proof. unfold Breaker_State. intros. case_match; simpl; lia. Qed.

Definition slots_within (pend0 : string -> Z) s : Prop :=
  hg_Enabled (h_hedgeCfg s.1) = false /\ forall n, 0 <= pend s.1 n <= pend0 n.

Lemma slots_rule pend0 :
  dispatch_rule (slots_within pend0)
    (fun n s => hg_Enabled (h_hedgeCfg s.1) = false /\
       (forall m, m <> n -> 0 <= pend s.1 m <= pend0 m) /\
       forall b, recorded (breaker_of s.1 n) b -> 0 <= b_halfOpenPend b <= pend0 n).
Proof.
  unfold slots_within, pend. split.
  - done.
  - intros s n [He Hp] Hok. rewrite (same_config_hedge _ _ (sys_allow_frame s n)). split; [done|].
    intros m. rewrite sys_allow_breaker. rewrite sys_allow_result in Hok.
    rewrite (Allow_skip _ _ Hok). destruct (decide (m = n)) as [->|]; auto.
  - intros s n [He Hp] Hok. rewrite (same_config_hedge _ _ (sys_allow_frame s n)). split; [done|]. split.
    + intros m Hne. rewrite sys_allow_breaker. by rewrite decide_False.
    + rewrite sys_allow_breaker, decide_True by done. rewrite sys_allow_result in Hok.
      intros b Hb. pose proof (Allow_pend _ _ (proj1 (Hp n)) Hok b Hb). specialize (Hp n). lia.
  - intros ctx p req s (He & Hm & Hn). rewrite (same_config_hedge _ _ (send_recorded_frame ctx p req s)).
    split; [done|]. intros m. destruct (send_recorded_breaker ctx p req s m) as (b & Hb & ->).
    destruct (decide (m = Name p)) as [->|Hne]; auto.
  - intros s n [He Hp]. rewrite (same_config_hedge _ _ (sys_state_frame s n)). split; [done|].
    intros m. rewrite sys_state_breaker. destruct (decide (m = n)) as [->|]; [|done].
    pose proof (State_pend (time_Now s.2) (breaker_of s.1 n) (proj1 (Hp n))). specialize (Hp n). lia.
  - intros ctx req n s [He _] Hh. congruence.
Qed.

End rule.

(** ** Frame of a whole dispatch *)
Section frames.
Context {P Ctx Rng W L OS B C : Type} `{!Env P Ctx Rng W}.
Abbreviation Hd := (Handler P Rng L OS B C).
Abbreviation sys := (Hd * W)%type.
Implicit Types (h : Hd) (s : sys) (ctx : Ctx) (req : ChatRequest) (p : P).

(** Up to the breakers and the state of the router's generator. *)
Definition same_handler h h' : Prop := exists rnd, same_config (drawn h rnd) h'.

Lemma dispatch_frame ctx req s : same_handler s.1 (dispatch ctx req s).1.1.
Proof.
  apply (dispatch_rule_sound (fun s' => same_handler s.1 s'.1) (fun _ s' => same_handler s.1 s'.1)).
  - split.
    + intros h w rnd [r0 Hr]. exists rnd. exact (f_equal (fun x => drawn x rnd) Hr).
    + intros s' n [r Hr] _. exists r. etrans; [done|apply sys_allow_frame].
    + intros s' n [r Hr] _. exists r. etrans; [done|apply sys_allow_frame].
    + intros c p q s' [r Hr]. exists r. etrans; [done|apply send_recorded_frame].
    + intros s' n [r Hr]. exists r. etrans; [done|apply sys_state_frame].
    + intros c q n s' [r Hr] _. exists r. etrans; [done|apply dispatchHedge_frame].
  - exists (rg_rnd (h_registry s.1)). by rewrite drawn_id.
Qed.

Lemma open_loop_frame first ps ctx req last s : same_config s.1 (open_loop first ps ctx req last s).1.1.
Proof.
  revert first last s. induction ps as [|p ps IH]; intros first last s; simpl; [done|].
  pose proof (sys_allow_frame s (p_Name p)) as Hf. destruct (sys_allow s (p_Name p)) as [s1 ok]. simpl in Hf.
  destruct ok; simpl; [|etrans; [exact Hf|apply IH]].
  destruct (ctx_WithCancel ctx s1.2) as [w1 sctx]. destruct (p_SendStream p sctx _ w1) as [w2 evs].
  assert (forall t, same_config s.1 (record_failure s1.1 (p_Name p) t)) as Hrf.
  { intros t. etrans; [exact Hf|]. unfold record_failure. apply on_breaker_frame. }
  destruct (firstStreamChunk true true evs) as [[rest [chunk|e]]|]; simpl.
  - etrans; [exact Hf|]. unfold record_success. apply on_breaker_frame.
  - destruct (negb (IsRetryable e)); simpl; [apply Hrf|]. etrans; [|apply IH]. apply Hrf.
  - done.
Qed.

End frames.

(** ** An open breaker shields its provider *)
Section shield.
Context {P Ctx Rng W L OS B C : Type} `{!Env P Ctx Rng W}.
Abbreviation Hd := (Handler P Rng L OS B C).
Abbreviation Name := (p_Name (P := P) (W := W)).
Abbreviation sys := (Hd * W)%type.
Implicit Types (h : Hd) (w : W) (s : sys) (ctx : Ctx) (req : ChatRequest) (p : P).
Context (name : string) (I : W -> Prop).

(** [I] survives every operation but a call of [Send] on a provider called
    [name]: for instance, that so many such calls were made. *)
Record avoids : Prop := {
  av_send p ctx req w : Name p <> name -> I w -> I (p_Send p ctx req w).1;
  av_rand n w : I w -> I (rand_Int63n n w).1;
  av_wait ctx d w : I w -> I (ctx_Wait ctx d w).1;
  av_timeout ctx d w : I w -> I (ctx_WithTimeout ctx d w).1;
  av_cancel ctx w : I w -> I (ctx_Cancel ctx w);
}.

Lemma retry_loop_keeps {X E} (J : X -> Prop) (retryable : E -> bool) fn int63n wait n cfg a le (x : X) :
  (forall x, J x -> J (fn x).1) -> (forall n x, J x -> J (int63n n x).1) ->
  (forall d x, J x -> J (wait d x).1) -> J x ->
  J (retry_loop retryable fn int63n wait n cfg a le x).1.
Proof.
  intros Hf Hr Hw. revert a le x. induction n as [|n IH]; intros a le x Hx; simpl; [done|].
  destruct (a <? _); [|done]. specialize (Hf x Hx). destruct (fn x) as [y [e|]]; simpl in *; [|done].
  do 2 (case_match; [done|]).
  assert (J (retry_delay int63n cfg a y).1) as Hd.
  { unfold retry_delay. destruct (rt_Jitter cfg); [|done]. case_match; [|done].
    match goal with |- context [int63n ?k y] => specialize (Hr k y Hf); destruct (int63n k y) end. done. }
  destruct (retry_delay _ _ _ _) as [y2 d]. specialize (Hw d y2 Hd).
  destruct (wait d y2) as [y3 [e'|]]; simpl in *; auto.
Qed.

Lemma sendWithRetry_avoids cfg ctx p req w :
  avoids -> Name p <> name -> I w -> I (sendWithRetry cfg ctx p req w).1.
Proof.
  intros [Hs Hr Hw _ _] Hp HI. unfold sendWithRetry, Do.
  match goal with |- context [retry_loop _ _ _ _ ?n ?c ?i ?le ?x] =>
    pose proof (retry_loop_keeps (fun y => I (at_w y)) IsRetryable (send_once ctx p req)
      attempt_rand (attempt_wait ctx) n c i le x) as H; destruct (retry_loop _ _ _ _ n c i le x) as [a' err] end.
  simpl in *. apply H; try done.
  - intros x Hx. specialize (Hs p ctx req (at_w x) Hp Hx). unfold send_once.
    by destruct (p_Send p ctx req (at_w x)) as [w' [r|e]].
  - intros n x Hx. specialize (Hr n (at_w x) Hx). unfold attempt_rand. by destruct (rand_Int63n n (at_w x)).
  - intros d x Hx. specialize (Hw ctx d (at_w x) Hx). unfold attempt_wait. by destruct (ctx_Wait ctx d (at_w x)).
Qed.

Context (b0 : Breaker).

(** The breaker of [name] is [b0], and [I] holds. *)
Definition shielded s : Prop := breaker_of s.1 name = b0 /\ I s.2.

Context (Hcs : avoids) (Hopen : b_state b0 = StateOpen).
Context (Hearly : forall w, I w -> open_elapsed (time_Now w) b0 = false).

Lemma send_recorded_shielded ctx p req s : shielded s -> Name p <> name -> shielded (send_recorded ctx p req s).1.
Proof using Hcs.
  intros [Hb Hk] Hp. split.
  - destruct (send_recorded_breaker ctx p req s name) as (b & _ & ->). by rewrite decide_False by congruence.
  - pose proof (sendWithRetry_avoids (h_retryCfg s.1) ctx p req s.2 Hcs Hp Hk) as H.
    unfold send_recorded. destruct s as [h w]. simpl in *.
    by destruct (sendWithRetry _ _ _ _ _) as [w' [r|e]].
Qed.

Lemma sys_allow_shielded s n :
  shielded s -> shielded (sys_allow s n).1 /\ ((sys_allow s n).2 = true -> n <> name).
Proof using Hopen Hearly.
  intros [Hb Hk].
  assert (Breaker_Allow (time_Now s.2) b0 = (false, b0)) as Ha by (unfold Breaker_Allow; by rewrite Hopen, Hearly by done).
  split; [split|].
  - rewrite sys_allow_breaker. destruct (decide (name = n)) as [<-|]; [|done]. by rewrite Hb, Ha.
  - by rewrite sys_allow_world.
  - intros Hok ->. rewrite sys_allow_result, Hb, Ha in Hok. done.
Qed.

Lemma hedge_exec_shielded ctx req p1 p2 x ev :
  Name p1 <> name -> Name p2 <> name -> shielded x.2 -> shielded (hedge_exec ctx req p1 p2 x ev).2.
Proof using Hcs.
  intros H1 H2 Hx. destruct x as [hd s]. simpl in Hx.
  assert (forall p, Name p <> name -> shielded (hedge_body ctx req p s).1) as Hb.
  { intros p Hp. unfold hedge_body.
    match goal with |- context [send_recorded ctx p ?r s] =>
      pose proof (send_recorded_shielded ctx p r s Hx Hp) as H; by destruct (send_recorded ctx p r s) as [s' [r'|e]] end. }
  pose proof (Hb p1 H1) as Hb1. pose proof (Hb p2 H2) as Hb2. unfold hedge_exec, call_ends. simpl.
  destruct (hedge_body ctx req p1 s), (hedge_body ctx req p2 s).
  destruct ev; repeat case_match; simplify_eq/=; done.
Qed.

Lemma hedge_candidates_shielded chain n found s :
  shielded s -> Forall (fun p => Name p <> name) found ->
  shielded (hedge_candidates chain n found s).1 /\
  Forall (fun p => Name p <> name) (hedge_candidates chain n found s).2.
Proof using Hopen Hearly.
  revert found s. induction chain as [|m chain IH]; intros found s Hs Hf; simpl; [done|].
  destruct (str_eqb m n); [auto|]. destruct (Registry_Get _ m) as [q|].
  - destruct (sys_allow_shielded s (Name q) Hs) as [Hs' Hq].
    destruct (sys_allow s (Name q)) as [s' ok]. simpl in *.
    assert (Forall (fun p => Name p <> name) (if ok then found ++ [q] else found)).
    { destruct ok; [|done]. apply Forall_app. split; [done|]. constructor; [by apply Hq|done]. }
    destruct (_ =? 2)%nat; auto.
  - destruct (_ =? 2)%nat; auto.
Qed.

Lemma shield_rule : dispatch_rule shielded (fun n s => shielded s /\ n <> name).
Proof using Hcs Hopen Hearly.
  split.
  - intros h w r [Hb Hk]. done.
  - intros s n Hs _. by apply sys_allow_shielded.
  - intros s n Hs Hok. destruct (sys_allow_shielded s n Hs). auto.
  - intros ctx p req s [Hs Hn]. by apply send_recorded_shielded.
  - intros s n [Hb Hk]. split; [|done]. rewrite sys_state_breaker. destruct (decide (name = n)) as [<-|]; [|done].
    rewrite Hb. unfold Breaker_State. rewrite Hopen, Hearly by done. done.
  - intros ctx req n s Hs _. unfold dispatchHedge.
    destruct (hedge_candidates_shielded (h_fallbackChain s.1) n [] s Hs ltac:(done)) as [Hc Hf].
    destruct (hedge_candidates _ _ _ _) as [s1 [|p1 [|p2 ps]]]; try done. simpl in Hc, Hf.
    inversion Hf as [|? ? H1 Hf']; subst. inversion Hf' as [|? ? H2 _]; subst.
    destruct Hcs as [_ _ _ Hto Hca].
    destruct Hc as [Hcb HcI]. specialize (Hto ctx (hedge_timeout (h_retryCfg s1.1)) s1.2 HcI).
    destruct (ctx_WithTimeout _ _ _) as [w hctx]. simpl in Hto.
    pose proof (hedge_run_ind (fun x => shielded x.2) hctx req p1 p2
      (hedge_init false, (s1.1, w)) (hedge_schedule w)
      (fun x ev Hx => hedge_exec_shielded hctx req p1 p2 x ev H1 H2 Hx)) as Hr.
    destruct (hedge_run _ _ _ _ _ _) as [[hd s2] rest]. simpl in Hr.
    assert (shielded s2) as [Hb2 Hk2] by (by apply Hr).
    pose proof (hedge_fold_ind (fun x => shielded x.2) hctx req p1 p2 (hd, (s2.1, ctx_Cancel hctx s2.2)) rest
      (fun x ev Hx => hedge_exec_shielded hctx req p1 p2 x ev H1 H2 Hx)) as Hl.
    destruct (foldl _ _ rest) as [hd' s3]. simpl in *. apply Hl. split; simpl; [done|]. by apply Hca.
Qed.

End shield.

(** C10. A provider whose breaker is open, with the timeout not elapsed, gets no
    call from a dispatch, by any path (primary, fallback or hedge), and its
    breaker is left as it is: what only a call could change still holds. *)
Theorem dispatch_skips_open {P Ctx Rng W L OS B C : Type} `{!Env P Ctx Rng W} name (I : W -> Prop)
    (ctx : Ctx) req (s : Handler P Rng L OS B C * W) :
  avoids name I -> b_state (breaker_of s.1 name) = StateOpen ->
  (forall w, I w -> open_elapsed (time_Now w) (breaker_of s.1 name) = false) -> I s.2 ->
  let s' := (dispatch ctx req s).1 in
  breaker_of s'.1 name = breaker_of s.1 name /\ I s'.2.
Proof.
  intros Hc Ho He HI. exact (dispatch_rule_sound _ _ ctx req s (shield_rule name I _ Hc Ho He) (conj eq_refl HI)).
Qed.

(** C12. Without hedging, every half-open slot a dispatch takes is given back,
    whatever the providers do: no breaker ends with more pending probes. *)
Theorem dispatch_returns_slots {P Ctx Rng W L OS B C : Type} `{!Env P Ctx Rng W}
    (ctx : Ctx) req (s : Handler P Rng L OS B C * W) :
  hg_Enabled (h_hedgeCfg s.1) = false -> (forall n, 0 <= pend s.1 n) ->
  forall n, 0 <= pend (dispatch ctx req s).1.1 n <= pend s.1 n.
Proof.
  intros Hh Hp. apply (dispatch_rule_sound _ _ ctx req s (slots_rule (pend s.1))).
  split; [done|]. intros n. specialize (Hp n). lia.
Qed.

(** ** A concrete environment *)

(** A world with a log of calls, the providers that are down, and a clock. *)
Record ex_world := mkExWorld {
  xw_log : list string;
  xw_down : list string;
  xw_cancelled : bool;
  xw_now : Z;
  xw_schedule : list hedge_event;
}.

Definition ex_response (model : string) : ChatResponse :=
  mkChatResponse "id" "chat.completion" 0 model [] (mkUsageT 1 1 2) "" "".

(** A context is [true] if it is the one [dispatchHedge] cancels. *)
Definition ex_ctx_err (c : bool) (w : ex_world) : option error :=
  if c && xw_cancelled w then Some Canceled else None.

Definition ex_log (w : ex_world) (n : string) : ex_world :=
  mkExWorld (xw_log w ++ [n]) (xw_down w) (xw_cancelled w) (xw_now w) (xw_schedule w).

Definition ex_fail (n : string) : error := EProvider (mkProviderError n 503 "overloaded" true 0).

#[export] Instance ex_env : Env (string * list string) bool Z ex_world := {
  p_Name := fst;
  p_Models := snd;
  p_Send p c req w :=
    (ex_log w p.1,
     match ex_ctx_err c w with
     | Some e => Err e
     | None => if bool_decide (p.1 ∈ xw_down w) then Err (ex_fail p.1) else Ok (ex_response (req_Model req))
     end);
  p_SendStream p c req w :=
    (ex_log w p.1,
     if bool_decide (p.1 ∈ xw_down w) then [SErr (Some (ex_fail p.1))]
     else [SChunk (mkStreamChunk "id" "chunk" 0 (req_Model req) [] None ""); SClosed]);
  regexp_Compile _ := None;
  rand_Intn r n := (r + 1, r `mod` n);
  rand_Int63n n w := (w, 0);
  time_Now := xw_now;
  ctx_Err := ex_ctx_err;
  ctx_Wait c d w := (w, ex_ctx_err c w);
  ctx_WithTimeout c d w := (w, true);
  ctx_WithCancel c w := (w, c);
  ctx_Cancel c w := mkExWorld (xw_log w) (xw_down w) true (xw_now w) (xw_schedule w);
  hedge_schedule := xw_schedule;
}.

Definition ex_providers : list (string * list string) :=
  [("a", ["m"]); ("b", ["m-b"]); ("c", ["m-c"])].

Definition ex_handler (chain : list string) (hedged : bool) (threshold : Z)
    : Handler (string * list string) Z unit unit unit unit :=
  NewHandlerWithResilience fst
    (NewRegistryWithWeighted fst snd (fun _ => None) (fun seed => seed) ex_providers
       {["m" := ["m-b"; "m-c"]]} ∅)
    chain (mkRetryConfig 1 0 0 false) (mkCircuitConfig threshold (10 * Second) 1)
    (mkHedgeConfig hedged 0).

Definition ex_chat (model : string) : ChatRequest :=
  mkChatRequest model [text_message "user" "hi"] None None None None None None None None None false
    None [] None None None None None "" "" "" [] None.

Definition ex_start (down : list string) (sched : list hedge_event) : ex_world :=
  mkExWorld [] down false (100 * Second) sched.

Definition ex_open (h : Handler (string * list string) Z unit unit unit unit) (n : string) (at_ : Z) :=
  with_circuits h (<[n := mkBreaker (mkCircuitConfig 1 (10 * Second) 1) StateOpen 1 0 at_ 0]> (h_circuits h)).

(** The fallback [b], whose open timeout has elapsed, answers for [a]. *)
Lemma dispatch_returns_slots_witness :
  let s := (ex_open (ex_handler ["a"; "b"] false 5) "b" 0, ex_start ["a"] []) in
  (dispatch false (ex_chat "m") s).2 = Ok (ex_response "m-b", "b") /\
  forall n, 0 <= pend (dispatch false (ex_chat "m") s).1.1 n <= pend s.1 n.
Proof.
  intros s. split; [by vm_compute|].
  apply (dispatch_returns_slots false (ex_chat "m") s); [done|].
  intros n. unfold pend, breaker_of, s, ex_open, with_circuits. simpl h_circuits.
  destruct (decide (n = "b")) as [->|Hb]; [by rewrite lookup_insert_eq|]. rewrite lookup_insert_ne by done.
  destruct (decide (n = "a")) as [->|Ha]; [by vm_compute|].
  destruct (decide (n = "c")) as [->|Hc]; [by vm_compute|].
  unfold ex_handler, NewHandlerWithResilience. simpl.
  by rewrite !lookup_insert_ne, lookup_empty by done.
Defined.

(** [b]'s breaker is open: [a] and [c] are tried, [b] is not. *)
Lemma dispatch_skips_open_witness :
  let s := (ex_open (ex_handler ["a"; "b"; "c"] true 5) "b" (95 * Second), ex_start ["a"] []) in
  let s' := (dispatch false (ex_chat "m") s).1 in
  xw_log s'.2 = ["a"; "c"] /\
  breaker_of s'.1 "b" = breaker_of s.1 "b" /\ ~ "b" ∈ xw_log s'.2 /\ xw_now s'.2 = 100 * Second.
Proof.
  intros s s'. split; [by vm_compute|].
  apply (dispatch_skips_open "b" (fun w => ~ "b" ∈ xw_log w /\ xw_now w = 100 * Second) false (ex_chat "m") s).
  - split; try done. intros p c req w Hp [Hl Hn]. split; [|done]. simpl.
    rewrite elem_of_app, list_elem_of_singleton. simpl in Hp. intros [H|H]; [done|congruence].
  - by vm_compute.
  - intros w [_ Hn]. change (time_Now w) with (xw_now w). rewrite Hn. by vm_compute.
  - split; [|by vm_compute]. apply not_elem_of_nil.
Defined.

(** With hedging enabled and a single fallback available, [dispatchHedge]
    takes its half-open slot and returns without a call: [dispatch] then finds
    the breaker full, fails although [b] would answer, and leaves the slot
    taken. *)
Theorem dispatchHedge_leaks_slot :
  let s := (ex_open (ex_handler ["a"; "b"] true 5) "b" 0, ex_start ["a"] []) in
  let '(s', res) := dispatch false (ex_chat "m") s in
  res = Err (ex_fail "a") /\ xw_log s'.2 = ["a"] /\ pend s.1 "b" = 0 /\
  b_state (breaker_of s'.1 "b") = StateHalfOpen /\
  pend s'.1 "b" = HalfOpenMax (b_cfg (breaker_of s'.1 "b")).
Proof. by vm_compute. Qed.

(** The call that loses a race is cancelled, and its cancellation is recorded
    as a failure: here it opens the breaker of the healthy provider [b]. *)
Theorem hedge_loser_penalised :
  let s := (ex_handler ["a"; "b"; "c"] true 1,
            ex_start ["a"] [HTimer; HSelect FromTimer; HFallback false; HSelect FromFallback; HPrimary true]) in
  let '(s', res) := dispatch false (ex_chat "m") s in
  res = Ok (ex_response "m-c", "c") /\ xw_down s'.2 = ["a"] /\
  b_state (breaker_of s.1 "b") = StateClosed /\ b_state (breaker_of s'.1 "b") = StateOpen.
Proof. by vm_compute. Qed.

(** ** Streams *)

Section streams.
Context {P Ctx Rng W L OS B C : Type} `{!Env P Ctx Rng W}.
Abbreviation Hd := (Handler P Rng L OS B C).
Abbreviation Name := (p_Name (P := P) (W := W)).
Abbreviation sys := (Hd * W)%type.
Implicit Types (h : Hd) (w : W) (s : sys) (ctx : Ctx) (req : ChatRequest) (p : P).

(** [SendStream] of [p] with [req] delivered [evs]. *)
Definition streamed p req (evs : list stream_event) : Prop :=
  exists ctx w w', p_SendStream p ctx req w = (w', evs).

(** What [openStream] may return. *)
Definition stream_result (r : Registry (P := P) (Rng := Rng)) req (first : bool) (ps : list P) (last : option error)
    (res : option (result (streamSession (P := P) (Ctx := Ctx)) error)) : Prop :=
  let asked p req' := exists i, ps !! i = Some p /\
    req' = (if first && bool_decide (i = 0%nat) then req else remap r req p) in
  match res with
  | Some (Ok ss) => exists req' evs, asked (ss_provider ss) req' /\ streamed (ss_provider ss) req' evs /\
      firstStreamChunk true true evs = Some (ss_events ss, Ok (ss_first ss))
  | Some (Err e) => last = Some e \/ (last = None /\ e = EAllFailed true (req_Model req)) \/
      exists p req' evs rest, asked p req' /\ streamed p req' evs /\
        firstStreamChunk true true evs = Some (rest, Err e)
  | None => exists p req' evs, asked p req' /\ streamed p req' evs /\ firstStreamChunk true true evs = None
  end.

Lemma stream_result_cons (r : Registry (P := P) (Rng := Rng)) req (first : bool) p ps last last' res :
  last' = last \/ (exists e req' evs rest, last' = Some e /\ req' = (if first then req else remap r req p) /\
     streamed p req' evs /\ firstStreamChunk true true evs = Some (rest, Err e)) ->
  stream_result r req false ps last' res -> stream_result r req first (p :: ps) last res.
Proof.
  intros Hl. unfold stream_result. cbv zeta.
  assert (forall q req', (exists i, ps !! i = Some q /\ req' = (if false && bool_decide (i = 0%nat) then req else remap r req q)) ->
    exists i, (p :: ps) !! i = Some q /\ req' = (if first && bool_decide (i = 0%nat) then req else remap r req q)) as Hs.
  { intros q req' (i & Hi & ->). exists (S i). split; [done|]. by destruct first. }
  assert (forall req', req' = (if first then req else remap r req p) ->
    exists i, (p :: ps) !! i = Some p /\ req' = (if first && bool_decide (i = 0%nat) then req else remap r req p)) as H0.
  { intros req' ->. exists 0%nat. split; [done|]. by destruct first. }
  destruct res as [[ss|e]|].
  - intros (req' & evs & Ha & ?). exists req', evs. split; [by apply Hs|done].
  - intros [H|[[H ->]|(q & req' & evs & rest & Ha & ?)]].
    + destruct Hl as [->|(e' & req' & evs & rest & -> & Hr & ?)]; [by left|]. injection H as ->.
      right; right. exists p, req', evs, rest. split; [by apply H0|done].
    + destruct Hl as [->|(e' & req' & evs & rest & -> & Hr & ?)]; [right; by left|done].
    + right; right. exists q, req', evs, rest. split; [by apply Hs|done].
  - intros (q & req' & evs & Ha & ?). exists q, req', evs. split; [by apply Hs|done].
Qed.

Lemma open_loop_result first ps ctx req last s :
  stream_result (h_registry s.1) req first ps last (open_loop first ps ctx req last s).2.
Proof.
  revert first last s. induction ps as [|p ps IH]; intros first last s; simpl.
  { destruct last; [by left|right; by left]. }
  pose proof (sys_allow_frame s (Name p)) as Hf. destruct (sys_allow s (Name p)) as [s1 ok]. simpl in Hf.
  apply same_config_registry in Hf. rewrite <-Hf.
  destruct ok; simpl; [|eapply stream_result_cons; [by left|apply IH]].
  destruct (ctx_WithCancel ctx s1.2) as [w1 sctx]. fold (remap (h_registry s1.1) req p).
  set (req' := if first then req else remap (h_registry s1.1) req p).
  destruct (p_SendStream p sctx req' w1) as [w2 evs] eqn:Es.
  assert (streamed p req' evs) as Hstr by (by exists sctx, w1, w2).
  assert (exists i, (p :: ps) !! i = Some p /\
    req' = (if first && bool_decide (i = 0%nat) then req else remap (h_registry s1.1) req p)) as H0.
  { exists 0%nat. split; [done|]. by destruct first. }
  destruct (firstStreamChunk true true evs) as [[rest [chunk|e]]|] eqn:Ef; simpl.
  - exists req', evs. auto.
  - destruct (negb (IsRetryable e)).
    { right; right. exists p, req', evs, rest. auto. }
    eapply stream_result_cons.
    + right. exists e, req', evs, rest. auto.
    + match goal with |- stream_result _ _ _ _ _ (open_loop _ _ _ _ _ ?s2).2 =>
        assert (h_registry s2.1 = h_registry s1.1) as <- end.
      { apply same_config_registry. unfold record_failure. apply on_breaker_frame. }
      apply IH.
  - exists p, req', evs. auto.
Qed.

End streams.

(** C23. [openStream] commits to a provider only after its first event arrived: the
    session's provider is the primary, asked with the request itself, or a
    fallback, asked with the remapped request; it holds the first chunk and
    exactly the events after it.  An error is one that came before any chunk,
    or says that every provider was skipped. *)
Theorem openStream_outcome {P Ctx Rng W L OS B C : Type} `{!Env P Ctx Rng W}
    (ctx : Ctx) req primary (s : Handler P Rng L OS B C * W) :
  stream_result (h_registry s.1) req true (stream_providers s.1 primary) None
    (openStream ctx req primary s).2.
Proof. apply open_loop_result. Qed.
