(* ===== verification/Streams.v ===== *)
(** * The channels of a stream

    [SendStream] of each client ([internal/provider/openai.go],
    [anthropic.go], [gemini.go]) starts a goroutine that sends the chunks on a
    channel with room for 16, at most one error on a channel with room for one,
    and then closes the second channel and the first, in this order.
    [firstStreamChunk] and the loop of [handleStream]
    ([internal/proxy/handler.go]) receive from both with [select], which takes
    any case that is ready.  A schedule says whose turn it is; the theorem is
    about every schedule, that is about every order in which the goroutines
    run and the [select]s choose. *)

From Stdlib Require Import Ascii String.
From S2P Require Import Prelude Types Retry Provider Dispatch.
Open Scope string_scope.
Open Scope list_scope.
Open Scope Z_scope.

(** The producer's chunks not yet sent and its error not yet sent, and the two
    channels: what is buffered in them, and whether they are closed. *)
Record pipe := mkPipe {
  pi_todo : list StreamChunk;
  pi_err : option error;
  pi_ch : list StreamChunk;
  pi_errCh : option error;
  pi_chClosed : bool;
  pi_errClosed : bool;
}.

(** [make(chan StreamChunk, 16)] and [make(chan error, 1)]. *)
Definition ch_cap : nat := 16.
Definition new_pipe (chunks : list StreamChunk) (err : option error) : pipe := mkPipe chunks err [] None false false.

(** The goroutine goes on: it sends the next chunk once there is room, then its
    error, and then runs its two [defer]s, the last one first. *)
Definition produce (p : pipe) : pipe :=
  match pi_todo p with
  | c :: todo =>
      if (List.length (pi_ch p) <? ch_cap)%nat
      then mkPipe todo (pi_err p) (pi_ch p ++ [c]) (pi_errCh p) (pi_chClosed p) (pi_errClosed p)
      else p
  | [] =>
      match pi_err p with
      | Some e => mkPipe [] None (pi_ch p) (Some e) (pi_chClosed p) (pi_errClosed p)
      | None =>
          if pi_errClosed p then mkPipe [] None (pi_ch p) (pi_errCh p) true true
          else mkPipe [] None (pi_ch p) (pi_errCh p) (pi_chClosed p) true
      end
  end.

(** A receive from each channel: what it yields, if it is ready.  A closed
    channel yields its buffer and is then ready for ever. *)
Definition take_chunk (p : pipe) : option (stream_event * pipe) :=
  match pi_ch p with
  | c :: ch => Some (SChunk c, mkPipe (pi_todo p) (pi_err p) ch (pi_errCh p) (pi_chClosed p) (pi_errClosed p))
  | [] => if pi_chClosed p then Some (SClosed, p) else None
  end.
Definition take_err (p : pipe) : option (stream_event * pipe) :=
  match pi_errCh p with
  | Some e => Some (SErr (Some e), mkPipe (pi_todo p) (pi_err p) (pi_ch p) None (pi_chClosed p) (pi_errClosed p))
  | None => if pi_errClosed p then Some (SErrClosed, p) else None
  end.

(** A turn: of the producer, or of the [select], which takes the chunk channel,
    the error channel or the end of the context.  It is passed over if the
    case is not ready. *)
Inductive turn := TProduce | TChunk | TErr | TDone (e : error).

Definition take_turn (t : turn) (p : pipe) : option stream_event * pipe :=
  let received r := match r with Some (ev, p') => (Some ev, p') | None => (None, p) end in
  match t with
  | TProduce => (None, produce p)
  | TChunk => received (take_chunk p)
  | TErr => received (take_err p)
  | TDone e => (Some (SDone e), p)
  end.

(** What the [select]s receive under a schedule. *)
Fixpoint deliveries (turns : list turn) (p : pipe) : list stream_event :=
  match turns with
  | [] => []
  | t :: turns => let '(ev, p') := take_turn t p in option_list ev ++ deliveries turns p'
  end.

(** ** What holds of the channels *)

(** The error is sent after the last chunk, the channels are closed after that,
    the one of the chunks last. *)
Record pipe_ok (p : pipe) : Prop := {
  ok_room : (List.length (pi_ch p) <= ch_cap)%nat;
  ok_errCh : is_Some (pi_errCh p) \/ pi_errClosed p = true -> pi_todo p = [] /\ pi_err p = None;
  ok_ch : pi_chClosed p = true -> pi_errClosed p = true;
}.

(** The chunks that are still to come, and the failure. *)
Definition coming (p : pipe) : list StreamChunk := pi_ch p ++ pi_todo p.
Definition failure (p : pipe) : option error := match pi_errCh p with Some e => Some e | None => pi_err p end.

Lemma new_pipe_ok chunks err : pipe_ok (new_pipe chunks err).
Proof. constructor; simpl; [unfold ch_cap; lia|intros [[? ?]|?]; done|done]. Qed.

Lemma produce_ok p : pipe_ok p -> pipe_ok (produce p).
Proof.
  intros Hp. destruct (id Hp) as [Hr He Hc]. unfold produce. destruct (pi_todo p) as [|c todo] eqn:Et.
  - destruct (pi_err p) as [e|] eqn:Ee.
    { constructor; simpl; [done| |done]. intros _. done. }
    destruct (pi_errClosed p) eqn:Ec; constructor; simpl; auto.
  - destruct (_ <? _)%nat eqn:El; [|exact Hp]. constructor; simpl; [|naive_solver|done].
    rewrite length_app. simpl. apply Nat.ltb_lt in El. lia.
Qed.

Lemma produce_coming p : pipe_ok p -> coming (produce p) = coming p /\ failure (produce p) = failure p.
Proof.
  intros [_ He _]. unfold produce. destruct p as [todo err ch eb cc ec]. unfold coming, failure. simpl in *.
  destruct todo as [|c todo]; [|by destruct (_ <? _)%nat; simpl; rewrite <-?(assoc_L (++))].
  destruct err as [e|]; [|by destruct ec]. split; [done|]. simpl.
  destruct eb as [e'|]; [|done]. destruct He as [_ [=]]. by left.
Qed.

(** Taking a chunk, and finding the channel closed. *)
Lemma take_chunk_spec p ev p' : pipe_ok p -> take_chunk p = Some (ev, p') ->
  pipe_ok p' /\ failure p' = failure p /\
  ((exists c, ev = SChunk c /\ coming p = c :: coming p') \/
   (ev = SClosed /\ p' = p /\ coming p = [])).
Proof.
  intros Hp. destruct (id Hp) as [Hr He Hc]. unfold take_chunk, coming. destruct (pi_ch p) as [|c ch] eqn:Eb.
  - destruct (pi_chClosed p) eqn:Ec; [|done]. intros [= <- <-]. split; [exact Hp|].
    split; [done|]. right. split_and!; [done..|]. apply He. right. by apply Hc.
  - intros [= <- <-]. split; [constructor; simpl in *; [lia|done..]|]. split; [done|]. left. by exists c.
Qed.

(** Taking the error: every chunk is then in the buffer. *)
Lemma take_err_spec p ev p' : pipe_ok p -> take_err p = Some (ev, p') ->
  pipe_ok p' /\ coming p' = coming p /\
  ((exists e, ev = SErr (Some e) /\ failure p = Some e /\ (List.length (coming p) <= ch_cap)%nat) \/
   (ev = SErrClosed /\ p' = p /\ failure p = None)).
Proof.
  intros Hp. destruct (id Hp) as [Hr He Hc]. unfold take_err, coming, failure. destruct (pi_errCh p) as [e|] eqn:Eb.
  - intros [= <- <-]. destruct He as [Ht Hn]; [by left|].
    split; [constructor; simpl; [done|by intros [[? ?]|?]|done]|]. split; [done|]. left. exists e.
    by rewrite Ht, app_nil_r.
  - destruct (pi_errClosed p) eqn:Ec; [|done]. intros [= <- <-].
    split; [exact Hp|]. split; [done|]. right. destruct He as [_ Hn]; by auto.
Qed.

(** ** The receivers *)

(** How the frames of a stream end: not yet; with all chunks relayed; with the
    failure, at most [ch_cap] chunks of the buffer being given up; without a
    word, the context having ended. *)
Inductive stream_end (turns : list turn) (err : option error) (lost : list StreamChunk) : list frame -> bool -> Prop :=
| end_waiting : stream_end turns err lost [] false
| end_complete : lost = [] -> stream_end turns err lost [FDone] true
| end_failed e : err = Some e -> (List.length lost <= ch_cap)%nat -> stream_end turns err lost [FError e; FDone] true
| end_gone e : TDone e ∈ turns -> stream_end turns err lost [] true.

Lemma stream_end_later turns turns' err lost fin ended :
  turns ⊆ turns' -> stream_end turns err lost fin ended -> stream_end turns' err lost fin ended.
Proof. intros Hs []; [constructor 1|by constructor 2|by constructor 3|econstructor 4; by apply Hs]. Qed.

(** The loop of [handleStream] relays what is coming, up to its end; its error
    channel is nil only after the channel was closed. *)
Lemma stream_loop_relays turns p errCh out :
  pipe_ok p -> (errCh = false -> failure p = None) ->
  exists sent lost fin ended, coming p = sent ++ lost /\
    stream_loop true errCh (deliveries turns p) out = (out ++ (FChunk <$> sent) ++ fin, ended) /\
    stream_end turns (failure p) lost fin ended.
Proof.
  revert p errCh out. induction turns as [|t turns IH]; intros p errCh out Hp Hf0.
  { exists [], (coming p), [], false. split; [done|]. split; [simpl; by rewrite app_nil_r|constructor 1]. }
  assert (forall p' errCh', pipe_ok p' -> coming p' = coming p -> failure p' = failure p ->
    (errCh' = false -> failure p' = None) ->
    exists sent lost fin ended, coming p = sent ++ lost /\
      stream_loop true errCh' (deliveries turns p') out = (out ++ (FChunk <$> sent) ++ fin, ended) /\
      stream_end (t :: turns) (failure p) lost fin ended) as Hskip.
  { intros p' errCh' Hp' <- <- Hf'. destruct (IH p' errCh' out Hp' Hf') as (sent & lost & fin & ended & ? & ? & He).
    exists sent, lost, fin, ended. split_and!; [done..|]. eapply stream_end_later, He. set_solver. }
  destruct t as [| | |e]; simpl.
  - destruct (produce_coming p Hp) as [Hc Hf]. apply Hskip; [by apply produce_ok|done|done|by rewrite Hf].
  - destruct (take_chunk p) as [[ev p']|] eqn:Et; [|by apply Hskip].
    destruct (take_chunk_spec p ev p' Hp Et) as (Hp' & Hf & [(c & -> & Hc)|(-> & -> & Hc)]); simpl.
    + rewrite <-Hf in Hf0. destruct (IH p' errCh (out ++ [FChunk c]) Hp' Hf0) as (sent & lost & fin & ended & Hs & Hl & He).
      exists (c :: sent), lost, fin, ended. rewrite Hc, Hs, Hl, <-Hf. split; [done|]. split.
      * by rewrite <-(assoc_L (++)).
      * eapply stream_end_later, He. set_solver.
    + exists [], [], [FDone], true. split; [done|]. split; [done|by constructor 2].
  - destruct (take_err p) as [[ev p']|] eqn:Et; [|by apply Hskip].
    destruct (take_err_spec p ev p' Hp Et) as (Hp' & Hc & [(e & -> & Hf & Hl)|(-> & -> & Hf)]); simpl; [|by apply Hskip].
    destruct errCh; [|by rewrite Hf0 in Hf].
    exists [], (coming p), [FError e; FDone], true. split; [done|]. split; [done|by constructor 3].
  - exists [], (coming p), [], true. split; [done|]. split; [simpl; by rewrite app_nil_r|]. econstructor 4. by left.
Qed.

Lemma firstStreamChunk_closed evs : firstStreamChunk false false evs = Some (evs, Ok None).
Proof. by destruct evs. Qed.

(** [firstStreamChunk] takes the first chunk, the failure or the end of the
    context, and leaves the rest to the loop. *)
Lemma firstStreamChunk_takes turns p ch errCh :
  pipe_ok p -> (ch = false -> coming p = []) -> (errCh = false -> failure p = None) ->
  match firstStreamChunk ch errCh (deliveries turns p) with
  | None => True
  | Some (_, Err e) => (failure p = Some e /\ (List.length (coming p) <= ch_cap)%nat) \/ TDone e ∈ turns
  | Some (rest, Ok first) =>
      exists turns' p', rest = deliveries turns' p' /\ turns' ⊆ turns /\ pipe_ok p' /\ failure p' = failure p /\
        coming p = option_list first ++ coming p' /\ (first = None -> coming p = [] /\ failure p = None)
  end.
Proof.
  revert p ch errCh. induction turns as [|t turns IH]; intros p ch errCh Hp Hc0 Hf0.
  { simpl. destruct ch, errCh; try done. exists [], p. naive_solver. }
  assert (forall p' ch' errCh', pipe_ok p' -> coming p' = coming p -> failure p' = failure p ->
    (ch' = false -> coming p = []) -> (errCh' = false -> failure p = None) ->
    match firstStreamChunk ch' errCh' (deliveries turns p') with
    | None => True
    | Some (_, Err e) => (failure p = Some e /\ (List.length (coming p) <= ch_cap)%nat) \/ TDone e ∈ t :: turns
    | Some (rest, Ok first) =>
        exists turns' p', rest = deliveries turns' p' /\ turns' ⊆ t :: turns /\ pipe_ok p' /\ failure p' = failure p /\
          coming p = option_list first ++ coming p' /\ (first = None -> coming p = [] /\ failure p = None)
    end) as Hskip.
  { intros p' ch' errCh' Hp' Hc Hf ??. pose proof (IH p' ch' errCh' Hp') as Hi. rewrite Hc, Hf in Hi.
    specialize (Hi ltac:(done) ltac:(done)). destruct (firstStreamChunk _ _ _) as [[rest [first|e]]|]; [|set_solver|done].
    destruct Hi as (turns' & p2 & ? & ? & ?). exists turns', p2. split; [done|]. split; [set_solver|done]. }
  destruct (ch || errCh) eqn:Eb; cycle 1.
  { apply orb_false_elim in Eb as [-> ->]. rewrite firstStreamChunk_closed. exists (t :: turns), p. naive_solver. }
  destruct t as [| | |e]; simpl.
  - destruct (produce_coming p Hp) as [Hc Hf]. apply Hskip; auto using produce_ok.
  - destruct (take_chunk p) as [[ev p']|] eqn:Et; [|by apply Hskip].
    destruct (take_chunk_spec p ev p' Hp Et) as (Hp' & Hf & [(c & -> & Hc)|(-> & -> & Hc)]); simpl; rewrite Eb; simpl; [|by apply Hskip].
    destruct ch; [|by rewrite Hc0 in Hc]. exists turns, p'. split_and!; try done. set_solver.
  - destruct (take_err p) as [[ev p']|] eqn:Et; [|by apply Hskip].
    destruct (take_err_spec p ev p' Hp Et) as (Hp' & Hc & [(e & -> & Hf & Hl)|(-> & -> & Hf)]); simpl; rewrite Eb; simpl; [|by apply Hskip].
    destruct errCh; [|by rewrite Hf0 in Hf]. by left.
  - rewrite Eb. simpl. right. by left.
Qed.

(** ** The stream ends *)

(** What the producer and the receivers have left to do. *)
Definition left_to_do (p : pipe) : nat :=
  2 * List.length (pi_todo p) + List.length (pi_ch p) + (if pi_err p then 1 else 0) +
  (if pi_errClosed p then 0 else 1) + (if pi_chClosed p then 0 else 1).

Definition after (turns : list turn) (p : pipe) : pipe := foldl (fun p t => (take_turn t p).2) p turns.

Lemma deliveries_app ts us p : deliveries (ts ++ us) p = deliveries ts p ++ deliveries us (after ts p).
Proof.
  revert p. induction ts as [|t ts IH]; intros p; [done|]. simpl.
  destruct (take_turn t p) as [ev p']. simpl. by rewrite IH, <-(assoc_L (++)).
Qed.

Lemma take_turn_less t p : (left_to_do (take_turn t p).2 <= left_to_do p)%nat.
Proof.
  destruct p as [todo err ch eb cc ec]. destruct t; unfold take_turn, produce, take_chunk, take_err, left_to_do; simpl; [..|lia].
  - destruct todo as [|c todo]; simpl; [destruct err, ec, cc; simpl; lia|].
    destruct (_ <? _)%nat; simpl; rewrite ?length_app; simpl; lia.
  - destruct ch, cc; simpl; lia.
  - destruct eb, ec; simpl; lia.
Qed.

Lemma after_less turns p : (left_to_do (after turns p) <= left_to_do p)%nat.
Proof.
  revert p. induction turns as [|t turns IH]; intros p; [done|]. simpl. etrans; [apply IH|apply take_turn_less].
Qed.

(** A turn of the producer and one of the receiver get something done. *)
Lemma round_less p : (left_to_do (after [TProduce; TChunk] p) <= pred (left_to_do p))%nat.
Proof.
  destruct p as [todo err ch eb cc ec]. unfold after, take_turn, produce, take_chunk, left_to_do. simpl.
  destruct todo as [|c todo]; simpl.
  - destruct err, ec, cc, ch; simpl; lia.
  - destruct (_ <? _)%nat eqn:El; simpl.
    + destruct ch; simpl; rewrite ?length_app; simpl; lia.
    + destruct ch; [done|]. simpl. lia.
Qed.

Lemma rounds_less n p : (left_to_do (after (concat (repeat [TProduce; TChunk] n)) p) <= left_to_do p - n)%nat.
Proof.
  revert p. induction n as [|n IH]; intros p; [simpl; lia|].
  change (concat (repeat [TProduce; TChunk] (S n))) with ([TProduce; TChunk] ++ concat (repeat [TProduce; TChunk] n)).
  unfold after in *. rewrite foldl_app. etrans; [apply IH|]. pose proof (round_less p). unfold after in *. lia.
Qed.

(** A schedule that brings any stream of these chunks to its end: the producer
    and the receiver of the chunks take turns until the channels are closed,
    and what is left in them is received. *)
Definition flush (chunks : list StreamChunk) : list turn :=
  concat (repeat [TProduce; TChunk] (2 * List.length chunks + 3)) ++ [TChunk; TErr; TErr; TChunk].

Lemma flushed turns chunks err :
  exists pre, deliveries (turns ++ flush chunks) (new_pipe chunks err) = pre ++ [SClosed] /\
    SClosed ∈ pre /\ SErrClosed ∈ pre.
Proof.
  unfold flush. rewrite (assoc_L (++)), deliveries_app. set (ts := turns ++ _). set (p := after ts _).
  assert (left_to_do p = 0%nat) as Hl.
  { unfold p, ts, after. rewrite foldl_app.
    match goal with |- left_to_do (foldl _ ?q (concat (repeat _ ?n))) = _ => pose proof (rounds_less n q) as H end.
    pose proof (after_less turns (new_pipe chunks err)) as H2. unfold after in *.
    assert (left_to_do (new_pipe chunks err) <= 2 * List.length chunks + 3)%nat
      by (unfold left_to_do; simpl; destruct err; lia). lia. }
  destruct p as [todo e ch eb cc ec]. unfold left_to_do in Hl. simpl in Hl.
  destruct todo, e, ch, cc, ec; simpl in Hl; try lia.
  exists (deliveries ts (new_pipe chunks err) ++ SClosed :: match eb with Some e => [SErr (Some e); SErrClosed] | None => [SErrClosed; SErrClosed] end).
  destruct eb; simpl; (split; [by rewrite <-(assoc_L (++))|]); set_solver.
Qed.

(** The loop of [handleStream] ends when the chunk channel is closed. *)
Lemma stream_loop_ends errCh evs out : SClosed ∈ evs -> (stream_loop true errCh evs out).2 = true.
Proof.
  revert errCh out. induction evs as [|ev evs IH]; intros errCh out; [by intros ?%elem_of_nil|].
  intros [<-|Hin]%elem_of_cons; [done|]. destruct ev as [c| |[e|]| |e]; simpl; try done; try by apply IH.
  destruct errCh; [done|by apply IH].
Qed.

(** [firstStreamChunk] does not wait for ever, and leaves what closes the
    stream to the loop. *)
Lemma first_chunk_comes pre tail ch errCh :
  SClosed ∈ tail -> (ch = true -> SClosed ∈ pre) -> (errCh = true -> SErrClosed ∈ pre) ->
  exists rest r, firstStreamChunk ch errCh (pre ++ tail) = Some (rest, r) /\ (is_ok r = true -> SClosed ∈ rest).
Proof.
  intros Ht. revert ch errCh. induction pre as [|ev pre IH]; intros ch errCh Hc He.
  { destruct ch; [by specialize (Hc eq_refl); apply elem_of_nil in Hc|].
    destruct errCh; [by specialize (He eq_refl); apply elem_of_nil in He|]. exists tail, (Ok None). by destruct tail. }
  assert (negb (ch || errCh) = true -> SClosed ∈ ev :: pre ++ tail) as Hn.
  { intros _. apply elem_of_cons. right. apply elem_of_app. by right. }
  setoid_rewrite elem_of_cons in Hc. setoid_rewrite elem_of_cons in He.
  simpl. destruct (negb (ch || errCh)) eqn:Eb; [exists (ev :: pre ++ tail), (Ok None); auto|]. clear Eb Hn.
  destruct ev as [c| |[e|]| |e].
  - destruct ch; [exists (pre ++ tail), (Ok (Some c)); split; [done|intros _]|apply IH; [done|naive_solver]].
    apply elem_of_app. by right.
  - apply IH; [done|naive_solver].
  - destruct errCh; [exists (pre ++ tail), (Err e); done|apply IH; [naive_solver|done]].
  - apply IH; naive_solver.
  - apply IH; [naive_solver|done].
  - by exists (pre ++ tail), (Err e).
Qed.

(** Whatever happened so far, the gateway neither waits for ever for the first
    event of a stream nor for its end. *)
Lemma deliveries_end turns chunks err :
  exists rest r, firstStreamChunk true true (deliveries (turns ++ flush chunks) (new_pipe chunks err)) = Some (rest, r) /\
    forall first, r = Ok first -> (stream_frames first rest).2 = true.
Proof.
  destruct (flushed turns chunks err) as (pre & -> & Hpc & Hpe).
  destruct (first_chunk_comes pre [SClosed] true true) as (rest & r & Hfc & Hr); [by left|done..|].
  exists rest, r. split; [done|]. intros first ->. by apply stream_loop_ends, Hr.
Qed.

(** C24. Whatever the order in which the producer of a stream and the [select]s of
    the gateway take their turns: what the client is sent is the chunks of the
    provider, each once and in order, from the first on, the one taken before
    the response is committed included; and if [DONE] alone follows, these are
    all the chunks.  If an error follows, it is the one the producer reported
    (the end of its context is one), and at most the 16 chunks of the buffer
    are given up for it.  Only the end of the context of the request stops the
    frames without a word.  A failure that comes before the first chunk is
    taken is the producer's or the context's.  And no schedule keeps the
    gateway waiting: it can always be completed, and then the stream has begun
    and ended.  ([DONE] alone does not say that the producer had no error to
    report: see [failure_not_reported].) *)
Theorem stream_relays_chunks turns chunks err :
  match firstStreamChunk true true (deliveries turns (new_pipe chunks err)) with
  | None => True
  | Some (_, Err e) => (err = Some e /\ (List.length chunks <= ch_cap)%nat) \/ TDone e ∈ turns
  | Some (rest, Ok first) =>
      exists sent lost fin ended, chunks = sent ++ lost /\ (first = head chunks) /\
        stream_frames first rest = ((FChunk <$> sent) ++ fin, ended) /\
        stream_end turns err lost fin ended
  end /\
  exists rest r, firstStreamChunk true true (deliveries (turns ++ flush chunks) (new_pipe chunks err)) = Some (rest, r) /\
    forall first, r = Ok first -> (stream_frames first rest).2 = true.
Proof.
  split; [|apply deliveries_end].
  pose proof (firstStreamChunk_takes turns (new_pipe chunks err) true true (new_pipe_ok _ _)
    ltac:(done) ltac:(done)) as H.
  destruct (firstStreamChunk _ _ _) as [[rest [first|e]]|]; [|exact H|done].
  destruct H as (turns' & p' & -> & Hsub & Hp' & Hf & Hc & Hn).
  destruct (stream_loop_relays turns' p' true (FChunk <$> option_list first) Hp' ltac:(done))
    as (sent & lost & fin & ended & Hs & Hl & He).
  exists (option_list first ++ sent), lost, fin, ended. unfold coming at 1 in Hc. simpl in Hc.
  rewrite Hc, Hs, (assoc_L (++)). split; [done|]. split; [|split].
  - destruct first; [done|]. destruct (Hn eq_refl) as [Hz _]. unfold coming at 1 in Hz. simpl in Hz, Hc |- *.
    by rewrite <-Hs, <-Hc, Hz.
  - unfold stream_frames. rewrite fmap_app, <-(assoc_L (++)), <-Hl. by destruct first.
  - rewrite Hf in He. eapply stream_end_later; done.
Qed.

(** ** What the choice of the [select] can cost *)

Definition ex_chunk (id : string) : StreamChunk := mkStreamChunk id "chunk" 0 "m" [] None "".

(** The frames of a stream under a schedule, once it is open. *)
Definition ex_frames (turns : list turn) (chunks : list StreamChunk) (err : option error) : option (list frame * bool) :=
  match firstStreamChunk true true (deliveries turns (new_pipe chunks err)) with
  | Some (rest, Ok first) => Some (stream_frames first rest)
  | _ => None
  end.

(** The provider breaks off after a chunk: its error and the closing of the
    chunks are both there, and the [select] takes the closing.  The client is
    told that the stream is complete. *)
Example failure_not_reported :
  ex_frames [TProduce; TProduce; TProduce; TProduce; TChunk; TChunk] [ex_chunk "1"] (Some (EText "connection reset"))
  = Some ([FChunk (ex_chunk "1"); FDone], true).
Proof. done. Qed.

(** The second chunk is in the channel when the [select] takes the error: it
    is given up. *)
Example buffered_chunk_given_up :
  ex_frames [TProduce; TProduce; TProduce; TChunk; TErr] [ex_chunk "1"; ex_chunk "2"] (Some (EText "connection reset"))
  = Some ([FChunk (ex_chunk "1"); FError (EText "connection reset"); FDone], true).
Proof. done. Qed.

(** Both are relayed when the turns fall otherwise. *)
Example failure_after_all_chunks :
  ex_frames [TProduce; TChunk; TProduce; TChunk; TProduce; TErr] [ex_chunk "1"; ex_chunk "2"] (Some (EText "connection reset"))
  = Some ([FChunk (ex_chunk "1"); FChunk (ex_chunk "2"); FError (EText "connection reset"); FDone], true).
Proof. done. Qed.
