(* ===== verification/Buffers.v ===== *)
(** * The pool of encoding buffers: [internal/provider/http.go]

    [marshalJSON] encodes the bodies of requests into buffers that all
    goroutines share through a [sync.Pool].  [marshalJSON] here is what one
    call returns; below it the calls are goroutines over a shared heap of
    buffers, statement by statement and in any interleaving, to show that
    sharing is not observable. *)

From Stdlib Require Import Ascii String.
From stdpp Require Import relations.
From S2P Require Import Prelude GoStrings.
Open Scope string_scope.
Open Scope list_scope.

Definition newline : ascii := "010"%char.

(** [data = data[:len(data)-1]] if the last byte is a newline: how many bytes
    of [data] are kept. *)
Definition trimmed_len (data : string) : nat :=
  match list.last (list_ascii_of_string data) with
  | Some c => if Ascii.eqb c newline then String.length data - 1 else String.length data
  | None => 0
  end.

(** [copy(out, data)] of a slice of [n] bytes. *)
Definition copy (n : nat) (data : string) : string := substring 0 n data.

Section buffers.
Context {V : Type}.
(** [json.Encoder.Encode] without HTML escaping: the error, with which nothing
    is written, or the bytes that are appended to the buffer, the newline
    at the end among them. *)
Context (Encode : V -> result string string).

(** ** One call *)
Definition marshalJSON (v : V) : result string string :=
  match Encode v with
  | Err e => Err e
  | Ok data => Ok (copy (trimmed_len data) data)
  end.

(** ** Calls over a shared heap *)

(** What a goroutine uses a buffer for: a call of [marshalJSON], or a buffer
    borrowed with [GetPooledBuffer]. *)
Inductive use := Marshal (v : V) | Lent.
Abbreviation returned := (option (V * result string string)).

(** Where a goroutine is: before [Get], [Reset], [Encode], [Bytes], [copy] and
    the deferred [Put], or after it.  [Bytes] and what follows hold a slice,
    which is the buffer and a length, not its bytes. *)
Inductive goroutine :=
| Getting (u : use)
| Resetting (u : use) (b : nat)
| Encoding (v : V) (b : nat)
| Slicing (v : V) (b : nat)
| Copying (v : V) (b : nat) (n : nat)
| Borrowing (b : nat)
| Putting (b : nat) (ret : returned)
| Finished (ret : returned).

Record shared := mkShared {
  heap : gmap nat string;            (* the buffers that were made, by address *)
  pool : list nat;                   (* those in [bufPool] *)
  goroutines : gmap nat goroutine;
}.

(** The statements between [Get] and [Put], on the bytes of the buffer: what
    they are after it, and where the goroutine is. *)
Definition statement (g : goroutine) (data : string) : option (string * goroutine) :=
  match g with
  | Resetting (Marshal v) b => Some ("", Encoding v b)
  | Resetting Lent b => Some ("", Borrowing b)
  | Encoding v b =>
      match Encode v with
      | Err e => Some (data, Putting b (Some (v, Err e)))
      | Ok text => Some (data +:+ text, Slicing v b)
      end
  | Slicing v b => Some (data, Copying v b (trimmed_len data))
  | Copying v b n => Some (data, Putting b (Some (v, Ok (copy n data))))
  | _ => None
  end.

(** The buffer that a goroutine has. *)
Definition holds (g : goroutine) : option nat :=
  match g with
  | Getting _ | Finished _ => None
  | Resetting _ b | Encoding _ b | Slicing _ b | Copying _ b _ | Borrowing b | Putting b _ => Some b
  end.

Definition put_buffer (s : shared) (i b : nat) (data : string) (g : goroutine) : shared :=
  mkShared (<[b := data]> (heap s)) (pool s) (<[i := g]> (goroutines s)).

(** A step of goroutine [i].  [Get] returns any buffer of the pool, or a new
    one, whether the pool is empty or not. *)
Inductive moves (i : nat) (s : shared) : shared -> Prop :=
| move_get u b rest :
    goroutines s !! i = Some (Getting u) -> pool s ≡ₚ b :: rest ->
    moves i s (mkShared (heap s) rest (<[i := Resetting u b]> (goroutines s)))
| move_new u b :
    goroutines s !! i = Some (Getting u) -> heap s !! b = None ->
    moves i s (put_buffer s i b "" (Resetting u b))
| move_statement g b data data' g' :
    goroutines s !! i = Some g -> holds g = Some b -> heap s !! b = Some data ->
    statement g data = Some (data', g') -> moves i s (put_buffer s i b data' g')
| move_borrower b data :
    (* whoever borrowed the buffer writes what it wants *)
    goroutines s !! i = Some (Borrowing b) -> moves i s (put_buffer s i b data (Borrowing b))
| move_return b :
    goroutines s !! i = Some (Borrowing b) ->
    moves i s (mkShared (heap s) (pool s) (<[i := Putting b None]> (goroutines s)))
| move_put b ret :
    goroutines s !! i = Some (Putting b ret) ->
    moves i s (mkShared (heap s) (b :: pool s) (<[i := Finished ret]> (goroutines s))).

(** The program: any goroutine moves, a new call begins, or the collector
    takes buffers from the pool. *)
Inductive runs (s : shared) : shared -> Prop :=
| run_move i s' : moves i s s' -> runs s s'
| run_call i u : goroutines s !! i = None ->
    runs s (mkShared (heap s) (pool s) (<[i := Getting u]> (goroutines s)))
| run_collect pool' : pool' ⊆+ pool s -> runs s (mkShared (heap s) pool' (goroutines s)).

Definition nothing_made : shared := mkShared ∅ [] ∅.
Definition reachable (s : shared) : Prop := rtc runs nothing_made s.

(** ** Ownership *)

(** What a goroutine knows about the bytes of its buffer. *)
Definition knows (g : goroutine) (data : string) : Prop :=
  match g with
  | Encoding _ _ => data = ""
  | Slicing v _ => Encode v = Ok data
  | Copying v _ n => Encode v = Ok data /\ n = trimmed_len data
  | Putting _ (Some (v, out)) => out = marshalJSON v
  | _ => True
  end.

(** A buffer is in the pool or in the hands of one goroutine. *)
Record owned (s : shared) : Prop := mkOwned {
  own_pool : NoDup (pool s);
  own_made : forall b, b ∈ pool s -> is_Some (heap s !! b);
  own_held : forall i g b, goroutines s !! i = Some g -> holds g = Some b ->
    (b ∉ pool s) /\ exists data, heap s !! b = Some data /\ knows g data;
  own_alone : forall i j g g' b, goroutines s !! i = Some g -> goroutines s !! j = Some g' ->
    holds g = Some b -> holds g' = Some b -> i = j;
  own_result : forall i v out, goroutines s !! i = Some (Finished (Some (v, out))) -> out = marshalJSON v;
}.

Lemma submseteq_NoDup {A} (l k : list A) : l ⊆+ k -> NoDup k -> NoDup l.
Proof. intros (l' & ->)%submseteq_Permutation ?%list.NoDup_app. tauto. Qed.

Lemma owned_start : owned nothing_made.
Proof. split; simpl; try done; [constructor|set_solver|..]; intros *; rewrite ?lookup_empty; done. Qed.

(** A goroutine that keeps its buffer, or has just made or taken it. *)
Lemma owned_write s i b data g pool' :
  owned s -> holds g = Some b -> knows g data -> b ∉ pool' -> pool' ⊆+ pool s ->
  (forall j g', j <> i -> goroutines s !! j = Some g' -> holds g' <> Some b) ->
  owned (mkShared (<[b := data]> (heap s)) pool' (<[i := g]> (goroutines s))).
Proof.
  intros [Hp Hm Hh Ha Hr] Hg Hk Hb Hsub Hothers. split; simpl.
  - by eapply submseteq_NoDup, Hp.
  - intros b' Hb'. destruct (decide (b = b')) as [->|]; [by rewrite lookup_insert_eq|].
    rewrite lookup_insert_ne by done. apply Hm. by eapply elem_of_submseteq.
  - intros j g' b' Hj Hg'. apply lookup_insert_Some in Hj as [[<- <-]|[Hne Hj]].
    + simplify_eq. split; [done|]. exists data. by rewrite lookup_insert_eq.
    + destruct (Hh _ _ _ Hj Hg') as (Hn & d & Hd & Hkd). split; [intros Hin; by apply Hn, (elem_of_submseteq pool')|].
      exists d. rewrite lookup_insert_ne; [done|]. intros ->. by eapply Hothers.
  - intros j k g1 g2 b' Hj Hk' H1 H2.
    apply lookup_insert_Some in Hj as [[<- <-]|[Hne Hj]]; apply lookup_insert_Some in Hk' as [[<- <-]|[Hne' Hk']];
      simplify_eq; [done|exfalso; by eapply Hothers..|by eapply Ha].
  - intros j v out Hj. apply lookup_insert_Some in Hj as [[<- ->]|[_ Hj]]; [done|by eapply Hr].
Qed.

Lemma statement_holds g data data' g' : statement g data = Some (data', g') -> holds g' = holds g.
Proof.
  destruct g as [|[]|v b| | | | |]; simpl; intros Hs; try done; try (by simplify_eq/=).
  destruct (Encode v); by simplify_eq/=.
Qed.

Lemma statement_knows g data data' g' :
  knows g data -> statement g data = Some (data', g') -> knows g' data'.
Proof.
  destruct g as [|[]|v b| |v b n| | |]; simpl; intros Hk Hs; try done; try (by simplify_eq/=).
  - destruct (Encode v) as [text|e] eqn:He; simplify_eq; simpl; [done|]. unfold marshalJSON. by rewrite He.
  - destruct Hk as [He ->]. simplify_eq. simpl. unfold marshalJSON. by rewrite He.
Qed.

(** Giving a buffer back. *)
Lemma owned_put s i b ret :
  owned s -> goroutines s !! i = Some (Putting b ret) ->
  owned (mkShared (heap s) (b :: pool s) (<[i := Finished ret]> (goroutines s))).
Proof.
  intros [Hp Hm Hh Ha Hr] Hi. destruct (Hh _ _ b Hi eq_refl) as (Hb & data & Hd & Hk). split; simpl.
  - by constructor.
  - intros b' [->|Hb']%elem_of_cons; [by eexists|by apply Hm].
  - intros j g b' Hj Hg. apply lookup_insert_Some in Hj as [[<- <-]|[Hne Hj]]; [done|].
    destruct (Hh _ _ _ Hj Hg) as [Hn Hex]. split; [|done]. intros [->|]%elem_of_cons; [|done].
    apply Hne. by eapply (Ha i j).
  - intros j k g1 g2 b' Hj Hk' H1 H2.
    apply lookup_insert_Some in Hj as [[<- <-]|[_ Hj]]; [done|].
    apply lookup_insert_Some in Hk' as [[<- <-]|[_ Hk']]; [done|]. by eapply Ha.
  - intros j v out Hj. apply lookup_insert_Some in Hj as [[<- [= ->]]|[_ Hj]]; [done|by eapply Hr].
Qed.

Lemma owned_others s i g b :
  owned s -> goroutines s !! i = Some g -> holds g = Some b ->
  forall j g', j <> i -> goroutines s !! j = Some g' -> holds g' <> Some b.
Proof. intros Ho Hi Hg j g' Hne Hj Hg'. apply Hne. by eapply (own_alone _ Ho). Qed.

Lemma moves_owned i s s' : owned s -> moves i s s' -> owned s'.
Proof.
  intros Ho Hm. destruct Hm as [u b rest Hi Hp|u b Hi Hb|g b data data' g' Hi Hg Hd Hs|b data Hi|b Hi|b ret Hi].
  - destruct (own_made _ Ho b) as [data Hd]; [rewrite Hp; left|].
    rewrite <-(insert_id (heap s) b data Hd).
    assert (NoDup (b :: rest)) as [Hn _]%list.NoDup_cons by (rewrite <-Hp; apply (own_pool _ Ho)).
    apply owned_write; try done; [rewrite Hp; by apply submseteq_cons|].
    intros j g' _ Hj Hg'. destruct (own_held _ Ho _ _ _ Hj Hg') as [[] _]. rewrite Hp. left.
  - apply owned_write; try done.
    + intros [? ?]%(own_made _ Ho). congruence.
    + intros j g' _ Hj Hg'. destruct (own_held _ Ho _ _ _ Hj Hg') as (_ & ? & ? & _). congruence.
  - destruct (own_held _ Ho _ _ _ Hi Hg) as (Hn & d & Hd' & Hk). simplify_eq.
    apply owned_write; try done; [by rewrite (statement_holds _ _ _ _ Hs)|by eapply statement_knows|].
    by eapply owned_others.
  - destruct (own_held _ Ho _ _ _ Hi eq_refl) as [Hn _].
    apply owned_write; try done. by eapply (owned_others _ _ _ _ Ho Hi).
  - destruct (own_held _ Ho _ _ _ Hi eq_refl) as (Hn & data & Hd & _).
    rewrite <-(insert_id (heap s) b data Hd). apply owned_write; try done. by eapply (owned_others _ _ _ _ Ho Hi).
  - by apply owned_put.
Qed.

Lemma runs_owned s s' : owned s -> runs s s' -> owned s'.
Proof.
  intros Ho [i s2 Hm|i u Hi|pool' Hsub]; [by eapply moves_owned|..]; destruct Ho as [Hp Hm Hh Ha Hr]; split; simpl; try done.
  - intros j g b Hj Hg. apply lookup_insert_Some in Hj as [[<- <-]|[_ Hj]]; [done|by eapply Hh].
  - intros j k g g' b Hj Hk Hg Hg'. apply lookup_insert_Some in Hj as [[<- <-]|[_ Hj]]; [done|].
    apply lookup_insert_Some in Hk as [[<- <-]|[_ Hk]]; [done|by eapply Ha].
  - intros j v out Hj. apply lookup_insert_Some in Hj as [[<- [=]]|[_ Hj]]. by eapply Hr.
  - by eapply submseteq_NoDup.
  - intros b Hb. apply Hm. by eapply elem_of_submseteq.
  - intros i g b Hi Hg. destruct (Hh _ _ _ Hi Hg) as [Hn Hex]. split; [|done].
    intros Hb. apply Hn. by eapply elem_of_submseteq.
Qed.

Lemma reachable_owned s : reachable s -> owned s.
Proof.
  intros Hr. assert (owned nothing_made) as Ho by apply owned_start. revert Ho.
  unfold reachable in Hr. induction Hr as [|s1 s2 s3 H12 _ IH]; intros Ho; [done|]. by eapply IH, runs_owned.
Qed.

(** ** Progress *)

(** The value whose call is under way or over. *)
Definition call_of (g : goroutine) : option V :=
  match g with
  | Getting (Marshal v) | Resetting (Marshal v) _ | Encoding v _ | Slicing v _ | Copying v _ _ => Some v
  | Putting _ (Some (v, _)) | Finished (Some (v, _)) => Some v
  | _ => None
  end.

(** The statements a call has left, at most. *)
Definition left (g : goroutine) : nat :=
  match g with
  | Getting _ => 6 | Resetting _ _ => 5 | Encoding _ _ => 4 | Slicing _ _ => 3 | Copying _ _ _ => 2
  | Borrowing _ => 2 | Putting _ _ => 1 | Finished _ => 0
  end.

Lemma moves_left i s s' g v :
  moves i s s' -> goroutines s !! i = Some g -> call_of g = Some v ->
  exists g', goroutines s' !! i = Some g' /\ call_of g' = Some v /\ (left g' < left g)%nat.
Proof.
  intros Hm Hi Hv.
  destruct Hm as [u b rest Hi' Hp|u b Hi' Hb|g1 b data data' g' Hi' Hg Hd Hs|b data Hi'|b Hi'|b ret Hi'];
    simplify_eq; simpl; rewrite lookup_insert_eq; eexists; (split; [done|]); simpl in *; try done.
  1,2: destruct u; simplify_eq; simpl; split; [done|lia].
  - destruct g1 as [|[]| | | | | |]; simpl in *; simplify_eq; simpl; try (split; [done|lia]).
    destruct (Encode v); simplify_eq; simpl; split; (done || lia).
  - split; [done|lia].
Qed.

Lemma call_moves i s g v :
  owned s -> goroutines s !! i = Some g -> call_of g = Some v ->
  (exists s', moves i s s') \/ g = Finished (Some (v, marshalJSON v)).
Proof.
  intros Ho Hi Hv. destruct (holds g) as [b|] eqn:Hg.
  - left. destruct (own_held _ Ho _ _ _ Hi Hg) as (_ & data & Hd & _).
    assert (forall data' g', statement g data = Some (data', g') -> exists s', moves i s s') as Hst
      by (intros data' g' Hs; eexists; by eapply move_statement).
    destruct g as [|[]| | | | | |]; simpl in *; simplify_eq; try by (eapply Hst).
    + destruct (Encode v); by eapply Hst.
    + eexists. by eapply move_put.
  - destruct g as [[v'|]| | | | | | |[[v' out]|]]; simpl in *; simplify_eq.
    + left. exists (put_buffer s i (fresh (dom (heap s))) "" (Resetting (Marshal v) (fresh (dom (heap s))))).
      apply move_new; [done|]. apply not_elem_of_dom, is_fresh.
    + right. by rewrite (own_result _ Ho _ _ _ Hi).
Qed.

(** A call can always be brought to its end, by its own statements alone. *)
Lemma call_finishes i s g v :
  owned s -> goroutines s !! i = Some g -> call_of g = Some v ->
  exists s', rtc (moves i) s s' /\ goroutines s' !! i = Some (Finished (Some (v, marshalJSON v))).
Proof.
  remember (left g) as n eqn:Hn. revert s g Hn. induction n as [n IH] using lt_wf_ind. intros s g -> Ho Hi Hv.
  destruct (call_moves i s g v Ho Hi Hv) as [[s1 Hm]| ->]; [|by exists s].
  destruct (moves_left _ _ _ _ _ Hm Hi Hv) as (g1 & Hi1 & Hv1 & Hlt).
  destruct (IH _ Hlt s1 g1 eq_refl (moves_owned _ _ _ Ho Hm) Hi1 Hv1) as (s' & Hr & Hs').
  exists s'. split; [by eapply rtc_l|done].
Qed.

End buffers.

(** C32. Sharing the buffers is not observable: whatever calls of
    [marshalJSON] and borrowers there are and however their statements
    interleave, a call that has returned gave the encoding of its own value,
    without the newline, or its own error; a buffer in use is in no one
    else's hands and not in the pool; and a call under way is never blocked:
    its own statements bring it to that result. *)
Theorem marshal_uninterfered {V} (Encode : V -> result string string) s i g v :
  reachable Encode s -> goroutines s !! i = Some g -> call_of g = Some v ->
  (forall out, g = Finished (Some (v, out)) -> out = marshalJSON Encode v) /\
  (forall b, holds g = Some b -> (b ∉ pool s) /\
     forall j g', goroutines s !! j = Some g' -> holds g' = Some b -> j = i) /\
  exists s', rtc (moves Encode i) s s' /\ goroutines s' !! i = Some (Finished (Some (v, marshalJSON Encode v))).
Proof.
  intros Hr Hi Hv. pose proof (reachable_owned _ _ Hr) as Ho. split_and!.
  - intros out ->. by eapply own_result.
  - intros b Hb. split; [by apply (own_held _ _ Ho _ _ _ Hi Hb)|].
    intros j g' Hj Hg'. by eapply (own_alone _ _ Ho).
  - by eapply call_finishes.
Qed.

(** ** Examples *)

Definition ex_encode (v : string) : result string string :=
  if str_eqb v "NaN" then Err "unsupported value" else Ok (v +:+ String newline "").

Example marshal_trims : marshalJSON ex_encode "{}" = Ok "{}". Proof. reflexivity. Qed.
Example marshal_fails : marshalJSON ex_encode "NaN" = Err "unsupported value". Proof. reflexivity. Qed.

(** The first call has put its buffer back, and the second one has got the
    same buffer, with the bytes of the first still in it. *)
Definition ex_reused : shared :=
  mkShared {[ 0%nat := "first" +:+ String newline "" ]} []
    (<[1%nat := Resetting (Marshal "second") 0]> {[ 0%nat := Finished (Some ("first", Ok "first")) ]}).

Lemma ex_reachable : reachable ex_encode ex_reused.
Proof.
  unfold reachable.
  eapply rtc_l; [apply (run_call _ _ 0%nat (Marshal "first")); reflexivity|].
  eapply rtc_l; [eapply (run_move _ _ 0%nat), (move_new _ _ _ _ 0%nat); reflexivity|].
  do 4 (eapply rtc_l; [eapply (run_move _ _ 0%nat), move_statement; reflexivity|]).
  eapply rtc_l; [eapply (run_move _ _ 0%nat), move_put; reflexivity|].
  eapply rtc_l; [apply (run_call _ _ 1%nat (Marshal "second")); reflexivity|].
  eapply rtc_l; [eapply (run_move _ _ 1%nat), (move_get _ _ _ _ 0%nat []); reflexivity|].
  assert (forall s s' : shared (V := string), s = s' -> rtc (runs ex_encode) s s') as Heq by (by intros ? ? ->).
  apply Heq. reflexivity.
Qed.

Lemma marshal_uninterfered_witness :
  exists s', rtc (moves ex_encode 1) ex_reused s' /\
    goroutines s' !! 1%nat = Some (Finished (Some ("second", Ok "second"))).
Proof.
  apply (marshal_uninterfered ex_encode ex_reused 1%nat (Resetting (Marshal "second") 0) "second" ex_reachable);
    reflexivity.
Defined.
