(* ===== verification/Upstream.v ===== *)
(** * Provider clients: [internal/provider/openai.go], [anthropic.go],
    [gemini.go], [http.go]

    [Send], [SendStream], [Embed], [HealthCheck] and [DiscoverModels] of the
    three clients over an HTTP transport, which is the class [Http].  A
    stream's goroutine is a fold over the lines of the body; it yields the
    chunks it puts on [ch] and the error, if any, it puts on [errCh]. *)

From Stdlib Require Import Ascii String.
From stdpp Require Import pretty.
From S2P Require Import Prelude GoFloat GoStrings GoTime Types Translate Wire Provider Dispatch.
From S2P Require Buffers.
Open Scope string_scope.
Open Scope list_scope.
Open Scope Z_scope.

(** What is encoded as the body of a request. *)
Inductive out_body :=
| OutChat (req : ChatRequest)
| OutAnthropic (req : AnthropicRequest) (stream : bool)
| OutGemini (req : GeminiRequest)
| OutEmbedding (req : EmbeddingRequest)
| OutGeminiEmbedding (req : GeminiEmbeddingRequest).

Record http_out := mkHttpOut {
  ho_Method : string;
  ho_URL : string;
  ho_Header : gmap string string;
  ho_Body : string;
}.

(** A response: [hi_Body] is what the body delivers before it ends, or before
    [hi_Err] if reading fails. *)
Record http_in := mkHttpIn {
  hi_StatusCode : Z;
  hi_RetryAfter : string;
  hi_Body : string;
  hi_Err : option error;
}.

(** [net/http], [encoding/json]'s encoder, [time] and the texts of errors. *)
Class Http (Ctx W : Type) := {
  http_NewRequest : string -> string -> option string;    (** the error for a method and URL *)
  http_Do : Ctx -> http_out -> W -> W * result http_in error;
  json_Encode : out_body -> result string string;        (** [Encoder.Encode] without HTML escaping: the bytes it writes *)
  err_Error : error -> string;
  http_now : W -> Z;
  http_ParseTime : string -> option Z;
  Sscanf_d : string -> option Z;
  f32_decode : string -> result (list float64) unit;      (** [embedContent]'s values *)
  embeddings_decode : string -> result EmbeddingResponse unit;
  json_first : string -> option error -> result json error;  (** [Decoder.Decode]: the first value *)
}.

Definition maxProviderResponseSize : Z := 8 * 2 ^ 20.
Definition maxProviderErrorMessage : Z := 4096.

(** The three bytes of the UTF-8 ellipsis. *)
Definition ellipsis : string := String "226"%char (String "128"%char (String "166"%char "")).

Definition str_take (n : nat) (s : string) : string := string_of_list_ascii (take n (bytes s)).

Definition truncateProviderError (message : string) : string :=
  let message := TrimSpace message in
  if go_len message <=? maxProviderErrorMessage then message
  else str_take (Z.to_nat maxProviderErrorMessage) message +:+ ellipsis.

(** [io.ReadAll(io.LimitReader(r, max+1))], then the check of the length. *)
Definition readProviderResponse (r : http_in) : result string error :=
  let limit := maxProviderResponseSize + 1 in
  let read :=
    if limit <=? go_len (hi_Body r) then Ok (str_take (Z.to_nat limit) (hi_Body r))
    else match hi_Err r with Some e => Err e | None => Ok (hi_Body r) end in
  match read with
  | Err e => Err e
  | Ok data =>
      if maxProviderResponseSize <? go_len data
      then Err (EText ("provider response exceeds " +:+ pretty maxProviderResponseSize +:+ " bytes"))
      else Ok data
  end.

Definition retryable_status (status : Z) : bool := (status =? 429) || (500 <=? status).

Section upstream.
Context {Ctx W : Type} `{!JsonText, !Http Ctx W}.
Implicit Types (ctx : Ctx) (w : W).

(** [json.Unmarshal] into the struct that [dec] decodes. *)
Definition unmarshal {A} (dec : json -> result A unit) (data : string) : result A unit :=
  match json_Unmarshal_any data with
  | Some v => dec v
  | None => Err tt
  end.

Definition providerErrorMessage (body : string) : string :=
  match unmarshal dec_error_envelope body with
  | Ok e =>
      if negb (str_eqb (eb_Error e) "") then truncateProviderError (eb_Error e)
      else if negb (str_eqb (eb_Message e) "") then truncateProviderError (eb_Message e)
      else truncateProviderError body
  | Err _ => truncateProviderError body
  end.

Definition native_error_message (dec : json -> result error_body unit) (body : string) : string :=
  match unmarshal dec body with
  | Ok e => if negb (str_eqb (eb_Error e) "") then truncateProviderError (eb_Error e)
            else providerErrorMessage body
  | Err _ => providerErrorMessage body
  end.
Definition anthropicErrorMessage : string -> string := native_error_message dec_anthropic_error.
Definition geminiErrorMessage : string -> string := native_error_message dec_gemini_error.

Definition parseRetryAfter (v : string) (now : Z) : Z :=
  if str_eqb v "" then 0
  else
    match ParseDuration (v +:+ "s") with
    | Some secs => secs
    | None =>
        match http_ParseTime v with
        | Some t => let d := Z.min max_int64 (t - now) in if 0 <? d then d else 0  (* [time.Until] saturates *)
        | None =>
            match Sscanf_d v with
            | Some s => if 0 <=? s then imul s Second else 0
            | None => 0
            end
        end
    end.

(** ** The clients *)
(** [cl_Timeout] is the timeout of the [http.Client]. *)
Record client := mkClient { cl_apiKey : string; cl_baseURL : string; cl_models : list string; cl_Timeout : Z }.

Definition newHTTPClient (timeout : Z) : Z := if timeout <=? 0 then 30 * Second else timeout.
Definition new_client (apiKey baseURL : string) (timeout : Z) (models : list string) : client :=
  mkClient apiKey baseURL models (newHTTPClient timeout).

Inductive upstream := OpenAI (c : client) | Anthropic (c : client) | Gemini (c : client).

Definition NewOpenAI apiKey baseURL timeout models : upstream := OpenAI (new_client apiKey baseURL timeout models).
Definition NewAnthropic apiKey baseURL timeout models : upstream :=
  Anthropic (new_client apiKey baseURL timeout models).
Definition NewGemini apiKey baseURL timeout models : upstream := Gemini (new_client apiKey baseURL timeout models).

Definition up_client (p : upstream) : client :=
  match p with OpenAI c | Anthropic c | Gemini c => c end.
Definition up_Name (p : upstream) : string :=
  match p with OpenAI _ => "openai" | Anthropic _ => "anthropic" | Gemini _ => "gemini" end.
Definition up_Models (p : upstream) : list string := cl_models (up_client p).
Definition SetModels (p : upstream) (models : list string) : upstream :=
  let set c := mkClient (cl_apiKey c) (cl_baseURL c) models (cl_Timeout c) in
  match p with OpenAI c => OpenAI (set c) | Anthropic c => Anthropic (set c) | Gemini c => Gemini (set c) end.

Definition auth_headers (p : upstream) : gmap string string :=
  match p with
  | OpenAI c => {["Authorization" := "Bearer " +:+ cl_apiKey c]}
  | Anthropic c => <["anthropic-version" := "2023-06-01"]> {["x-api-key" := cl_apiKey c]}
  | Gemini c => {["x-goog-api-key" := cl_apiKey c]}
  end.
Definition json_headers (p : upstream) : gmap string string :=
  <["Content-Type" := "application/json"]> (auth_headers p).
Definition stream_headers (p : upstream) : gmap string string :=
  <["Accept" := "text/event-stream"]> (json_headers p).

Definition error_message (p : upstream) : string -> string :=
  match p with
  | OpenAI _ => providerErrorMessage
  | Anthropic _ => anthropicErrorMessage
  | Gemini _ => geminiErrorMessage
  end.

(** The error of a response that is not a 200. *)
Definition status_error (p : upstream) (resp : http_in) (data : string) w : error :=
  EProvider (mkProviderError (up_Name p) (hi_StatusCode resp) (error_message p data)
    (retryable_status (hi_StatusCode resp)) (parseRetryAfter (hi_RetryAfter resp) (http_now w))).

Definition transport_error (p : upstream) (e : error) : error :=
  EProvider (mkProviderError (up_Name p) 0 (err_Error (Ctx := Ctx) (W := W) e) true 0).

(** Encode a body, build the request and send it: the part every call of the
    clients shares. *)
Definition post (p : upstream) ctx (body : out_body) (url : string) (headers : gmap string string) w
    : W * result http_in error :=
  match Buffers.marshalJSON json_Encode body with
  | Err e => (w, Err (EWrap "marshal request" (EText e)))
  | Ok text =>
      match http_NewRequest "POST" url with
      | Some e => (w, Err (EWrap "build request" (EText e)))
      | None =>
          match http_Do ctx (mkHttpOut "POST" url headers text) w with
          | (w, Err e) => (w, Err (transport_error p e))
          | (w, Ok resp) => (w, Ok resp)
          end
      end
  end.

(** Read and check a response, then decode it. *)
Definition receive {A} (p : upstream) (decode : string -> result A unit) (resp : http_in) w : result A error :=
  match readProviderResponse resp with
  | Err e => Err (EWrap "read response" e)
  | Ok data =>
      if negb (hi_StatusCode resp =? 200) then Err (status_error p resp data w)
      else match decode data with
           | Ok x => Ok x
           | Err _ => Err (EWrap "parse response" (EText "json"))  (* the text is [encoding/json]'s *)
           end
  end.

(** A call that sends [body] and decodes what comes back. *)
Definition exchange {A} (p : upstream) ctx (body : out_body) (url : string) (decode : string -> result A unit) w
    : W * result A error :=
  match post p ctx body url (json_headers p) w with
  | (w, Err e) => (w, Err e)
  | (w, Ok resp) => (w, receive p decode resp w)
  end.

Definition OpenAI_Send (c : client) ctx (req : ChatRequest) w : W * result ChatResponse error :=
  exchange (OpenAI c) ctx (OutChat req) (cl_baseURL c +:+ "/chat/completions") (unmarshal dec_ChatResponse) w.

Definition Anthropic_Send (c : client) ctx (req : ChatRequest) w : W * result ChatResponse error :=
  exchange (Anthropic c) ctx (OutAnthropic (ToAnthropic req) false) (cl_baseURL c +:+ "/v1/messages")
    (fun data => let? native := unmarshal dec_AnthropicResponse data in Ok (FromAnthropic native)) w.

Definition Gemini_Send (c : client) ctx (req : ChatRequest) w : W * result ChatResponse error :=
  exchange (Gemini c) ctx (OutGemini (ToGemini req))
    (cl_baseURL c +:+ "/models/" +:+ req_Model req +:+ ":generateContent")
    (fun data => let? native := unmarshal dec_GeminiResponse data in Ok (FromGemini native (req_Model req))) w.

Definition up_Send (p : upstream) ctx req w : W * result ChatResponse error :=
  match p with
  | OpenAI c => OpenAI_Send c ctx req w
  | Anthropic c => Anthropic_Send c ctx req w
  | Gemini c => Gemini_Send c ctx req w
  end.

(** ** Embeddings *)
Definition normalizeEmbeddingInput (input : json) : list string :=
  match input with
  | JStr v => [v]
  | JArr v => foldl (fun out e => match e with JStr s => out ++ [s] | _ => out end) [] v
  | _ => []
  end.

(** Gemini embeds the inputs one after the other. *)
Fixpoint gemini_embed (c : client) ctx (model : string) (i : Z) (inputs : list string)
    (data : list EmbeddingData) w : W * result (list EmbeddingData) error :=
  match inputs with
  | [] => (w, Ok data)
  | input :: inputs =>
      match exchange (Gemini c) ctx (OutGeminiEmbedding (ToGeminiEmbedding input))
              (cl_baseURL c +:+ "/models/" +:+ model +:+ ":embedContent") f32_decode w with
      | (w, Err e) => (w, Err e)
      | (w, Ok values) =>
          gemini_embed c ctx model (i + 1) inputs
            (data ++ [FromGeminiEmbedding (mkGeminiEmbeddingResponse values) model i]) w
      end
  end.

Definition OpenAI_Embed (c : client) ctx (req : EmbeddingRequest) w : W * result EmbeddingResponse error :=
  exchange (OpenAI c) ctx (OutEmbedding req) (cl_baseURL c +:+ "/embeddings") embeddings_decode w.

Definition Anthropic_Embed w : W * result EmbeddingResponse error :=
  (w, Err (EProvider (mkProviderError "anthropic" 404 "embeddings not supported for anthropic" false 0))).

Definition Gemini_Embed (c : client) ctx (req : EmbeddingRequest) w : W * result EmbeddingResponse error :=
  let inputs := normalizeEmbeddingInput (er_Input req) in
  match inputs with
  | [] => (w, Err (EText "input is required"))
  | _ =>
      match gemini_embed c ctx (er_Model req) 0 inputs [] w with
      | (w, Err e) => (w, Err e)
      | (w, Ok data) =>
          let tokens := foldl (fun tokens s => iadd tokens (Z.quot (go_len s) 4)) 0 inputs in
          (w, Ok (mkEmbeddingResponse "list" data (er_Model req) (mkEmbeddingUsage tokens tokens)))
      end
  end.

Definition up_Embed (p : upstream) ctx (req : EmbeddingRequest) w : W * result EmbeddingResponse error :=
  match p with
  | OpenAI c => OpenAI_Embed c ctx req w
  | Anthropic _ => Anthropic_Embed w
  | Gemini c => Gemini_Embed c ctx req w
  end.

(** ** Health checks and model discovery *)
Definition firstOrDefault (values : list string) (def : string) : string :=
  match values with v :: _ => v | [] => def end.

Definition ping_request (c : client) : AnthropicRequest :=
  mkAnthropicRequest (firstOrDefault (cl_models c) "claude-haiku-4-5-20251001") 1 ""
    [mkAnthropicMessage "user" (ContentText "ping")] None [] None.

(** Send a request and look at the status alone. *)
Definition probe ctx (out : http_out) (check : Z -> option error) w : W * option error :=
  match http_NewRequest (ho_Method out) (ho_URL out) with
  | Some e => (w, Some (EText e))
  | None =>
      match http_Do ctx out w with
      | (w, Err e) => (w, Some e)
      | (w, Ok resp) => (w, check (hi_StatusCode resp))
      end
  end.
Definition is_200 (status : Z) : option error :=
  if negb (status =? 200) then Some (EText ("unexpected status " +:+ pretty status)) else None.
Definition list_models (p : upstream) : http_out :=
  mkHttpOut "GET" (cl_baseURL (up_client p) +:+ "/models") (auth_headers p) "".

Definition OpenAI_HealthCheck (c : client) ctx w : W * option error := probe ctx (list_models (OpenAI c)) is_200 w.

Definition Anthropic_HealthCheck (c : client) ctx w : W * option error :=
  let body := match Buffers.marshalJSON json_Encode (OutAnthropic (ping_request c) false) with Ok b => b | Err _ => "" end in
  probe ctx (mkHttpOut "POST" (cl_baseURL c +:+ "/v1/messages") (json_headers (Anthropic c)) body)
    (fun status => if (status =? 401) || (status =? 403)
                   then Some (EText "unauthorized: invalid API key") else None) w.

Definition Gemini_HealthCheck (c : client) ctx w : W * option error := probe ctx (list_models (Gemini c)) is_200 w.

Definition up_HealthCheck (p : upstream) ctx w : W * option error :=
  match p with
  | OpenAI c => OpenAI_HealthCheck c ctx w
  | Anthropic c => Anthropic_HealthCheck c ctx w
  | Gemini c => Gemini_HealthCheck c ctx w
  end.

(** The first JSON value of the answer to [list_models], decoded. *)
Definition fetch_models (p : upstream) ctx (decode : json -> result (list string) unit) w
    : W * result (list string) error :=
  match http_NewRequest "GET" (ho_URL (list_models p)) with
  | Some e => (w, Err (EText e))
  | None =>
      match http_Do ctx (list_models p) w with
      | (w, Err e) => (w, Err e)
      | (w, Ok resp) =>
          (w, match is_200 (hi_StatusCode resp) with
              | Some e => Err e
              | None =>
                  match json_first (hi_Body resp) (hi_Err resp) with
                  | Err e => Err e
                  | Ok v => match decode v with
                            | Ok names => Ok names
                            | Err _ => Err (EText "json")
                            end
                  end
              end)
      end
  end.

Definition OpenAI_DiscoverModels (c : client) ctx w : W * result (list string) error :=
  fetch_models (OpenAI c) ctx (dec_names "data" "id") w.

Definition Gemini_DiscoverModels (c : client) ctx w : W * result (list string) error :=
  match fetch_models (Gemini c) ctx (dec_names "models" "name") w with
  | (w, Ok names) =>
      (w, Ok (foldl (fun models name =>
                models ++ [if HasPrefix name "models/" then TrimPrefix name "models/" else name]) [] names))
  | (w, Err e) => (w, Err e)
  end.

(** The clients that can list their models. *)
Definition DiscoverModels (p : upstream) ctx w : option (W * result (list string) error) :=
  match p with
  | OpenAI c => Some (OpenAI_DiscoverModels c ctx w)
  | Anthropic _ => None
  | Gemini c => Some (Gemini_DiscoverModels c ctx w)
  end.

(** ** Streams *)

(** *** [bufio.Scanner] with a buffer of 1 MiB: the lines, without their
    ends, and whether a line was too long. *)
Definition max_line : Z := 2 ^ 20.

Fixpoint split_lines (cur : list ascii) (s : list ascii) : list (list ascii) :=
  match s with
  | [] => match cur with [] => [] | _ => [reverse cur] end
  | c :: s => if bool_decide (c = "010"%char) then reverse cur :: split_lines [] s else split_lines (c :: cur) s
  end.

Definition drop_cr (l : list ascii) : list ascii :=
  match list.last l with
  | Some c => if bool_decide (c = "013"%char) then removelast l else l
  | None => l
  end.

Fixpoint short_lines (ls : list (list ascii)) : list string * bool :=
  match ls with
  | [] => ([], false)
  | l :: ls =>
      if max_line <=? Z.of_nat (List.length l) then ([], true)
      else let '(out, long) := short_lines ls in (string_of_list_ascii (drop_cr l) :: out, long)
  end.

Definition scan (resp : http_in) : list string * option error :=
  let '(lines, long) := short_lines (split_lines [] (bytes (hi_Body resp))) in
  (lines, if long then Some (EText "bufio.Scanner: token too long") else hi_Err resp).

(** *** The goroutine *)

(** A step of the loop over the lines goes on, or returns after putting an
    error on [errCh], or none. *)
Inductive flow (S : Type) := Next (s : S) | Return (s : S) (err : option error).
Arguments Next {S} s.
Arguments Return {S} s err.

Definition then_ {S} (x : flow S) (k : S -> flow S) : flow S :=
  match x with Next s => k s | Return s e => Return s e end.

Fixpoint run_lines {S} (step : string -> S -> flow S) (lines : list string) (s : S) : flow S :=
  match lines with
  | [] => Next s
  | line :: lines => then_ (step line s) (run_lines step lines)
  end.

Section stream.
(** The clock at the [n]-th chunk, and the context: the [n]-th [emit] loses to
    [ctx.Done()] with the error given. *)
Context (unix_now : nat -> Z) (cancelled : nat -> option error) (req : ChatRequest).

Definition includeUsage : bool :=
  match req_StreamOptions req with Some o => so_IncludeUsage o | None => false end.

Definition emit (chunk : StreamChunk) (sent : list StreamChunk) : flow (list StreamChunk) :=
  match cancelled (List.length sent) with
  | Some e => Return sent (Some e)
  | None => Next (sent ++ [chunk])
  end.

Definition chunk_of (id : string) (sent : list StreamChunk) (choices : list StreamChoice) (usage : option Usage)
    : StreamChunk :=
  mkStreamChunk id "chat.completion.chunk" (unix_now (List.length sent)) (req_Model req) choices usage "".
Definition delta_choice (m : ChatMessage) (fr : option string) : StreamChoice := mkStreamChoice 0 m fr None.

(** The payload of a [data:] line. *)
Definition data_payload (line : string) : option string :=
  if HasPrefix line "data:" then Some (TrimSpace (TrimPrefix line "data:")) else None.

(** **** OpenAI: the chunks are relayed. *)
Definition openai_line (line : string) (sent : list StreamChunk) : flow (list StreamChunk) :=
  let line := TrimSpace line in
  match data_payload line with
  | None => Next sent
  | Some payload =>
      if str_eqb payload "[DONE]" then Return sent None
      else match unmarshal dec_StreamChunk payload with
           | Err _ => Next sent
           | Ok chunk => emit chunk sent
           end
  end.

Definition openai_stream (resp : http_in) : list StreamChunk * option error :=
  let '(lines, err) := scan resp in
  match run_lines openai_line lines [] with
  | Return sent e => (sent, e)
  | Next sent => (sent, err)
  end.

(** **** Anthropic *)
Record anthropic_state := mkAnthropicState {
  as_event : string;                        (** [currentEvent] *)
  as_toolBlocks : gmap Z (string * string); (** index to id and name *)
  as_promptTokens : Z;
  as_completionTokens : Z;
  as_sent : list StreamChunk;
}.

Definition set_event ev s := mkAnthropicState ev (as_toolBlocks s) (as_promptTokens s) (as_completionTokens s) (as_sent s).
Definition set_tool i b s :=
  mkAnthropicState (as_event s) (<[i := b]> (as_toolBlocks s)) (as_promptTokens s) (as_completionTokens s) (as_sent s).
Definition set_prompt z s := mkAnthropicState (as_event s) (as_toolBlocks s) z (as_completionTokens s) (as_sent s).
Definition set_completion z s := mkAnthropicState (as_event s) (as_toolBlocks s) (as_promptTokens s) z (as_sent s).

Definition as_emit (choices : list StreamChoice) (usage : option Usage) (s : anthropic_state)
    : flow anthropic_state :=
  let put sent := mkAnthropicState (as_event s) (as_toolBlocks s) (as_promptTokens s) (as_completionTokens s) sent in
  match emit (chunk_of "chatcmpl-anthropic" (as_sent s) choices usage) (as_sent s) with
  | Next sent => Next (put sent)
  | Return sent e => Return (put sent) e
  end.

Definition emitUsage (s : anthropic_state) : flow anthropic_state :=
  if negb includeUsage || ((as_promptTokens s =? 0) && (as_completionTokens s =? 0)) then Next s
  else as_emit [] (Some (mkUsageT (as_promptTokens s) (as_completionTokens s)
                           (iadd (as_promptTokens s) (as_completionTokens s)))) s.

Definition tool_delta (role : string) (b : string * string) (arguments : string) : ChatMessage :=
  mkChatMessage role "" None "" "" [mkToolCall b.1 "function" (mkToolCallFunction b.2 arguments)] None None "".

(** The [switch currentEvent] on a payload. *)
Definition anthropic_event (payload : string) (s : anthropic_state) : flow anthropic_state :=
  if str_eqb (as_event s) "message_start" then
    match unmarshal dec_message_start payload with
    | Ok evt => Next (set_prompt (ms_InputTokens evt) s)
    | Err _ => Next s
    end
  else if str_eqb (as_event s) "content_block_start" then
    match unmarshal dec_block_start payload with
    | Ok evt =>
        if str_eqb (bs_Type evt) "tool_use" then
          let b := (bs_ID evt, bs_Name evt) in
          as_emit [delta_choice (tool_delta "assistant" b "") None] None (set_tool (bs_Index evt) b s)
        else Next s
    | Err _ => Next s
    end
  else if str_eqb (as_event s) "content_block_delta" then
    match unmarshal dec_block_delta payload with
    | Err _ => Next s
    | Ok evt =>
        then_
          (if negb (str_eqb (bd_Text evt) "")
           then as_emit [delta_choice (text_message "assistant" (bd_Text evt)) None] None s else Next s)
          (fun s =>
             if negb (str_eqb (bd_PartialJSON evt) "") then
               match as_toolBlocks s !! bd_Index evt with
               | Some b => as_emit [delta_choice (tool_delta "" b (bd_PartialJSON evt)) None] None s
               | None => Next s
               end
             else Next s)
    end
  else if str_eqb (as_event s) "message_delta" then
    match unmarshal dec_message_delta payload with
    | Err _ => Next s
    | Ok evt =>
        let s := set_completion (md_OutputTokens evt) s in
        if negb (str_eqb (md_StopReason evt) "") then
          let finishReason := if str_eqb (md_StopReason evt) "max_tokens" then "length" else "stop" in
          as_emit [delta_choice zero_message (Some finishReason)] None s
        else Next s
    end
  else if str_eqb (as_event s) "message_stop" then then_ (emitUsage s) (fun s => Return s None)
  else Next s.

Definition anthropic_line (line : string) (s : anthropic_state) : flow anthropic_state :=
  if HasPrefix line "event:" then Next (set_event (TrimSpace (TrimPrefix line "event:")) s)
  else match data_payload line with
       | None => Next s
       | Some payload => if str_eqb payload "" then Next s else anthropic_event payload s
       end.

Definition anthropic_start : anthropic_state := mkAnthropicState "" ∅ 0 0 [].

Definition anthropic_stream (resp : http_in) : list StreamChunk * option error :=
  let '(lines, err) := scan resp in
  match run_lines anthropic_line lines anthropic_start with
  | Return s e => (as_sent s, e)
  | Next s =>
      match err with
      | Some e => (as_sent s, Some e)
      | None => match emitUsage s with
                | Next s => (as_sent s, None)
                | Return s e => (as_sent s, e)
                end
      end
  end.

(** **** Gemini *)
Record gemini_state := mkGeminiState { gs_lastUsage : option Usage; gs_sent : list StreamChunk }.

Definition gs_emit (choices : list StreamChoice) (usage lastUsage : option Usage) (s : gemini_state)
    : flow gemini_state :=
  match emit (chunk_of "chatcmpl-gemini" (gs_sent s) choices usage) (gs_sent s) with
  | Next sent => Next (mkGeminiState lastUsage sent)
  | Return sent e => Return (mkGeminiState lastUsage sent) e
  end.

Definition gemini_emitUsage (s : gemini_state) : flow gemini_state :=
  match gs_lastUsage s with
  | Some usage => if includeUsage then gs_emit [] (Some usage) None s else Next s
  | None => Next s
  end.

Definition gemini_candidate (c : GeminiCandidate) (s : gemini_state) : flow gemini_state :=
  let '(text, toolCalls) := foldl from_part ("", []) (gc_Parts (gcd_Content c)) in
  if str_eqb text "" && (List.length toolCalls =? 0)%nat && str_eqb (gcd_FinishReason c) "" then Next s
  else
    let fr :=
      if str_eqb (gcd_FinishReason c) "MAX_TOKENS" then Some "length"
      else if str_eqb (gcd_FinishReason c) "STOP" then
        Some (if (0 <? List.length toolCalls)%nat then "tool_calls" else "stop")
      else None in
    then_ (gs_emit [delta_choice (assistant_message text toolCalls) fr] None (gs_lastUsage s) s)
      (fun s => match fr with
                | Some _ => then_ (gemini_emitUsage s) (fun s => Return s None)
                | None => Next s
                end).

Definition gemini_line (line : string) (s : gemini_state) : flow gemini_state :=
  match data_payload (TrimSpace line) with
  | None => Next s
  | Some payload =>
      if str_eqb payload "" then Next s
      else match unmarshal dec_GeminiResponse payload with
           | Err _ => Next s
           | Ok native =>
               let total := grs_TotalTokenCount native in
               let s := if 0 <? total
                        then mkGeminiState (Some (mkUsageT (grs_PromptTokenCount native)
                                                    (grs_CandidatesTokenCount native) total)) (gs_sent s)
                        else s in
               match grs_Candidates native with
               | [] => Next s
               | candidate :: _ => gemini_candidate candidate s
               end
           end
  end.

Definition gemini_stream (resp : http_in) : list StreamChunk * option error :=
  let '(lines, err) := scan resp in
  match run_lines gemini_line lines (mkGeminiState None []) with
  | Return s e => (gs_sent s, e)
  | Next s =>
      match err with
      | Some e => (gs_sent s, Some e)
      | None => match gemini_emitUsage s with
                | Next s => (gs_sent s, None)
                | Return s e => (gs_sent s, e)
                end
      end
  end.

End stream.

Definition set_stream (req : ChatRequest) : ChatRequest :=
  mkChatRequest (req_Model req) (req_Messages req) (req_Temperature req) (req_MaxTokens req)
    (req_MaxCompletionTokens req) (req_TopP req) (req_PresencePenalty req) (req_FrequencyPenalty req)
    (req_Logprobs req) (req_TopLogprobs req) (req_Seed req) true (req_StreamOptions req) (req_Tools req)
    (req_ToolChoice req) (req_ParallelToolCalls req) (req_ResponseFormat req) (req_Stop req) (req_N req)
    (req_User req) (req_ServiceTier req) (req_ReasoningEffort req) (req_Modalities req) (req_Audio req).

(** [data, _ := readProviderResponse(resp.Body)]: no data on an error. *)
Definition read_or_empty (resp : http_in) : string :=
  match readProviderResponse resp with Ok data => data | Err _ => "" end.

(** What the goroutine of [SendStream] puts on its channels: [read] is what it
    does with the body of a 200. *)
Definition open_stream (p : upstream) ctx (body : out_body) (url : string)
    (read : http_in -> list StreamChunk * option error) w : W * (list StreamChunk * option error) :=
  match post p ctx body url (stream_headers p) w with
  | (w, Err e) => (w, ([], Some e))
  | (w, Ok resp) =>
      (w, if negb (hi_StatusCode resp =? 200) then ([], Some (status_error p resp (read_or_empty resp) w))
          else read resp)
  end.

Definition OpenAI_SendStream cancelled (c : client) ctx (req : ChatRequest) w :=
  open_stream (OpenAI c) ctx (OutChat (set_stream req)) (cl_baseURL c +:+ "/chat/completions")
    (openai_stream cancelled) w.

Definition Anthropic_SendStream unix_now cancelled (c : client) ctx (req : ChatRequest) w :=
  open_stream (Anthropic c) ctx (OutAnthropic (ToAnthropic req) true) (cl_baseURL c +:+ "/v1/messages")
    (anthropic_stream unix_now cancelled req) w.

Definition Gemini_SendStream unix_now cancelled (c : client) ctx (req : ChatRequest) w :=
  open_stream (Gemini c) ctx (OutGemini (ToGemini req))
    (cl_baseURL c +:+ "/models/" +:+ req_Model req +:+ ":streamGenerateContent?alt=sse")
    (gemini_stream unix_now cancelled req) w.

Definition up_SendStream (unix_now : nat -> Z) (cancelled : nat -> option error) (p : upstream) ctx
    (req : ChatRequest) w : W * (list StreamChunk * option error) :=
  match p with
  | OpenAI c => OpenAI_SendStream cancelled c ctx req w
  | Anthropic c => Anthropic_SendStream unix_now cancelled c ctx req w
  | Gemini c => Gemini_SendStream unix_now cancelled c ctx req w
  end.

End upstream.

Arguments Next {S} s.
Arguments Return {S} s err.

(** ** The errors of [Send] *)
Section errors.
Context {Ctx W : Type} `{!JsonText, !Http Ctx W}.

(** What [Send] sends, where, and how it reads the answer. *)
Definition chat_url (p : upstream) (model : string) : string :=
  match p with
  | OpenAI c => cl_baseURL c +:+ "/chat/completions"
  | Anthropic c => cl_baseURL c +:+ "/v1/messages"
  | Gemini c => cl_baseURL c +:+ "/models/" +:+ model +:+ ":generateContent"
  end.
Definition chat_body (p : upstream) (req : ChatRequest) : out_body :=
  match p with
  | OpenAI _ => OutChat req
  | Anthropic _ => OutAnthropic (ToAnthropic req) false
  | Gemini _ => OutGemini (ToGemini req)
  end.
Definition chat_decode (p : upstream) (model : string) (data : string) : result ChatResponse unit :=
  match p with
  | OpenAI _ => unmarshal dec_ChatResponse data
  | Anthropic _ => let? native := unmarshal dec_AnthropicResponse data in Ok (FromAnthropic native)
  | Gemini _ => let? native := unmarshal dec_GeminiResponse data in Ok (FromGemini native model)
  end.

Lemma up_Send_exchange p (ctx : Ctx) req (w : W) :
  up_Send p ctx req w =
  exchange p ctx (chat_body p req) (chat_url p (req_Model req)) (chat_decode p (req_Model req)) w.
Proof. by destruct p. Qed.

Lemma string_of_list_length l : String.length (string_of_list_ascii l) = List.length l.
Proof. induction l as [|c l IH]; simpl; [done|]. by rewrite IH. Qed.

Lemma bytes_length s : List.length (bytes s) = String.length s.
Proof. rewrite <-(string_of_list_ascii_of_string s) at 2. by rewrite string_of_list_length. Qed.

Lemma truncate_len s : go_len (truncateProviderError s) <= maxProviderErrorMessage + 3.
Proof.
  unfold truncateProviderError. destruct (_ <=? _) eqn:E; [lia|].
  unfold go_len, str_take. rewrite string_length_app, string_of_list_length, length_take.
  change (String.length ellipsis) with 3%nat. unfold maxProviderErrorMessage. lia.
Qed.

Lemma providerErrorMessage_len body : go_len (providerErrorMessage body) <= maxProviderErrorMessage + 3.
Proof. unfold providerErrorMessage. repeat case_match; apply truncate_len. Qed.

Lemma error_message_len p body : go_len (error_message p body) <= maxProviderErrorMessage + 3.
Proof.
  destruct p; simpl; unfold anthropicErrorMessage, geminiErrorMessage, native_error_message;
    repeat case_match; auto using truncate_len, providerErrorMessage_len.
Qed.

Lemma readProviderResponse_ok resp data :
  readProviderResponse resp = Ok data ->
  data = hi_Body resp /\ hi_Err resp = None /\ go_len data <= maxProviderResponseSize.
Proof.
  unfold readProviderResponse. cbv zeta. destruct (_ <=? go_len (hi_Body resp)) eqn:E.
  - destruct (_ <? _) eqn:E2; [done|]. intros _. exfalso. unfold str_take, go_len in *.
    rewrite string_of_list_length, length_take, bytes_length, Nat2Z.inj_min, Z2Nat.id in E2 by done. lia.
  - destruct (hi_Err resp); [done|]. destruct (_ <? _) eqn:E2; [done|]. intros [= <-]. split_and!; [done|done|lia].
Qed.

(** Reading an error text does not make it a provider's. *)
Lemma EWrap_plain msg e : errors_As e = None -> IsRetryable (EWrap msg e) = false.
Proof. intros He. unfold IsRetryable. simpl. rewrite He. by destruct (_ || _). Qed.

Lemma readProviderResponse_plain resp e :
  (forall e, hi_Err resp = Some e -> errors_As e = None) ->
  readProviderResponse resp = Err e -> errors_As e = None.
Proof.
  unfold readProviderResponse. cbv zeta. intros Hp.
  destruct (_ <=? go_len (hi_Body resp)); [|destruct (hi_Err resp) eqn:E; [intros [= <-]; auto|]];
    destruct (_ <? _); try done; by intros [= <-].
Qed.

End errors.

(** What came of sending the request: nothing was sent if it could not be
    encoded or built. *)
Definition sent {Ctx W : Type} `{!JsonText, !Http Ctx W} p (ctx : Ctx) req (w : W)
    : option (W * result http_in error) :=
  match Buffers.marshalJSON json_Encode (chat_body p req) with
  | Ok text =>
      match http_NewRequest "POST" (chat_url p (req_Model req)) with
      | None => Some (http_Do ctx (mkHttpOut "POST" (chat_url p (req_Model req)) (json_headers p) text) w)
      | Some _ => None
      end
  | Err _ => None
  end.

(** The answer arrived whole, within the 8 MiB that are read of it. *)
Definition readable (r : http_in) : Prop := hi_Err r = None /\ go_len (hi_Body r) <= 8 * 2 ^ 20.

Lemma readable_reads r : readable r <-> is_ok (readProviderResponse r) = true.
Proof.
  unfold readable. change (8 * 2 ^ 20) with maxProviderResponseSize.
  split.
  - intros [He Hl]. unfold readProviderResponse. cbv zeta. rewrite He.
    destruct (_ <=? go_len (hi_Body r)) eqn:E; [lia|]. by destruct (_ <? _) eqn:E2; [lia|].
  - destruct (readProviderResponse r) as [data|] eqn:E; [|done]. intros _.
    by destruct (readProviderResponse_ok r data E) as (-> & ? & ?).
Qed.

(** C16. [Send] of every client.  A response is the decoding of a body of at most
    8 MiB that arrived whole with a 200.  An error asks for another attempt or
    provider exactly if the transport failed, or the answer was 429 or 5xx with
    a body that arrived whole and within the 8 MiB: the body is read before the
    status is looked at, so a 429 or 5xx whose body breaks off or is too long is
    an error that is not retried.  A provider's error names the client; it
    carries the status 0 only for a failed transport, with that failure's own
    text, and otherwise a message of at most 4 KiB and an ellipsis whatever the
    provider sent.  (A read error of net/http is not one of the gateway's own
    provider errors.) *)
Theorem up_Send_classified {Ctx W : Type} `{!JsonText, !Http Ctx W} p (ctx : Ctx) req (w : W) :
  (forall out w' resp e, http_Do ctx out w = (w', Ok resp) -> hi_Err resp = Some e -> errors_As e = None) ->
  match (up_Send p ctx req w).2 with
  | Ok resp =>
      exists w' native, sent p ctx req w = Some (w', Ok native) /\ hi_StatusCode native = 200 /\
        readable native /\
        chat_decode p (req_Model req) (hi_Body native) = Ok resp
  | Err e =>
      (IsRetryable e = true <->
         exists w' res, sent p ctx req w = Some (w', res) /\
           match res with
           | Err _ => True
           | Ok native => readable native /\ (hi_StatusCode native = 429 \/ 500 <= hi_StatusCode native)
           end) /\
      (forall pe, errors_As e = Some pe ->
         pv_ProviderName pe = up_Name p /\
         exists w' res, sent p ctx req w = Some (w', res) /\
           match res with
           | Err cause => pv_StatusCode pe = 0 /\ pv_Message pe = err_Error cause
           | Ok native => readable native /\ pv_StatusCode pe = hi_StatusCode native /\
                          go_len (pv_Message pe) <= 4 * 2 ^ 10 + 3
           end)
  end.
Proof.
  intros Hplain. rewrite up_Send_exchange. unfold exchange, post, sent.
  destruct (Buffers.marshalJSON _ _) as [text|e]; cbn [snd]; [|rewrite EWrap_plain by done; split; [split; [done|by intros (? & ? & ? & ?)]|done]].
  destruct (http_NewRequest _ _) as [e|]; cbn [snd]; [rewrite EWrap_plain by done; simpl; naive_solver|].
  destruct (http_Do _ _ _) as [w' [native|e]] eqn:Ed; cbn [snd].
  2:{ split; [|intros pe [= <-]; split; [done|by exists w', (Err e)]].
      unfold IsRetryable. simpl. split; [intros _; by exists w', (Err e)|done]. }
  pose proof (readProviderResponse_plain native) as Hrp. pose proof (readProviderResponse_ok native) as Hro.
  pose proof (readable_reads native) as Hread.
  unfold receive. destruct (readProviderResponse native) as [data|e] eqn:Er; simpl in Hread.
  2:{ assert (errors_As e = None) as He by (apply Hrp; [intros; by eapply Hplain|done]).
      rewrite EWrap_plain by done. simpl. rewrite He. split; [split; [done|]|done].
      intros (? & ? & [= <- <-] & Hs & _). by apply Hread in Hs. }
  assert (readable native) as Hn by (by apply Hread).
  assert (forall s, retryable_status s = true <-> s = 429 \/ 500 <= s) as Hst by (intros; unfold retryable_status; lia).
  destruct (Hro data eq_refl) as (-> & _). destruct (hi_StatusCode native =? 200) eqn:E200; cbn [negb].
  - assert (hi_StatusCode native = 200) as H200 by lia.
    destruct (chat_decode _ _ _) as [resp|e] eqn:Ec; [by exists w', native|].
    rewrite EWrap_plain by done. split; [|done]. split; [done|].
    intros (? & ? & [= <- <-] & _ & Hs). rewrite H200 in Hs. lia.
  - split.
    + unfold IsRetryable, status_error. simpl. rewrite Hst. split; [intros Hs; by exists w', (Ok native)|].
      by intros (? & ? & [= <- <-] & _ & Hs).
    + intros pe [= <-]. split; [done|]. exists w', (Ok native). split; [done|]. split; [done|].
      split; [done|]. apply error_message_len.
Qed.

(** ** Reading lines *)
Section lines.

Definition line_ok (l : string) : Prop :=
  ("010"%char ∉ bytes l) /\ list.last (bytes l) <> Some "013"%char /\ go_len l < max_line.

(** A body with an end of line after every line. *)
Definition unlines (ls : list string) : string := foldr (fun l s => l +:+ String "010" s) "" ls.

Lemma bytes_append (s t : string) : bytes (s +:+ t) = bytes s ++ bytes t.
Proof. induction s as [|c s IH]; [done|]. exact (f_equal (cons c) IH). Qed.

Lemma split_lines_line cur l s :
  "010"%char ∉ l -> split_lines cur (l ++ "010"%char :: s) = (reverse cur ++ l) :: split_lines [] s.
Proof.
  revert cur. induction l as [|c l IH]; intros cur Hl; simpl.
  - by rewrite app_nil_r.
  - rewrite bool_decide_false by set_solver. rewrite IH by set_solver.
    by rewrite reverse_cons, <-app_assoc.
Qed.

Lemma split_lines_unlines ls : Forall line_ok ls -> split_lines [] (bytes (unlines ls)) = bytes <$> ls.
Proof.
  induction 1 as [|l ls (Hl & _) _ IH]; [done|]. cbn [unlines foldr]. rewrite bytes_append.
  change (bytes (String "010" ?s)) with ("010"%char :: bytes s). rewrite split_lines_line by done.
  fold (unlines ls). rewrite IH. done.
Qed.

Lemma short_lines_ok ls : Forall line_ok ls -> short_lines (bytes <$> ls) = (ls, false).
Proof.
  induction 1 as [|l ls (_ & Hc & Hl) _ IH]; [done|]. csimpl. rewrite bytes_length.
  destruct (_ <=? _) eqn:E; [unfold go_len in Hl; lia|]. rewrite IH. unfold drop_cr.
  destruct (list.last (bytes l)) as [c|] eqn:El; [rewrite bool_decide_false by congruence|];
    unfold bytes; by rewrite string_of_list_ascii_of_string.
Qed.

Lemma scan_unlines resp ls :
  hi_Body resp = unlines ls -> Forall line_ok ls -> scan resp = (ls, hi_Err resp).
Proof. intros Hb Hl. unfold scan. rewrite Hb, split_lines_unlines by done. by rewrite short_lines_ok. Qed.

Lemma run_lines_app {S} (step : string -> S -> flow S) l1 l2 s :
  run_lines step (l1 ++ l2) s = then_ (run_lines step l1 s) (run_lines step l2).
Proof.
  revert s. induction l1 as [|l l1 IH]; intros s; simpl; [done|]. destruct (step l s); simpl; auto.
Qed.

End lines.

(** ** A streamed answer of Anthropic *)
Section assembly.
Context `{!JsonText}.
Context (unix_now : nat -> Z) (req : ChatRequest).

(** How a client puts the chunks of a stream together: texts are appended,
    the fragments of a call are collected under its id. *)
Definition add_call (acc : list ToolCall) (c : ToolCall) : list ToolCall :=
  if existsb (fun d => str_eqb (tc_ID d) (tc_ID c)) acc then
    (fun d => if str_eqb (tc_ID d) (tc_ID c)
              then mkToolCall (tc_ID d) (tc_Type d) (mkToolCallFunction (tf_Name (tc_Function d))
                     (tf_Arguments (tc_Function d) +:+ tf_Arguments (tc_Function c)))
              else d) <$> acc
  else acc ++ [c].
Definition assemble_delta (acc : string * list ToolCall) (ch : StreamChoice) : string * list ToolCall :=
  (acc.1 +:+ msg_Content (sc_Delta ch), foldl add_call acc.2 (msg_ToolCalls (sc_Delta ch))).
Definition assemble (chunks : list StreamChunk) : string * list ToolCall :=
  foldl (fun acc c => foldl assemble_delta acc (sk_Choices c)) ("", []) chunks.
Definition finishes (chunks : list StreamChunk) : list string :=
  omap sc_FinishReason (chunks ≫= sk_Choices).
Definition usages (chunks : list StreamChunk) : list Usage := omap sk_Usage chunks.

(** The blocks of a message, in the pieces they are streamed in. *)
Inductive streamed_block :=
| StreamText (deltas : list string)
| StreamTool (id name : string) (fragments : list string).

Definition ev_start (i : Z) (block : list (string * json)) : string * json :=
  ("content_block_start",
   JObj [("type", JStr "content_block_start"); ("index", JInt i); ("content_block", JObj block)]).
Definition ev_delta (i : Z) (ty field d : string) : string * json :=
  ("content_block_delta",
   JObj [("type", JStr "content_block_delta"); ("index", JInt i);
         ("delta", JObj [("type", JStr ty); (field, JStr d)])]).
Definition ev_stop (i : Z) : string * json :=
  ("content_block_stop", JObj [("type", JStr "content_block_stop"); ("index", JInt i)]).

Definition block_events (i : Z) (b : streamed_block) : list (string * json) :=
  match b with
  | StreamText ds =>
      ev_start i [("type", JStr "text"); ("text", JStr "")] ::
      (ev_delta i "text_delta" "text" <$> ds) ++ [ev_stop i]
  | StreamTool id name fs =>
      ev_start i [("type", JStr "tool_use"); ("id", JStr id); ("name", JStr name); ("input", JObj [])] ::
      (ev_delta i "input_json_delta" "partial_json" <$> fs) ++ [ev_stop i]
  end.

Fixpoint blocks_events (i : Z) (bs : list streamed_block) : list (string * json) :=
  match bs with
  | [] => []
  | b :: bs => block_events i b ++ blocks_events (i + 1) bs
  end.

Definition ev_message_start (input : Z) : string * json :=
  ("message_start",
   JObj [("type", JStr "message_start");
         ("message", JObj [("usage", JObj [("input_tokens", JInt input)])])]).
Definition ev_message_delta (stop : string) (output : Z) : string * json :=
  ("message_delta",
   JObj [("type", JStr "message_delta"); ("delta", JObj [("stop_reason", JStr stop)]);
         ("usage", JObj [("output_tokens", JInt output)])]).
Definition ev_message_stop : string * json := ("message_stop", JObj [("type", JStr "message_stop")]).

Definition message_events (input : Z) (bs : list streamed_block) (stop : string) (output : Z)
    : list (string * json) :=
  ev_message_start input :: blocks_events 0 bs ++ [ev_message_delta stop output; ev_message_stop].

(** The message the stream is about, as it would come without streaming. *)
Definition whole_block (b : streamed_block) : AnthropicContentBlock :=
  match b with
  | StreamText ds => text_block (String.concat "" ds)
  | StreamTool id name fs => mkBlock "tool_use" "" id name (decodeToolArguments (String.concat "" fs)) "" None
  end.

(** An event on the wire: its name, and a payload that parses to its JSON. *)
Definition on_wire (ev : string * json) (p : string) : Prop :=
  json_Unmarshal_any p = Some ev.2 /\ TrimSpace p = p /\ p <> "" /\ line_ok ("data: " +:+ p).
Definition event_lines (ev : string * json) (p : string) : list string :=
  ["event: " +:+ ev.1; "data: " +:+ p; ""].
Definition wire_lines (evs : list (string * json)) (ps : list string) : list string :=
  concat (zip_with event_lines evs ps).

Abbreviation no_cancel := (fun _ : nat => @None error).
Abbreviation line := (anthropic_line unix_now no_cancel req).
Abbreviation event := (anthropic_event unix_now no_cancel req).

Lemma data_payload_data p : TrimSpace p = p -> data_payload ("data: " +:+ p) = Some p.
Proof.
  intros Hp. unfold data_payload, TrimPrefix, HasPrefix. simpl. rewrite <-Hp at 2. unfold TrimSpace. simpl.
  unfold bytes. by rewrite list_ascii_of_string_of_list_ascii.
Qed.

Definition event_names : list string :=
  ["message_start"; "content_block_start"; "content_block_delta"; "content_block_stop"; "message_delta";
   "message_stop"].

Lemma run_event ev p s :
  ev.1 ∈ event_names -> on_wire ev p ->
  run_lines line (event_lines ev p) s = event p (set_event ev.1 s).
Proof.
  intros Hn (_ & Ht & Hne & _). unfold event_lines. cbn [run_lines].
  replace (line ("event: " +:+ ev.1) s) with (Next (set_event ev.1 s))
    by (repeat (apply elem_of_cons in Hn as [->|Hn]; [done|]); by apply elem_of_nil in Hn).
  cbn [then_]. unfold anthropic_line at 1.
  change (HasPrefix ("data: " +:+ p) "event:") with false. cbv iota.
  rewrite data_payload_data by done. unfold str_eqb at 1. rewrite bool_decide_false by done.
  by destruct (event p _).
Qed.

Lemma dec_int_ok z old : int64_range z -> dec_int (JInt z) old = Ok z.
Proof. unfold int64_range, dec_int. intros Hz. by replace (_ && _) with true by lia. Qed.

(** What the chunks sent so far amount to. *)
Record heard (s : anthropic_state) (acc : string * list ToolCall) (fin : list string) (input output : Z)
    : Prop := {
  hd_acc : assemble (as_sent s) = acc;
  hd_fin : finishes (as_sent s) = fin;
  hd_usage : usages (as_sent s) = [];
  hd_input : as_promptTokens s = input;
  hd_output : as_completionTokens s = output;
}.

Lemma heard_emit ch s acc fin input output :
  heard s acc fin input output ->
  exists s', as_emit unix_now no_cancel req [ch] None s = Next s' /\
    heard s' (assemble_delta acc ch) (fin ++ omap sc_FinishReason [ch]) input output /\
    as_toolBlocks s' = as_toolBlocks s /\ as_event s' = as_event s.
Proof.
  intros [Ha Hf Hu Hi Ho]. eexists. split; [done|]. split; [|done].
  split; simpl; try done; unfold assemble, finishes, usages in *.
  - by rewrite foldl_app, Ha.
  - by rewrite bind_app, omap_app, Hf.
  - by rewrite omap_app, Hu.
Qed.

(** *** The events, decoded *)
Ltac decode_event := intros; cbv -[dec_int int64_range]; rewrite ?dec_int_ok by done; reflexivity.

Lemma dec_start_text i : int64_range i ->
  dec_block_start (ev_start i [("type", JStr "text"); ("text", JStr "")]).2 = Ok (mkBlockStart i "text" "" "").
Proof. decode_event. Qed.
Lemma dec_start_tool i id name : int64_range i ->
  dec_block_start (ev_start i [("type", JStr "tool_use"); ("id", JStr id); ("name", JStr name);
                               ("input", JObj [])]).2 = Ok (mkBlockStart i "tool_use" id name).
Proof. decode_event. Qed.
Lemma dec_delta_text i d : int64_range i ->
  dec_block_delta (ev_delta i "text_delta" "text" d).2 = Ok (mkBlockDelta "text_delta" d "" i).
Proof. decode_event. Qed.
Lemma dec_delta_json i d : int64_range i ->
  dec_block_delta (ev_delta i "input_json_delta" "partial_json" d).2 =
  Ok (mkBlockDelta "input_json_delta" "" d i).
Proof. decode_event. Qed.
Lemma dec_start_message input : int64_range input ->
  dec_message_start (ev_message_start input).2 = Ok (mkMessageStart input).
Proof. decode_event. Qed.
Lemma dec_delta_message stop output : int64_range output ->
  dec_message_delta (ev_message_delta stop output).2 = Ok (mkMessageDelta stop output).
Proof. decode_event. Qed.

(** *** What each event adds *)
Lemma heard_set_event s acc fin input output ev :
  heard s acc fin input output -> heard (set_event ev s) acc fin input output.
Proof. intros []. by split. Qed.

Lemma event_delta ty text pj i p v s :
  json_Unmarshal_any p = Some v -> dec_block_delta v = Ok (mkBlockDelta ty text pj i) ->
  event p (set_event "content_block_delta" s) =
  then_ (if negb (str_eqb text "")
         then as_emit unix_now no_cancel req [delta_choice (text_message "assistant" text) None] None
                (set_event "content_block_delta" s)
         else Next (set_event "content_block_delta" s))
    (fun s => if negb (str_eqb pj "") then
                match as_toolBlocks s !! i with
                | Some b => as_emit unix_now no_cancel req [delta_choice (tool_delta "" b pj) None] None s
                | None => Next s
                end
              else Next s).
Proof. intros Hp Hd. unfold anthropic_event, unmarshal. rewrite Hp, Hd. reflexivity. Qed.

Lemma event_text i d p s acc fin input output :
  int64_range i -> json_Unmarshal_any p = Some (ev_delta i "text_delta" "text" d).2 ->
  heard s acc fin input output ->
  exists s', event p (set_event "content_block_delta" s) = Next s' /\
    heard s' (acc.1 +:+ d, acc.2) fin input output /\ as_toolBlocks s' = as_toolBlocks s.
Proof.
  intros Hi Hp Hh. apply (heard_set_event _ _ _ _ _ "content_block_delta") in Hh.
  rewrite (event_delta _ _ _ _ _ _ _ Hp (dec_delta_text _ _ Hi)).
  destruct (decide (d = "")) as [->|Hd].
  - eexists. split; [done|]. rewrite string_app_nil_r. by destruct acc.
  - rewrite (str_eqb_ne d) by done.
    destruct (heard_emit (delta_choice (text_message "assistant" d) None) _ _ _ _ _ Hh) as (s' & He & Hh' & Ht & _).
    exists s'. rewrite app_nil_r in Hh'. cbn [negb]. rewrite He. by rewrite Ht.
Qed.

Lemma event_json i d b p s acc fin input output :
  int64_range i -> json_Unmarshal_any p = Some (ev_delta i "input_json_delta" "partial_json" d).2 ->
  as_toolBlocks s !! i = Some b -> heard s acc fin input output ->
  exists s', event p (set_event "content_block_delta" s) = Next s' /\
    heard s' (acc.1, if str_eqb d "" then acc.2
                     else add_call acc.2 (mkToolCall b.1 "function" (mkToolCallFunction b.2 d))) fin input output /\
    as_toolBlocks s' = as_toolBlocks s.
Proof.
  intros Hi Hp Hb Hh. apply (heard_set_event _ _ _ _ _ "content_block_delta") in Hh.
  rewrite (event_delta _ _ _ _ _ _ _ Hp (dec_delta_json _ _ Hi)).
  destruct (decide (d = "")) as [->|Hd].
  - eexists. split; [done|]. by destruct acc.
  - rewrite (str_eqb_ne d) by done. cbn [negb then_ str_eqb]. rewrite str_eqb_refl. cbn [negb then_].
    cbn [as_toolBlocks set_event]. rewrite Hb.
    destruct (heard_emit (delta_choice (tool_delta "" b d) None) _ _ _ _ _ Hh) as (s' & He & Hh' & Ht & _).
    exists s'. rewrite He, Ht. split_and!; [done| |done]. unfold assemble_delta in Hh'. cbn in Hh'.
    by rewrite string_app_nil_r, app_nil_r in Hh'.
Qed.

Lemma event_tool i id name p s acc fin input output :
  int64_range i ->
  json_Unmarshal_any p = Some (ev_start i [("type", JStr "tool_use"); ("id", JStr id); ("name", JStr name);
                                           ("input", JObj [])]).2 ->
  heard s acc fin input output ->
  exists s', event p (set_event "content_block_start" s) = Next s' /\
    heard s' (acc.1, add_call acc.2 (mkToolCall id "function" (mkToolCallFunction name ""))) fin input output /\
    as_toolBlocks s' = <[i := (id, name)]> (as_toolBlocks s).
Proof.
  intros Hi Hp Hh.
  replace (event p (set_event "content_block_start" s)) with
    (as_emit unix_now no_cancel req [delta_choice (tool_delta "assistant" (id, name) "") None] None
       (set_tool i (id, name) (set_event "content_block_start" s)))
    by (unfold anthropic_event, unmarshal; rewrite Hp, (dec_start_tool _ _ _ Hi); reflexivity).
  assert (heard (set_tool i (id, name) (set_event "content_block_start" s)) acc fin input output) as Hh2
    by (destruct Hh; by split).
  destruct (heard_emit (delta_choice (tool_delta "assistant" (id, name) "") None) _ _ _ _ _ Hh2)
    as (s' & He & Hh' & Ht & _).
  exists s'. rewrite He, Ht. split_and!; [done| |done]. unfold assemble_delta in Hh'. cbn in Hh'.
  by rewrite string_app_nil_r, app_nil_r in Hh'.
Qed.

(** Events that add nothing. *)
Lemma event_start_text i p s :
  int64_range i -> json_Unmarshal_any p = Some (ev_start i [("type", JStr "text"); ("text", JStr "")]).2 ->
  event p (set_event "content_block_start" s) = Next (set_event "content_block_start" s).
Proof.
  intros Hi Hp. unfold anthropic_event, unmarshal. rewrite Hp, (dec_start_text _ Hi). reflexivity.
Qed.
Lemma event_stop p s :
  event p (set_event "content_block_stop" s) = Next (set_event "content_block_stop" s).
Proof. reflexivity. Qed.

(** *** A block *)
Definition add_block (acc : string * list ToolCall) (b : streamed_block) : string * list ToolCall :=
  match b with
  | StreamText ds => (foldl append acc.1 ds, acc.2)
  | StreamTool id name fs =>
      (acc.1, acc.2 ++ [mkToolCall id "function" (mkToolCallFunction name (foldl append "" fs))])
  end.

(** Calls are told apart by their ids. *)
Lemma existsb_id (acc : list ToolCall) id :
  id ∉ (tc_ID <$> acc) -> existsb (fun d => str_eqb (tc_ID d) id) acc = false.
Proof.
  intros Hid. apply not_true_is_false. intros (d & Hd & He%str_eqb_true)%existsb_exists.
  apply Hid. rewrite <-He. by apply list_elem_of_fmap_2, list_elem_of_In.
Qed.

Lemma add_call_new acc c : tc_ID c ∉ (tc_ID <$> acc) -> add_call acc c = acc ++ [c].
Proof. intros Hid. unfold add_call. by rewrite existsb_id. Qed.

Lemma add_call_last acc id name args d :
  id ∉ (tc_ID <$> acc) ->
  add_call (acc ++ [mkToolCall id "function" (mkToolCallFunction name args)])
    (mkToolCall id "function" (mkToolCallFunction name d)) =
  acc ++ [mkToolCall id "function" (mkToolCallFunction name (args +:+ d))].
Proof.
  intros Hid. unfold add_call. rewrite existsb_app. cbn [existsb tc_ID]. rewrite str_eqb_refl, orb_true_r.
  rewrite fmap_app. csimpl. rewrite str_eqb_refl. f_equal.
  rewrite <-(list_fmap_id acc) at 2. apply list_fmap_ext. intros j d' Hd'. unfold Datatypes.id.
  rewrite str_eqb_ne; [done|]. intros <-. apply Hid, list_elem_of_fmap_2. by eapply list_elem_of_lookup_2.
Qed.

(** Whatever payloads carry the events, the loop gets through them to a state
    of which [Q] holds. *)
Definition runs (evs : list (string * json)) (s : anthropic_state) (Q : anthropic_state -> Prop) : Prop :=
  forall ps, Forall2 on_wire evs ps ->
  exists s', run_lines line (wire_lines evs ps) s = Next s' /\ Q s'.

Lemma runs_nil s (Q : anthropic_state -> Prop) : Q s -> runs [] s Q.
Proof. intros HQ ps ->%Forall2_nil_inv_l. by exists s. Qed.

Lemma wire_cons ev evs p ps s :
  ev.1 ∈ event_names -> on_wire ev p ->
  run_lines line (wire_lines (ev :: evs) (p :: ps)) s =
  then_ (event p (set_event ev.1 s)) (run_lines line (wire_lines evs ps)).
Proof.
  intros Hn Hw. unfold wire_lines. cbn [zip_with concat]. by rewrite run_lines_app, run_event.
Qed.

Lemma runs_cons ev evs s (Q : anthropic_state -> Prop) :
  ev.1 ∈ event_names ->
  (forall p, json_Unmarshal_any p = Some ev.2 -> exists s', event p (set_event ev.1 s) = Next s' /\ runs evs s' Q) ->
  runs (ev :: evs) s Q.
Proof.
  intros Hn Hev ps (p & ps' & Hw & Hps & ->)%Forall2_cons_inv_l. rewrite wire_cons by done.
  destruct (Hev p) as (s' & -> & Hr); [apply Hw|]. by apply Hr.
Qed.

Lemma wire_app evs1 evs2 ps1 ps2 :
  List.length evs1 = List.length ps1 ->
  wire_lines (evs1 ++ evs2) (ps1 ++ ps2) = wire_lines evs1 ps1 ++ wire_lines evs2 ps2.
Proof. intros Hl. unfold wire_lines. by rewrite zip_with_app, concat_app. Qed.

Lemma runs_app evs1 evs2 s (R Q : anthropic_state -> Prop) :
  runs evs1 s R -> (forall s', R s' -> runs evs2 s' Q) -> runs (evs1 ++ evs2) s Q.
Proof.
  intros H1 H2 ps (ps1 & ps2 & Hp1 & Hp2 & ->)%Forall2_app_inv_l.
  rewrite wire_app, run_lines_app by (by eapply Forall2_length).
  destruct (H1 _ Hp1) as (s1 & -> & HR). by apply (H2 s1 HR).
Qed.

Lemma runs_text i ds s acc fin input output :
  int64_range i -> heard s acc fin input output ->
  runs (ev_delta i "text_delta" "text" <$> ds) s
    (fun s' => heard s' (add_block acc (StreamText ds)) fin input output).
Proof.
  intros Hi. revert s acc. induction ds as [|d ds IH]; intros s acc Hh.
  - apply runs_nil. by destruct acc.
  - apply runs_cons; [set_solver|]. intros p Hp.
    destruct (event_text _ _ _ _ _ _ _ _ Hi Hp Hh) as (s' & He & Hh' & _). exists s'. split; [exact He|].
    exact (IH _ _ Hh').
Qed.

Lemma runs_json i fs s text acc id name args fin input output :
  int64_range i -> id ∉ (tc_ID <$> acc) -> as_toolBlocks s !! i = Some (id, name) ->
  heard s (text, acc ++ [mkToolCall id "function" (mkToolCallFunction name args)]) fin input output ->
  runs (ev_delta i "input_json_delta" "partial_json" <$> fs) s
    (fun s' => heard s' (text, acc ++ [mkToolCall id "function"
                                 (mkToolCallFunction name (foldl append args fs))]) fin input output).
Proof.
  intros Hi Hid. revert s args. induction fs as [|d fs IH]; intros s args Hb Hh.
  - by apply runs_nil.
  - apply runs_cons; [set_solver|]. intros p Hp.
    destruct (event_json _ _ _ _ _ _ _ _ _ Hi Hp Hb Hh) as (s' & He & Hh' & Ht).
    exists s'. split; [exact He|]. cbn [foldl]. apply IH; [by rewrite Ht|].
    cbn [fst snd] in Hh'. rewrite add_call_last in Hh' by done.
    destruct (decide (d = "")) as [->|Hd]; [by rewrite string_app_nil_r|]. by rewrite str_eqb_ne in Hh'.
Qed.

Definition block_ids (b : streamed_block) : list string :=
  match b with StreamText _ => [] | StreamTool id _ _ => [id] end.

Lemma runs_stop i s Q : Q (set_event "content_block_stop" s) -> runs [ev_stop i] s Q.
Proof. intros HQ. apply runs_cons; [set_solver|]. intros p _. eexists. split; [apply event_stop|]. by apply runs_nil. Qed.

Lemma runs_block i b s acc fin input output :
  int64_range i -> (forall id, id ∈ block_ids b -> id ∉ (tc_ID <$> acc.2)) ->
  heard s acc fin input output ->
  runs (block_events i b) s (fun s' => heard s' (add_block acc b) fin input output).
Proof.
  intros Hi Hid Hh. destruct b as [ds|id name fs]; cbn [block_events].
  - apply runs_cons; [set_solver|]. intros p Hp. eexists. split; [by eapply event_start_text|].
    eapply runs_app; [by apply runs_text, heard_set_event|]. intros s' Hh'.
    by apply runs_stop, heard_set_event.
  - apply runs_cons; [set_solver|]. intros p Hp.
    destruct (event_tool _ _ _ _ _ _ _ _ _ Hi Hp Hh) as (s' & He & Hh' & Ht). exists s'. split; [exact He|].
    rewrite add_call_new in Hh' by (apply Hid; set_solver).
    assert (id ∉ (tc_ID <$> acc.2)) as Hnew by (apply Hid; set_solver).
    eapply runs_app; [eapply runs_json; [exact Hi|exact Hnew| |exact Hh']|].
    { by rewrite Ht, lookup_insert_eq. }
    intros s2 Hh2. by apply runs_stop, heard_set_event.
Qed.

Lemma add_block_ids acc b : tc_ID <$> (add_block acc b).2 = (tc_ID <$> acc.2) ++ block_ids b.
Proof. destruct b; simpl; [by rewrite app_nil_r|]. by rewrite fmap_app. Qed.

Lemma runs_blocks i bs s acc fin input output :
  0 <= i -> i + Z.of_nat (List.length bs) < 2 ^ 63 -> NoDup ((tc_ID <$> acc.2) ++ (bs ≫= block_ids)) ->
  heard s acc fin input output ->
  runs (blocks_events i bs) s (fun s' => heard s' (foldl add_block acc bs) fin input output).
Proof.
  revert i s acc. induction bs as [|b bs IH]; intros i s acc Hi Hn Hid Hh; [by apply runs_nil|].
  cbn [blocks_events]. rewrite length_cons in Hn. csimpl in Hid. rewrite app_assoc in Hid.
  pose proof Hid as (Hid2 & _ & _)%list.NoDup_app.
  apply list.NoDup_app in Hid2 as (_ & Hf & _).
  eapply runs_app; [apply runs_block; [unfold int64_range, min_int64, max_int64; lia| |exact Hh]|].
  - intros id Hb Ha. by apply (Hf id).
  - intros s' Hh'. cbn [foldl]. apply IH; [lia|lia| |exact Hh']. by rewrite add_block_ids.
Qed.

(** What comes of the blocks is what the message as a whole is. *)
Lemma foldl_append a ds : foldl append a ds = a +:+ String.concat "" ds.
Proof.
  revert a. induction ds as [|d ds IH]; intros a; [by rewrite string_app_nil_r|].
  cbn [foldl]. rewrite IH. destruct ds; simpl; [by rewrite string_app_nil_r|]. symmetry. apply string_app_assoc.
Qed.

Definition block_canonical (b : streamed_block) : Prop :=
  match b with StreamText _ => True | StreamTool _ _ fs => canonical (String.concat "" fs) end.

Lemma add_block_whole acc b : block_canonical b -> add_block acc b = from_block acc (whole_block b).
Proof.
  intros Hb. destruct b as [ds|id name fs], acc as [text calls]; simpl; rewrite foldl_append; [done|].
  destruct (decode_canonical _ Hb) as ([v Hv] & Hm & _). unfold whole_block, from_block. simpl.
  rewrite Hv in *. by rewrite Hm.
Qed.

Lemma add_blocks_whole acc bs :
  Forall block_canonical bs -> foldl add_block acc bs = foldl from_block acc (whole_block <$> bs).
Proof.
  intros Hbs. revert acc. induction Hbs as [|b bs Hb _ IH]; intros acc; [done|]. csimpl.
  by rewrite add_block_whole, IH.
Qed.

(** *** The whole stream *)
Lemma heard_start : heard anthropic_start ("", []) [] 0 0.
Proof. by split. Qed.

Lemma event_message_start input p s : int64_range input ->
  json_Unmarshal_any p = Some (ev_message_start input).2 ->
  event p (set_event "message_start" s) = Next (set_prompt input (set_event "message_start" s)).
Proof.
  intros Hi Hp. unfold anthropic_event, unmarshal. rewrite Hp, (dec_start_message _ Hi). reflexivity.
Qed.

Definition stream_finish (stop : string) : string := if str_eqb stop "max_tokens" then "length" else "stop".

Lemma event_message_delta stop output p s acc fin input output0 :
  int64_range output -> stop <> "" -> json_Unmarshal_any p = Some (ev_message_delta stop output).2 ->
  heard s acc fin input output0 ->
  exists s', event p (set_event "message_delta" s) = Next s' /\
    heard s' acc (fin ++ [stream_finish stop]) input output.
Proof.
  intros Ho Hs Hp Hh.
  replace (event p (set_event "message_delta" s)) with
    (as_emit unix_now no_cancel req [delta_choice zero_message (Some (stream_finish stop))] None
       (set_completion output (set_event "message_delta" s))).
  2:{ unfold anthropic_event, unmarshal. rewrite Hp, (dec_delta_message _ _ Ho).
      cbn [md_StopReason md_OutputTokens as_event set_event]. rewrite (str_eqb_ne stop) by done. reflexivity. }
  assert (heard (set_completion output (set_event "message_delta" s)) acc fin input output) as Hh2
    by (destruct Hh; by split).
  destruct (heard_emit (delta_choice zero_message (Some (stream_finish stop))) _ _ _ _ _ Hh2) as (s' & He & Hh' & _).
  exists s'. split; [exact He|]. unfold assemble_delta in Hh'. cbn in Hh'. rewrite string_app_nil_r in Hh'.
  by destruct acc.
Qed.

(** The usage chunk, if it was asked for and there is any. *)
Definition usage_sent (input output : Z) : list Usage :=
  if negb (includeUsage req) || ((input =? 0) && (output =? 0)) then []
  else [mkUsageT input output (iadd input output)].

Definition message_of (chunks : list StreamChunk) : ChatMessage :=
  let '(text, toolCalls) := assemble chunks in assistant_message text toolCalls.

Lemma event_message_stop p s acc fin input output :
  heard s acc fin input output ->
  exists s', event p (set_event "message_stop" s) = Return s' None /\
    assemble (as_sent s') = acc /\ finishes (as_sent s') = fin /\ usages (as_sent s') = usage_sent input output.
Proof.
  intros [Ha Hf Hu Hi Ho].
  replace (event p (set_event "message_stop" s)) with
    (then_ (emitUsage unix_now no_cancel req (set_event "message_stop" s)) (fun s => Return s None)) by reflexivity.
  unfold emitUsage, usage_sent. cbn [as_promptTokens as_completionTokens set_event]. rewrite Hi, Ho.
  destruct (_ || _); cbn [then_]; [by eexists|]. eexists. split; [reflexivity|]. simpl.
  unfold assemble, finishes, usages in *. rewrite foldl_app, bind_app, !omap_app, Ha, Hf, Hu. cbn.
  by rewrite app_nil_r.
Qed.

Lemma event_line_ok name : name ∈ event_names -> line_ok ("event: " +:+ name).
Proof.
  intros Hn. repeat (apply elem_of_cons in Hn as [->|Hn];
    [split_and!; [by apply (bool_decide_unpack _)|done|done]|]). by apply elem_of_nil in Hn.
Qed.

Lemma wire_lines_ok evs ps :
  Forall (fun ev => ev.1 ∈ event_names) evs -> Forall2 on_wire evs ps -> Forall line_ok (wire_lines evs ps).
Proof.
  intros Hn Hw. induction Hw as [|ev p evs ps Hp _ IH]; [done|].
  apply list.Forall_cons in Hn as [Hn Hns]. unfold wire_lines. cbn [zip_with concat]. apply list.Forall_app. split; [|by apply IH].
  apply list.Forall_cons; split; [by apply event_line_ok|]. apply list.Forall_cons; split; [apply Hp|].
  apply list.Forall_cons; split; [|done]. split_and!; [by apply not_elem_of_nil|done|done].
Qed.

Lemma message_events_names input bs stop output :
  Forall (fun ev => ev.1 ∈ event_names) (message_events input bs stop output).
Proof.
  unfold message_events. constructor; [set_solver|]. apply list.Forall_app. split; [|repeat constructor; set_solver].
  generalize 0. induction bs as [|b bs IH]; intros i; [constructor|]. cbn [blocks_events]. apply list.Forall_app.
  split; [|done]. destruct b; (constructor; [set_solver|]); apply list.Forall_app;
    (split; [apply Forall_fmap, Forall_true; intros; set_solver|repeat constructor; set_solver]).
Qed.

Lemma run_message input bs stop output ps :
  NoDup (bs ≫= block_ids) -> Z.of_nat (List.length bs) < 2 ^ 63 ->
  int64_range input -> int64_range output -> stop <> "" ->
  Forall2 on_wire (message_events input bs stop output) ps ->
  exists s, run_lines line (wire_lines (message_events input bs stop output) ps) anthropic_start = Return s None /\
    assemble (as_sent s) = foldl add_block ("", []) bs /\ finishes (as_sent s) = [stream_finish stop] /\
    usages (as_sent s) = usage_sent input output.
Proof.
  intros Hid Hn Hi Ho Hs (p & ps' & Hw & Hps & ->)%Forall2_cons_inv_l. unfold message_events. rewrite wire_cons by (done || set_solver).
  rewrite (event_message_start input) by (done || apply Hw). cbn [then_].
  assert (heard (set_prompt input (set_event "message_start" anthropic_start)) ("", []) [] input 0) as Hh by by split.
  apply Forall2_app_inv_l in Hps as (ps1 & ps2 & H1 & H2 & ->).
  rewrite wire_app, run_lines_app by (by eapply Forall2_length).
  destruct (runs_blocks 0 bs _ ("", []) _ _ _ ltac:(lia) ltac:(lia) Hid Hh _ H1) as (s1 & -> & Hh1). cbn [then_].
  apply Forall2_cons_inv_l in H2 as (p2 & ps3 & Hw2 & H2 & ->). rewrite wire_cons by (done || set_solver).
  destruct (event_message_delta stop output p2 _ _ _ _ _ Ho Hs (proj1 Hw2) Hh1) as (s2 & He2 & Hh2).
  replace (event p2 _) with (Next s2) by (symmetry; exact He2). cbn [then_].
  apply Forall2_cons_inv_l in H2 as (p3 & ps4 & Hw3 & H2 & ->). rewrite wire_cons by (done || set_solver).
  destruct (event_message_stop p3 _ _ _ _ _ Hh2) as (s3 & He3 & Hr).
  exists s3. split; [|exact Hr]. replace (event p3 _) with (Return s3 None) by (symmetry; exact He3). done.
Qed.

End assembly.


(** ** Examples *)

(** Payloads in JSON, without the escapes. *)
Definition quoted (s : string) : string := String "034" (s +:+ String "034" "").
Fixpoint render (v : json) : string :=
  match v with
  | JNull => "null"
  | JBool b => if b then "true" else "false"
  | JInt z => pretty z
  | JFloat _ => "0.0"
  | JStr s => quoted s
  | JArr l => "[" +:+ String.concat "," (map render l) +:+ "]"
  | JObj l => "{" +:+ String.concat "," (map (fun kv => quoted kv.1 +:+ ":" +:+ render kv.2) l) +:+ "}"
  end.

Definition ex_stream_blocks : list streamed_block :=
  [StreamText ["It is"; ""; " late"]; StreamTool "c1" "now" [render (JObj [("z", JInt 1)])];
   StreamTool "c2" "now" ["{}"; ""]].
Definition ex_events : list (string * json) := message_events 7 ex_stream_blocks "tool_use" 9.

#[local] Instance ex_json : JsonText := {|
  json_Marshal_any v := Some (render v);
  json_Unmarshal_any s :=
    find (fun v => str_eqb (render v) s) (JObj [("z", JInt 1)] :: JObj [] :: (snd <$> ex_events)) |}.

Definition ex_chat (usage : bool) : ChatRequest :=
  mkChatRequest "m" [text_message "user" "hi"] None None None None None None None None None true
    (Some (mkStreamOptions usage)) [] None None None None None "" "" "" [] None.

Definition ex_payloads : list string := render ∘ snd <$> ex_events.
Definition ex_resp : http_in := mkHttpIn 200 "" (unlines (wire_lines ex_events ex_payloads)) None.

#[local] Instance line_ok_dec l : Decision (line_ok l).
Proof. unfold line_ok. apply _. Defined.


(** A transport that answers a body of its own to every request. *)
#[local] Instance ex_http : Http unit http_in := {|
  http_NewRequest _ _ := None;
  http_Do _ _ w := (w, if hi_StatusCode w =? 0 then Err Canceled else Ok w);
  json_Encode _ := Ok ("{}" +:+ String Buffers.newline "");
  err_Error _ := "context canceled";
  http_now _ := 0;
  http_ParseTime _ := None;
  Sscanf_d _ := None;
  f32_decode _ := Err tt;
  embeddings_decode _ := Err tt;
  json_first _ _ := Err (EText "EOF");
|}.

Definition ex_openai : upstream := NewOpenAI "k" "http://o" 0 ["m"].

Lemma up_Send_classified_witness :
  exists e, (up_Send ex_openai tt (ex_chat false) (mkHttpIn 429 "" "slow down" None)).2 = Err e /\
    IsRetryable e = true /\
    forall pe, errors_As e = Some pe -> pv_ProviderName pe = "openai" /\
      pv_StatusCode pe = 429 /\ go_len (pv_Message pe) <= 4099.
Proof.
  pose proof (up_Send_classified ex_openai tt (ex_chat false) (mkHttpIn 429 "" "slow down" None)) as H.
  destruct (up_Send _ _ _ _).2 as [resp|e] eqn:E; [exfalso; vm_compute in E; discriminate|].
  exists e. split; [reflexivity|]. destruct H as [Hr Hm]; [by intros out w' resp e' [= <- <-]|].
  split; [apply Hr; eexists _, _; split; [reflexivity|split; [done|by left]]|].
  intros pe He. destruct (Hm pe He) as (Hn & w' & res & [= <- <-] & _ & Hs & Hl). done.
Defined.

(** The body is read before the status is looked at: a 429 whose body breaks
    off is not tried again. *)
Example broken_off_429_not_retried :
  match (up_Send ex_openai tt (ex_chat false) (mkHttpIn 429 "" "slow" (Some (EText "unexpected EOF")))).2 with
  | Err e => IsRetryable e = false
  | Ok _ => False
  end.
Proof. done. Qed.

(** A request that the caller has cancelled fails as one to try again. *)
Example cancelled_is_retryable :
  match (up_Send ex_openai tt (ex_chat false) (mkHttpIn 0 "" "" None)).2 with
  | Err e => IsRetryable e = true
  | Ok _ => False
  end.
Proof. done. Qed.

(** A streamed turn that calls tools ends with [stop], the same turn read as
    a whole with [tool_calls]. *)
Example streamed_tool_use_finish :
  finishes (anthropic_stream (fun n => Z.of_nat n) (fun _ => None) (ex_chat false) ex_resp).1 = ["stop"] /\
  ch_FinishReason <$> resp_Choices (FromAnthropic (mkAnthropicResponse "1" "m"
    (whole_block <$> ex_stream_blocks) "tool_use" 7 9)) = ["tool_calls"].
Proof. vm_compute. done. Qed.

(** OpenAI numbers the tool calls of a delta, a field the message decoder does
    not know: the chunk is dropped. *)
Definition ex_tool_chunk (index : list (string * json)) : json :=
  JObj [("choices", JArr [JObj [("index", JInt 0); ("delta", JObj [("role", JStr "assistant");
    ("tool_calls", JArr [JObj (index ++ [("id", JStr "c1"); ("type", JStr "function");
       ("function", JObj [("name", JStr "now"); ("arguments", JStr "{}")])])])])]])].
Example openai_tool_delta_dropped :
  dec_StreamChunk (ex_tool_chunk [("index", JInt 0)]) = Err tt /\ is_ok (dec_StreamChunk (ex_tool_chunk [])) = true.
Proof. done. Qed.
