(* ===== verification/Serve.v ===== *)
(** * Serving a chat completion: [Handler.ServeHTTP] of
    [internal/proxy/handler.go]

    The whole request: decoding, validation, the token bucket, the cache, the
    budget reservation, dispatching or streaming, the settlement of the
    budget, and the response.  JSON, durations and hashes are parameters. *)

From Stdlib Require Import Ascii String.
From stdpp Require Import pretty.
From S2P Require Import Prelude GoFloat GoStrings GoTime Types Circuit Pricing Retry Budget RateLimit.
From S2P Require Import RateBackend Cache CacheSemantic CacheKeys Router Provider Dispatch.
Open Scope string_scope.
Open Scope list_scope.
Open Scope Z_scope.

(** What [io.ReadAll] on the limited body yields. *)
Inductive read_result (T : Type) :=
| ReadOk (body : T)
| ReadTooLarge
| ReadError.
Arguments ReadOk {T}.
Arguments ReadTooLarge {T}.
Arguments ReadError {T}.

Record http_request (T Ctx : Type) := mkHttpReq {
  q_Body : read_result T;
  q_RequestID : string;
  q_TenantID : string;
  q_Authorization : string;
  q_CacheSkip : string;
  q_CacheTTL : string;
  q_RemoteAddr : string;
  q_ctx : Ctx;
  q_flusher : bool;        (** the writer is an [http.Flusher] *)
}.
Arguments q_Body {T Ctx}.
Arguments q_RequestID {T Ctx}.
Arguments q_TenantID {T Ctx}.
Arguments q_Authorization {T Ctx}.
Arguments q_CacheSkip {T Ctx}.
Arguments q_CacheTTL {T Ctx}.
Arguments q_RemoteAddr {T Ctx}.
Arguments q_ctx {T Ctx}.
Arguments q_flusher {T Ctx}.

(** The text of an error response. *)
Inductive message :=
| MText (msg : string)
| MDecode (msg : string)              (** ["invalid JSON body: " + err] *)
| MError (e : error)
| MBudget (e : BudgetError)
| MPricing (e : PricingError).

Inductive body :=
| BError (errType : string) (msg : message)
| BData (data : string)               (** bytes from the cache or [json.Marshal] *)
| BFrames (fs : list frame).

Record response := mkResponse {
  rs_Status : Z;
  rs_Header : gmap string string;
  rs_Body : body;
}.

(** A request is answered, panics, or blocks for ever on a stream. *)
Inductive served := Reply (r : response) | Panicked | Blocked.

(** A double quote. *)
Definition dq : string := String "034"%char "".

(** [writeError], on top of the headers set so far. *)
Definition writeError (hdr : gmap string string) (status : Z) (errType : string) (msg : message) : served :=
  Reply (mkResponse status (<["Content-Type" := "application/json"]> hdr) (BError errType msg)).

(** The [Retry-After] of a refused request: whole seconds, at least one. *)
Definition retry_after_header (retryAfter : Z) : string :=
  let seconds := Z.quot retryAfter Second in
  pretty (if seconds <? 1 then 1 else seconds).

Definition propagateRetryAfter (hdr : gmap string string) (err : error) : gmap string string :=
  match errors_As err with
  | Some pe =>
      if 0 <? pv_RetryAfter pe
      then <["Retry-After" := pretty (f64_to_int (Duration_Seconds (pv_RetryAfter pe)))]> hdr
      else if pv_StatusCode pe =? 429 then <["Retry-After" := "1"]> hdr
      else hdr
  | None => hdr
  end.

(** [err] is a budget or a pricing error. *)
Definition writeBudgetError (err : BudgetError + PricingError) : served :=
  match err with
  | inl BudgetUnavailable =>
      writeError ∅ 503 "budget_unavailable" (MText "budget service temporarily unavailable")
  | inl e => writeError ∅ 429 "insufficient_quota" (MBudget e)
  | inr ErrUnknownPrice =>
      writeError ∅ 503 "pricing_unavailable" (MText "provider/model price is not configured")
  | inr e => writeError ∅ 429 "insufficient_quota" (MPricing e)
  end.

(** What the standard library contributes: [encoding/json] (the decoder keeps
    the rest of the input), SHA-256, and the month of
    the clock. *)
Class Web (T W : Type) := {
  json_decode_request : T -> result (ChatRequest * T) string;
  json_decode_any : T -> option (result T string);        (** [None] is [io.EOF] *)
  json_Marshal : ChatResponse -> string;
  sha_json : json -> string;
  sha_string : string -> string;
  month_Now : W -> string;
}.

(** A cache that implements [cache.SemanticLookup], or one that does not. *)
Inductive any_cache (CE : Type) :=
| Plain (c : CE)
| Semantic_ (s : Semantic (C := CE)).
Arguments Plain {CE}.
Arguments Semantic_ {CE}.

Section serve.
Context {P Ctx Rng W L Store CE T : Type}.
Context `{!Env P Ctx Rng W, !Web T W, !Backend L W, !BudgetStore Store W, !Cache CE W}.
Abbreviation Reg := (Registry (P := P) (Rng := Rng)).
(** The embedder of a semantic cache resolves its model in the registry. *)
Context (embed : string -> Reg * W -> (Reg * W) * result (list float64) unit).
Abbreviation Hd := (Handler P Rng L OverrideStore (Manager (Store := Store)) (any_cache CE)).
Abbreviation sys := (Hd * W)%type.
Implicit Types (h : Hd) (w : W) (s : sys) (req : ChatRequest) (r : http_request T Ctx).

(** [decodeSingleJSON]. *)
Definition decodeSingleJSON (b : T) : result ChatRequest string :=
  match json_decode_request b with
  | Err e => Err e
  | Ok (req, rest) =>
      match json_decode_any rest with
      | None => Ok req
      | Some (Ok _) => Err "multiple JSON values are not allowed"
      | Some (Err e) => Err e
      end
  end.

Definition clientRateLimitKey r : string :=
  let identity := q_TenantID r in
  let identity := if str_eqb identity "" then q_Authorization r else identity in
  let identity := if str_eqb identity "" then q_RemoteAddr r else identity in
  "client:" +:+ sha_string identity.

Definition message_chars req : Z :=
  foldl (fun n m => iadd n (go_len (ChatMessage_Text m))) 0 (req_Messages req).

Definition chatPromptTokens req : Z := EstimateTokens (message_chars req).

(** *** State changes *)
Definition with_limiter h l : Hd :=
  mkHandler (h_registry h) (h_fallbackChain h) (h_retryCfg h) (h_circuitCfg h) (h_circuits h)
    (h_hedgeCfg h) (Some l) (h_overrideStore h) (h_budgetMgr h) (h_tokenAware h) (h_cache h) (h_cacheTTL h).
Definition with_cache h c : Hd := SetCache h (Some c) (h_cacheTTL h).
Definition with_budget h m : Hd :=
  mkHandler (h_registry h) (h_fallbackChain h) (h_retryCfg h) (h_circuitCfg h) (h_circuits h)
    (h_hedgeCfg h) (h_limiter h) (h_overrideStore h) (Some m) (h_tokenAware h) (h_cache h) (h_cacheTTL h).

(** *** The token bucket: [Some] refusal, with its [Retry-After]. *)
Definition check_tokens r req s : sys * option string :=
  match h_overrideStore s.1, h_limiter s.1 with
  | Some o, Some l =>
      let '(rpm, burst) := RateLimit.Resolve o (q_TenantID r) (req_Model req) in
      if h_tokenAware s.1 then
        let estTokens := EstimateTokens (message_chars req) in
        let key := clientRateLimitKey r +:+ ":tokens" in
        let '(l, w, ok) := be_AllowWithLimits l key estTokens rpm burst (time_Now s.2) s.2 in
        if ok then ((with_limiter s.1 l, w), None)
        else
          let '(l, retryAfter) := be_RetryAfterWithLimits (W := W) l key rpm burst (time_Now w) in
          ((with_limiter s.1 l, w), Some (retry_after_header retryAfter))
      else (s, None)
  | _, _ => (s, None)
  end.

(** *** The cache *)

(** The time to live of an entry, once the cache is used. *)
Definition cache_ttl r (ttl : Z) : Z :=
  let fromHeader :=
    if str_eqb (q_CacheTTL r) "" then 0
    else match ParseDuration (q_CacheTTL r) with
         | Some d => if 0 <? d then d else 0
         | None => 0
         end in
  if fromHeader =? 0 then (if ttl =? 0 then 5 * Minute else ttl) else fromHeader.

Definition cache_Get (c : any_cache CE) (key : string) (now : Z) w : any_cache CE * W * option string :=
  match c with
  | Plain c => let '(c, w, v) := ca_Get c key now w in (Plain c, w, v)
  | Semantic_ s => let '(s, w, v) := Semantic_Get s key now w in (Semantic_ s, w, v)
  end.

Definition chat_key r req : string := BuildKeyForIdentity sha_json sha_string req (q_Authorization r).
Definition chat_namespace r req : string :=
  BuildSemanticNamespace sha_json sha_string req (q_Authorization r).

(** The lookup: [used] when the cache applies to the request, with the data
    and the name of the layer that had it. *)
Definition cache_used s r req : option (any_cache CE) :=
  match h_cache s.1 with
  | Some c => if negb (req_Stream req) && negb (str_eqb (q_CacheSkip r) "true") then Some c else None
  | None => None
  end.

Definition cache_lookup r req s : sys * option (string * string) :=
  match cache_used s r req with
  | None => (s, None)
  | Some c =>
      let '(c, w, hit) := cache_Get c (chat_key r req) (time_Now s.2) s.2 in
      match hit with
      | Some data => ((with_cache s.1 c, w), Some ("cache", data))
      | None =>
          match c with
          | Plain _ => ((with_cache s.1 c, w), None)
          | Semantic_ sm =>
              let '(sm, (reg, w), hit) :=
                Lookup embed sm (chat_namespace r req) (SemanticQuery req) (time_Now w) (h_registry s.1, w) in
              ((with_cache (with_registry s.1 reg) (Semantic_ sm), w),
               match hit with Some data => Some ("cache-semantic", data) | None => None end)
          end
      end
  end.

Definition hit_response (layer data : string) : served :=
  Reply (mkResponse 200
    (<["X-Gateway-Provider" := layer]> (<["X-Cache" := "HIT"]> {["Content-Type" := "application/json"]}))
    (BData data)).

Definition cache_store r req (key data : string) (ttl : Z) s : sys :=
  match h_cache s.1 with
  | Some (Semantic_ sm) =>
      let '(sm, (reg, w)) := SetSemantic embed sm (chat_namespace r req) (SemanticQuery req) key data ttl
                        (time_Now s.2) (h_registry s.1, s.2) in
      (with_cache (with_registry s.1 reg) (Semantic_ sm), w)
  | Some (Plain c) =>
      let '(c, w) := ca_Set c key data ttl (time_Now s.2) s.2 in (with_cache s.1 (Plain c), w)
  | None => s
  end.

(** *** The budget *)
Definition reserveChatBudget (tenant : string) req s
    : sys * result (option Reservation * Z * float64) (BudgetError + PricingError) :=
  match h_budgetMgr s.1 with
  | None => (s, Ok (None, 0, 0))
  | Some m =>
      let completionTokens :=
        match EffectiveMaxTokens req with Some max => if 0 <? max then max else 0 | None => 0 end in
      let tokens := iadd (chatPromptTokens req) completionTokens in
      match Manager_EstimateChat m (req_Model req) (isub tokens completionTokens) completionTokens with
      | Err e => (s, Err (inr e))
      | Ok estimate =>
          let usd := e_USD estimate in
          match Reserve m tenant (month_Now s.2) tokens usd s.2 with
          | (m, w, Err e) => ((with_budget s.1 m, w), Err (inl e))
          | (m, w, Ok reservation) => ((with_budget s.1 m, w), Ok (reservation, tokens, usd))
          end
      end
  end.

Definition commit (reservation : option Reservation) (tokens : Z) (usd : float64) s : sys :=
  match h_budgetMgr s.1, reservation with
  | Some m, Some rv => let '(m, w, _, _) := Commit m rv tokens usd s.2 in (with_budget s.1 m, w)
  | _, _ => s
  end.

Definition cancel (reservation : option Reservation) s : sys :=
  match h_budgetMgr s.1, reservation with
  | Some m, Some rv => let '(m, w, _) := Cancel m rv s.2 in (with_budget s.1 m, w)
  | _, _ => s
  end.

(** The price of a finished call. *)
Definition actual_usd (m : Manager (Store := Store)) (provider : string) req (u : Usage) : float64 :=
  match CostForChat m provider (req_Model req) (us_PromptTokens u) (us_CompletionTokens u) with
  | Ok estimate => e_USD estimate
  | Err _ => CostForTokens m (us_TotalTokens u)
  end.

(** *** Streaming: the response, and whether it was started. *)
Definition handleStream r req s : sys * served * bool :=
  match resolve req s with
  | (s, Err Panic) => (s, Panicked, false)
  | (s, Err e) => (s, writeError ∅ 404 "model_not_found" (MError e), false)
  | (s, Ok primary) =>
      if negb (q_flusher r) then
        (s, writeError ∅ 500 "server_error" (MText "streaming not supported"), false)
      else
        match openStream (q_ctx r) req primary s with
        | (s, None) => (s, Blocked, false)
        | (s, Some (Err e)) =>
            (s, writeError (propagateRetryAfter ∅ e) 502 "provider_error" (MError e), false)
        | (s, Some (Ok session)) =>
            let hdr := <["X-Gateway-Provider" := p_Name (W := W) (ss_provider session)]>
                         (<["Connection" := "keep-alive"]> (<["Cache-Control" := "no-cache"]>
                            {["Content-Type" := "text/event-stream"]})) in
            match stream_frames (ss_first session) (ss_events session) with
            | (_, false) => (s, Blocked, true)
            | (fs, true) =>
                ((s.1, ctx_Cancel (ss_ctx session) s.2), Reply (mkResponse 200 hdr (BFrames fs)), true)
            end
        end
  end.

Definition serve_stream r req (reservation : option Reservation) (tokens : Z) (usd : float64) s
    : sys * served :=
  match handleStream r req s with
  | (s, Blocked, _) => (s, Blocked)
  | (s, Panicked, _) => (s, Panicked)
  | (s, out, started) => ((if started then commit reservation tokens usd s else cancel reservation s), out)
  end.

(** *** A completion *)
Definition dispatch_error (e : error) : served :=
  if errors_Is is_NoProvider e then writeError ∅ 404 "model_not_found" (MError e)
  else if errors_Is is_DeadlineExceeded e then
    writeError ∅ 504 "provider_error" (MText "request timed out")
  else match e with
       | Panic => Panicked
       | _ => writeError (propagateRetryAfter ∅ e) 502 "provider_error" (MError e)
       end.

(** [json.NewEncoder(w).Encode] ends the text with a newline. *)
Definition encoded (data : string) : string := data +:+ String newline "".

(** [key] and [ttl] are empty and zero when the cache did not apply. *)
Definition serve_completion r req (key : string) (ttl : Z) (reservation : option Reservation) s
    : sys * served :=
  match dispatch (q_ctx r) req s with
  | (s, Err e) => (cancel reservation s, dispatch_error e)
  | (s, Ok (resp, providerName)) =>
      let s := sys_state s providerName in
      let s := match h_budgetMgr s.1 with
               | Some m => commit reservation (us_TotalTokens (resp_Usage resp))
                             (actual_usd m providerName req (resp_Usage resp)) s
               | None => s
               end in
      let hdr := <["X-Gateway-Provider" := providerName]> {["Content-Type" := "application/json"]} in
      let data := json_Marshal resp in
      match h_cache s.1 with
      | Some _ =>
          ((if str_eqb key "" then s else cache_store r req key data ttl s),
           Reply (mkResponse 200 (<["X-Cache" := "MISS"]> hdr)
                    (BData (if str_eqb key "" then encoded data else data))))
      | None => (s, Reply (mkResponse 200 hdr (BData (encoded data))))
      end
  end.

Definition validate (b : read_result T) : result ChatRequest served :=
  match b with
  | ReadTooLarge =>
      Err (writeError ∅ 413 "invalid_request_error" (MText "request body too large (max 1MiB)"))
  | ReadError => Err (writeError ∅ 400 "invalid_request_error" (MText "cannot read request body"))
  | ReadOk b =>
      match decodeSingleJSON b with
      | Err e => Err (writeError ∅ 400 "invalid_request_error" (MDecode e))
      | Ok req =>
          if str_eqb (req_Model req) "" then
            Err (writeError ∅ 400 "invalid_request_error" (MText (dq +:+ "model" +:+ dq +:+ " field is required")))
          else match req_Messages req with
               | [] => Err (writeError ∅ 400 "invalid_request_error"
                              (MText (dq +:+ "messages" +:+ dq +:+ " must be a non-empty array")))
               | _ => Ok req
               end
      end
  end.

Definition ServeHTTP r s : sys * served :=
  match validate (q_Body r) with
  | Err out => (s, out)
  | Ok req =>
      match check_tokens r req s with
      | (s, Some retryAfter) =>
          (s, writeError {["Retry-After" := retryAfter]} 429 "rate_limit_exceeded"
                (MText "token budget exceeded, retry later"))
      | (s, None) =>
          let '(key, ttl) :=
            match cache_used s r req with
            | Some _ => (chat_key r req, cache_ttl r (h_cacheTTL s.1))
            | None => ("", 0)
            end in
          match cache_lookup r req s with
          | (s, Some (layer, data)) => (s, hit_response layer data)
          | (s, None) =>
              match reserveChatBudget (q_TenantID r) req s with
              | (s, Err e) => (s, writeBudgetError e)
              | (s, Ok (reservation, tokens, usd)) =>
                  if req_Stream req then serve_stream r req reservation tokens usd s
                  else serve_completion r req key ttl reservation s
              end
          end
      end
  end.


(** ** What the steps leave alone *)

Lemma same_handler_budget h h' : same_handler h h' -> h_budgetMgr h' = h_budgetMgr h.
Proof. intros [r Hr]. exact (f_equal h_budgetMgr Hr). Qed.
Lemma same_handler_cache h h' : same_handler h h' -> h_cache h' = h_cache h.
Proof. intros [r Hr]. exact (f_equal h_cache Hr). Qed.

Lemma check_tokens_frame r req s :
  let s' := (check_tokens r req s).1 in
  h_budgetMgr s'.1 = h_budgetMgr s.1 /\ h_cache s'.1 = h_cache s.1 /\ h_circuits s'.1 = h_circuits s.1 /\
  h_registry s'.1 = h_registry s.1.
Proof.
  unfold check_tokens. repeat case_match; simplify_eq/=; done.
Qed.

Lemma cache_lookup_frame r req s :
  h_budgetMgr (cache_lookup r req s).1.1 = h_budgetMgr s.1.
Proof. unfold cache_lookup. repeat case_match; simplify_eq/=; done. Qed.

Lemma cache_store_frame r req key data ttl s :
  h_budgetMgr (cache_store r req key data ttl s).1 = h_budgetMgr s.1.
Proof. unfold cache_store. repeat case_match; simplify_eq/=; done. Qed.

Lemma handleStream_frame r req s : same_handler s.1 (handleStream r req s).1.1.1.
Proof.
  unfold handleStream. destruct (resolve_frame req s) as (g & Hg).
  destruct (resolve req s) as [s1 [primary|e]]; simpl in Hg; subst s1; [|destruct e; simpl; by exists g].
  destruct (negb (q_flusher r)); [by exists g|].
  pose proof (open_loop_frame true (stream_providers (drawn s.1 g) primary) (q_ctx r) req None
    (drawn s.1 g, s.2)) as Hf.
  unfold openStream. cbn [fst] in *. destruct (open_loop _ _ _ _ _ _) as [s1 [[ss|e]|]]; simpl in *; try by exists g.
  destruct (stream_frames _ _) as [fs [|]]; simpl; by exists g.
Qed.

(** ** The books *)

(** The in-process manager's token counters are [f]. *)
Definition books s (f : string -> Z) : Prop :=
  exists m, h_budgetMgr s.1 = Some m /\ in_memory m /\ forall k, usage_tokens m k = f k.

Lemma books_frame s s' f : h_budgetMgr s'.1 = h_budgetMgr s.1 -> books s f -> books s' f.
Proof. intros E (m & ? & ?). exists m. by rewrite E. Qed.

(** The manager can restore the counters [f] by cancelling [rv]. *)
Definition refundable s (f : string -> Z) (rv : option Reservation) : Prop :=
  exists m, h_budgetMgr s.1 = Some m /\ restores m f rv.

Lemma refundable_frame s s' f rv : h_budgetMgr s'.1 = h_budgetMgr s.1 -> refundable s f rv -> refundable s' f rv.
Proof. intros E (m & ? & ?). exists m. by rewrite E. Qed.

Lemma cancel_books s f rv : refundable s f rv -> books (cancel rv s) f.
Proof.
  intros (m & Hm & Hr). unfold cancel. rewrite Hm. specialize (Hr s.2).
  destruct rv as [rv|]; [|by exists m]. destruct (Cancel m rv s.2) as [[m2 w2] rv2]. by exists m2.
Qed.

Lemma reserveChatBudget_books tenant req s m :
  h_budgetMgr s.1 = Some m -> in_memory m -> books_ok m ->
  match reserveChatBudget tenant req s with
  | (s', Err _) => books s' (usage_tokens m)
  | (s', Ok (rv, _, _)) => refundable s' (usage_tokens m) rv
  end.
Proof.
  intros Hm Hs Hb. unfold reserveChatBudget. rewrite Hm. cbv zeta.
  destruct (Manager_EstimateChat _ _ _ _) as [est|e]; [|by exists m].
  match goal with |- context [Reserve m ?t ?mo ?k ?u ?w] =>
    pose proof (Reserve_restores m t mo k u w Hs Hb) as Hr; destruct (Reserve m t mo k u w) as [[m1 w1] [rv|e]] end.
  - by exists m1.
  - exists m1. split; [done|]. apply (Hr w1).
Qed.

(** A served request that did not get a 200. *)
Definition failed_reply (out : served) : Prop :=
  match out with Reply rs => rs_Status rs <> 200 | _ => False end.

Lemma serve_stream_refund r req rv tokens usd s f :
  refundable s f rv ->
  failed_reply (serve_stream r req rv tokens usd s).2 -> books (serve_stream r req rv tokens usd s).1 f.
Proof.
  intros Hr. pose proof (same_handler_budget _ _ (handleStream_frame r req s)) as Hf.
  pose proof (refundable_frame _ (handleStream r req s).1.1 _ _ Hf Hr) as Hr'.
  assert (forall s' out, handleStream r req s = (s', out, true) -> ~ failed_reply out) as Hok.
  { intros s' out. unfold handleStream. repeat case_match; intros; simplify_eq; simpl; tauto. }
  unfold serve_stream. destruct (handleStream r req s) as [[s' out] started]. simpl in Hr'.
  destruct out as [rs| |]; try done. destruct started; [|intros _; by apply cancel_books]. intros H. by destruct (Hok s' (Reply rs) eq_refl).
Qed.

Lemma serve_completion_refund r req key ttl rv s f :
  refundable s f rv ->
  failed_reply (serve_completion r req key ttl rv s).2 -> books (serve_completion r req key ttl rv s).1 f.
Proof.
  intros Hr. pose proof (same_handler_budget _ _ (dispatch_frame (q_ctx r) req s)) as Hf.
  pose proof (refundable_frame _ _ _ _ Hf Hr) as Hr'.
  unfold serve_completion. destruct (dispatch (q_ctx r) req s) as [s' [[resp name]|e]]; simpl in *;
    [|intros _; by apply cancel_books].
  destruct (h_cache _); simpl; intros H; by destruct H.
Qed.

End serve.

(** A request that is not answered with 200 costs its tenant nothing: with
    the in-process books, every token counter ends as it began, whatever step
    failed (validation, rate limit, budget, routing, providers). *)
Theorem serve_refunds_failures {P Ctx Rng W L Store CE T : Type}
    `{!Env P Ctx Rng W, !Web T W, !Backend L W, !BudgetStore Store W, !Cache CE W} embed
    (r : http_request T Ctx)
    (s : Handler P Rng L OverrideStore (Manager (Store := Store)) (any_cache CE) * W) m :
  h_budgetMgr s.1 = Some m -> in_memory m -> books_ok m ->
  failed_reply (ServeHTTP embed r s).2 ->
  books (ServeHTTP embed r s).1 (usage_tokens m).
Proof.
  intros Hm Hs Hb. assert (books s (usage_tokens m)) as H0 by (by exists m).
  unfold ServeHTTP. destruct (validate (q_Body r)) as [req|out]; [|done].
  destruct (check_tokens_frame r req s) as (Hf1 & _). destruct (check_tokens r req s) as [s1 [ra|]]; simpl in Hf1.
  { intros _. by eapply books_frame. }
  destruct (match cache_used s1 r req with Some _ => _ | None => _ end) as [key ttl].
  pose proof (cache_lookup_frame embed r req s1) as Hf2.
  destruct (cache_lookup embed r req s1) as [s2 [[layer data]|]]; simpl in Hf2.
  { intros H. by destruct H. }
  assert (h_budgetMgr s2.1 = Some m) as Hm2 by congruence.
  pose proof (reserveChatBudget_books (q_TenantID r) req s2 m Hm2 Hs Hb) as Hr.
  destruct (reserveChatBudget _ _ _) as [s3 [[[rv tokens] usd]|e]]; [|done].
  destruct (req_Stream req); [by apply serve_stream_refund|by apply serve_completion_refund].
Qed.

(** ** The cache *)
Section caching.
Context {P Ctx Rng W L Store CE T : Type}.
Context `{!Env P Ctx Rng W, !Web T W, !Backend L W, !BudgetStore Store W, !Cache CE W, !CacheLaws CE W}.
Abbreviation Reg := (Registry (P := P) (Rng := Rng)).
Context (embed : string -> Reg * W -> (Reg * W) * result (list float64) unit).
Abbreviation Hd := (Handler P Rng L OverrideStore (Manager (Store := Store)) (any_cache CE)).
Abbreviation sys := (Hd * W)%type.
Implicit Types (h : Hd) (w : W) (s : sys) (req : ChatRequest) (r : http_request T Ctx).

(** Some lookup of [k] may return [v]. *)
Definition any_holds (c : any_cache CE) (k v : string) : Prop :=
  match c with
  | Plain c => ca_holds c k v
  | Semantic_ sm => ca_holds (sm_exact sm) k v
  end.
Definition holds s k v : Prop := exists c, h_cache s.1 = Some c /\ any_holds c k v.

(** Where the data of a hit comes from. *)
Definition hit_from s r req (layer v : string) : Prop :=
  (layer = "cache" /\ holds s (chat_key r req) v) \/
  (layer = "cache-semantic" /\ exists sm e, h_cache s.1 = Some (Semantic_ sm) /\ e ∈ sm_entries sm /\
     se_namespace e = chat_namespace r req /\ ca_holds (sm_exact sm) (se_key e) v).

Lemma cache_Get_spec c key now w :
  let '(c', _, v) := cache_Get c key now w in
  (forall k v, any_holds c' k v -> any_holds c k v) /\
  (forall x, v = Some x -> any_holds c key x) /\
  (forall sm', c' = Semantic_ sm' -> exists sm, c = Semantic_ sm /\ sm_entries sm' = sm_entries sm).
Proof.
  destruct c as [c|sm]; simpl.
  - pose proof (ca_get_mono c key now w) as Hm. pose proof (ca_get_holds c key now w) as Hh.
    destruct (ca_Get c key now w) as [[? ?] ?]. simpl in *. split_and!; auto; done.
  - unfold Semantic_Get. pose proof (ca_get_mono (sm_exact sm) key now w) as Hm.
    pose proof (ca_get_holds (sm_exact sm) key now w) as Hh.
    destruct (ca_Get (sm_exact sm) key now w) as [[? ?] ?]. simpl in *. split_and!; auto.
    intros sm' [= <-]. by exists sm.
Qed.

Lemma cache_lookup_spec r req s :
  let '(s', hit) := cache_lookup embed r req s in
  (forall k v, holds s' k v -> holds s k v) /\
  (forall layer v, hit = Some (layer, v) ->
     req_Stream req = false /\ q_CacheSkip r <> "true" /\ hit_from s r req layer v).
Proof.
  unfold cache_lookup, cache_used. destruct (h_cache s.1) as [c|] eqn:Ec; [|split; [auto|done]].
  destruct (req_Stream req) eqn:Est; simpl; [split; [auto|done]|].
  unfold str_eqb. case_bool_decide as Esk; simpl; [split; [auto|done]|].
  pose proof (cache_Get_spec c (chat_key r req) (time_Now s.2) s.2) as Hg.
  destruct (cache_Get c _ _ _) as [[c1 w1] [v|]]; destruct Hg as (Hm & Hh & Hs).
  - split.
    + intros k v' (c' & [= <-] & ?). exists c. auto.
    + intros layer v' [= <- <-]. split_and!; [done|done|]. left. split; [done|]. exists c. auto.
  - destruct c1 as [c1|sm1].
    { split; [|done]. intros k v' (c' & [= <-] & ?). exists c. auto. }
    destruct (Hs sm1 eq_refl) as (sm & -> & He).
    pose proof (Lookup_ok embed sm1 (chat_namespace r req) (SemanticQuery req) (time_Now w1) (h_registry s.1, w1)) as Hl.
    destruct (Lookup _ _ _ _ _ _) as [[sm2 [reg w2]] hit]. destruct Hl as (L1 & L2 & L3). split.
    + intros k v (c' & [= <-] & Hv). exists (Semantic_ sm). split; [done|]. apply (Hm k v). simpl in *. auto.
    + intros layer v Hv. destruct hit as [v'|]; [|done]. injection Hv as <- <-.
      split_and!; [done|done|]. right. split; [done|].
      destruct (L3 v' eq_refl) as (vec & w' & _ & e & (Hin & Hns & _) & Hho).
      exists sm, e. rewrite <-He. split_and!; try done. by apply (Hm (se_key e) v').
Qed.

Lemma SetSemantic_holds sm ns q key data ttl now xw k v :
  ca_holds (sm_exact (SetSemantic embed sm ns q key data ttl now xw).1) k v ->
  ca_holds (sm_exact sm) k v \/ (k = key /\ v = data).
Proof.
  unfold SetSemantic, Semantic_Set. pose proof (ca_set_mono (sm_exact sm) key data ttl now xw.2 k v) as Hs.
  destruct (ca_Set _ _ _ _ _ _) as [ex w]. repeat case_match; exact Hs.
Qed.

Lemma cache_store_spec r req key data ttl s k v :
  holds (cache_store embed r req key data ttl s) k v -> holds s k v \/ (k = key /\ v = data).
Proof.
  unfold cache_store, holds. destruct (h_cache s.1) as [[c|sm]|] eqn:Ec.
  - pose proof (ca_set_mono c key data ttl (time_Now s.2) s.2 k v) as Hs. destruct (ca_Set _ _ _ _ _ _) as [c1 w].
    intros (c' & [= <-] & Hv). destruct (Hs Hv); [|auto]. left. by exists (Plain c).
  - pose proof (SetSemantic_holds sm (chat_namespace r req) (SemanticQuery req) key data ttl (time_Now s.2)
      (h_registry s.1, s.2) k v) as Hs.
    destruct (SetSemantic _ _ _ _ _ _ _ _ _) as [sm' [reg w]]. simpl in *.
    intros (c' & [= <-] & Hv). destruct (Hs Hv); [|auto]. left. by exists (Semantic_ sm).
  - rewrite Ec. intros (c' & ? & _). done.
Qed.

Lemma holds_frame s s' k v : h_cache s'.1 = h_cache s.1 -> holds s' k v -> holds s k v.
Proof. intros E (c & Hc & ?). exists c. by rewrite <-E. Qed.

Lemma commit_cache rv tokens usd s : h_cache (commit rv tokens usd s).1 = h_cache s.1.
Proof. unfold commit. repeat case_match; simplify_eq/=; done. Qed.
Lemma cancel_cache rv s : h_cache (cancel rv s).1 = h_cache s.1.
Proof. unfold cancel. repeat case_match; simplify_eq/=; done. Qed.
Lemma reserveChatBudget_cache tenant req s : h_cache (reserveChatBudget tenant req s).1.1 = h_cache s.1.
Proof. unfold reserveChatBudget. repeat case_match; simplify_eq/=; done. Qed.

Lemma serve_stream_cache r req rv tokens usd s : h_cache (serve_stream r req rv tokens usd s).1.1 = h_cache s.1.
Proof.
  pose proof (same_handler_cache _ _ (handleStream_frame r req s)) as Hf. unfold serve_stream.
  destruct (handleStream r req s) as [[s' out] started]. simpl in Hf.
  destruct out, started; simpl; rewrite ?commit_cache, ?cancel_cache; done.
Qed.

(** The response of a completion was delivered by some provider. *)
Definition answered req resp : Prop := exists p req', delivered p req' resp /\ req_Messages req' = req_Messages req.

Lemma remap_messages (g : Registry (P := P) (Rng := Rng)) req p : req_Messages (remap g req p) = req_Messages req.
Proof. unfold remap, RemapForFallback. repeat case_match; done. Qed.

Lemma dispatch_answered ctx req s resp name : (dispatch ctx req s).2 = Ok (resp, name) -> answered req resp.
Proof.
  intros Hd. pose proof (dispatch_sound ctx req s) as H. rewrite Hd in H. unfold dispatch_result in H.
  destruct (resolve req s).2 as [primary|e]; [|done].
  destruct H as [[_ H]|(p & _ & _ & H)]; [by exists primary, req|].
  eexists p, _. split; [done|]. apply remap_messages.
Qed.

(** What a served request may add to the cache. *)
Definition stored_by r req key (out : served) k v : Prop :=
  k = key /\ key <> "" /\
  exists resp hdr, out = Reply (mkResponse 200 hdr (BData v)) /\ v = json_Marshal resp /\ answered req resp.

Lemma serve_completion_cache r req key ttl rv s k v :
  holds (serve_completion embed r req key ttl rv s).1 k v ->
  holds s k v \/ stored_by r req key (serve_completion embed r req key ttl rv s).2 k v.
Proof.
  pose proof (same_handler_cache _ _ (dispatch_frame (q_ctx r) req s)) as Hf.
  unfold serve_completion. destruct (dispatch (q_ctx r) req s) as [s1 [[resp name]|e]] eqn:Ed; simpl in Hf.
  2:{ intros H. left. exact (holds_frame _ _ _ _ (eq_trans (cancel_cache rv s1) Hf) H). }
  set (s2 := sys_state s1 name). set (s3 := match h_budgetMgr s2.1 with Some _ => _ | None => _ end).
  assert (h_cache s3.1 = h_cache s.1) as H3.
  { rewrite <-Hf. assert (h_cache s2.1 = h_cache s1.1) as <-.
    { exact (f_equal h_cache (sys_state_frame s1 name)). }
    subst s3. destruct (h_budgetMgr s2.1); [apply commit_cache|done]. }
  assert (forall k v, holds s3 k v -> holds s k v) as H3s by (intros; by eapply holds_frame).
  cbv zeta. destruct (h_cache s3.1) as [c|] eqn:Ec; cbn [fst snd]; [|by left; apply H3s].
  unfold str_eqb. case_bool_decide as Ek; [by left; apply H3s|].
  intros [H|[-> ->]]%cache_store_spec; [left; by apply H3s|right].
  split; [done|]. split; [done|]. eexists resp, _. split; [done|]. split; [done|].
  eapply dispatch_answered. by rewrite Ed.
Qed.


(** *** Responses that are no hits *)
Definition no_hit (out : served) : Prop :=
  match out with Reply rs => rs_Header rs !! "X-Cache" <> Some "HIT" | _ => True end.

Lemma writeError_no_hit hdr status ty msg : hdr !! "X-Cache" = None -> no_hit (writeError hdr status ty msg).
Proof. intros H. simpl. rewrite lookup_insert_ne by done. by rewrite H. Qed.

Lemma propagateRetryAfter_X hdr e : hdr !! "X-Cache" = None -> propagateRetryAfter hdr e !! "X-Cache" = None.
Proof. intros H. unfold propagateRetryAfter. repeat case_match; rewrite ?lookup_insert_ne by done; done. Qed.

Lemma validate_no_hit b out : validate (W := W) b = Err out -> no_hit out.
Proof.
  assert (forall status ty msg, no_hit (writeError ∅ status ty msg)) as He
    by (intros; apply writeError_no_hit, lookup_empty).
  unfold validate. destruct b as [b| |]; [|intros H; injection H as <-; apply He..].
  destruct (decodeSingleJSON b) as [req|e]; [|intros H; injection H as <-; apply He].
  destruct (str_eqb _ _); [intros H; injection H as <-; apply He|].
  destruct (req_Messages req); [intros H; injection H as <-; apply He|done].
Qed.

Lemma handleStream_no_hit r req s : no_hit (handleStream r req s).1.2.
Proof.
  unfold handleStream. destruct (resolve req s) as [s1 [primary|e]].
  2:{ destruct e; try exact I; apply writeError_no_hit, lookup_empty. }
  destruct (negb _); [apply writeError_no_hit, lookup_empty|].
  destruct (openStream _ _ _ _) as [s2 [[ss|e]|]]; [|apply writeError_no_hit, propagateRetryAfter_X, lookup_empty|exact I].
  destruct (stream_frames _ _) as [fs [|]]; [|exact I].
  simpl. rewrite !lookup_insert_ne by done. by rewrite lookup_singleton_ne.
Qed.

Lemma serve_stream_no_hit r req rv tokens usd s : no_hit (serve_stream r req rv tokens usd s).2.
Proof.
  pose proof (handleStream_no_hit r req s) as H. unfold serve_stream.
  destruct (handleStream r req s) as [[s' out] started]. by destruct out.
Qed.

Lemma dispatch_error_no_hit e : no_hit (dispatch_error e).
Proof.
  unfold dispatch_error. destruct (errors_Is is_NoProvider e); [apply writeError_no_hit, lookup_empty|].
  destruct (errors_Is is_DeadlineExceeded e); [apply writeError_no_hit, lookup_empty|].
  destruct e; try exact I; apply writeError_no_hit, propagateRetryAfter_X, lookup_empty.
Qed.

Lemma serve_completion_no_hit r req key ttl rv s : no_hit (serve_completion embed r req key ttl rv s).2.
Proof.
  unfold serve_completion. destruct (dispatch _ _ _) as [s1 [[resp name]|e]]; [|apply dispatch_error_no_hit].
  cbv zeta. destruct (h_cache _); simpl.
  - by rewrite lookup_insert_eq.
  - rewrite lookup_insert_ne by done. by rewrite lookup_singleton_ne.
Qed.

Lemma writeBudgetError_no_hit e : no_hit (writeBudgetError e).
Proof. unfold writeBudgetError. destruct e as [[]|[]]; apply writeError_no_hit, lookup_empty. Qed.

Lemma hit_from_frame s s' r req layer v :
  h_cache s'.1 = h_cache s.1 -> hit_from s' r req layer v -> hit_from s r req layer v.
Proof. unfold hit_from, holds. intros ->. done. Qed.

End caching.

(** C6. The cache never mixes up requests.  A request adds nothing to the cache
    but, when it is not streamed, does not skip the cache and is answered
    with 200, the JSON of a response a provider gave to its messages, under
    the key of the request and its credentials; and an answer marked as a hit
    is data the cache held under that key, or under the key of an entry
    indexed in the namespace of the request and its credentials. *)
Theorem serve_cache_sound {P Ctx Rng W L Store CE T : Type}
    `{!Env P Ctx Rng W, !Web T W, !Backend L W, !BudgetStore Store W, !Cache CE W, !CacheLaws CE W} embed
    (r : http_request T Ctx)
    (s : Handler P Rng L OverrideStore (Manager (Store := Store)) (any_cache CE) * W) :
  let '(s', out) := ServeHTTP embed r s in
  (forall k v, holds s' k v -> holds s k v \/
     exists req, validate (W := W) (q_Body r) = Ok req /\ req_Stream req = false /\ q_CacheSkip r <> "true" /\
       stored_by (P := P) (Ctx := Ctx) (Rng := Rng) (W := W) (T := T) r req (chat_key (W := W) r req) out k v) /\
  (forall rs, out = Reply rs -> rs_Header rs !! "X-Cache" = Some "HIT" ->
     exists req layer v, validate (W := W) (q_Body r) = Ok req /\ rs_Body rs = BData v /\
       hit_from s r req layer v).
Proof.
  unfold ServeHTTP. destruct (validate (q_Body r)) as [req|out] eqn:Ev.
  2:{ split; [auto|]. intros rs -> Hh. by destruct (validate_no_hit _ _ Ev). }
  destruct (check_tokens_frame r req s) as (_ & Hc1 & _). destruct (check_tokens r req s) as [s1 [ra|]]; simpl in Hc1.
  { split; [left; by eapply holds_frame|]. intros rs [= <-] Hh. simpl in Hh.
    by rewrite lookup_insert_ne, lookup_singleton_ne in Hh by done. }
  pose proof (cache_lookup_spec embed r req s1) as Hl.
  assert (forall key, cache_used s1 r req = Some key -> req_Stream req = false /\ q_CacheSkip r <> "true") as Hu.
  { unfold cache_used, str_eqb. intros key. destruct (h_cache s1.1); [|done].
    destruct (req_Stream req); simpl; [done|]. by case_bool_decide. }
  set (kt := match cache_used s1 r req with Some _ => _ | None => _ end).
  assert (kt.1 <> "" -> kt.1 = chat_key (W := W) r req /\ req_Stream req = false /\ q_CacheSkip r <> "true") as Hkt.
  { subst kt. destruct (cache_used s1 r req) as [c|]; [|done]. intros _. split; [done|]. by apply (Hu c). }
  destruct kt as [key ttl]. simpl in Hkt.
  destruct (cache_lookup embed r req s1) as [s2 [[layer data]|]]; destruct Hl as [Hm Hh].
  { split; [intros k v H; left; eapply holds_frame; [exact Hc1|by apply Hm]|].
    intros rs [= <-] _. exists req, layer, data. split_and!; try done. eapply hit_from_frame; [exact Hc1|].
    by destruct (Hh layer data eq_refl) as (_ & _ & ?). }
  assert (forall k v, holds s2 k v -> holds s k v) as H2.
  { intros k v H. eapply holds_frame; [exact Hc1|by apply Hm]. }
  pose proof (reserveChatBudget_cache (q_TenantID r) req s2) as Hc3.
  destruct (reserveChatBudget _ _ _) as [s3 [[[rv tokens] usd]|e]]; simpl in Hc3.
  2:{ split; [intros k v H; left; apply H2; by eapply holds_frame|].
      intros rs E HH. pose proof (writeBudgetError_no_hit e) as Hn. rewrite E in Hn. by destruct Hn. }
  assert (forall k v, holds s3 k v -> holds s k v) as H3 by (intros; apply H2; by eapply holds_frame).
  destruct (req_Stream req) eqn:Est.
  - pose proof (serve_stream_cache r req rv tokens usd s3) as Hc4.
    pose proof (serve_stream_no_hit r req rv tokens usd s3) as Hn.
    destruct (serve_stream _ _ _ _ _ _) as [s4 out]. simpl in Hc4, Hn.
    split; [intros k v H; left; apply H3; by eapply holds_frame|]. by intros rs -> HH.
  - pose proof (serve_completion_cache embed r req key ttl rv s3) as Hc4.
    pose proof (serve_completion_no_hit embed r req key ttl rv s3) as Hn.
    destruct (serve_completion _ _ _ _ _ _ _) as [s4 out]. simpl in Hc4, Hn. split; [|by intros rs -> HH].
    intros k v H. destruct (Hc4 k v H) as [H'|(-> & Hne & Hrest)]; [left; by apply H3|right].
    destruct (Hkt Hne) as (Hkey & _ & Hsk). exists req. rewrite <-Hkey. split_and!; try done.
Qed.

(** ** What a completion costs *)
Section charging.
Context {P Ctx Rng W L Store CE T : Type}.
Context `{!Env P Ctx Rng W, !Web T W, !Backend L W, !BudgetStore Store W, !Cache CE W}.
Abbreviation Reg := (Registry (P := P) (Rng := Rng)).
Context (embed : string -> Reg * W -> (Reg * W) * result (list float64) unit).
Abbreviation Hd := (Handler P Rng L OverrideStore (Manager (Store := Store)) (any_cache CE)).
Abbreviation sys := (Hd * W)%type.
Implicit Types (h : Hd) (w : W) (s : sys) (req : ChatRequest) (r : http_request T Ctx).

(** The books [f] after [n] tokens for [key]. *)
Definition charge (f : string -> Z) (key : string) (n : Z) (k : string) : Z :=
  if str_eqb key k then Z.max 0 (iadd (f k) (Z.max 0 n)) else f k.

(** Books are kept of the requests of a tenant, when they are kept at all. *)
Definition accounts (m : Manager (Store := Store)) (tenant : string) : bool := m_enabled m && negb (str_eqb tenant "").

(** The books of [m] after [n] tokens for the request [r], served in the world [w]. *)
Definition account (m : Manager (Store := Store)) r (w : W) (n : Z) : string -> Z :=
  if accounts m (q_TenantID r) then charge (usage_tokens m) (memKey (q_TenantID r) (month_Now w)) n
  else usage_tokens m.

(** The tokens estimated for a request: its prompt and the most it may produce. *)
Definition estimated_tokens req : Z :=
  iadd (chatPromptTokens req)
    (match EffectiveMaxTokens req with Some max => if 0 <? max then max else 0 | None => 0 end).

(** What a request has open: a reservation, or none when no books are kept. *)
Definition opened s (m : Manager (Store := Store)) r (w : W) (rv : option Reservation) : Prop :=
  exists m1, h_budgetMgr s.1 = Some m1 /\
    match rv with
    | Some rv' => accounts m (q_TenantID r) = true /\
                  open_reservation m1 (usage_tokens m) (memKey (q_TenantID r) (month_Now w)) rv'
    | None => accounts m (q_TenantID r) = false /\ in_memory m1 /\ forall k, usage_tokens m1 k = usage_tokens m k
    end.

Lemma opened_frame s s' m r w rv : h_budgetMgr s'.1 = h_budgetMgr s.1 -> opened s m r w rv -> opened s' m r w rv.
Proof. intros E (m1 & ? & ?). exists m1. by rewrite E. Qed.

Lemma reserveChatBudget_opens r req s m s' rv tokens usd :
  h_budgetMgr s.1 = Some m -> in_memory m ->
  reserveChatBudget (q_TenantID r) req s = (s', Ok (rv, tokens, usd)) ->
  opened s' m r s.2 rv /\ tokens = estimated_tokens req /\ exists m', s' = (with_budget s.1 m', s.2).
Proof.
  intros Hm Hs. unfold reserveChatBudget. rewrite Hm. cbv zeta.
  destruct (Manager_EstimateChat _ _ _ _) as [est|e]; [|done].
  match goal with |- context [Reserve m ?t ?mo ?k ?u ?w] =>
    pose proof (Reserve_opens m t mo k u w) as Ho; destruct (Reserve m t mo k u w) as [[m1 w1] [rv1|e]] eqn:Er end; [|done].
  intros [= <- <- <- _]. split; [|split; [done|]].
  - exists m1. split; [done|]. destruct (accounts m (q_TenantID r)) eqn:Ea; unfold accounts in Ea.
    + apply andb_prop in Ea as [He Ht]. destruct (Ho m1 w1 rv1 Hs He) as (rv' & -> & Hopen);
        [intros E; by rewrite E in Ht|done|]. done.
    + apply andb_false_iff in Ea. assert (negb (m_enabled m) || str_eqb (q_TenantID r) "" = true) as Hz.
      { destruct Ea as [->|Ea]; [done|]. apply negb_false_iff in Ea. by rewrite Ea, orb_true_r. }
      unfold Reserve in Er. rewrite Hz in Er. by injection Er as <- _ <-.
  - assert (w1 = s.2) as -> by (unfold Reserve in Er; rewrite !Hs in Er; repeat case_match; by simplify_eq). by exists m1.
Qed.

Lemma commit_accounts s m r w rv n usd :
  opened s m r w rv -> int64_range n -> books (commit rv n usd s) (account m r w n).
Proof.
  intros (m1 & Hm & Ho) Hn. unfold commit, account. rewrite Hm. destruct rv as [rv|]; destruct Ho as [-> Ho].
  - destruct (Commit _ _ _ _ _) as [[[m' w'] rv'] err] eqn:Ec.
    destruct (Commit_charges _ _ _ _ _ _ _ _ _ _ _ Ho Hn Ec) as [? Hu]. by exists m'.
  - by exists m1.
Qed.

Lemma dispatch_error_failed e :
  match dispatch_error e with Reply rs => rs_Status rs <> 200 | _ => True end.
Proof.
  unfold dispatch_error. destruct (errors_Is is_NoProvider e); [done|].
  destruct (errors_Is is_DeadlineExceeded e); [done|]. by destruct e.
Qed.

Lemma writeBudgetError_failed e : failed_reply (writeBudgetError e).
Proof. by destruct e as [[]|[]]. Qed.

(** What a completion costs, from [s], where its reservation is open. *)
Definition reported_usage_charged r req m (w : W) s s' : Prop :=
  exists resp name, (dispatch (q_ctx r) req s).2 = Ok (resp, name) /\
    (int64_range (us_TotalTokens (resp_Usage resp)) ->
     books s' (account m r w (us_TotalTokens (resp_Usage resp)))).

Lemma serve_completion_charges r req key ttl rv s m w :
  opened s m r w rv ->
  let '(s', out) := serve_completion embed r req key ttl rv s in
  forall rs, out = Reply rs -> rs_Status rs = 200 -> reported_usage_charged r req m w s s'.
Proof.
  intros Ho. unfold serve_completion, reported_usage_charged.
  pose proof (same_handler_budget _ _ (dispatch_frame (q_ctx r) req s)) as Hf.
  destruct (dispatch (q_ctx r) req s) as [s1 [[resp name]|e]]; simpl in Hf.
  2:{ intros rs E H200. pose proof (dispatch_error_failed e) as Hd. rewrite E in Hd. by destruct Hd. }
  assert (opened (sys_state s1 name) m r w rv) as Ho2.
  { eapply opened_frame, Ho. rewrite <-Hf. exact (f_equal h_budgetMgr (sys_state_frame s1 name)). }
  destruct (id Ho2) as (m2 & Hm2 & _). cbv zeta. rewrite Hm2.
  pose proof (commit_accounts _ m r w rv (us_TotalTokens (resp_Usage resp))
    (actual_usd m2 name req (resp_Usage resp)) Ho2) as Hb.
  destruct (h_cache _); intros rs _ _; exists resp, name; (split; [done|]); intros Hr; specialize (Hb Hr);
    [destruct (str_eqb key ""); [done|]|done].
  eapply books_frame; [|exact Hb]. apply cache_store_frame.
Qed.

(** A stream costs its estimate: the usage its chunks report is not read. *)
Lemma serve_stream_charges r req rv tokens usd s m w :
  opened s m r w rv -> int64_range tokens ->
  let '(s', out) := serve_stream r req rv tokens usd s in
  forall rs, out = Reply rs -> rs_Status rs = 200 -> books s' (account m r w tokens).
Proof.
  intros Ho Ht. pose proof (same_handler_budget _ _ (handleStream_frame r req s)) as Hf.
  pose proof (opened_frame _ (handleStream r req s).1.1 _ _ _ _ Hf Ho) as Ho'.
  assert (forall s' rs, handleStream r req s = (s', Reply rs, false) -> rs_Status rs <> 200) as Hok.
  { intros s' rs. unfold handleStream, writeError. repeat case_match; intros; simplify_eq; simpl; lia. }
  unfold serve_stream. destruct (handleStream r req s) as [[s' out] started]. simpl in Ho'.
  destruct out as [rs| |]; try done. intros rs' [= <-] H200.
  destruct started; [by apply commit_accounts|]. by destruct (Hok s' rs eq_refl).
Qed.

End charging.


(** ** A concrete server *)

#[export] Instance ex_web : Web ChatRequest ex_world := {
  json_decode_request b := Ok (b, b);
  json_decode_any _ := None;
  json_Marshal resp := resp_Model resp;
  sha_json := ex_sha_json;
  sha_string := ex_sha;
  month_Now _ := "2026-09";
}.

(** A store that is never active. *)
#[export] Instance ex_no_store : BudgetStore unit ex_world := {
  bs_Active _ _ := false;
  bs_HMGet _ _ w := (w, Err tt);
  bs_reserve _ _ _ _ _ _ _ w := (w, Err tt);
  bs_adjust _ _ _ _ _ _ _ w := (w, Err tt);
  bs_sha256_hex s := s;
  bs_Atoi _ := 0;
  bs_ParseFloat _ := 0;
}.

Definition ex_no_embed {X} (q : string) (xw : X * ex_world) : (X * ex_world) * result (list float64) unit := (xw, Err tt).

Definition ex_budget : Manager (Store := unit) := New 1000 0 None.

Definition ex_server (cache : option (any_cache memory))
    : Handler (string * list string) Z Limiter OverrideStore (Manager (Store := unit)) (any_cache memory) :=
  NewHandlerWithCache fst
    (NewRegistryWithWeighted fst snd (fun _ => None) (fun seed => seed) ex_providers
       {["m" := ["m-b"; "m-c"]]} ∅)
    ["a"; "b"] (mkRetryConfig 1 0 0 false) (mkCircuitConfig 5 (10 * Second) 1) (mkHedgeConfig false 0)
    (Some (NewLimiter 600 100)) (Some (mkOverrideStore 600 100 [])) (Some ex_budget) true cache 0.

Definition ex_http : http_request ChatRequest bool :=
  mkHttpReq ChatRequest bool (ReadOk (ex_chat "m")) "req-1" "acme" "Bearer k" "" "" "1.2.3.4" false true.

Abbreviation ex_state :=
  (Handler (string * list string) Z Limiter OverrideStore (Manager (Store := unit)) (any_cache memory) * ex_world)%type.

Lemma pair_snd {A B} (p : A * B) (b : B) : p.2 = b -> p = (p.1, b).
Proof. by destruct p; intros <-. Qed.


Lemma serve_refunds_failures_witness :
  let s := (ex_server None, ex_start ["a"; "b"] []) in
  failed_reply (ServeHTTP ex_no_embed ex_http s).2 /\
  books (ServeHTTP ex_no_embed ex_http s).1 (usage_tokens ex_budget).
Proof.
  intros s. assert (failed_reply (ServeHTTP ex_no_embed ex_http s).2) as Hf by (vm_compute; discriminate).
  split; [exact Hf|].
  apply (serve_refunds_failures ex_no_embed ex_http s ex_budget); [reflexivity|by apply no_store_in_memory| |exact Hf].
  intros key. unfold usage_tokens. simpl. rewrite lookup_empty. simpl. split; [done|]. vm_compute. discriminate.
Defined.

(** The first request stores its answer, the second is a hit. *)
Lemma serve_cache_sound_witness :
  let s := (ex_server (Some (Plain (empty_memory 10))), ex_start ["a"] []) in
  let s1 := (ServeHTTP ex_no_embed ex_http s).1 in
  exists req layer v, validate (W := ex_world) (q_Body ex_http) = Ok req /\
    (ServeHTTP ex_no_embed ex_http s1).2 = hit_response layer v /\ hit_from s1 ex_http req layer v.
Proof.
  intros s s1.
  assert ((ServeHTTP ex_no_embed ex_http s1).2 = hit_response "cache" "m-b") as Hout by (by vm_compute).
  pose proof (serve_cache_sound ex_no_embed ex_http s1) as H.
  destruct (ServeHTTP ex_no_embed ex_http s1) as [s2 out]. simpl in Hout. destruct H as [_ H].
  destruct (H _ Hout) as (req & layer & v & Hv & Hb & Hh); [by vm_compute|].
  exists req, layer, v. split; [exact Hv|]. split; [|exact Hh].
  injection Hb as <-. destruct Hh as [[-> _]|[-> (sm & e & Hsm & _)]]; [exact Hout|].
  exfalso. revert Hsm. by vm_compute.
Defined.

Example serve_cache_hit :
  let s := (ex_server (Some (Plain (empty_memory 10))), ex_start ["a"] []) in
  let '(s1, out1) := ServeHTTP ex_no_embed ex_http s in
  let '(_, out2) := ServeHTTP ex_no_embed ex_http s1 in
  match out1, out2 with
  | Reply r1, Reply r2 =>
      rs_Status r1 = 200 /\ rs_Header r1 !! "X-Cache" = Some "MISS" /\ rs_Body r1 = BData "m-b" /\
      rs_Status r2 = 200 /\ rs_Header r2 !! "X-Cache" = Some "HIT" /\ rs_Body r2 = BData "m-b"
  | _, _ => False
  end.
Proof. by vm_compute. Qed.
