(* ===== verification/Embeddings.v ===== *)
(** * Serving embeddings: [internal/proxy/embeddings.go]

    The handler of [POST /v1/embeddings]: its own breakers and fallback
    chain, the registry, limiter, overrides, budget manager and cache it
    shares with the chat handler, and the whole of [ServeHTTP]. *)

From Stdlib Require Import Ascii String.
From stdpp Require Import pretty.
From S2P Require Import Prelude GoFloat GoStrings Types Circuit Pricing Retry Budget RateLimit.
From S2P Require Import RateBackend Cache CacheSemantic CacheKeys Router Provider Dispatch Serve.
Open Scope string_scope.
Open Scope list_scope.
Open Scope Z_scope.

(** The [provider.Embedder] of a provider that implements the interface. *)
Class Embedders (P Ctx W : Type) := {
  p_Embed : P -> option (Ctx -> EmbeddingRequest -> W -> W * result EmbeddingResponse error);
}.

(** [encoding/json] on the request and response of this endpoint. *)
Class WebEmbedding (T : Type) := {
  json_decode_embedding : T -> result (EmbeddingRequest * T) string;
  json_Marshal_embedding : EmbeddingResponse -> string;
}.

Section handler.
Context {P Rng L B C : Type}.

Record EmbeddingsHandler := mkEmbeddingsHandler {
  eh_registry : Registry (P := P) (Rng := Rng);
  eh_fallbackChain : list string;
  eh_limiter : option L;
  eh_overrides : option OverrideStore;
  eh_tokenAware : bool;
  eh_retryCfg : RetryConfig;
  eh_circuitCfg : CircuitConfig;
  eh_circuits : gmap string Breaker;
  eh_budgetMgr : option B;
  eh_cache : option C;
  eh_cacheTTL : Z;
}.

Definition NewEmbeddingsHandlerWithCache (Name : P -> string) registry fallbackChain
    (limiter : option L) overrides (tokenAware : bool) retryCfg circuitCfg (budgetMgr : option B)
    (c : option C) (ttl : Z) : EmbeddingsHandler :=
  mkEmbeddingsHandler registry fallbackChain limiter overrides tokenAware retryCfg circuitCfg
    (foldl (fun m p => <[Name p := NewBreaker circuitCfg]> m) ∅ (Registry_All registry))
    budgetMgr c ttl.

Definition NewEmbeddingsHandlerWithResilienceAndBudget Name registry fallbackChain limiter overrides
    tokenAware retryCfg circuitCfg budgetMgr : EmbeddingsHandler :=
  NewEmbeddingsHandlerWithCache Name registry fallbackChain limiter overrides tokenAware retryCfg
    circuitCfg budgetMgr None 0.

Definition NewEmbeddingsHandlerWithRateLimit Name registry fallbackChain limiter overrides tokenAware
    : EmbeddingsHandler :=
  NewEmbeddingsHandlerWithResilienceAndBudget Name registry fallbackChain limiter overrides tokenAware
    DefaultRetryConfig DefaultCircuitConfig None.

Definition NewEmbeddingsHandler Name registry fallbackChain : EmbeddingsHandler :=
  NewEmbeddingsHandlerWithRateLimit Name registry fallbackChain None None false.

Definition eh_with_registry (h : EmbeddingsHandler) r : EmbeddingsHandler :=
  mkEmbeddingsHandler r (eh_fallbackChain h) (eh_limiter h) (eh_overrides h) (eh_tokenAware h)
    (eh_retryCfg h) (eh_circuitCfg h) (eh_circuits h) (eh_budgetMgr h) (eh_cache h) (eh_cacheTTL h).
Definition eh_with_circuits (h : EmbeddingsHandler) cs : EmbeddingsHandler :=
  mkEmbeddingsHandler (eh_registry h) (eh_fallbackChain h) (eh_limiter h) (eh_overrides h)
    (eh_tokenAware h) (eh_retryCfg h) (eh_circuitCfg h) cs (eh_budgetMgr h) (eh_cache h) (eh_cacheTTL h).
Definition eh_with_limiter (h : EmbeddingsHandler) l : EmbeddingsHandler :=
  mkEmbeddingsHandler (eh_registry h) (eh_fallbackChain h) (Some l) (eh_overrides h)
    (eh_tokenAware h) (eh_retryCfg h) (eh_circuitCfg h) (eh_circuits h) (eh_budgetMgr h) (eh_cache h)
    (eh_cacheTTL h).
Definition eh_with_budget (h : EmbeddingsHandler) m : EmbeddingsHandler :=
  mkEmbeddingsHandler (eh_registry h) (eh_fallbackChain h) (eh_limiter h) (eh_overrides h)
    (eh_tokenAware h) (eh_retryCfg h) (eh_circuitCfg h) (eh_circuits h) (Some m) (eh_cache h)
    (eh_cacheTTL h).

(** *** Hot reload *)
Definition eh_SetCache (h : EmbeddingsHandler) c ttl : EmbeddingsHandler :=
  mkEmbeddingsHandler (eh_registry h) (eh_fallbackChain h) (eh_limiter h) (eh_overrides h)
    (eh_tokenAware h) (eh_retryCfg h) (eh_circuitCfg h) (eh_circuits h) (eh_budgetMgr h) c ttl.
Definition eh_SetFallbackChain (h : EmbeddingsHandler) chain : EmbeddingsHandler :=
  mkEmbeddingsHandler (eh_registry h) chain (eh_limiter h) (eh_overrides h)
    (eh_tokenAware h) (eh_retryCfg h) (eh_circuitCfg h) (eh_circuits h) (eh_budgetMgr h) (eh_cache h)
    (eh_cacheTTL h).
Definition eh_SetTokenAware (h : EmbeddingsHandler) enabled : EmbeddingsHandler :=
  mkEmbeddingsHandler (eh_registry h) (eh_fallbackChain h) (eh_limiter h) (eh_overrides h)
    enabled (eh_retryCfg h) (eh_circuitCfg h) (eh_circuits h) (eh_budgetMgr h) (eh_cache h)
    (eh_cacheTTL h).

(** The breakers of providers that are gone are dropped, those that stay get
    the new configuration, new providers a new breaker. *)
Definition SetResilience (Name : P -> string) (h : EmbeddingsHandler) retryCfg circuitCfg
    : EmbeddingsHandler :=
  let kept := map_imap (fun name b =>
                match Registry_Get (eh_registry h) name with
                | Some _ => Some (Breaker_UpdateConfig circuitCfg b)
                | None => None
                end) (eh_circuits h) in
  let circuits := foldl (fun m p => match m !! Name p with
                                    | Some _ => m
                                    | None => <[Name p := NewBreaker circuitCfg]> m
                                    end) kept (Registry_All (eh_registry h)) in
  mkEmbeddingsHandler (eh_registry h) (eh_fallbackChain h) (eh_limiter h) (eh_overrides h)
    (eh_tokenAware h) retryCfg circuitCfg circuits (eh_budgetMgr h) (eh_cache h) (eh_cacheTTL h).

(** *** Breakers *)

(** [breakerFor(name)], and a method call on it. *)
Definition eh_breaker (h : EmbeddingsHandler) (name : string) : Breaker :=
  default (NewBreaker (eh_circuitCfg h)) (eh_circuits h !! name).
Definition eh_on_breaker {A} (h : EmbeddingsHandler) (name : string) (f : Breaker -> A * Breaker)
    : EmbeddingsHandler * A :=
  let '(a, b) := f (eh_breaker h name) in (eh_with_circuits h (<[name := b]> (eh_circuits h)), a).

End handler.

Arguments EmbeddingsHandler : clear implicits.

(** ** Dispatch *)
Section dispatch.
Context {P Ctx Rng W L B C : Type} `{!Env P Ctx Rng W, !Embedders P Ctx W}.
Abbreviation Eh := (EmbeddingsHandler P Rng L B C).
Abbreviation Name := (p_Name (P := P) (W := W)).
Abbreviation sys := (Eh * W)%type.
Abbreviation embedder := (Ctx -> EmbeddingRequest -> W -> W * result EmbeddingResponse error).
Implicit Types (h : Eh) (w : W) (s : sys) (ctx : Ctx) (req : EmbeddingRequest) (p : P).

Definition zero_embedding : EmbeddingResponse := mkEmbeddingResponse "" [] "" (mkEmbeddingUsage 0 0).

(** The closure passed to [resilience.Do], on the variable [response]. *)
Definition embed_once (ctx : Ctx) (e : embedder) req (a : W * EmbeddingResponse)
    : W * EmbeddingResponse * option error :=
  match e ctx req a.1 with
  | (w, Ok resp) => ((w, resp), None)
  | (w, Err err) => ((w, zero_embedding), Some err)
  end.
Definition embed_rand (n : Z) (a : W * EmbeddingResponse) : W * EmbeddingResponse * Z :=
  let '(w, x) := rand_Int63n n a.1 in ((w, a.2), x).
Definition embed_wait (ctx : Ctx) (d : Z) (a : W * EmbeddingResponse) : W * EmbeddingResponse * option error :=
  let '(w, e) := ctx_Wait ctx d a.1 in ((w, a.2), e).

Definition embedWithRetry (cfg : RetryConfig) (ctx : Ctx) (e : embedder) req w
    : W * result EmbeddingResponse error :=
  let '((w, response), err) :=
    Do IsRetryable (embed_once ctx e req) embed_rand (embed_wait ctx) cfg (w, zero_embedding) in
  (w, match err with None => Ok response | Some err => Err err end).

Definition eh_allow s (name : string) : sys * bool :=
  let '(h, ok) := eh_on_breaker s.1 name (Breaker_Allow (time_Now s.2)) in ((h, s.2), ok).

(** A call through the breaker of [name]: its outcome is recorded. *)
Definition embed_recorded (ctx : Ctx) (name : string) (e : embedder) req s
    : sys * result EmbeddingResponse error :=
  let '(w, r) := embedWithRetry (eh_retryCfg s.1) ctx e req s.2 in
  let record b := match r with
                  | Ok _ => (tt, Breaker_RecordSuccess b)
                  | Err _ => (tt, Breaker_RecordFailure (time_Now w) b)
                  end in
  (((eh_on_breaker s.1 name record).1, w), r).

(** [provider.ChatRequest{Model: req.Model}] *)
Definition dummy (model : string) : ChatRequest :=
  mkChatRequest model [] None None None None None None None None None false None [] None None None
    None None "" "" "" [] None.
Definition with_er_model req (model : string) : EmbeddingRequest :=
  mkEmbeddingRequest model (er_Input req) (er_EncodingFormat req) (er_Dimensions req) (er_User req).

(** The request a fallback gets: its model is remapped like a chat's. *)
Definition mappedReq (r : Registry (P := P) (Rng := Rng)) req p : EmbeddingRequest :=
  let remapped := RemapForFallback (p_Models (P := P) (W := W)) regexp_Compile r (dummy (er_Model req)) p in
  with_er_model req (if str_eqb (req_Model remapped) (er_Model req) then er_Model req
                     else req_Model remapped).

Fixpoint embed_fallbacks (chain : list string) (primaryName : string) (ctx : Ctx) req
    (last : option error) s : sys * result (EmbeddingResponse * string) error :=
  match chain with
  | [] =>
      (s, Err (default (EText ("all providers failed for embeddings model " +:+ er_Model req)) last))
  | name :: chain =>
      if str_eqb name primaryName then embed_fallbacks chain primaryName ctx req last s
      else
        match Registry_Get (eh_registry s.1) name with
        | None => embed_fallbacks chain primaryName ctx req last s
        | Some fb =>
            match p_Embed fb with
            | None => embed_fallbacks chain primaryName ctx req last s
            | Some e =>
                let mapped := mappedReq (eh_registry s.1) req fb in
                let '(s, ok) := eh_allow s (Name fb) in
                if negb ok then embed_fallbacks chain primaryName ctx req last s
                else
                  match embed_recorded ctx (Name fb) e mapped s with
                  | (s, Ok resp) => (s, Ok (resp, Name fb))
                  | (s, Err err) => embed_fallbacks chain primaryName ctx req (Some err) s
                  end
            end
        end
  end.

Definition eh_resolve (model : string) s : sys * result P error :=
  let '(r, res) := Resolve regexp_Compile rand_Intn (eh_registry s.1) model in
  ((eh_with_registry s.1 r, s.2),
   match res with
   | Ok p => Ok p
   | Err (ErrNoProvider model) => Err (EWrap model NoProvider)
   | Err RoutePanic => Err Panic
   end).

Definition unsupported p : error := EText ("provider " +:+ Name p +:+ " does not support embeddings").

Definition embed_dispatch (ctx : Ctx) req s : sys * result (EmbeddingResponse * string) error :=
  match eh_resolve (er_Model req) s with
  | (s, Err e) => (s, Err e)
  | (s, Ok primary) =>
      let fallback last s := embed_fallbacks (eh_fallbackChain s.1) (Name primary) ctx req (Some last) s in
      match p_Embed primary with
      | None => fallback (unsupported primary) s
      | Some e =>
          let '(s, ok) := eh_allow s (Name primary) in
          if negb ok then fallback (unsupported primary) s
          else
            match embed_recorded ctx (Name primary) e req s with
            | (s, Ok resp) => (s, Ok (resp, Name primary))
            | (s, Err err) => if negb (IsRetryable err) then (s, Err err) else fallback err s
            end
      end
  end.

End dispatch.

(** ** The endpoint *)
Section serve.
Context {P Ctx Rng W L Store CE T : Type}.
Context `{!Env P Ctx Rng W, !Embedders P Ctx W, !Web T W, !WebEmbedding T}.
Context `{!Backend L W, !BudgetStore Store W, !Cache CE W}.
Abbreviation Eh := (EmbeddingsHandler P Rng L (Manager (Store := Store)) (any_cache CE)).
Abbreviation sys := (Eh * W)%type.
Implicit Types (h : Eh) (w : W) (s : sys) (req : EmbeddingRequest) (r : http_request T Ctx).

Definition decode_embedding (b : T) : result EmbeddingRequest string :=
  match json_decode_embedding b with
  | Err e => Err e
  | Ok (req, rest) =>
      match json_decode_any (W := W) rest with
      | None => Ok req
      | Some (Ok _) => Err "multiple JSON values are not allowed"
      | Some (Err e) => Err e
      end
  end.

Definition embedding_validate (method : string) (b : read_result T) : result EmbeddingRequest served :=
  if negb (str_eqb method "POST") then
    Err (writeError ∅ 405 "invalid_request_error" (MText "method not allowed"))
  else
    match b with
    | ReadTooLarge =>
        Err (writeError ∅ 413 "invalid_request_error" (MText "request body too large (max 1MiB)"))
    | ReadError => Err (writeError ∅ 400 "invalid_request_error" (MText "cannot read request body"))
    | ReadOk b =>
        match decode_embedding b with
        | Err e => Err (writeError ∅ 400 "invalid_request_error" (MDecode e))
        | Ok req =>
            let required field :=
              Err (writeError ∅ 400 "invalid_request_error" (MText (dq +:+ field +:+ dq +:+ " field is required"))) in
            let empty :=
              Err (writeError ∅ 400 "invalid_request_error" (MText (dq +:+ "input" +:+ dq +:+ " must be non-empty"))) in
            if str_eqb (er_Model req) "" then required "model"
            else match er_Input req with
                 | JNull => required "input"
                 | JStr v => if str_eqb v "" then empty else Ok req
                 | JArr [] => empty
                 | _ => Ok req
                 end
        end
    end.

Definition embeddingInputChars (input : json) : Z :=
  match input with
  | JStr v => go_len v
  | JArr v => foldl (fun chars item => match item with JStr s => iadd chars (go_len s) | _ => chars end) 0 v
  | _ => 0
  end.

Definition embedding_cache s r : option (any_cache CE) :=
  match eh_cache s.1 with
  | Some c => if negb (str_eqb (q_CacheSkip r) "true") then Some c else None
  | None => None
  end.

Definition embedding_key r req : string :=
  BuildEmbeddingKeyForIdentity (sha_json (W := W) (T := T)) (sha_string (W := W) (T := T)) req (q_Authorization r).

Definition embedding_lookup r req s : sys * option string :=
  match embedding_cache s r with
  | None => (s, None)
  | Some c =>
      let '(c, w, hit) := cache_Get c (embedding_key r req) (time_Now s.2) s.2 in
      ((eh_SetCache s.1 (Some c) (eh_cacheTTL s.1), w), hit)
  end.

Definition embedding_tokens r req s : sys * option string :=
  match eh_limiter s.1, eh_overrides s.1 with
  | Some l, Some o =>
      if eh_tokenAware s.1 then
        let '(rpm, burst) := RateLimit.Resolve o (q_TenantID r) (er_Model req) in
        let estTokens := EstimateTokens (embeddingInputChars (er_Input req)) in
        let key := clientRateLimitKey (W := W) r +:+ ":tokens" in
        let '(l, w, ok) := be_AllowWithLimits l key estTokens rpm burst (time_Now s.2) s.2 in
        if ok then ((eh_with_limiter s.1 l, w), None)
        else
          let '(l, retryAfter) := be_RetryAfterWithLimits (W := W) l key rpm burst (time_Now w) in
          ((eh_with_limiter s.1 l, w), Some (retry_after_header retryAfter))
      else (s, None)
  | _, _ => (s, None)
  end.

(** The reservation, priced for a provider. *)
Definition embedding_reserve_for (m : Manager (Store := Store)) (providerName : string) r req s
    : sys * result (option Reservation) served :=
  let estimatedTokens := EstimateTokens (embeddingInputChars (er_Input req)) in
  match CostForEmbedding m providerName (er_Model req) estimatedTokens with
  | Err e => (s, Err (writeBudgetError (inr e)))
  | Ok estimate =>
      match Reserve m (q_TenantID r) (month_Now (T := T) s.2) estimatedTokens (e_USD estimate) s.2 with
      | (m, w, Err e) => ((eh_with_budget s.1 m, w), Err (writeBudgetError (inl e)))
      | (m, w, Ok reservation) => ((eh_with_budget s.1 m, w), Ok reservation)
      end
  end.

(** The provider is resolved here on its own, apart from [dispatch]. *)
Definition embedding_reserve r req s : sys * result (option Reservation) served :=
  match eh_budgetMgr s.1 with
  | None => (s, Ok None)
  | Some m =>
      match eh_resolve (er_Model req) s with
      | (s, Ok primary) => embedding_reserve_for m (p_Name (W := W) primary) r req s
      | (s, Err Panic) => (s, Err Panicked)
      | (s, Err _) => embedding_reserve_for m "" r req s
      end
  end.

Definition embedding_cancel (reservation : option Reservation) s : sys :=
  match eh_budgetMgr s.1, reservation with
  | Some m, Some rv => let '(m, w, _) := Cancel m rv s.2 in (eh_with_budget s.1 m, w)
  | _, _ => s
  end.

(** The settlement of an answered request. *)
Definition embedding_commit (reservation : option Reservation) (provName : string) req
    (resp : EmbeddingResponse) s : sys :=
  match eh_budgetMgr s.1, reservation with
  | Some m, Some rv =>
      let total := eu_TotalTokens (emb_Usage resp) in
      let usd := match CostForEmbedding m provName (er_Model req) total with
                 | Ok estimate => e_USD estimate
                 | Err _ => CostForTokens m total
                 end in
      let '(m, w, _, _) := Commit m rv total usd s.2 in (eh_with_budget s.1 m, w)
  | _, _ => s
  end.

Definition embedding_error (e : error) : served :=
  if errors_Is is_NoProvider e then writeError ∅ 404 "model_not_found" (MError e)
  else match e with
       | Panic => Panicked
       | _ => writeError (propagateRetryAfter ∅ e) 502 "provider_error" (MError e)
       end.

(** [cached.Set] on the cache the request began with. *)
Definition embedding_store (key data : string) (ttl : Z) s : sys :=
  match eh_cache s.1 with
  | Some (Plain c) =>
      let '(c, w) := ca_Set c key data ttl (time_Now s.2) s.2 in
      (eh_SetCache s.1 (Some (Plain c)) (eh_cacheTTL s.1), w)
  | Some (Semantic_ sm) =>
      let '(sm, w) := Semantic_Set sm key data ttl (time_Now s.2) s.2 in
      (eh_SetCache s.1 (Some (Semantic_ sm)) (eh_cacheTTL s.1), w)
  | None => s
  end.

Definition embedding_answer r req (key : string) (ttl : Z) (reservation : option Reservation) s
    : sys * served :=
  match embed_dispatch (q_ctx r) req s with
  | (s, Err e) => (embedding_cancel reservation s, embedding_error e)
  | (s, Ok (resp, provName)) =>
      let s := embedding_commit reservation provName req resp s in
      let hdr := <["X-Gateway-Provider" := provName]> {["Content-Type" := "application/json"]} in
      let data := json_Marshal_embedding resp in
      match eh_cache s.1 with
      | Some _ =>
          if str_eqb key "" then (s, Reply (mkResponse 200 hdr (BData (encoded data))))
          else (embedding_store key data ttl s,
                Reply (mkResponse 200 (<["X-Cache" := "MISS"]> hdr) (BData data)))
      | None => (s, Reply (mkResponse 200 hdr (BData (encoded data))))
      end
  end.

Definition Embeddings_ServeHTTP (method : string) r s : sys * served :=
  match embedding_validate method (q_Body r) with
  | Err out => (s, out)
  | Ok req =>
      let '(key, ttl) :=
        match embedding_cache s r with
        | Some _ => (embedding_key r req, cache_ttl r (eh_cacheTTL s.1))
        | None => ("", 0)
        end in
      match embedding_lookup r req s with
      | (s, Some data) => (s, hit_response "cache" data)
      | (s, None) =>
          match embedding_tokens r req s with
          | (s, Some retryAfter) =>
              (s, writeError {["Retry-After" := retryAfter]} 429 "rate_limit_exceeded"
                    (MText "token budget exceeded, retry later"))
          | (s, None) =>
              match embedding_reserve r req s with
              | (s, Err out) => (s, out)
              | (s, Ok reservation) => embedding_answer r req key ttl reservation s
              end
          end
      end
  end.

End serve.

(** ** Invariants of a dispatch *)
Section rule.
Context {P Ctx Rng W L B C : Type} `{!Env P Ctx Rng W, !Embedders P Ctx W}.
Abbreviation Eh := (EmbeddingsHandler P Rng L B C).
Abbreviation Name := (p_Name (P := P) (W := W)).
Abbreviation sys := (Eh * W)%type.
Implicit Types (h : Eh) (w : W) (s : sys) (ctx : Ctx) (req : EmbeddingRequest) (p : P).

(** The handler with another state of the generator. *)
Definition eh_drawn h (rnd : Rng) : Eh := eh_with_registry h (with_rnd (eh_registry h) rnd).

(** [J] holds between the calls, [K n] from the moment a call of [n] was
    allowed until its outcome is recorded. *)
Record embed_rule (J : sys -> Prop) (K : string -> sys -> Prop) : Prop := {
  em_draw h w rnd : J (h, w) -> J (eh_drawn h rnd, w);
  em_skip s n : J s -> (eh_allow s n).2 = false -> J (eh_allow s n).1;
  em_allow s n : J s -> (eh_allow s n).2 = true -> K n (eh_allow s n).1;
  em_record ctx n e req s : K n s -> J (embed_recorded ctx n e req s).1;
}.

Lemma eh_resolve_frame model s : exists rnd, (eh_resolve model s).1 = (eh_drawn s.1 rnd, s.2).
Proof.
  unfold eh_resolve, eh_drawn. destruct (Resolve_rnd regexp_Compile rand_Intn (eh_registry s.1) model) as [rnd Hr].
  destruct (Resolve _ _ _ _) as [r res]. simpl in Hr. subst. by eexists.
Qed.

Lemma embed_fallbacks_rule J K chain primary ctx req last s :
  embed_rule J K -> J s -> J (embed_fallbacks chain primary ctx req last s).1.
Proof.
  intros [_ Hskip Hallow Hrec]. revert last s. induction chain as [|n chain IH]; intros last s Hs; simpl; [done|].
  destruct (str_eqb n primary); [auto|]. destruct (Registry_Get _ n) as [q|]; [|auto].
  destruct (p_Embed q) as [e|]; [|auto].
  specialize (Hskip s (Name q) Hs). specialize (Hallow s (Name q) Hs).
  destruct (eh_allow s (Name q)) as [s1 [|]]; simpl in *; [|auto].
  match goal with |- context [embed_recorded ctx _ e ?r s1] =>
    pose proof (Hrec ctx (Name q) e r s1 (Hallow eq_refl)) as Hr;
    destruct (embed_recorded ctx (Name q) e r s1) as [s2 [resp|err]] end; simpl in *; auto.
Qed.

Lemma embed_rule_sound J K ctx req s : embed_rule J K -> J s -> J (embed_dispatch ctx req s).1.
Proof.
  intros HR Hs. pose proof HR as [Hreg Hskip Hallow Hrec]. unfold embed_dispatch.
  destruct (eh_resolve_frame (er_Model req) s) as (rnd & Hr).
  destruct (eh_resolve (er_Model req) s) as [s1 [primary|e]]; simpl in Hr; subst.
  2:{ apply Hreg. by destruct s. }
  assert (J (eh_drawn s.1 rnd, s.2)) as H1 by (apply Hreg; by destruct s).
  specialize (Hskip _ (Name primary) H1). specialize (Hallow _ (Name primary) H1).
  destruct (p_Embed primary) as [e|]; [|by eapply embed_fallbacks_rule].
  destruct (eh_allow _ _) as [s2 [|]]; simpl in *; [|by eapply embed_fallbacks_rule; [|apply Hskip]].
  specialize (Hrec ctx (Name primary) e req s2 (Hallow eq_refl)).
  destruct (embed_recorded _ _ _ _ _) as [s3 [resp|err]]; simpl in *; [done|].
  destruct (negb _); [done|]. by eapply embed_fallbacks_rule.
Qed.

(** *** What a dispatch changes *)
Definition same_eh h h' : Prop := exists rnd cs, h' = eh_with_circuits (eh_drawn h rnd) cs.

Lemma frame_rule h0 : embed_rule (fun s => same_eh h0 s.1) (fun _ s => same_eh h0 s.1).
Proof.
  assert (forall A h n (f : Breaker -> A * Breaker), same_eh h0 h -> same_eh h0 (eh_on_breaker h n f).1) as Hon.
  { intros A h n f (r & cs & ->). unfold eh_on_breaker. destruct (f _) as [a b]. by eexists _, _. }
  assert (forall s n, same_eh h0 s.1 -> same_eh h0 (eh_allow s n).1.1) as Ha.
  { intros s n Hs. specialize (Hon _ s.1 n (Breaker_Allow (time_Now s.2)) Hs). unfold eh_allow.
    by destruct (eh_on_breaker _ _ _). }
  split; auto.
  - intros h w rnd. simpl. intros (r' & cs & ->). by exists rnd, cs.
  - intros ctx n e req s Hs. unfold embed_recorded. destruct (embedWithRetry _ _ _ _ _). by apply Hon.
Qed.

Lemma embed_dispatch_frame ctx req s : same_eh s.1 (embed_dispatch ctx req s).1.1.
Proof.
  apply (embed_rule_sound _ _ ctx req s (frame_rule s.1)).
  exists (rg_rnd (eh_registry s.1)), (eh_circuits s.1). by destruct s as [[[]] ?].
Qed.

(** *** Breakers *)
Lemma eh_breaker_on {A} h n (f : Breaker -> A * Breaker) m :
  eh_breaker (eh_on_breaker h n f).1 m =
    (if decide (m = n) then (f (eh_breaker h n)).2 else eh_breaker h m) /\
  (eh_on_breaker h n f).2 = (f (eh_breaker h n)).1.
Proof.
  unfold eh_on_breaker. destruct (f (eh_breaker h n)) as [a b] eqn:E. simpl. split; [|done].
  unfold eh_breaker at 1. simpl.
  destruct (decide (m = n)) as [->|Hne]; [by rewrite lookup_insert_eq|by rewrite lookup_insert_ne].
Qed.

Lemma eh_allow_breaker s n m :
  eh_breaker (eh_allow s n).1.1 m =
    (if decide (m = n) then (Breaker_Allow (time_Now s.2) (eh_breaker s.1 n)).2 else eh_breaker s.1 m) /\
  (eh_allow s n).2 = (Breaker_Allow (time_Now s.2) (eh_breaker s.1 n)).1 /\ (eh_allow s n).1.2 = s.2.
Proof.
  unfold eh_allow. pose proof (eh_breaker_on s.1 n (Breaker_Allow (time_Now s.2)) m) as H.
  destruct (eh_on_breaker _ _ _). simpl in *. by destruct H.
Qed.

Lemma embed_recorded_breaker ctx n e req s m :
  exists b', recorded (eh_breaker s.1 n) b' /\
    eh_breaker (embed_recorded ctx n e req s).1.1 m = if decide (m = n) then b' else eh_breaker s.1 m.
Proof.
  unfold embed_recorded. destruct (embedWithRetry _ _ _ _ _) as [w res]. cbn [fst].
  match goal with |- context [eh_on_breaker s.1 n ?f] => destruct (eh_breaker_on s.1 n f m) as [H _] end.
  eexists. split; [|exact H]. destruct res; [by left|right; eauto].
Qed.

Definition eh_pend h n : Z := b_halfOpenPend (eh_breaker h n).

Lemma eh_slots_rule (pend0 : string -> Z) :
  embed_rule (fun s => forall n, 0 <= eh_pend s.1 n <= pend0 n)
    (fun n s => (forall m, m <> n -> 0 <= eh_pend s.1 m <= pend0 m) /\
       forall b, recorded (eh_breaker s.1 n) b -> 0 <= b_halfOpenPend b <= pend0 n).
Proof.
  unfold eh_pend. split.
  - done.
  - intros s n Hp Hok m. destruct (eh_allow_breaker s n m) as (-> & Hr & _). rewrite Hr in Hok.
    rewrite (Allow_skip _ _ Hok). destruct (decide (m = n)) as [->|]; auto.
  - intros s n Hp Hok. destruct (eh_allow_breaker s n n) as (Hn & Hr & _). rewrite Hr in Hok. split.
    + intros m Hne. destruct (eh_allow_breaker s n m) as (-> & _ & _). by rewrite decide_False.
    + rewrite Hn, decide_True by done. intros b Hb.
      pose proof (Allow_pend _ _ (proj1 (Hp n)) Hok b Hb). specialize (Hp n). lia.
  - intros ctx n e req s (Hm & Hn) m. destruct (embed_recorded_breaker ctx n e req s m) as (b & Hb & ->).
    destruct (decide (m = n)) as [->|Hne]; auto.
Qed.

Lemma eh_allow_keeps s n :
  eh_registry (eh_allow s n).1.1 = eh_registry s.1 /\
  eh_fallbackChain (eh_allow s n).1.1 = eh_fallbackChain s.1.
Proof. unfold eh_allow, eh_on_breaker. by destruct (Breaker_Allow _ _). Qed.

Lemma embed_recorded_keeps ctx n e req s :
  eh_registry (embed_recorded ctx n e req s).1.1 = eh_registry s.1 /\
  eh_fallbackChain (embed_recorded ctx n e req s).1.1 = eh_fallbackChain s.1.
Proof.
  unfold embed_recorded, eh_on_breaker. destruct (embedWithRetry _ _ _ _ _) as [w r].
  by destruct r.
Qed.

(** *** Where an answer comes from *)

(** Some call of [Embed] on [p] with [req] ended in [res]. *)
Definition embedded p req (res : result EmbeddingResponse error) : Prop :=
  exists e ctx w w', p_Embed p = Some e /\ e ctx req w = (w', res).

Lemma embedWithRetry_ok cfg ctx e p req w resp :
  p_Embed p = Some e -> (embedWithRetry cfg ctx e req w).2 = Ok resp -> embedded p req (Ok resp).
Proof.
  intros He. unfold embedWithRetry. destruct (Do _ _ _ _ _ _) as [[w1 r] [err|]] eqn:Ed; simpl; [done|].
  intros [= ->]. apply Do_success in Ed as [y Hy]. unfold embed_once in Hy.
  destruct (e ctx req y.1) as [w' [resp'|e']] eqn:Es; [|done]. injection Hy as -> ->.
  by exists e, ctx, y.1, w1.
Qed.

Lemma embed_recorded_ok ctx e p req s resp :
  p_Embed p = Some e -> (embed_recorded ctx (Name p) e req s).2 = Ok resp -> embedded p req (Ok resp).
Proof.
  intros He. unfold embed_recorded.
  pose proof (embedWithRetry_ok (eh_retryCfg s.1) ctx e p req s.2 resp He) as H.
  by destruct (embedWithRetry _ _ _ _ _).
Qed.

Definition eh_fallback_of h (primary : string) p : Prop :=
  exists n, n ∈ eh_fallbackChain h /\ n <> primary /\ Registry_Get (eh_registry h) n = Some p.

Lemma mappedReq_aliases (r r' : Registry (P := P) (Rng := Rng)) req p :
  rg_aliases r = rg_aliases r' -> mappedReq r req p = mappedReq r' req p.
Proof. unfold mappedReq, RemapForFallback. by intros ->. Qed.

Lemma embed_fallbacks_ok chain primary ctx req last s resp name :
  (embed_fallbacks chain primary ctx req last s).2 = Ok (resp, name) ->
  exists n p, n ∈ chain /\ n <> primary /\ Registry_Get (eh_registry s.1) n = Some p /\
    name = Name p /\ embedded p (mappedReq (eh_registry s.1) req p) (Ok resp).
Proof.
  revert last s. induction chain as [|n chain IH]; intros last s; [done|].
  assert (forall last s', rg_byName (eh_registry s'.1) = rg_byName (eh_registry s.1) ->
    rg_aliases (eh_registry s'.1) = rg_aliases (eh_registry s.1) ->
    (embed_fallbacks chain primary ctx req last s').2 = Ok (resp, name) ->
    exists n0 p, n0 ∈ n :: chain /\ n0 <> primary /\ Registry_Get (eh_registry s.1) n0 = Some p /\
      name = Name p /\ embedded p (mappedReq (eh_registry s.1) req p) (Ok resp)) as Hnext.
  { intros last' s' Hb Ha Hr. destruct (IH last' s' Hr) as (n0 & p & Hin & Hne & Hg & Hn & He).
    exists n0, p. split_and!; [set_solver|done|by unfold Registry_Get in *; rewrite <-Hb|done|].
    by rewrite <-(mappedReq_aliases _ _ req p Ha). }
  simpl. destruct (str_eqb n primary) eqn:En; [by apply Hnext|].
  destruct (Registry_Get _ n) as [q|] eqn:Eq; [|by apply Hnext]. destruct (p_Embed q) as [e|] eqn:Ee; [|by apply Hnext].
  destruct (eh_allow_keeps s (Name q)) as [Hr1 _].
  destruct (eh_allow s (Name q)) as [s1 [|]]; simpl in *; [|apply Hnext; by rewrite Hr1].
  match goal with |- context [embed_recorded ctx _ e ?r s1] =>
    pose proof (embed_recorded_ok ctx e q r s1 resp Ee) as Hok;
    destruct (embed_recorded_keeps ctx (Name q) e r s1) as [Hr2 _]; rewrite Hr1 in Hr2;
    destruct (embed_recorded ctx (Name q) e r s1) as [s2 [resp'|err]] end; simpl in *;
    [|apply Hnext; by rewrite Hr2].
  intros [= -> <-]. exists n, q. apply str_eqb_false in En. split_and!; [set_solver|done|done|done|]. by apply Hok.
Qed.

Lemma embed_dispatch_ok ctx req s resp name :
  (embed_dispatch ctx req s).2 = Ok (resp, name) ->
  exists primary, (eh_resolve (er_Model req) s).2 = Ok primary /\
    ((name = Name primary /\ embedded primary req (Ok resp)) \/
     exists p, name = Name p /\ eh_fallback_of s.1 (Name primary) p /\
       embedded p (mappedReq (eh_registry s.1) req p) (Ok resp)).
Proof.
  unfold embed_dispatch. destruct (eh_resolve_frame (er_Model req) s) as (rnd & Hr).
  destruct (eh_resolve (er_Model req) s) as [s1 [primary|e]]; simpl in Hr; [|done]. subst s1. cbn [snd].
  assert (forall last s', rg_byName (eh_registry s'.1) = rg_byName (eh_registry s.1) ->
    rg_aliases (eh_registry s'.1) = rg_aliases (eh_registry s.1) ->
    eh_fallbackChain s'.1 = eh_fallbackChain s.1 ->
    (embed_fallbacks (eh_fallbackChain s'.1) (Name primary) ctx req last s').2 = Ok (resp, name) ->
    exists p, name = Name p /\ eh_fallback_of s.1 (Name primary) p /\
       embedded p (mappedReq (eh_registry s.1) req p) (Ok resp)) as Hfb.
  { intros last s' Hb' Ha' Hc Hres. rewrite Hc in Hres.
    apply embed_fallbacks_ok in Hres as (n & p & Hin & Hne & Hg & Hn & He).
    exists p. split_and!; [done| |by rewrite <-(mappedReq_aliases _ _ req p Ha')].
    exists n. unfold Registry_Get in *. by rewrite <-Hb'. }
  destruct (p_Embed primary) as [e|] eqn:Ee; [|intros Hr; exists primary; split; [done|right; by refine (Hfb _ _ _ _ _ Hr)]].
  set (s1 := (eh_drawn s.1 rnd, s.2)).
  destruct (eh_allow_keeps s1 (Name primary)) as [Hr1 Hc1].
  destruct (eh_allow s1 (Name primary)) as [s2 [|]]; simpl in Hr1, Hc1 |- *;
    [|intros Hr; exists primary; split; [done|right; refine (Hfb _ _ _ _ _ Hr); by rewrite ?Hr1, ?Hc1]].
  pose proof (embed_recorded_ok ctx e primary req s2 resp Ee) as Hok.
  destruct (embed_recorded_keeps ctx (Name primary) e req s2) as [Hr2 Hc2]. rewrite Hr1 in Hr2. rewrite Hc1 in Hc2.
  destruct (embed_recorded _ _ _ _ _) as [s3 [resp'|err]]; simpl in *.
  - intros [= -> <-]. exists primary. split; [done|]. left. split; [done|]. by apply Hok.
  - destruct (negb _); [done|]. intros Hr. exists primary. split; [done|]. right.
    refine (Hfb _ _ _ _ _ Hr); by rewrite ?Hr2, ?Hc2.
Qed.

End rule.

(** ** The books *)
Section books.
Context {P Ctx Rng W L Store CE T : Type}.
Context `{!Env P Ctx Rng W, !Embedders P Ctx W, !Web T W, !WebEmbedding T}.
Context `{!Backend L W, !BudgetStore Store W, !Cache CE W}.
Abbreviation Eh := (EmbeddingsHandler P Rng L (Manager (Store := Store)) (any_cache CE)).
Abbreviation sys := (Eh * W)%type.
Implicit Types (h : Eh) (w : W) (s : sys) (req : EmbeddingRequest) (r : http_request T Ctx).

Definition eh_books s (f : string -> Z) : Prop :=
  exists m, eh_budgetMgr s.1 = Some m /\ in_memory m /\ forall k, usage_tokens m k = f k.

(** The manager can restore the counters [f] by cancelling [rv]. *)
Definition eh_restores s (f : string -> Z) (rv : option Reservation) : Prop :=
  exists m, eh_budgetMgr s.1 = Some m /\ restores m f rv.

Lemma eh_restores_frame s s' f rv :
  eh_budgetMgr s'.1 = eh_budgetMgr s.1 -> eh_restores s f rv -> eh_restores s' f rv.
Proof. intros E (m & ? & ?). exists m. by rewrite E. Qed.

Lemma embedding_cancel_books s f rv : eh_restores s f rv -> eh_books (embedding_cancel rv s) f.
Proof.
  intros (m & Hm & Hr). unfold embedding_cancel. rewrite Hm. specialize (Hr s.2).
  destruct rv as [rv|]; [|by exists m]. destruct (Cancel m rv s.2) as [[m2 w2] rv2]. by exists m2.
Qed.

Lemma same_eh_budget h h' : same_eh h h' -> eh_budgetMgr h' = eh_budgetMgr h.
Proof. intros (r & cs & ->). done. Qed.

Lemma embedding_lookup_budget r req s : eh_budgetMgr (embedding_lookup r req s).1.1 = eh_budgetMgr s.1.
Proof. unfold embedding_lookup. repeat case_match; simplify_eq/=; done. Qed.
Lemma embedding_tokens_budget r req s : eh_budgetMgr (embedding_tokens r req s).1.1 = eh_budgetMgr s.1.
Proof. unfold embedding_tokens. repeat case_match; simplify_eq/=; done. Qed.

Lemma embedding_reserve_for_restores m name r req s :
  eh_budgetMgr s.1 = Some m -> in_memory m -> books_ok m ->
  match embedding_reserve_for m name r req s with
  | (s', Ok rv) => eh_restores s' (usage_tokens m) rv
  | (s', Err out) => eh_restores s' (usage_tokens m) None
  end.
Proof.
  intros Hm Hs Hb. unfold embedding_reserve_for. cbv zeta.
  destruct (CostForEmbedding _ _ _ _) as [est|e]; [|by exists m; split].
  match goal with |- context [Reserve m ?t ?mo ?k ?u ?w] =>
    pose proof (Reserve_restores m t mo k u w Hs Hb) as Hr; destruct (Reserve m t mo k u w) as [[m1 w1] [rv|e]] end;
    by exists m1.
Qed.

Lemma embedding_reserve_restores r req s m :
  eh_budgetMgr s.1 = Some m -> in_memory m -> books_ok m ->
  match embedding_reserve r req s with
  | (s', Ok rv) => eh_restores s' (usage_tokens m) rv
  | (s', Err out) => eh_restores s' (usage_tokens m) None
  end.
Proof.
  intros Hm Hs Hb. unfold embedding_reserve. rewrite Hm.
  destruct (eh_resolve_frame (er_Model req) s) as (g & Hg).
  destruct (eh_resolve (er_Model req) s) as [s1 [p|e]]; simpl in Hg; subst s1;
    [by apply embedding_reserve_for_restores|].
  destruct e; try by apply embedding_reserve_for_restores. by exists m.
Qed.

Lemma embedding_answer_refund r req key ttl rv s f :
  eh_restores s f rv ->
  let '(s', out) := embedding_answer r req key ttl rv s in
  (forall rs, out = Reply rs -> rs_Status rs <> 200) -> eh_books s' f.
Proof.
  intros Hr. pose proof (same_eh_budget _ _ (embed_dispatch_frame (q_ctx r) req s)) as Hf.
  apply (eh_restores_frame _ _ _ _ Hf) in Hr. unfold embedding_answer.
  destruct (embed_dispatch (q_ctx r) req s) as [s1 [[resp name]|e]]; cbv zeta.
  - destruct (eh_cache _) as [c|]; [destruct (str_eqb key "")|]; intros H; by destruct (H _ eq_refl).
  - intros _. by apply embedding_cancel_books.
Qed.

End books.

(** An embeddings request that is not answered with 200 costs its tenant
    nothing: with the in-process books every token counter ends as it began,
    whichever step failed or panicked. *)
Theorem embeddings_refund_failures {P Ctx Rng W L Store CE T : Type}
    `{!Env P Ctx Rng W, !Embedders P Ctx W, !Web T W, !WebEmbedding T,
      !Backend L W, !BudgetStore Store W, !Cache CE W} method (r : http_request T Ctx)
    (s : EmbeddingsHandler P Rng L (Manager (Store := Store)) (any_cache CE) * W) m :
  eh_budgetMgr s.1 = Some m -> in_memory m -> books_ok m ->
  let '(s', out) := Embeddings_ServeHTTP method r s in
  (forall rs, out = Reply rs -> rs_Status rs <> 200) -> eh_books s' (usage_tokens m).
Proof.
  intros Hm Hs Hb. unfold Embeddings_ServeHTTP.
  assert (forall s' : EmbeddingsHandler P Rng L (Manager (Store := Store)) (any_cache CE) * W,
    eh_budgetMgr s'.1 = Some m -> eh_books s' (usage_tokens m)) as H0 by (intros; by exists m).
  destruct (embedding_validate _ _) as [req|out]; [|intros _; by apply H0].
  destruct (match embedding_cache s r with Some _ => _ | None => _ end) as [key ttl].
  pose proof (embedding_lookup_budget r req s) as H1.
  destruct (embedding_lookup r req s) as [s1 [data|]]; simpl in H1; [intros H; by destruct (H _ eq_refl)|].
  pose proof (embedding_tokens_budget r req s1) as H2.
  destruct (embedding_tokens r req s1) as [s2 [ra|]]; simpl in H2; [intros _; apply H0; simpl; congruence|].
  pose proof (embedding_reserve_restores r req s2 m ltac:(congruence) Hs Hb) as H3.
  destruct (embedding_reserve r req s2) as [s3 [rv|out]]; [by apply embedding_answer_refund|].
  intros _. destruct H3 as (m' & Hm' & Hr). exists m'. split; [done|]. apply (Hr s3.2).
Qed.

(** An embedding comes from the provider the model resolves to, for the request
    itself, or from a registered fallback of the chain other than it, for the
    request with the model remapped; and whatever happens, no breaker ends
    with more half-open slots taken than before. *)
Theorem embed_dispatch_sound {P Ctx Rng W L B C : Type} `{!Env P Ctx Rng W, !Embedders P Ctx W}
    (ctx : Ctx) req (s : EmbeddingsHandler P Rng L B C * W) :
  (forall n, 0 <= eh_pend s.1 n) ->
  let '(s', res) := embed_dispatch ctx req s in
  (forall n, 0 <= eh_pend s'.1 n <= eh_pend s.1 n) /\
  (forall resp name, res = Ok (resp, name) ->
     exists primary, (eh_resolve (er_Model req) s).2 = Ok primary /\
       ((name = p_Name (W := W) primary /\ embedded primary req (Ok resp)) \/
        exists p, name = p_Name (W := W) p /\ eh_fallback_of s.1 (p_Name (W := W) primary) p /\
          embedded p (mappedReq (eh_registry s.1) req p) (Ok resp))).
Proof.
  intros Hp. pose proof (embed_rule_sound _ _ ctx req s (eh_slots_rule (eh_pend s.1))) as Hs.
  pose proof (embed_dispatch_ok ctx req s) as Hok. destruct (embed_dispatch ctx req s) as [s' res]. simpl in *.
  split; [|intros resp name ->; by apply Hok]. apply Hs. intros n. specialize (Hp n). lia.
Qed.

(** ** Examples *)

(** The providers of the chat examples; [c] has no embeddings. *)
#[local] Instance ex_embedders : Embedders (string * list string) bool ex_world := {
  p_Embed p :=
    if str_eqb p.1 "c" then None
    else Some (fun c req w =>
      (ex_log w p.1,
       if bool_decide (p.1 ∈ xw_down w) then Err (ex_fail p.1)
       else Ok (mkEmbeddingResponse "list" [mkEmbeddingData "embedding" 0 [1%Z]] (er_Model req)
                  (mkEmbeddingUsage 3 3)))) }.

#[local] Instance ex_web_embedding : WebEmbedding ChatRequest := {
  json_decode_embedding b := Ok (mkEmbeddingRequest (req_Model b) (JStr "hello") "" None "", b);
  json_Marshal_embedding resp := emb_Model resp }.

Definition ex_embeddings (chain : list string) (threshold : Z)
    : EmbeddingsHandler (string * list string) Z Limiter (Manager (Store := unit)) (any_cache memory) :=
  NewEmbeddingsHandlerWithCache fst
    (NewRegistryWithWeighted fst snd (fun _ => None) (fun seed => seed) ex_providers
       {["m" := ["m-b"; "m-c"]]} ∅)
    chain (Some (NewLimiter 600 100)) (Some (mkOverrideStore 600 100 [])) true
    (mkRetryConfig 1 0 0 false) (mkCircuitConfig threshold (10 * Second) 1) (Some ex_budget) None 0.

Lemma embeddings_refund_failures_witness :
  let s := (ex_embeddings ["a"; "b"; "c"] 5, ex_start ["a"; "b"] []) in
  let '(s', out) := Embeddings_ServeHTTP "POST" ex_http s in
  (exists rs, out = Reply rs /\ rs_Status rs = 502) /\ eh_books s' (usage_tokens ex_budget).
Proof.
  intros s. pose proof (embeddings_refund_failures "POST" ex_http s ex_budget eq_refl (no_store_in_memory ex_budget eq_refl)) as H.
  destruct (Embeddings_ServeHTTP "POST" ex_http s) as [s' out] eqn:E.
  assert (exists rs, out = Reply rs /\ rs_Status rs = 502) as (rs & -> & Hrs).
  { assert (out = (Embeddings_ServeHTTP "POST" ex_http s).2) as -> by (by rewrite E).
    clear E H s'. eexists. split; [vm_compute; reflexivity|reflexivity]. }
  split; [exists rs; split; [reflexivity|exact Hrs]|]. clear E.
  apply H; [|intros rs' Hrs'; injection Hrs' as <-; rewrite Hrs; discriminate].
  intros key. unfold usage_tokens. simpl. rewrite lookup_empty. simpl. split; [done|]. vm_compute. discriminate.
Defined.

(** [b] answers for [a], and no slot is taken. *)
Lemma embed_dispatch_sound_witness :
  let s := (ex_embeddings ["a"; "b"; "c"] 5, ex_start ["a"] []) in
  (embed_dispatch false (mkEmbeddingRequest "m" (JStr "hello") "" None "") s).2 =
    Ok (mkEmbeddingResponse "list" [mkEmbeddingData "embedding" 0 [1%Z]] "m-b" (mkEmbeddingUsage 3 3), "b") /\
  forall n, 0 <= eh_pend (embed_dispatch false (mkEmbeddingRequest "m" (JStr "hello") "" None "") s).1.1 n
            <= eh_pend s.1 n.
Proof.
  intros s.
  pose proof (embed_dispatch_sound false (mkEmbeddingRequest "m" (JStr "hello") "" None "") s) as H.
  assert (forall n, 0 <= eh_pend s.1 n) as Hp.
  { intros n. unfold eh_pend, eh_breaker. simpl.
    destruct (decide (n = "c")) as [->|Hc]; [by rewrite lookup_insert_eq|rewrite lookup_insert_ne by done].
    destruct (decide (n = "b")) as [->|Hb]; [by rewrite lookup_insert_eq|rewrite lookup_insert_ne by done].
    destruct (decide (n = "a")) as [->|Ha]; [by rewrite lookup_insert_eq|by rewrite lookup_insert_ne]. }
  specialize (H Hp). split; [by vm_compute|].
  destruct (embed_dispatch false _ s) as [s' res]. destruct H as [H _]. exact H.
Defined.

(** A provider whose breaker is open is reported as not supporting
    embeddings. *)
Example open_breaker_misreported :
  let h := ex_embeddings [] 1 in
  let s := (h, ex_start ["a"] []) in
  let req := mkEmbeddingRequest "m" (JStr "hello") "" None "" in
  let '(s, first) := embed_dispatch false req s in
  first = Err (ex_fail "a") /\
  (embed_dispatch false req s).2 = Err (EText "provider a does not support embeddings").
Proof. vm_compute. done. Qed.
