(* ===== verification/Config.v ===== *)
(** * Configuration: [internal/config/config.go]

    The configuration tree, [setDefaults], [Validate], [Load] and the polling
    of [Watch].  The YAML decoder, the file and the environment are
    parameters; [os.Expand] is modelled byte by byte.  Go visits a map in no
    particular order: where [Validate] loops over one, which of several
    errors is reported is not determined, and nothing here depends on it. *)

From Stdlib Require Import Ascii String.
From stdpp Require Import pretty.
From S2P Require Import Prelude GoFloat GoStrings RateLimit Auth.
Open Scope string_scope.
Open Scope list_scope.
Open Scope Z_scope.

(** ** The tree *)
Record ServerConfig := mkServerConfig { sv_Port : Z; sv_ReadTimeout : Z; sv_WriteTimeout : Z }.

Record ProviderConfig := mkProviderConfig {
  pc_APIKey : string;
  pc_BaseURL : string;
  pc_Timeout : Z;
  pc_Models : list string;
}.

Record PricingRule := mkPricingRule {
  pr_Provider : string;
  pr_Model : string;
  pr_Input : float64;       (** [InputPerMillionTokensUSD], and so on *)
  pr_Output : float64;
  pr_Embedding : float64;
}.

Record PricingConfig := mkPricingConfig {
  pg_Currency : string;
  pg_Version : string;
  pg_UnknownModelPolicy : string;
  pg_Catalog : list PricingRule;
}.

Record BudgetConfig := mkBudgetConfig {
  bc_Enabled : bool;
  bc_MonthlyTokens : Z;
  bc_MonthlyUSD : float64;
  bc_CostPerTokenUSD : float64;
  bc_Pricing : PricingConfig;
}.

Record RateLimitConfig := mkRateLimitConfig {
  rl_Enabled : bool;
  rl_RequestsPerMinute : Z;
  rl_Burst : Z;
  rl_RedisURL : string;
  rl_TokenAware : bool;
  rl_Overrides : list RateLimitOverride;
  rl_Budget : option BudgetConfig;
}.

Record LoggingConfig := mkLoggingConfig { lg_Level : string; lg_Format : string }.
Record CORSConfig := mkCORSConfig { co_AllowedOrigins : list string }.
Record AuthConfig := mkAuthConfig { ac_Enabled : bool; ac_Keys : list APIKeyConfig }.

Record RetryConfig := mkRetryCfg { rc_MaxAttempts : Z; rc_BaseDelay : Z; rc_MaxDelay : Z }.
Record CircuitConfig := mkCircuitCfg { cc_FailureThreshold : Z; cc_OpenTimeout : Z }.
Record HedgeConfig := mkHedgeCfg { hc_Enabled : bool; hc_Delay : Z }.
Record ResilienceConfig := mkResilienceConfig {
  rs_Retry : RetryConfig;
  rs_Circuit : CircuitConfig;
  rs_Hedge : HedgeConfig;
}.

Record CacheConfig := mkCacheConfig {
  ca_Enabled : bool;
  ca_TTL : Z;
  ca_MaxSize : Z;
  ca_SemanticEnabled : bool;
  ca_SemanticThreshold : float64;
  ca_SemanticEmbeddingModel : string;
  ca_SemanticTopK : Z;
  ca_SemanticMaxEntries : Z;
}.

Record HealthConfig := mkHealthConfig {
  hl_ReadinessCacheTTL : Z;
  hl_CheckTimeout : Z;
  hl_ProviderTimeout : Z;
  hl_SkipExpensiveChecks : bool;
}.

Record WeightedEntry := mkWeightedEntry { wt_Provider : string; wt_Name : string; wt_Weight : Z }.
Definition ProviderName (w : WeightedEntry) : string :=
  if negb (str_eqb (wt_Provider w) "") then wt_Provider w else wt_Name w.

Record RoutingConfig := mkRoutingConfig { ro_Weighted : gmap string (list WeightedEntry) }.
Record AdminConfig := mkAdminConfig { ad_Port : Z; ad_APIKey : string }.

Record Config := mkConfig {
  cf_Server : ServerConfig;
  cf_Providers : gmap string ProviderConfig;
  cf_FallbackChain : list string;
  cf_RateLimit : RateLimitConfig;
  cf_Logging : LoggingConfig;
  cf_CORS : CORSConfig;
  cf_Auth : AuthConfig;
  cf_Resilience : ResilienceConfig;
  cf_ModelAliases : gmap string (list string);
  cf_Cache : CacheConfig;
  cf_Health : HealthConfig;
  cf_Routing : RoutingConfig;
  cf_Admin : AdminConfig;
}.

(** [fmt.Errorf] of a format and its arguments. *)
Record errorf := Errorf { ef_format : string; ef_args : list string }.
Definition quoted (s : string) : string := String "034" (s +:+ String "034" "").

(** ** Validation *)

(** The checks of one section, in order: the first that fails is reported. *)
Fixpoint first_error (checks : list (bool * errorf)) : option errorf :=
  match checks with
  | [] => None
  | (bad, e) :: checks => if bad then Some e else first_error checks
  end.
Definition or_else (a b : option errorf) : option errorf := match a with Some e => Some e | None => b end.

(** A loop that returns at the first element with an error. *)
Fixpoint first_of {A} (f : nat -> A -> option errorf) (i : nat) (l : list A) : option errorf :=
  match l with
  | [] => None
  | x :: l => or_else (f i x) (first_of f (S i) l)
  end.
Definition first_of_map {A} (f : string -> A -> option errorf) (m : gmap string A) : option errorf :=
  first_of (fun _ kv => f kv.1 kv.2) 0 (map_to_list m).

Definition index (i : nat) : string := pretty (Z.of_nat i).

Definition validate_server (s : ServerConfig) : option errorf :=
  first_error [
    ((sv_Port s <? 1) || (65535 <? sv_Port s),
     Errorf "server.port must be between 1 and 65535, got %d" [pretty (sv_Port s)]);
    (sv_ReadTimeout s <=? 0, Errorf "server.read_timeout must be > 0" []);
    (sv_WriteTimeout s <=? 0, Errorf "server.write_timeout must be > 0" [])].

Definition allowedLevels : list string := ["debug"; "info"; "warn"; "error"].
Definition is_in (s : string) (l : list string) : bool := existsb (str_eqb s) l.

Definition validate_logging (l : LoggingConfig) : option errorf :=
  first_error [
    (negb (str_eqb (lg_Level l) "") && negb (is_in (lg_Level l) allowedLevels),
     Errorf "logging.level must be one of debug/info/warn/error, got %q" [quoted (lg_Level l)]);
    (negb (str_eqb (lg_Format l) "") && negb (str_eqb (lg_Format l) "json") && negb (str_eqb (lg_Format l) "text"),
     Errorf "logging.format must be json or text, got %q" [quoted (lg_Format l)])].

Definition validate_override (i : nat) (ov : RateLimitOverride) : option errorf :=
  first_error [((ov_RPM ov <? 0) || (ov_Burst ov <? 0),
                Errorf "rate_limit.overrides[%d] rpm/burst must be >=0" [index i])].

Definition validate_rate_limit (r : RateLimitConfig) : option errorf :=
  or_else
    (first_error [
      (rl_RequestsPerMinute r <? 0, Errorf "rate_limit.requests_per_minute must be >= 0" []);
      (rl_Burst r <? 0, Errorf "rate_limit.burst must be >= 0" []);
      (rl_Enabled r && (rl_RequestsPerMinute r =? 0),
       Errorf "rate_limit.requests_per_minute must be > 0 when enabled" []);
      (rl_Enabled r && (rl_Burst r =? 0), Errorf "rate_limit.burst must be > 0 when enabled" [])])
    (first_of validate_override 0 (rl_Overrides r)).

Definition validate_pricing_rule (i : nat) (r : PricingRule) : option errorf :=
  first_error [
    (str_eqb (pr_Provider r) "" || str_eqb (pr_Model r) "",
     Errorf "rate_limit.budget.pricing.catalog[%d] provider and model are required" [index i]);
    ((pr_Input r <? 0) || (pr_Output r <? 0) || (pr_Embedding r <? 0),
     Errorf "rate_limit.budget.pricing.catalog[%d] rates must be >=0" [index i]);
    ((pr_Input r =? 0) && (pr_Output r =? 0) && (pr_Embedding r =? 0),
     Errorf "rate_limit.budget.pricing.catalog[%d] needs at least one positive rate" [index i])].

Definition validate_pricing (p : PricingConfig) : option errorf :=
  or_else
    (first_error [
      (negb (str_eqb (pg_Currency p) "") && negb (str_eqb (pg_Currency p) "USD"),
       Errorf "rate_limit.budget.pricing.currency must be USD, got %q" [quoted (pg_Currency p)]);
      (negb (str_eqb (pg_UnknownModelPolicy p) "") && negb (str_eqb (pg_UnknownModelPolicy p) "fallback")
         && negb (str_eqb (pg_UnknownModelPolicy p) "reject"),
       Errorf "rate_limit.budget.pricing.unknown_model_policy must be fallback or reject" [])])
    (first_of validate_pricing_rule 0 (pg_Catalog p)).

Definition validate_budget (b : option BudgetConfig) : option errorf :=
  match b with
  | None => None
  | Some b =>
      or_else
        (if bc_Enabled b then
           first_error [
             (bc_MonthlyTokens b <? 0, Errorf "rate_limit.budget.monthly_tokens must be >=0" []);
             (bc_MonthlyUSD b <? 0, Errorf "rate_limit.budget.monthly_usd must be >=0" []);
             (bc_CostPerTokenUSD b <? 0, Errorf "rate_limit.budget.cost_per_token_usd must be >=0" [])]
         else None)
        (validate_pricing (bc_Pricing b))
  end.

(** A key left out, or left as the name of an unset variable. *)
Definition unexpanded (key : string) : bool :=
  str_eqb key "" || ((3 <? go_len key) && HasPrefix key "${").

Definition validate_provider (name : string) (p : ProviderConfig) : option errorf :=
  first_error [
    (str_eqb (pc_BaseURL p) "" && negb (unexpanded (pc_APIKey p)),
     Errorf "providers.%s.base_url is required" [name]);
    (pc_Timeout p <=? 0, Errorf "providers.%s.timeout must be > 0" [name])].

Definition known (providers : gmap string ProviderConfig) (name : string) : bool :=
  bool_decide (is_Some (providers !! name)).

Definition validate_providers (c : Config) : option errorf :=
  or_else
    (first_error [(bool_decide (cf_Providers c = ∅), Errorf "at least one provider must be configured" [])])
    (or_else (first_of_map validate_provider (cf_Providers c))
       (first_of (fun _ name => first_error [(negb (known (cf_Providers c) name),
            Errorf "fallback_chain references unknown provider %q" [quoted name])]) 0 (cf_FallbackChain c))).

(** [ExpiresAt.IsZero()]: the zero time is far before the epoch. *)
Definition zero_time : Z := -62135596800 * Second.

Definition validate_key (enabled : bool) (i : nat) (k : APIKeyConfig) : option errorf :=
  first_error [
    (unexpanded (ak_Key k) && enabled, Errorf "auth.keys[%d].key is required" [index i]);
    (match ak_ExpiresAt k with Some t => t =? zero_time | None => false end,
     Errorf "auth.keys[%d].expires_at is invalid" [index i])].

Definition validate_auth (a : AuthConfig) : option errorf :=
  or_else
    (first_error [(ac_Enabled a && (List.length (ac_Keys a) =? 0)%nat,
                   Errorf "auth.enabled is true but no keys configured" [])])
    (first_of (validate_key (ac_Enabled a)) 0 (ac_Keys a)).

Definition validate_resilience (r : ResilienceConfig) : option errorf :=
  first_error [
    (rc_MaxAttempts (rs_Retry r) <? 0, Errorf "resilience.retry.max_attempts must be >= 0" []);
    ((rc_BaseDelay (rs_Retry r) <? 0) || (rc_MaxDelay (rs_Retry r) <? 0),
     Errorf "resilience.retry delays must be >= 0" []);
    (cc_FailureThreshold (rs_Circuit r) <? 0, Errorf "resilience.circuit.failure_threshold must be >= 0" []);
    (cc_OpenTimeout (rs_Circuit r) <? 0, Errorf "resilience.circuit.open_timeout must be >= 0" []);
    (hc_Delay (rs_Hedge r) <? 0, Errorf "resilience.hedge.delay must be >= 0" [])].

Definition validate_alias (alias : string) (targets : list string) : option errorf :=
  first_error [
    (str_eqb alias "", Errorf "model_aliases key must be non-empty" []);
    ((List.length targets =? 0)%nat, Errorf "model_aliases[%q] must be non-empty" [quoted alias])].

Definition validate_cache (c : CacheConfig) : option errorf :=
  first_error [
    (ca_TTL c <? 0, Errorf "cache.ttl must be >=0" []);
    (ca_MaxSize c <? 0, Errorf "cache.max_size must be >=0" []);
    ((ca_SemanticThreshold c <? 0) || (f64_of_int 1 <? ca_SemanticThreshold c),
     Errorf "cache.semantic_threshold must be between 0 and 1" []);
    (ca_SemanticEnabled c && str_eqb (ca_SemanticEmbeddingModel c) "",
     Errorf "cache.semantic_embedding_model is required when semantic cache is enabled" []);
    (ca_SemanticTopK c <? 0, Errorf "cache.semantic_top_k must be >=0" []);
    (ca_SemanticMaxEntries c <? 0, Errorf "cache.semantic_max_entries must be >=0" [])].

Definition validate_health (h : HealthConfig) : option errorf :=
  first_error [
    ((hl_ReadinessCacheTTL h <? 0) || (hl_CheckTimeout h <? 0) || (hl_ProviderTimeout h <? 0),
     Errorf "health timeouts must be >=0" [])].

Definition validate_entry (providers : gmap string ProviderConfig) (model : string) (i : nat) (e : WeightedEntry)
    : option errorf :=
  first_error [
    (str_eqb (ProviderName e) "",
     Errorf "routing.weighted[%q][%d] provider/name required" [quoted model; index i]);
    (negb (known providers (ProviderName e)),
     Errorf "routing.weighted[%q][%d] references unknown provider %q"
       [quoted model; index i; quoted (ProviderName e)]);
    (wt_Weight e <=? 0, Errorf "routing.weighted[%q][%d] weight must be >0" [quoted model; index i])].

(** [total += e.Weight], with Go's wrapping addition. *)
Definition total_of (entries : list WeightedEntry) : Z :=
  foldl (fun total e => iadd total (wt_Weight e)) 0 entries.

Definition validate_weighted (providers : gmap string ProviderConfig) (model : string)
    (entries : list WeightedEntry) : option errorf :=
  or_else
    (first_error [
      (str_eqb model "", Errorf "routing.weighted key must be non-empty" []);
      ((List.length entries =? 0)%nat, Errorf "routing.weighted[%q] must be non-empty" [quoted model])])
    (or_else (first_of (validate_entry providers model) 0 entries)
       (first_error [(total_of entries =? 0,
                      Errorf "routing.weighted[%q] total weight must be >0" [quoted model])])).

Definition validate_admin (a : AdminConfig) : option errorf :=
  first_error [
    (negb (ad_Port a =? 0) && ((ad_Port a <? 1) || (65535 <? ad_Port a)),
     Errorf "admin.port must be between 1 and 65535, got %d" [pretty (ad_Port a)])].

Definition Validate (c : Config) : option errorf :=
  foldr or_else None [
    validate_server (cf_Server c); validate_logging (cf_Logging c); validate_rate_limit (cf_RateLimit c);
    validate_budget (rl_Budget (cf_RateLimit c)); validate_providers c; validate_auth (cf_Auth c);
    validate_resilience (cf_Resilience c); first_of_map validate_alias (cf_ModelAliases c);
    validate_cache (cf_Cache c); validate_health (cf_Health c);
    first_of_map (validate_weighted (cf_Providers c)) (ro_Weighted (cf_Routing c));
    validate_admin (cf_Admin c)].

(** ** Defaults *)
Definition or_default (z d : Z) : Z := if z =? 0 then d else z.
Definition or_text (s d : string) : string := if str_eqb s "" then d else s.

(** [0.00001] and [0.97] as Go reads them. *)
Definition default_cost : float64 := f64_const 1 100000.
Definition default_threshold : float64 := f64_const 97 100.

Section defaults.
(** [os.LookupEnv] *)
Context (env : string -> option string).

Definition Getenv (key : string) : string := default "" (env key).

Definition default_server (s : ServerConfig) : ServerConfig :=
  mkServerConfig (or_default (sv_Port s) 8080) (or_default (sv_ReadTimeout s) (30 * Second))
    (or_default (sv_WriteTimeout s) (60 * Second)).
Definition default_provider (p : ProviderConfig) : ProviderConfig :=
  mkProviderConfig (pc_APIKey p) (pc_BaseURL p) (or_default (pc_Timeout p) (30 * Second)) (pc_Models p).
Definition default_budget (b : BudgetConfig) : BudgetConfig :=
  mkBudgetConfig (bc_Enabled b) (bc_MonthlyTokens b) (bc_MonthlyUSD b)
    (or_default (bc_CostPerTokenUSD b) default_cost) (bc_Pricing b).
Definition default_rate_limit (r : RateLimitConfig) : RateLimitConfig :=
  mkRateLimitConfig (rl_Enabled r) (or_default (rl_RequestsPerMinute r) 60) (or_default (rl_Burst r) 10)
    (rl_RedisURL r) (rl_TokenAware r) (rl_Overrides r) (default_budget <$> rl_Budget r).
Definition default_logging (l : LoggingConfig) : LoggingConfig :=
  mkLoggingConfig (or_text (lg_Level l) "info") (or_text (lg_Format l) "json").
Definition default_resilience (r : ResilienceConfig) : ResilienceConfig :=
  mkResilienceConfig
    (mkRetryCfg (or_default (rc_MaxAttempts (rs_Retry r)) 3)
       (or_default (rc_BaseDelay (rs_Retry r)) (200 * Millisecond))
       (or_default (rc_MaxDelay (rs_Retry r)) (2 * Second)))
    (mkCircuitCfg (or_default (cc_FailureThreshold (rs_Circuit r)) 5)
       (or_default (cc_OpenTimeout (rs_Circuit r)) (30 * Second)))
    (mkHedgeCfg (hc_Enabled (rs_Hedge r)) (or_default (hc_Delay (rs_Hedge r)) (300 * Millisecond))).
Definition default_cache (c : CacheConfig) : CacheConfig :=
  mkCacheConfig (ca_Enabled c) (or_default (ca_TTL c) (5 * Minute)) (or_default (ca_MaxSize c) 1000)
    (ca_SemanticEnabled c) (or_default (ca_SemanticThreshold c) default_threshold)
    (ca_SemanticEmbeddingModel c) (or_default (ca_SemanticTopK c) 3)
    (or_default (ca_SemanticMaxEntries c) 1000).
Definition default_health (h : HealthConfig) : HealthConfig :=
  mkHealthConfig (or_default (hl_ReadinessCacheTTL h) (15 * Second)) (or_default (hl_CheckTimeout h) (10 * Second))
    (or_default (hl_ProviderTimeout h) (3 * Second)) (hl_SkipExpensiveChecks h).
Definition default_admin (a : AdminConfig) : AdminConfig :=
  mkAdminConfig (or_default (ad_Port a) 8081)
    (if str_eqb (ad_APIKey a) "" && negb (str_eqb (Getenv "ADMIN_API_KEY") "")
     then Getenv "ADMIN_API_KEY" else ad_APIKey a).

Definition setDefaults (c : Config) : Config :=
  mkConfig (default_server (cf_Server c)) (default_provider <$> cf_Providers c) (cf_FallbackChain c)
    (default_rate_limit (cf_RateLimit c)) (default_logging (cf_Logging c)) (cf_CORS c) (cf_Auth c)
    (default_resilience (cf_Resilience c)) (cf_ModelAliases c) (default_cache (cf_Cache c))
    (default_health (cf_Health c)) (cf_Routing c) (default_admin (cf_Admin c)).

(** ** [os.Expand] *)
Definition dollar : ascii := "$"%char.
Definition is_special (c : ascii) : bool :=
  existsb (fun x => bool_decide (c = x))
    ["*"%char; "#"%char; "$"%char; "@"%char; "!"%char; "?"%char; "-"%char; "0"%char; "1"%char; "2"%char;
     "3"%char; "4"%char; "5"%char; "6"%char; "7"%char; "8"%char; "9"%char].
Definition is_alnum (c : ascii) : bool :=
  let n := N_of_ascii c in
  bool_decide (c = "_"%char) || (N.leb 48 n && N.leb n 57) || (N.leb 97 n && N.leb n 122)
  || (N.leb 65 n && N.leb n 90).

(** The text before the first closing brace. *)
Fixpoint to_brace (s : list ascii) : option (list ascii) :=
  match s with
  | [] => None
  | c :: s => if bool_decide (c = "}"%char) then Some [] else (cons c) <$> to_brace s
  end.
Fixpoint alnums (s : list ascii) : list ascii :=
  match s with
  | c :: s => if is_alnum c then c :: alnums s else []
  | [] => []
  end.

(** [getShellName]: the name after a [$], and how many bytes it takes. *)
Definition getShellName (s : list ascii) : list ascii * nat :=
  match s with
  | c0 :: s' =>
      if bool_decide (c0 = "{"%char) then
        if match s' with c1 :: c2 :: _ => is_special c1 && bool_decide (c2 = "}"%char) | _ => false end
        then (take 1 s', 3%nat)
        else match to_brace s' with
             | Some [] => ([], 2%nat)
             | Some name => (name, List.length name + 2)%nat
             | None => ([], 1%nat)
             end
      else if is_special c0 then ([c0], 1%nat)
      else let name := alnums s in (name, List.length name)
  | [] => ([], 0%nat)
  end.

(** [skip] bytes of a variable are still to be passed over. *)
Fixpoint expand_from (mapping : string -> string) (skip : nat) (s : list ascii) : list ascii :=
  match s with
  | [] => []
  | c :: s =>
      match skip with
      | S skip => expand_from mapping skip s
      | O =>
          if bool_decide (c = dollar) && negb (bool_decide (s = [])) then
            let '(name, w) := getShellName s in
            match name, w with
            | [], O => c :: expand_from mapping 0 s
            | [], _ => expand_from mapping w s
            | _, _ => bytes (mapping (string_of_list_ascii name)) ++ expand_from mapping w s
            end
          else c :: expand_from mapping 0 s
      end
  end.
Definition Expand (s : string) (mapping : string -> string) : string :=
  string_of_list_ascii (expand_from mapping 0 (bytes s)).

(** The mapping of [Load]: a variable that is not set stays in its place. *)
Definition lookup_or_keep (key : string) : string :=
  match env key with Some v => v | None => "${" +:+ key +:+ "}" end.
Definition expand_env (s : string) : string := Expand s lookup_or_keep.

End defaults.

(** ** Loading *)

(** [os.ReadFile] and [yaml.v3]: [yaml_First] is the first document of a text,
    decoded with [KnownFields]; [yaml_Rest] is what decoding a second one
    gives, [None] for [io.EOF]. *)
Class ConfigFile (W : Type) := {
  LookupEnv : W -> string -> option string;
  ReadFile : W -> string -> result string string;
  yaml_First : string -> result Config string;
  yaml_Rest : string -> option (result unit string);
  yaml_roundtrip : Config -> Config;             (** [Unmarshal] after [Marshal] *)
  ModTime : W -> string -> option Z;             (** of [os.Stat] *)
}.

Section load.
Context {W : Type} `{!ConfigFile W}.

Definition Load (w : W) (path : string) : result Config errorf :=
  match ReadFile w path with
  | Err e => Err (Errorf "reading config: %w" [e])
  | Ok data =>
      let expanded := expand_env (LookupEnv w) data in
      match yaml_First expanded with
      | Err e => Err (Errorf "parsing config: %w" [e])
      | Ok cfg =>
          match yaml_Rest expanded with
          | Some (Ok _) => Err (Errorf "parsing config: multiple YAML documents are not supported" [])
          | Some (Err e) => Err (Errorf "parsing config: %w" [e])
          | None =>
              let cfg := setDefaults (LookupEnv w) cfg in
              match Validate cfg with
              | Some e => Err e
              | None => Ok cfg
              end
          end
      end
  end.

Definition Clone (c : Config) : Config := yaml_roundtrip c.

(** One tick of [Watch], at which [Stat] sees [w] and, 100 ms later, [Load]
    sees [w']: the new [lastMod] and the configuration handed to [onChange]. *)
Definition watch_tick (path : string) (lastMod : Z) (w w' : W) : Z * option Config :=
  match ModTime w path with
  | None => (lastMod, None)
  | Some t =>
      if negb (lastMod <? t) then (lastMod, None)
      else match Load w' path with
           | Err _ => (t, None)
           | Ok newCfg => (t, Some newCfg)
           end
  end.

(** The calls of [onChange] over the ticks until the context is cancelled. *)
Fixpoint watch_ticks (path : string) (lastMod : Z) (ticks : list (W * W)) : list Config :=
  match ticks with
  | [] => []
  | (w, w') :: ticks =>
      let '(lastMod, newCfg) := watch_tick path lastMod w w' in
      match newCfg with Some c => [c] | None => [] end ++ watch_ticks path lastMod ticks
  end.
Definition Watch (path : string) (start : W) (ticks : list (W * W)) : list Config :=
  watch_ticks path (default zero_time (ModTime start path)) ticks.

End load.

(** ** What [Validate] accepts *)

Lemma first_error_None cs : first_error cs = None <-> Forall (fun x => x.1 = false) cs.
Proof.
  induction cs as [|[[] e] cs IH]; simpl; rewrite ?list.Forall_cons, ?list.Forall_nil; simpl; tauto || intuition done.
Qed.

Lemma or_else_None a b : or_else a b = None <-> a = None /\ b = None.
Proof. destruct a; simpl; intuition done. Qed.

Lemma first_of_None {A} (f : nat -> A -> option errorf) (P : A -> Prop) i l :
  (forall i x, f i x = None <-> P x) -> first_of f i l = None <-> Forall P l.
Proof.
  intros Hf. revert i. induction l as [|x l IH]; intros i; simpl; [by rewrite list.Forall_nil|].
  by rewrite or_else_None, list.Forall_cons, Hf, IH.
Qed.

Lemma first_of_map_None {A} (f : string -> A -> option errorf) (P : string -> A -> Prop) m :
  (forall k x, f k x = None <-> P k x) -> first_of_map f m = None <-> map_Forall P m.
Proof.
  intros Hf. unfold first_of_map. rewrite (first_of_None _ (uncurry P)), map_Forall_to_list; [done|].
  intros _ [k x]. apply Hf.
Qed.

(** Boolean guards as propositions. *)
Lemma length_eqb_false {A} (l : list A) : (List.length l =? 0)%nat = false <-> l <> [].
Proof. destruct l; simpl; naive_solver. Qed.

Lemma known_false ps name : negb (known ps name) = false <-> is_Some (ps !! name).
Proof. unfold known. rewrite negb_false_iff. apply bool_decide_eq_true. Qed.

Ltac guards :=
  rewrite ?first_error_None, ?list.Forall_cons, ?list.Forall_nil; cbn [fst];
  rewrite ?known_false, ?orb_false_iff, ?andb_false_iff, ?negb_false_iff, ?negb_true_iff, ?length_eqb_false,
    ?str_eqb_false, ?str_eqb_true, ?Z.ltb_ge, ?Z.leb_gt, ?Z.eqb_neq, ?Z.eqb_eq, ?bool_decide_eq_false.
Ltac checks := guards; intuition (try lia; try congruence).

Lemma is_in_spec s l : is_in s l = true <-> s ∈ l.
Proof.
  unfold is_in. rewrite existsb_exists. split.
  - intros (x & Hx & ->%str_eqb_true). by apply list_elem_of_In.
  - intros Hs. exists s. split; [by apply list_elem_of_In|apply str_eqb_refl].
Qed.

Definition rule_wf (r : PricingRule) : Prop :=
  pr_Provider r <> "" /\ pr_Model r <> "" /\ 0 <= pr_Input r /\ 0 <= pr_Output r /\ 0 <= pr_Embedding r /\
  0 < pr_Input r + pr_Output r + pr_Embedding r.

Definition pricing_wf (p : PricingConfig) : Prop :=
  pg_Currency p ∈ [""; "USD"] /\ pg_UnknownModelPolicy p ∈ [""; "fallback"; "reject"] /\
  Forall rule_wf (pg_Catalog p).

Definition budget_wf (b : BudgetConfig) : Prop :=
  (bc_Enabled b = true -> 0 <= bc_MonthlyTokens b /\ 0 <= bc_MonthlyUSD b /\ 0 <= bc_CostPerTokenUSD b) /\
  pricing_wf (bc_Pricing b).

Definition rate_limit_wf (r : RateLimitConfig) : Prop :=
  0 <= rl_RequestsPerMinute r /\ 0 <= rl_Burst r /\
  (rl_Enabled r = true -> 0 < rl_RequestsPerMinute r /\ 0 < rl_Burst r) /\
  Forall (fun ov => 0 <= ov_RPM ov /\ 0 <= ov_Burst ov) (rl_Overrides r).

Definition provider_wf (p : ProviderConfig) : Prop :=
  0 < pc_Timeout p /\ (unexpanded (pc_APIKey p) = false -> pc_BaseURL p <> "").

Definition auth_wf (a : AuthConfig) : Prop :=
  (ac_Enabled a = true -> ac_Keys a <> []) /\
  Forall (fun k => (ac_Enabled a = true -> unexpanded (ak_Key k) = false) /\ ak_ExpiresAt k <> Some zero_time)
    (ac_Keys a).

Definition resilience_wf (r : ResilienceConfig) : Prop :=
  0 <= rc_MaxAttempts (rs_Retry r) /\ 0 <= rc_BaseDelay (rs_Retry r) /\ 0 <= rc_MaxDelay (rs_Retry r) /\
  0 <= cc_FailureThreshold (rs_Circuit r) /\ 0 <= cc_OpenTimeout (rs_Circuit r) /\ 0 <= hc_Delay (rs_Hedge r).

Definition cache_wf (c : CacheConfig) : Prop :=
  0 <= ca_TTL c /\ 0 <= ca_MaxSize c /\ 0 <= ca_SemanticThreshold c <= f64_of_int 1 /\
  (ca_SemanticEnabled c = true -> ca_SemanticEmbeddingModel c <> "") /\
  0 <= ca_SemanticTopK c /\ 0 <= ca_SemanticMaxEntries c.

Definition weighted_wf (ps : gmap string ProviderConfig) (model : string) (es : list WeightedEntry) : Prop :=
  model <> "" /\ es <> [] /\
  Forall (fun e => ProviderName e <> "" /\ is_Some (ps !! ProviderName e) /\ 0 < wt_Weight e) es /\
  total_of es <> 0.

(** A configuration the gateway can run. *)
Record config_wf (c : Config) : Prop := {
  wf_port : 1 <= sv_Port (cf_Server c) <= 65535;
  wf_timeouts : 0 < sv_ReadTimeout (cf_Server c) /\ 0 < sv_WriteTimeout (cf_Server c);
  wf_level : lg_Level (cf_Logging c) = "" \/ lg_Level (cf_Logging c) ∈ allowedLevels;
  wf_format : lg_Format (cf_Logging c) ∈ [""; "json"; "text"];
  wf_rate_limit : rate_limit_wf (cf_RateLimit c);
  wf_budget : forall b, rl_Budget (cf_RateLimit c) = Some b -> budget_wf b;
  wf_providers : cf_Providers c <> ∅ /\ map_Forall (fun _ => provider_wf) (cf_Providers c);
  wf_fallback : Forall (fun name => is_Some (cf_Providers c !! name)) (cf_FallbackChain c);
  wf_auth : auth_wf (cf_Auth c);
  wf_resilience : resilience_wf (cf_Resilience c);
  wf_aliases : map_Forall (fun alias targets => alias <> "" /\ targets <> []) (cf_ModelAliases c);
  wf_cache : cache_wf (cf_Cache c);
  wf_health : 0 <= hl_ReadinessCacheTTL (cf_Health c) /\ 0 <= hl_CheckTimeout (cf_Health c) /\
              0 <= hl_ProviderTimeout (cf_Health c);
  wf_weighted : map_Forall (weighted_wf (cf_Providers c)) (ro_Weighted (cf_Routing c));
  wf_admin : ad_Port (cf_Admin c) = 0 \/ 1 <= ad_Port (cf_Admin c) <= 65535;
}.

Lemma validate_server_spec s :
  validate_server s = None <-> 1 <= sv_Port s <= 65535 /\ 0 < sv_ReadTimeout s /\ 0 < sv_WriteTimeout s.
Proof. unfold validate_server. checks. Qed.

Lemma validate_logging_spec l :
  validate_logging l = None <->
  (lg_Level l = "" \/ lg_Level l ∈ allowedLevels) /\ lg_Format l ∈ [""; "json"; "text"].
Proof.
  unfold validate_logging. guards. rewrite is_in_spec, !elem_of_cons, elem_of_nil. intuition.
Qed.

Lemma validate_rate_limit_spec r : validate_rate_limit r = None <-> rate_limit_wf r.
Proof.
  unfold validate_rate_limit, rate_limit_wf. rewrite or_else_None.
  rewrite (first_of_None _ (fun ov => 0 <= ov_RPM ov /\ 0 <= ov_Burst ov)).
  - destruct (rl_Enabled r); checks.
  - intros i ov. unfold validate_override. checks.
Qed.

Lemma validate_pricing_rule_spec i r : validate_pricing_rule i r = None <-> rule_wf r.
Proof. unfold validate_pricing_rule, rule_wf. checks. Qed.

Lemma validate_pricing_spec p : validate_pricing p = None <-> pricing_wf p.
Proof.
  unfold validate_pricing, pricing_wf.
  rewrite or_else_None, (first_of_None _ rule_wf) by (intros; apply validate_pricing_rule_spec).
  guards. rewrite !elem_of_cons, !elem_of_nil. intuition.
Qed.

Lemma validate_budget_spec b : validate_budget b = None <-> (forall b', b = Some b' -> budget_wf b').
Proof.
  destruct b as [b|]; cbn [validate_budget]; [|naive_solver]. unfold budget_wf.
  rewrite or_else_None, validate_pricing_spec.
  assert ((if bc_Enabled b then _ else None) = None <->
    (bc_Enabled b = true -> 0 <= bc_MonthlyTokens b /\ 0 <= bc_MonthlyUSD b /\ 0 <= bc_CostPerTokenUSD b)) as ->.
  { destruct (bc_Enabled b); [checks|naive_solver]. }
  naive_solver.
Qed.

Lemma validate_providers_spec c :
  validate_providers c = None <->
  (cf_Providers c <> ∅ /\ map_Forall (fun _ => provider_wf) (cf_Providers c)) /\
  Forall (fun name => is_Some (cf_Providers c !! name)) (cf_FallbackChain c).
Proof.
  unfold validate_providers. rewrite !or_else_None.
  rewrite (first_of_map_None _ (fun _ => provider_wf)), (first_of_None _ (fun name => is_Some (cf_Providers c !! name))).
  - guards. intuition.
  - intros i name. guards. intuition.
  - intros name p. unfold validate_provider, provider_wf. guards.
    destruct (unexpanded _), (decide (pc_BaseURL p = "")); naive_solver lia.
Qed.

Lemma validate_auth_spec a : validate_auth a = None <-> auth_wf a.
Proof.
  unfold validate_auth, auth_wf. rewrite or_else_None.
  rewrite (first_of_None _ (fun k => (ac_Enabled a = true -> unexpanded (ak_Key k) = false) /\
    ak_ExpiresAt k <> Some zero_time)).
  - guards. destruct (ac_Enabled a); intuition congruence.
  - intros i k. unfold validate_key. guards.
    assert (match ak_ExpiresAt k with Some t => t =? zero_time | None => false end = false <->
            ak_ExpiresAt k <> Some zero_time) as -> by (destruct (ak_ExpiresAt k); [|done]; rewrite Z.eqb_neq; naive_solver).
    destruct (ac_Enabled a), (unexpanded _); intuition congruence.
Qed.

Lemma validate_resilience_spec r : validate_resilience r = None <-> resilience_wf r.
Proof. unfold validate_resilience, resilience_wf. checks. Qed.

Lemma validate_cache_spec c : validate_cache c = None <-> cache_wf c.
Proof.
  unfold validate_cache, cache_wf. generalize (f64_of_int 1). intros one. guards. destruct (ca_SemanticEnabled c); intuition (try lia; try congruence).
Qed.

Lemma validate_weighted_spec ps model es : validate_weighted ps model es = None <-> weighted_wf ps model es.
Proof.
  unfold validate_weighted, weighted_wf. rewrite !or_else_None.
  rewrite (first_of_None _ (fun e => ProviderName e <> "" /\ is_Some (ps !! ProviderName e) /\ 0 < wt_Weight e)).
  - guards. intuition.
  - intros i e. unfold validate_entry. guards. intuition.
Qed.

Lemma validate_admin_spec a : validate_admin a = None <-> ad_Port a = 0 \/ 1 <= ad_Port a <= 65535.
Proof. unfold validate_admin. guards. lia. Qed.

Lemma Validate_accepts c : Validate c = None <-> config_wf c.
Proof.
  unfold Validate. cbn [foldr]. rewrite !or_else_None.
  rewrite validate_server_spec, validate_logging_spec, validate_rate_limit_spec, validate_budget_spec,
    validate_providers_spec, validate_auth_spec, validate_resilience_spec, validate_cache_spec, validate_admin_spec.
  rewrite (first_of_map_None _ (fun alias targets => alias <> "" /\ targets <> [])).
  2:{ intros alias ts. unfold validate_alias. guards. intuition. }
  rewrite (first_of_map_None _ (weighted_wf (cf_Providers c))) by apply validate_weighted_spec.
  assert (validate_health (cf_Health c) = None <-> 0 <= hl_ReadinessCacheTTL (cf_Health c) /\
     0 <= hl_CheckTimeout (cf_Health c) /\ 0 <= hl_ProviderTimeout (cf_Health c)) as -> by (unfold validate_health; checks).
  split; [intros; go_destruct; by split|]. intros []. naive_solver.
Qed.

(** ** Defaults and loading *)

Lemma or_default_idem z d : d <> 0 -> or_default (or_default z d) d = or_default z d.
Proof. intros Hd. unfold or_default. destruct (z =? 0) eqn:E; [|by rewrite E]. by destruct (d =? 0) eqn:E2; [lia|]. Qed.
Lemma or_text_idem s d : or_text (or_text s d) d = or_text s d.
Proof. unfold or_text. destruct (str_eqb s "") eqn:E; [|by rewrite E]. by destruct (str_eqb d ""). Qed.

Lemma default_cost_pos : default_cost <> 0.
Proof. by vm_compute. Qed.
Lemma default_threshold_pos : default_threshold <> 0.
Proof. by vm_compute. Qed.

Lemma setDefaults_idempotent env c : setDefaults env (setDefaults env c) = setDefaults env c.
Proof.
  destruct c as [sv ps fb rl lg co au rs al ca he ro ad]. unfold setDefaults; cbn. f_equal.
  - unfold default_server; cbn. by rewrite !or_default_idem.
  - rewrite <-map_fmap_compose. apply map_fmap_ext. intros k p _. unfold default_provider; cbn.
    by rewrite or_default_idem.
  - unfold default_rate_limit; cbn. rewrite !or_default_idem by done. f_equal. destruct (rl_Budget rl) as [b|]; cbn; [|done].
    unfold default_budget; cbn. by rewrite or_default_idem by apply default_cost_pos.
  - unfold default_logging; cbn. by rewrite !or_text_idem.
  - unfold default_resilience; cbn. by rewrite !or_default_idem.
  - unfold default_cache; cbn. rewrite (or_default_idem (ca_SemanticThreshold ca)) by apply default_threshold_pos.
    by rewrite !or_default_idem.
  - unfold default_health; cbn. by rewrite !or_default_idem.
  - unfold default_admin; cbn. rewrite or_default_idem by done. f_equal. destruct ad as [port key]; cbn.
    destruct (str_eqb key "") eqn:E1, (str_eqb (Getenv env "ADMIN_API_KEY") "") eqn:E2; cbn; rewrite ?E1, ?E2; done.
Qed.

(** What a configuration has once the defaults are in and [Validate] accepts
    it: nothing it is divided by, waited for or counted up to is zero. *)
Record runnable (c : Config) : Prop := {
  run_wf : config_wf c;
  run_limits : 0 < rl_RequestsPerMinute (cf_RateLimit c) /\ 0 < rl_Burst (cf_RateLimit c);
  run_retry : 1 <= rc_MaxAttempts (rs_Retry (cf_Resilience c)) /\ 0 < rc_BaseDelay (rs_Retry (cf_Resilience c)) /\
              0 < rc_MaxDelay (rs_Retry (cf_Resilience c));
  run_circuit : 1 <= cc_FailureThreshold (rs_Circuit (cf_Resilience c)) /\
                0 < cc_OpenTimeout (rs_Circuit (cf_Resilience c));
  run_cache : 0 < ca_TTL (cf_Cache c) /\ 1 <= ca_MaxSize (cf_Cache c) /\ 1 <= ca_SemanticTopK (cf_Cache c) /\
              1 <= ca_SemanticMaxEntries (cf_Cache c);
  run_health : 0 < hl_ReadinessCacheTTL (cf_Health c) /\ 0 < hl_CheckTimeout (cf_Health c) /\
               0 < hl_ProviderTimeout (cf_Health c);
  run_admin : 1 <= ad_Port (cf_Admin c) <= 65535;
}.

Lemma or_default_pos z d : 0 < d -> 0 <= or_default z d -> 0 < or_default z d.
Proof. unfold or_default. destruct (z =? 0) eqn:E; lia. Qed.

Lemma defaults_runnable env c : config_wf (setDefaults env c) -> runnable (setDefaults env c).
Proof.
  intros Hwf. destruct (Hwf). destruct wf_rate_limit0 as (? & ? & _), wf_resilience0 as (? & ? & ? & ? & ? & _).
  destruct wf_cache0 as (? & ? & _ & _ & ? & ?), wf_health0 as (? & ? & ?).
  split; [exact Hwf|..]; cbn in *; split_and?;
    try (match goal with |- 1 <= ?x => enough (0 < x) by lia | _ => idtac end; apply or_default_pos; done || lia).
  destruct wf_admin0 as [Hadm|[_ Hadm]]; [by rewrite Hadm|exact Hadm].
Qed.

Lemma Load_spec {W : Type} `{!ConfigFile W} (w : W) path c :
  Load w path = Ok c ->
  runnable c /\ setDefaults (LookupEnv w) c = c /\
  exists data raw, ReadFile w path = Ok data /\ c = setDefaults (LookupEnv w) raw /\
    yaml_First (expand_env (LookupEnv w) data) = Ok raw /\ yaml_Rest (expand_env (LookupEnv w) data) = None.
Proof.
  unfold Load. destruct (ReadFile w path) as [data|] eqn:Er; [|done]. cbv zeta.
  destruct (yaml_First _) as [raw|] eqn:Ef; [|done]. destruct (yaml_Rest _) as [[]|] eqn:Es; [done|done|].
  destruct (Validate _) eqn:Ev; [done|]. intros [= <-]. split_and!.
  - apply defaults_runnable. by apply Validate_accepts.
  - apply setDefaults_idempotent.
  - by exists data, raw.
Qed.

(** C37. [Load] accepts a file exactly if it is one YAML document whose values,
    with the variables expanded and the defaults filled in, make a
    configuration the gateway can run: everything [Validate] asks for, and
    nothing that is divided by, waited for or counted up to is zero; and that
    is the configuration it returns. *)
Theorem Load_accepts_runnable {W : Type} `{!ConfigFile W} (w : W) path c :
  Load w path = Ok c <->
  runnable c /\ exists data raw, ReadFile w path = Ok data /\ c = setDefaults (LookupEnv w) raw /\
    yaml_First (expand_env (LookupEnv w) data) = Ok raw /\ yaml_Rest (expand_env (LookupEnv w) data) = None.
Proof.
  split; [intros (Hr & _ & Hd)%Load_spec; by split|]. intros (Hr & data & raw & Hd & -> & Hy & Hrest).
  unfold Load. rewrite Hd. cbv zeta. rewrite Hy, Hrest.
  by rewrite (proj2 (Validate_accepts _) (run_wf _ Hr)).
Qed.

(** ** Expansion *)

(** A text as literals without a dollar sign and variables in braces. *)
Inductive piece := Lit (s : string) | Var (name : string).
Definition piece_wf (p : piece) : Prop :=
  match p with
  | Lit s => "$"%char ∉ bytes s
  | Var name => name <> "" /\ "}"%char ∉ bytes name
  end.
Definition piece_text (p : piece) : string :=
  match p with Lit s => s | Var name => "${" +:+ name +:+ "}" end.
Definition piece_value (env : string -> option string) (p : piece) : string :=
  match p with Lit s => s | Var name => lookup_or_keep env name end.
Definition join (f : piece -> string) (ps : list piece) : string := foldr (fun p s => f p +:+ s) "" ps.

Lemma bytes_app (s t : string) : bytes (s +:+ t) = bytes s ++ bytes t.
Proof. induction s as [|c s IH]; [done|]. exact (f_equal (cons c) IH). Qed.

Lemma expand_lit m l rest : dollar ∉ l -> expand_from m 0 (l ++ rest) = l ++ expand_from m 0 rest.
Proof.
  induction l as [|c l IH]; intros Hl; [done|]. cbn [app expand_from].
  rewrite bool_decide_false by set_solver. cbn [andb]. rewrite IH by set_solver. done.
Qed.

Lemma to_brace_app l rest : "}"%char ∉ l -> to_brace (l ++ "}"%char :: rest) = Some l.
Proof.
  induction l as [|c l IH]; intros Hl; [done|]. cbn [app to_brace].
  rewrite bool_decide_false by set_solver. by rewrite IH by set_solver.
Qed.

Lemma getShellName_brace l rest :
  l <> [] -> "}"%char ∉ l -> getShellName ("{"%char :: l ++ "}"%char :: rest) = (l, List.length l + 2)%nat.
Proof.
  intros Hne Hl. unfold getShellName. rewrite bool_decide_true by done. rewrite to_brace_app by done.
  destruct l as [|c1 [|c2 l]]; [done| |]; cbn [app].
  - rewrite bool_decide_true by done. by destruct (is_special c1).
  - rewrite (bool_decide_false (c2 = "}"%char)) by set_solver. by rewrite andb_false_r.
Qed.

Lemma expand_skip m n l rest : List.length l = n -> expand_from m n (l ++ rest) = expand_from m 0 rest.
Proof. revert n. induction l as [|c l IH]; intros n <-; [done|]. cbn [app List.length expand_from]. by apply IH. Qed.

Lemma expand_var m name rest :
  name <> "" -> "}"%char ∉ bytes name ->
  expand_from m 0 (bytes ("${" +:+ name +:+ "}") ++ rest) = bytes (m name) ++ expand_from m 0 rest.
Proof.
  intros Hne Hb. rewrite !bytes_app, <-!app_assoc. cbn [bytes list_ascii_of_string app expand_from].
  rewrite bool_decide_true by done. rewrite bool_decide_false by done. cbn [andb negb].
  change (bytes "}" ++ rest) with ("}"%char :: rest).
  assert (bytes name <> []) as Hne' by (intros E; by destruct name).
  rewrite getShellName_brace by done. destruct (bytes name) as [|c l] eqn:El; [done|]. rewrite <-El.
  unfold bytes at 1. rewrite string_of_list_ascii_of_string. f_equal.
  rewrite <-(expand_skip m (List.length (bytes name) + 2) ("{"%char :: bytes name ++ ["}"%char]) rest)
    by (rewrite El; cbn; rewrite length_app; cbn; lia).
  cbn [app]. by rewrite <-app_assoc, El.
Qed.

(** [Load] expands exactly the variables in braces: a variable that is set
    becomes its value, which is not expanded again, one that is not set stays
    as it is written, and the text between them is untouched. *)
Theorem expand_env_pieces env ps :
  Forall piece_wf ps -> expand_env env (join piece_text ps) = join (piece_value env) ps.
Proof.
  intros Hps. unfold expand_env, Expand.
  enough (expand_from (lookup_or_keep env) 0 (bytes (join piece_text ps)) = bytes (join (piece_value env) ps)) as ->
    by (unfold bytes; by rewrite string_of_list_ascii_of_string).
  induction Hps as [|[s|name] ps Hp _ IH]; [done| |]; cbn [join foldr piece_text piece_value];
    fold (join piece_text ps); fold (join (piece_value env) ps); rewrite bytes_app.
  - rewrite expand_lit by exact Hp. by rewrite IH, bytes_app.
  - destruct Hp. by rewrite expand_var, IH, bytes_app.
Qed.

(** ** Watching *)

(** The file watcher hands over only configurations that [Load] accepts, and
    only for a file newer than any it has looked at before. *)
Theorem Watch_loads {W : Type} `{!ConfigFile W} path (start : W) ticks c :
  c ∈ Watch path start ticks ->
  runnable c /\ exists before w w' after t, ticks = before ++ (w, w') :: after /\ Load w' path = Ok c /\
    ModTime w path = Some t /\ default zero_time (ModTime start path) < t /\
    Forall (fun x => forall t', ModTime x.1 path = Some t' -> t' < t) before.
Proof.
  unfold Watch. generalize (default zero_time (ModTime start path)). intros last.
  revert last. induction ticks as [|[w w'] ticks IH]; intros last Hc; [by apply elem_of_nil in Hc|].
  cbn [watch_ticks] in Hc. unfold watch_tick in Hc.
  assert (forall last', last <= last' -> (forall t', ModTime w path = Some t' -> t' <= last') ->
    c ∈ watch_ticks path last' ticks -> runnable c /\ exists before w1 w1' after t, (w, w') :: ticks = before ++ (w1, w1') :: after /\
    Load w1' path = Ok c /\ ModTime w1 path = Some t /\ last < t /\
    Forall (fun x => forall t', ModTime x.1 path = Some t' -> t' < t) before) as Hlater.
  { intros last' Hle Hnew Hin. destruct (IH last' Hin) as (Hr & before & w1 & w1' & after & t & -> & Hl & Hm & Ht & Hb).
    split; [exact Hr|]. exists ((w, w') :: before), w1, w1', after, t. split_and!; try done; [lia|].
    apply list.Forall_cons. split; [|exact Hb]. intros t' Ht'. specialize (Hnew _ Ht'). lia. }
  destruct (ModTime w path) as [t|] eqn:Em; [|by apply (Hlater last)].
  destruct (last <? t) eqn:Et; cbn [negb] in Hc; [|apply (Hlater last); [lia|intros t' [= <-]; lia|exact Hc]].
  destruct (Load w' path) as [newCfg|] eqn:El; [|apply (Hlater t); [lia|intros t' [= <-]; lia|exact Hc]].
  apply elem_of_cons in Hc as [->|Hc]; [|apply (Hlater t); [lia|intros t' [= <-]; lia|exact Hc]].
  split; [by eapply Load_spec|]. exists [], w, w', ticks, t. split_and!; try done. lia.
Qed.
