(* ===== verification/Admin.v ===== *)
(** * Admin API: [internal/admin/server.go]

    The handlers behind [:8081] as functions on the server and the world
    [onApply] acts on; the payload of a patch, its application to a
    configuration, and the redacted view of one.  JSON decoding of the
    payload is a parameter. *)

From Stdlib Require Import Ascii String.
From S2P Require Import Prelude GoFloat GoStrings GoTime Auth Config.
Open Scope string_scope.
Open Scope list_scope.
Open Scope Z_scope.

(** ** Patches *)
Record RateLimitPatch := mkRateLimitPatch {
  rp_RequestsPerMinute : option Z;
  rp_Burst : option Z;
  rp_RedisURL : option string;
}.
Record CachePatch := mkCachePatch {
  cp_TTL : option string;
  cp_MaxSize : option Z;
  cp_SemanticEnabled : option bool;
  cp_SemanticThreshold : option float64;
  cp_SemanticEmbeddingModel : option string;
  cp_SemanticTopK : option Z;
  cp_SemanticMaxEntries : option Z;
}.
Record HealthPatch := mkHealthPatch {
  hp_ReadinessCacheTTL : option string;
  hp_CheckTimeout : option string;
  hp_ProviderTimeout : option string;
  hp_SkipExpensiveChecks : option bool;
}.
Record RetryPatch := mkRetryPatch {
  tp_MaxAttempts : option Z;
  tp_BaseDelay : option string;
  tp_MaxDelay : option string;
}.
Record CircuitPatch := mkCircuitPatch { bp_FailureThreshold : option Z; bp_OpenTimeout : option string }.
Record HedgePatch := mkHedgePatch { gp_Enabled : option bool; gp_Delay : option string }.
Record ResiliencePatch := mkResiliencePatch {
  sp_Retry : option RetryPatch;
  sp_Circuit : option CircuitPatch;
  sp_Hedge : option HedgePatch;
}.
Record LoggingPatch := mkLoggingPatch { lp_Level : option string; lp_Format : option string }.

(** [pa_Weighted] is [routing.weighted], [None] if either is absent. *)
Record AdminPatch := mkAdminPatch {
  pa_RateLimit : option RateLimitPatch;
  pa_Cache : option CachePatch;
  pa_Health : option HealthPatch;
  pa_Resilience : option ResiliencePatch;
  pa_Weighted : option (gmap string (list WeightedEntry));
  pa_Logging : option LoggingPatch;
}.

(** A field given replaces the old value; a duration given must parse. *)
Definition set_field {A} (new : option A) (old : A) : A := default old new.
Definition set_duration (format : string) (new : option string) (old : Z) : result Z errorf :=
  match new with
  | None => Ok old
  | Some text => match ParseDuration text with
                 | Some d => Ok d
                 | None => Err (Errorf format [quoted text])
                 end
  end.
(** A section given is patched, one left out stays. *)
Definition patch_section {A P} (f : A -> P -> result A errorf) (x : A) (p : option P) : result A errorf :=
  match p with Some p => f x p | None => Ok x end.

Definition patch_rate_limit (r : RateLimitConfig) (p : RateLimitPatch) : result RateLimitConfig errorf :=
  Ok (mkRateLimitConfig (rl_Enabled r) (set_field (rp_RequestsPerMinute p) (rl_RequestsPerMinute r))
    (set_field (rp_Burst p) (rl_Burst r)) (set_field (rp_RedisURL p) (rl_RedisURL r)) (rl_TokenAware r)
    (rl_Overrides r) (rl_Budget r)).

Definition patch_cache (c : CacheConfig) (p : CachePatch) : result CacheConfig errorf :=
  let? ttl := set_duration "cache.ttl invalid duration %q" (cp_TTL p) (ca_TTL c) in
  Ok (mkCacheConfig (ca_Enabled c) ttl (set_field (cp_MaxSize p) (ca_MaxSize c))
    (set_field (cp_SemanticEnabled p) (ca_SemanticEnabled c))
    (set_field (cp_SemanticThreshold p) (ca_SemanticThreshold c))
    (set_field (cp_SemanticEmbeddingModel p) (ca_SemanticEmbeddingModel c))
    (set_field (cp_SemanticTopK p) (ca_SemanticTopK c))
    (set_field (cp_SemanticMaxEntries p) (ca_SemanticMaxEntries c))).

Definition patch_retry (r : RetryConfig) (p : RetryPatch) : result RetryConfig errorf :=
  let? base := set_duration "retry.base_delay invalid %q" (tp_BaseDelay p) (rc_BaseDelay r) in
  let? max := set_duration "retry.max_delay invalid %q" (tp_MaxDelay p) (rc_MaxDelay r) in
  Ok (mkRetryCfg (set_field (tp_MaxAttempts p) (rc_MaxAttempts r)) base max).
Definition patch_circuit (c : CircuitConfig) (p : CircuitPatch) : result CircuitConfig errorf :=
  let? open := set_duration "circuit.open_timeout invalid %q" (bp_OpenTimeout p) (cc_OpenTimeout c) in
  Ok (mkCircuitCfg (set_field (bp_FailureThreshold p) (cc_FailureThreshold c)) open).
Definition patch_hedge (h : HedgeConfig) (p : HedgePatch) : result HedgeConfig errorf :=
  let? delay := set_duration "hedge.delay invalid %q" (gp_Delay p) (hc_Delay h) in
  Ok (mkHedgeCfg (set_field (gp_Enabled p) (hc_Enabled h)) delay).

Definition patch_resilience (r : ResilienceConfig) (p : ResiliencePatch) : result ResilienceConfig errorf :=
  let? retry := patch_section patch_retry (rs_Retry r) (sp_Retry p) in
  let? circuit := patch_section patch_circuit (rs_Circuit r) (sp_Circuit p) in
  let? hedge := patch_section patch_hedge (rs_Hedge r) (sp_Hedge p) in
  Ok (mkResilienceConfig retry circuit hedge).

Definition patch_health (h : HealthConfig) (p : HealthPatch) : result HealthConfig errorf :=
  let? ttl := set_duration "health.readiness_cache_ttl invalid %q" (hp_ReadinessCacheTTL p)
                (hl_ReadinessCacheTTL h) in
  let? check := set_duration "health.check_timeout invalid %q" (hp_CheckTimeout p) (hl_CheckTimeout h) in
  let? provider := set_duration "health.provider_timeout invalid %q" (hp_ProviderTimeout p)
                     (hl_ProviderTimeout h) in
  Ok (mkHealthConfig ttl check provider (set_field (hp_SkipExpensiveChecks p) (hl_SkipExpensiveChecks h))).

Definition patch_logging (l : LoggingConfig) (p : LoggingPatch) : result LoggingConfig errorf :=
  Ok (mkLoggingConfig (set_field (lp_Level p) (lg_Level l)) (set_field (lp_Format p) (lg_Format l))).

(** [applyPatch] on the configuration it is given; after an error what it has
    changed so far is thrown away with it. *)
Definition applyPatch (c : Config) (p : AdminPatch) : result Config errorf :=
  let? rate := patch_section patch_rate_limit (cf_RateLimit c) (pa_RateLimit p) in
  let? cache := patch_section patch_cache (cf_Cache c) (pa_Cache p) in
  let? resilience := patch_section patch_resilience (cf_Resilience c) (pa_Resilience p) in
  let? health := patch_section patch_health (cf_Health c) (pa_Health p) in
  let? logging := patch_section patch_logging (cf_Logging c) (pa_Logging p) in
  Ok (mkConfig (cf_Server c) (cf_Providers c) (cf_FallbackChain c) rate logging (cf_CORS c) (cf_Auth c)
        resilience (cf_ModelAliases c) cache health
        (mkRoutingConfig (set_field (pa_Weighted p) (ro_Weighted (cf_Routing c)))) (cf_Admin c)).

(** ** Redaction *)
Definition redact (s : string) : string := if negb (str_eqb s "") then "***" else s.

Definition redact_provider (p : ProviderConfig) : ProviderConfig :=
  mkProviderConfig (redact (pc_APIKey p)) (pc_BaseURL p) (pc_Timeout p) (pc_Models p).
Definition redact_key (k : APIKeyConfig) : APIKeyConfig :=
  mkAPIKeyConfig (redact (ak_Key k)) (ak_Tenant k) (ak_Scopes k) (ak_ExpiresAt k).

Section admin.
Context {W P : Type} `{!ConfigFile W}.
Context (Name : P -> string) (Models : P -> list string).

Definition redactConfig (cfg : Config) : Config :=
  let c := Clone (W := W) cfg in
  let r := cf_RateLimit c in
  mkConfig (cf_Server c)
    (redact_provider <$> cf_Providers c) (cf_FallbackChain c)
    (mkRateLimitConfig (rl_Enabled r) (rl_RequestsPerMinute r) (rl_Burst r) (redact (rl_RedisURL r))
       (rl_TokenAware r) (rl_Overrides r) (rl_Budget r))
    (cf_Logging c) (cf_CORS c)
    (mkAuthConfig (ac_Enabled (cf_Auth c)) (redact_key <$> ac_Keys (cf_Auth c)))
    (cf_Resilience c) (cf_ModelAliases c) (cf_Cache c) (cf_Health c) (cf_Routing c)
    (mkAdminConfig (ad_Port (cf_Admin c)) (redact (ad_APIKey (cf_Admin c)))).

(** ** The server *)
Record Server := mkServer {
  sr_configPath : string;
  sr_apiKey : string;
  sr_cfg : Config;
  sr_registry : option (list P);             (** what [registry.All] returns *)
  sr_getProviders : option (list (string * list string));
}.

Definition SetConfig (s : Server) (c : Config) : Server :=
  mkServer (sr_configPath s) (sr_apiKey s) c (sr_registry s) (sr_getProviders s).
Definition GetConfig (s : Server) : Config := Clone (W := W) (sr_cfg s).

(** [Config{}] *)
Definition zero_config : Config :=
  mkConfig (mkServerConfig 0 0 0) ∅ [] (mkRateLimitConfig false 0 0 "" false [] None) (mkLoggingConfig "" "")
    (mkCORSConfig []) (mkAuthConfig false [])
    (mkResilienceConfig (mkRetryCfg 0 0 0) (mkCircuitCfg 0 0) (mkHedgeCfg false 0)) ∅
    (mkCacheConfig false 0 0 false 0 "" 0 0) (mkHealthConfig 0 0 0 false) (mkRoutingConfig ∅) (mkAdminConfig 0 "").

Definition New (apiKey configPath : string) (cfg : option Config) (registry : option (list P))
    (getProviders : option (list (string * list string))) : Server :=
  mkServer configPath apiKey (default zero_config cfg) registry getProviders.

Record admin_request := mkAdminRequest {
  aq_Method : string;
  aq_Path : string;
  aq_Authorization : string;
  aq_AdminKey : string;                      (** [X-Admin-API-Key] *)
  aq_Body : option string;                   (** [None]: too large, or reading failed *)
}.

Inductive admin_body :=
| AdminError (e : errorf)
| AdminStatus (status : string)
| AdminConfig_ (c : Config)
| AdminProviders (ps : list (string * list string))
| AdminPprof.
Definition answer : Type := Z * admin_body.

(** The apply callback: it may change the world and the server, whose
    configuration the gateway's [applyConfig] sets. *)
Definition apply_fn : Type := Config -> Server * W -> (Server * W) * option errorf.

(** The JSON decoder on the payload: the patch, and what a second value
    gives, [None] for [io.EOF]. *)
Context (decode_patch : string -> result AdminPatch string) (decode_rest : string -> option (result unit string)).
Context (onApply : option apply_fn).

Definition bad_request (e : errorf) : answer := (400, AdminError e).

Definition handleGetConfig (s : Server) : answer :=
  let cfgCopy := Clone (W := W) (sr_cfg s) in
  (200, AdminConfig_ (redactConfig cfgCopy)).

(** What both handlers do with a new configuration, checked or not. *)
Definition commit (newCfg : Config) (status : string) (st : Server * W) : (Server * W) * answer :=
  match onApply with
  | Some apply =>
      match apply newCfg st with
      | (st, Some e) => (st, bad_request e)
      | ((s, w), None) => ((SetConfig s newCfg, w), (200, AdminStatus status))
      end
  | None => let '(s, w) := st in ((SetConfig s newCfg, w), (200, AdminStatus status))
  end.

Definition handlePostReload (st : Server * W) : (Server * W) * answer :=
  let '(s, w) := st in
  if str_eqb (sr_configPath s) "" then (st, bad_request (Errorf "config path not set" []))
  else match Load w (sr_configPath s) with
       | Err e => (st, bad_request e)
       | Ok newCfg => commit newCfg "reloaded" st
       end.

Definition handleGetProviders (s : Server) : answer :=
  match sr_registry s with
  | Some all => (200, AdminProviders ((fun p => (Name p, Models p)) <$> all))
  | None => match sr_getProviders s with
            | Some out => (200, AdminProviders out)
            | None => (200, AdminProviders [])
            end
  end.

(** The payload of a request. *)
Definition read_patch (body : option string) : result AdminPatch errorf :=
  match body with
  | None => Err (Errorf "cannot read body" [])
  | Some text =>
      match decode_patch text with
      | Err e => Err (Errorf "invalid JSON: " [e])
      | Ok patch =>
          match decode_rest text with
          | None => Ok patch
          | Some (Ok _) => Err (Errorf "multiple JSON values are not allowed" [])
          | Some (Err e) => Err (Errorf "invalid JSON: " [e])
          end
      end
  end.

(** The part of [handlePatchConfig] before the configuration is taken over:
    it reads the current one. *)
Definition patched (body : option string) (s : Server) : result Config errorf :=
  let? patch := read_patch body in
  let? base := applyPatch (Clone (W := W) (sr_cfg s)) patch in
  match Validate base with
  | Some e => Err e
  | None => Ok base
  end.

Definition handlePatchConfig (body : option string) (st : Server * W) : (Server * W) * answer :=
  match patched body st.1 with
  | Err e => (st, bad_request e)
  | Ok base => commit base "patched" st
  end.

(** The routes of the mux.  A pattern for GET also serves HEAD. *)
Definition is_get (method : string) : bool := str_eqb method "GET" || str_eqb method "HEAD".
Definition admin_mux (r : admin_request) (st : Server * W) : (Server * W) * answer :=
  let not_allowed := (st, (405, AdminError (Errorf "Method Not Allowed" []))) in
  if str_eqb (aq_Path r) "/admin/config" then
    if is_get (aq_Method r) then (st, handleGetConfig st.1)
    else if str_eqb (aq_Method r) "PATCH" then handlePatchConfig (aq_Body r) st
    else not_allowed
  else if str_eqb (aq_Path r) "/admin/reload" then
    if str_eqb (aq_Method r) "POST" then handlePostReload st else not_allowed
  else if str_eqb (aq_Path r) "/admin/providers" then
    if is_get (aq_Method r) then (st, handleGetProviders st.1) else not_allowed
  else if str_eqb (aq_Path r) "/health" then
    if is_get (aq_Method r) then (st, (200, AdminStatus "ok")) else not_allowed
  else if HasPrefix (aq_Path r) "/debug/pprof/" then
    if is_get (aq_Method r) then (st, (200, AdminPprof)) else not_allowed
  else (st, (404, AdminError (Errorf "404 page not found" []))).

(** The token a request presents. *)
Definition presented (r : admin_request) : string :=
  let token := TrimSpace (TrimPrefix (aq_Authorization r) "Bearer ") in
  if str_eqb token "" then aq_AdminKey r else token.

Definition authMiddleware (next : admin_request -> Server * W -> (Server * W) * answer) (r : admin_request)
    (st : Server * W) : (Server * W) * answer :=
  if negb (str_eqb (presented r) (sr_apiKey st.1))
  then (st, (401, AdminError (Errorf "invalid admin api key" [])))
  else next r st.

(** [Handler] looks at the key once, when it builds the chain. *)
Definition protected_ (s : Server) : bool :=
  negb (str_eqb (sr_apiKey s) "") && negb (str_eqb (sr_apiKey s) "${ADMIN_API_KEY}").
Definition Handler (protect : bool) : admin_request -> Server * W -> (Server * W) * answer :=
  if protect then authMiddleware admin_mux else admin_mux.

End admin.

(** ** What the redacted view shows *)
Section redaction.
Context {W : Type} `{!ConfigFile W}.

(** [Clone] is a copy: YAML gives back the tree it was given. *)
Definition clone_copies : Prop := forall c, yaml_roundtrip (W := W) c = c.

Definition is_set (s : string) : bool := negb (str_eqb s "").

(** What a configuration is without its secrets: of each, if it is set. *)
Definition public_provider (p : ProviderConfig) := (is_set (pc_APIKey p), pc_BaseURL p, pc_Timeout p, pc_Models p).
Definition public_key (k : APIKeyConfig) := (is_set (ak_Key k), ak_Tenant k, ak_Scopes k, ak_ExpiresAt k).
Definition public (c : Config) :=
  (cf_Server c, public_provider <$> cf_Providers c, cf_FallbackChain c,
   (let r := cf_RateLimit c in (rl_Enabled r, rl_RequestsPerMinute r, rl_Burst r, is_set (rl_RedisURL r),
      rl_TokenAware r, rl_Overrides r, rl_Budget r)),
   cf_Logging c, cf_CORS c, (ac_Enabled (cf_Auth c), public_key <$> ac_Keys (cf_Auth c)),
   cf_Resilience c, cf_ModelAliases c, cf_Cache c, cf_Health c, cf_Routing c,
   (ad_Port (cf_Admin c), is_set (ad_APIKey (cf_Admin c)))).

(** The secrets of a configuration. *)
Definition secrets (c : Config) : list string :=
  ((fun kv => pc_APIKey kv.2) <$> map_to_list (cf_Providers c)) ++
  [ad_APIKey (cf_Admin c); rl_RedisURL (cf_RateLimit c)] ++ (ak_Key <$> ac_Keys (cf_Auth c)).

Lemma is_set_redact s : is_set (redact s) = is_set s.
Proof. unfold redact, is_set. by destruct (str_eqb s "") eqn:E; simpl; rewrite ?E. Qed.

Lemma redact_is_set s t : is_set s = is_set t -> redact s = redact t.
Proof.
  unfold is_set, redact. destruct (str_eqb s "") eqn:E1, (str_eqb t "") eqn:E2; try done.
  apply str_eqb_true in E1 as ->. by apply str_eqb_true in E2 as ->.
Qed.

Lemma redact_masks s : redact s = "" \/ redact s = "***".
Proof. unfold redact. destruct (str_eqb s "") eqn:E; simpl; [|by right]. apply str_eqb_true in E. by left. Qed.

Lemma redact_provider_public p q : public_provider p = public_provider q -> redact_provider p = redact_provider q.
Proof. destruct p, q. unfold redact_provider. intros [= ?%redact_is_set -> -> ->]. by simpl; f_equal. Qed.
Lemma redact_key_public k l : public_key k = public_key l -> redact_key k = redact_key l.
Proof. destruct k, l. unfold redact_key. intros [= ?%redact_is_set -> -> ->]. by simpl; f_equal. Qed.

(** Equal views of the elements of two containers. *)
Lemma map_view {A B C} (f : A -> B) (g : A -> C) (m m' : gmap string A) :
  (forall x y, g x = g y -> f x = f y) -> g <$> m = g <$> m' -> f <$> m = f <$> m'.
Proof.
  intros Hfg Hm. apply map_eq. intros k. rewrite !lookup_fmap.
  assert (g <$> m !! k = g <$> m' !! k) as Hk by (rewrite <-!lookup_fmap; by rewrite Hm).
  destruct (m !! k), (m' !! k); simplify_eq/=; try done. f_equal. auto.
Qed.
Lemma list_view {A B C} (f : A -> B) (g : A -> C) (l l' : list A) :
  (forall x y, g x = g y -> f x = f y) -> g <$> l = g <$> l' -> f <$> l = f <$> l'.
Proof.
  intros Hfg. revert l'. induction l as [|x l IH]; intros [|y l'] [=]; csimpl; f_equal; auto.
Qed.

Lemma public_redact c : clone_copies -> public (redactConfig (W := W) c) = public c.
Proof.
  intros Hc. unfold redactConfig, Clone. rewrite Hc. unfold public; cbn.
  rewrite !is_set_redact, <-map_fmap_compose, <-list_fmap_compose. do 2 f_equal.
  repeat match goal with |- (_, _) = (_, _) => f_equal end.
  - apply map_fmap_ext. intros k p _. unfold compose, public_provider. simpl. by rewrite is_set_redact.
  - apply list_fmap_ext. intros i k _. unfold compose, public_key. simpl. by rewrite is_set_redact.
Qed.

Lemma redact_public c c' : clone_copies -> public c = public c' -> redactConfig (W := W) c = redactConfig (W := W) c'.
Proof.
  intros Hc. unfold redactConfig, Clone. rewrite !Hc. unfold public. intros E.
  injection E as E1 E2 E3 E4 E5 E6 E7 E8 E9 E10 E11 E12 E13 E14 E15 E16 E17 E18 E19 E20 E21.
  apply (map_view redact_provider _ _ _ redact_provider_public) in E2.
  apply (list_view redact_key _ _ _ redact_key_public) in E14. apply redact_is_set in E7, E21.
  by rewrite E1, E2, E3, E4, E5, E6, E7, E8, E9, E10, E11, E12, E13, E14, E15, E16, E17, E18, E19, E20, E21.
Qed.

End redaction.

(** C40. The view [GET /admin/config] answers with holds no secret, only the mark
    of those that are set, and tells two configurations apart exactly if they
    differ in something that is not a secret. *)
Theorem redactConfig_hides_secrets {W : Type} `{!ConfigFile W} :
  clone_copies (W := W) ->
  (forall c s, s ∈ secrets (redactConfig (W := W) c) -> s = "" \/ s = "***") /\
  (forall c c', redactConfig (W := W) c = redactConfig (W := W) c' <-> public c = public c').
Proof.
  intros Hc. split.
  - intros c s. unfold redactConfig, Clone. rewrite Hc. unfold secrets; cbn. rewrite elem_of_app.
    intros [([k p] & -> & Hp)%list_elem_of_fmap|[->|[->|([] & -> & (k & -> & _)%list_elem_of_fmap)%list_elem_of_fmap]%elem_of_cons]%elem_of_cons];
      try apply redact_masks.
    apply elem_of_map_to_list, lookup_fmap_Some in Hp as (q & <- & _). apply redact_masks.
  - intros c c'. split; [|by apply redact_public]. intros E.
    by rewrite <-(public_redact c), <-(public_redact c'), E.
Qed.

(** ** Patching *)

Lemma set_field_idem {A} (new : option A) old : set_field new (set_field new old) = set_field new old.
Proof. by destruct new. Qed.
Lemma set_duration_idem fmt new old d : set_duration fmt new old = Ok d -> set_duration fmt new d = Ok d.
Proof. unfold set_duration. by repeat case_match. Qed.
Lemma patch_section_idem {A P} (f : A -> P -> result A errorf) x p y :
  (forall p x y, f x p = Ok y -> f y p = Ok y) -> patch_section f x p = Ok y -> patch_section f y p = Ok y.
Proof. destruct p; simpl; eauto. Qed.

(** Run through a sequence of fallible steps. *)
Ltac steps := repeat match goal with
  | |- context [match ?x with Ok _ => _ | Err _ => _ end] => destruct x eqn:?; [|done]
  end.
Ltac replay := repeat match goal with
  | H : set_duration _ _ _ = Ok _ |- _ => apply set_duration_idem in H; rewrite H; clear H
  end; rewrite ?set_field_idem.

Lemma patch_rate_limit_idem p x y : patch_rate_limit x p = Ok y -> patch_rate_limit y p = Ok y.
Proof. unfold patch_rate_limit. intros [= <-]. cbn. by rewrite !set_field_idem. Qed.
Lemma patch_cache_idem p x y : patch_cache x p = Ok y -> patch_cache y p = Ok y.
Proof. unfold patch_cache. steps. intros [= <-]. cbn. by replay. Qed.
Lemma patch_retry_idem p x y : patch_retry x p = Ok y -> patch_retry y p = Ok y.
Proof. unfold patch_retry. steps. intros [= <-]. cbn. by replay. Qed.
Lemma patch_circuit_idem p x y : patch_circuit x p = Ok y -> patch_circuit y p = Ok y.
Proof. unfold patch_circuit. steps. intros [= <-]. cbn. by replay. Qed.
Lemma patch_hedge_idem p x y : patch_hedge x p = Ok y -> patch_hedge y p = Ok y.
Proof. unfold patch_hedge. steps. intros [= <-]. cbn. by replay. Qed.
Lemma patch_health_idem p x y : patch_health x p = Ok y -> patch_health y p = Ok y.
Proof. unfold patch_health. steps. intros [= <-]. cbn. by replay. Qed.
Lemma patch_logging_idem p x y : patch_logging x p = Ok y -> patch_logging y p = Ok y.
Proof. unfold patch_logging. intros [= <-]. cbn. by rewrite !set_field_idem. Qed.
#[local] Hint Resolve patch_rate_limit_idem patch_cache_idem patch_retry_idem patch_circuit_idem patch_hedge_idem
  patch_health_idem patch_logging_idem : go.

Ltac replay_sections := repeat match goal with
  | H : patch_section _ _ _ = Ok _ |- _ => apply patch_section_idem in H; [rewrite H; clear H|eauto with go]
  end.

Lemma patch_resilience_idem p x y : patch_resilience x p = Ok y -> patch_resilience y p = Ok y.
Proof. unfold patch_resilience. steps. intros [= <-]. cbn. by replay_sections. Qed.
#[local] Hint Resolve patch_resilience_idem : go.

(** What of a configuration no patch reaches. *)
Definition unpatched (c : Config) :=
  (cf_Server c, cf_Providers c, cf_FallbackChain c, cf_CORS c, cf_Auth c, cf_ModelAliases c, cf_Admin c,
   (rl_Enabled (cf_RateLimit c), rl_TokenAware (cf_RateLimit c), rl_Overrides (cf_RateLimit c),
    rl_Budget (cf_RateLimit c)), ca_Enabled (cf_Cache c)).

(** A patch overwrites: applying it again changes nothing more, an empty one
    changes nothing, and no patch reaches the keys, the providers, the
    fallback chain, the budget or the switches of the cache and of the rate
    limit. *)
Theorem applyPatch_overwrites c p c' :
  applyPatch c p = Ok c' ->
  applyPatch c' p = Ok c' /\ unpatched c' = unpatched c /\
  (p = mkAdminPatch None None None None None None -> c' = c).
Proof.
  intros Hp. split_and!; revert Hp; unfold applyPatch.
  - steps. intros [= <-]. cbn. replay_sections. by rewrite set_field_idem.
  - steps. intros [= <-]. unfold unpatched; cbn.
    repeat match goal with H : patch_section _ _ ?p = Ok _ |- _ => revert H; destruct p; cbn end;
      unfold patch_rate_limit, patch_cache; intros; simplify_eq/=; try done;
      repeat match goal with H : context [match ?x with Ok _ => _ | Err _ => _ end] |- _ => destruct x; simplify_eq/= end;
      done.
  - intros Hp ->. cbn in Hp. injection Hp as <-. destruct c as [? ? ? ? ? ? ? ? ? ? ? [] ?]. done.
Qed.

(** ** Changing the configuration *)
Section transactions.
Context {W P : Type} `{!ConfigFile W}.
Context (Name : P -> string) (Models : P -> list string).
Context (decode_patch : string -> result AdminPatch string) (decode_rest : string -> option (result unit string)).
Context (onApply : option (apply_fn (W := W) (P := P))).
(** The part of the world that a configuration is in force in. *)
Context {G : Type} (live : W -> G).

(** The callback takes a configuration over whole or not at all. *)
Definition all_or_nothing : Prop :=
  forall apply c st, onApply = Some apply ->
  match apply c st with
  | (st', Some _) => st'.1 = st.1 /\ live st'.2 = live st.2
  | ((s', _), None) => sr_configPath s' = sr_configPath st.1 /\ sr_apiKey s' = sr_apiKey st.1
  end.

Lemma commit_outcome c status st st' code body :
  all_or_nothing -> commit onApply c status st = (st', (code, body)) ->
  (st'.1 = st.1 /\ live st'.2 = live st.2 /\ code = 400) \/
  (code = 200 /\ sr_cfg st'.1 = c /\ sr_apiKey st'.1 = sr_apiKey st.1 /\
   st'.2 = match onApply with Some apply => (apply c st).1.2 | None => st.2 end /\
   forall apply, onApply = Some apply -> (apply c st).2 = None).
Proof.
  intros Ha. unfold commit. destruct onApply as [apply|] eqn:Eo.
  - specialize (Ha apply c st Eo). destruct (apply c st) as [[s1 w1] [e|]] eqn:E.
    + intros [= <- <- <-]. left. by destruct Ha.
    + intros [= <- <- <-]. right. cbn. split_and!; try done; [by destruct Ha|]. intros ? [= <-]. by rewrite E.
  - destruct st as [s w]. intros [= <- <- <-]. right. by split_and!.
Qed.

Lemma patched_wf body (s : Server (P := P)) c :
  patched (W := W) decode_patch decode_rest body s = Ok c -> config_wf c.
Proof.
  unfold patched. destruct (read_patch _ _ _) as [patch|]; [|done]. destruct (applyPatch _ _) as [base|]; [|done].
  destruct (Validate base) eqn:Ev; [done|]. intros [= <-]. by apply Validate_accepts.
Qed.

End transactions.

Lemma admin_outcome {W P : Type} `{!ConfigFile W} (Name : P -> string) (Models : P -> list string)
    decode_patch decode_rest (onApply : option (apply_fn (W := W) (P := P))) {G : Type} (live : W -> G) protect r (st st' : Server * W) code body :
  all_or_nothing onApply live ->
  Handler Name Models decode_patch decode_rest onApply protect r st = (st', (code, body)) ->
  (st'.1 = st.1 /\ live st'.2 = live st.2) \/
  (code = 200 /\ config_wf (sr_cfg st'.1) /\ (protect = true -> presented r = sr_apiKey st.1) /\
   (patched (W := W) decode_patch decode_rest (aq_Body r) st.1 = Ok (sr_cfg st'.1) \/
    Load st.2 (sr_configPath st.1) = Ok (sr_cfg st'.1)) /\
   st'.2 = match onApply with Some apply => (apply (sr_cfg st'.1) st).1.2 | None => st.2 end /\
   forall apply, onApply = Some apply -> (apply (sr_cfg st'.1) st).2 = None).
Proof.
  intros Ha Hh.
  assert (admin_mux Name Models decode_patch decode_rest onApply r st = (st', (code, body)) /\
          (protect = true -> presented r = sr_apiKey st.1) \/ st' = st) as [[Hm Hk]| ->]; [|clear Hh|by left].
  { unfold Handler, authMiddleware in Hh. destruct protect; [|left; by split].
    destruct (str_eqb _ _) eqn:E; cbn [negb] in Hh; [|injection Hh as <- <- <-; by right].
    left. split; [done|]. intros _. by apply str_eqb_true. }
  assert (st' = st \/ (exists c status, commit onApply c status st = (st', (code, body)) /\
    config_wf c /\ (patched (W := W) decode_patch decode_rest (aq_Body r) st.1 = Ok c \/
                    Load st.2 (sr_configPath st.1) = Ok c))) as [->|(c & status & Hc & Hwf & Hsrc)]; [|by left|].
  { revert Hm. unfold admin_mux, handlePatchConfig, handlePostReload. destruct st as [s w]. cbn [fst snd].
    destruct (patched _ _ _ s) as [base|] eqn:Ep, (Load w _) as [loaded|] eqn:El; repeat case_match;
      try (intros Hm; left; exact (eq_sym (f_equal fst Hm)));
      intros Hm; right; eexists _, _; (split; [exact Hm|]).
    all: first [split; [by eapply patched_wf|by left] | split; [apply (Load_spec w _ _ El)|by right]]. }
  destruct (commit_outcome onApply live c status st st' code body Ha Hc) as [(? & ? & _)|(-> & Hcfg & _ & Hw & Hok)]; [by left|].
  right. subst c. by split_and!.
Qed.

(** A request to the admin API that is not answered with 200 leaves the
    server and the gateway as they were; one that changes them installs a
    configuration that [Validate] accepts, the loaded or the patched one, and
    only if the gateway took it over without an error.  On a protected server
    only a request that presents the key gets that far. *)
Theorem admin_transactional {W P : Type} `{!ConfigFile W} (Name : P -> string) (Models : P -> list string)
    decode_patch decode_rest (onApply : option (apply_fn (W := W) (P := P))) {G : Type} (live : W -> G) protect r (st st' : Server * W) code body :
  all_or_nothing onApply live ->
  Handler Name Models decode_patch decode_rest onApply protect r st = (st', (code, body)) ->
  (st'.1 = st.1 /\ live st'.2 = live st.2) \/
  (code = 200 /\ config_wf (sr_cfg st'.1) /\ (protect = true -> presented r = sr_apiKey st.1) /\
   (patched (W := W) decode_patch decode_rest (aq_Body r) st.1 = Ok (sr_cfg st'.1) \/
    Load st.2 (sr_configPath st.1) = Ok (sr_cfg st'.1)) /\
   st'.2 = match onApply with Some apply => (apply (sr_cfg st'.1) st).1.2 | None => st.2 end /\
   forall apply, onApply = Some apply -> (apply (sr_cfg st'.1) st).2 = None).
Proof. exact (admin_outcome Name Models decode_patch decode_rest onApply live protect r st st' code body). Qed.

(** ** Examples *)

(** A file that holds [ex_raw]; the world is the configuration in force. *)
Definition ex_raw (key : string) : Config :=
  mkConfig (mkServerConfig 0 0 0) {["openai" := mkProviderConfig "sk" "https://o" 0 ["gpt-4o"]]} ["openai"]
    (mkRateLimitConfig true 0 0 "" false [] None) (mkLoggingConfig "" "") (mkCORSConfig []) (mkAuthConfig false [])
    (mkResilienceConfig (mkRetryCfg 0 0 0) (mkCircuitCfg 0 0) (mkHedgeCfg false 0)) ∅
    (mkCacheConfig false 0 0 false 0 "" 0 0) (mkHealthConfig 0 0 0 false) (mkRoutingConfig ∅) (mkAdminConfig 0 key).

#[local] Instance ex_file : ConfigFile (option Config) := {|
  LookupEnv _ _ := None;
  ReadFile _ path := if str_eqb path "config.yaml" then Ok "${ADMIN_API_KEY}" else Err "no such file";
  yaml_First text := Ok (ex_raw text);
  yaml_Rest _ := None;
  yaml_roundtrip c := c;
  ModTime _ _ := None;
|}.

Definition ex_apply : apply_fn (W := option Config) (P := unit) :=
  fun c '(s, w) => if hc_Enabled (rs_Hedge (cf_Resilience c)) then ((s, w), Some (Errorf "no hedging" []))
                   else ((SetConfig s c, Some c), None).

Lemma ex_apply_all_or_nothing : all_or_nothing (Some ex_apply) id.
Proof. intros apply c [s w] [= <-]. unfold ex_apply. by destruct (hc_Enabled _). Qed.

Definition ex_burst (n : Z) : AdminPatch :=
  mkAdminPatch (Some (mkRateLimitPatch None (Some n) None)) None None None None None.
Definition ex_ttl (ttl : string) : AdminPatch :=
  mkAdminPatch None (Some (mkCachePatch (Some ttl) None None None None None None)) None None None None.
Definition ex_decode (text : string) : result AdminPatch string :=
  if str_eqb text "burst" then Ok (ex_burst 20) else if str_eqb text "ttl" then Ok (ex_ttl "1m") else Err "?".
Definition ex_cfg : Config := setDefaults (fun _ => None) (ex_raw "k").
Definition ex_server : Server (P := unit) := New "k" "config.yaml" (Some ex_cfg) None None.
Definition ex_request (method path key body : string) : admin_request :=
  mkAdminRequest method path ("Bearer " +:+ key) "" (Some body).
Definition ex_handle (protect : bool) := Handler (P := unit) (fun _ => "") (fun _ => []) ex_decode
  (fun _ => None) (Some ex_apply) protect.

Lemma redactConfig_hides_secrets_witness :
  redactConfig (W := option Config) (ex_raw "secret") = redactConfig (W := option Config) (ex_raw "other").
Proof. apply (redactConfig_hides_secrets (W := option Config)); done. Defined.

Lemma applyPatch_overwrites_witness :
  exists c', applyPatch ex_cfg (ex_ttl "1m") = Ok c' /\ applyPatch c' (ex_ttl "1m") = Ok c' /\
    ca_TTL (cf_Cache c') = 1 * Minute.
Proof.
  eexists. split; [reflexivity|]. split; [|reflexivity]. by apply (applyPatch_overwrites ex_cfg (ex_ttl "1m")).
Defined.

Lemma admin_transactional_witness :
  let st := (ex_server, None) in
  let '(st', (code, _)) := ex_handle true (ex_request "PATCH" "/admin/config" "k" "burst") st in
  code = 200 /\ rl_Burst (cf_RateLimit (sr_cfg st'.1)) = 20 /\ config_wf (sr_cfg st'.1).
Proof.
  cbv zeta. destruct (ex_handle true (ex_request "PATCH" "/admin/config" "k" "burst") (ex_server, None))
    as [st' [code body]] eqn:E.
  destruct (admin_transactional (fun _ => "") (fun _ => []) ex_decode (fun _ => None) (Some ex_apply) id true
    _ _ _ _ _ ex_apply_all_or_nothing E) as [[Es Ew]|(-> & Hwf & _)].
  - exfalso. apply (f_equal (fun x => rl_Burst (cf_RateLimit (sr_cfg x.1.1)))) in E.
    apply (f_equal (fun s => rl_Burst (cf_RateLimit (sr_cfg s)))) in Es.
    pose proof (eq_trans E Es) as Hb. vm_compute in Hb. discriminate.
  - split; [done|]. split; [|exact Hwf].
    exact (eq_trans (eq_sym (f_equal (fun x => rl_Burst (cf_RateLimit (sr_cfg x.1.1))) E)) eq_refl).
Defined.

(** With [ADMIN_API_KEY] not set, the key of the configuration is the name of
    the variable, which [Handler] takes for no key: anyone may patch. *)
Example unset_admin_key_opens :
  match Load (None : option Config) "config.yaml" with
  | Ok cfg =>
      let s := New (P := unit) (ad_APIKey (cf_Admin cfg)) "config.yaml" (Some cfg) None None in
      (ex_handle (protected_ s) (ex_request "PATCH" "/admin/config" "" "burst") (s, None)).2 = (200, AdminStatus "patched")
  | Err _ => False
  end.
Proof. by vm_compute. Qed.

(** Two patches read the configuration one after the other and then are taken
    over one after the other: both are answered with 200, and the second has
    undone the first. *)
Example patch_lost_update :
  let st := (ex_server, None) in
  match patched (W := option Config) ex_decode (fun _ => None) (Some "burst") st.1,
        patched (W := option Config) ex_decode (fun _ => None) (Some "ttl") st.1 with
  | Ok c1, Ok c2 =>
      let '(st1, a1) := commit (Some ex_apply) c1 "patched" st in
      let '(st2, a2) := commit (Some ex_apply) c2 "patched" st1 in
      a1 = (200, AdminStatus "patched") /\ a2 = (200, AdminStatus "patched") /\
      rl_Burst (cf_RateLimit (sr_cfg st1.1)) = 20 /\ rl_Burst (cf_RateLimit (sr_cfg st2.1)) = 10
  | _, _ => False
  end.
Proof. vm_compute. by split_and!. Qed.
