(* ===== verification/Middleware.v ===== *)
(** * The middleware chain: [internal/proxy/middleware.go] and the wrapper of
      [internal/auth/middleware.go]

    A handler is a function from a request, the header map of the writer it
    is given and the state of the gateway to the operations it makes on the
    writer, the events it reports (log lines and metrics) and how it ends.
    [statusRecorder] transforms the operations on their way to the writer it
    wraps; [send] is [net/http]'s writer. *)

From Stdlib Require Import Ascii String.
From stdpp Require Import pretty.
From S2P Require Import Prelude GoFloat GoStrings Types Translate Wire RateLimit RateBackend Auth Provider Dispatch.
From S2P Require Import Upstream Serve.
Open Scope string_scope.
Open Scope list_scope.
Open Scope Z_scope.

(** ** Requests *)

(** A body delivers its data and then an error, or the end. *)
Record stream := mkStream { st_Data : string; st_Err : option string }.

Record request := mkRequest {
  rq_Method : string;
  rq_Path : string;
  rq_Header : gmap string string;       (** canonical names, first values *)
  rq_RemoteAddr : string;
  rq_Body : stream;
  rq_tenant : option string;            (** of the context *)
  rq_scopes : option (list string);
  rq_span : option string;              (** the trace of a valid span of the context *)
}.

Definition header_of (r : request) (k : string) : string := default "" (rq_Header r !! k).
Definition set_header (r : request) (k v : string) : request :=
  mkRequest (rq_Method r) (rq_Path r) (<[k := v]> (rq_Header r)) (rq_RemoteAddr r) (rq_Body r) (rq_tenant r) (rq_scopes r)
    (rq_span r).
Definition with_body (r : request) (b : stream) : request :=
  mkRequest (rq_Method r) (rq_Path r) (rq_Header r) (rq_RemoteAddr r) b (rq_tenant r) (rq_scopes r) (rq_span r).

Definition maxBodySize : Z := 2 ^ 20.

(** [io.ReadAll(io.LimitReader(body, n))] *)
Definition read_limited (n : Z) (b : stream) : string * option string :=
  if n <=? go_len (st_Data b) then (str_take (Z.to_nat n) (st_Data b), None) else (st_Data b, st_Err b).

(** [io.ReadAll(http.MaxBytesReader(w, body, maxBodySize))] *)
Definition read_body (b : stream) : read_result string :=
  if maxBodySize <? go_len (st_Data b) then ReadTooLarge
  else match st_Err b with Some _ => ReadError | None => ReadOk (st_Data b) end.

(** ** Writers *)
Abbreviation headers := (gmap string (list string)).
Definition hget (h : headers) (k : string) : string := default "" (head (default [] (h !! k))).
Definition hset (h : headers) (k v : string) : headers := <[k := [v]]> h.
Definition hadd (h : headers) (k v : string) : headers := <[k := default [] (h !! k) ++ [v]]> h.

Inductive wop :=
| HSet (k v : string)
| HAdd (k v : string)
| WriteHeader (status : Z)
| Write (data : string)
| Flush.

Definition header_op (h : headers) (op : wop) : headers :=
  match op with HSet k v => hset h k v | HAdd k v => hadd h k v | _ => h end.
Definition headers_after (h : headers) (ops : list wop) : headers := foldl header_op h ops.

(** [net/http]'s writer: the headers are sent with the status, at the first
    [WriteHeader], [Write] or [Flush]; an informational status is not final. *)
Record writer := mkWriter {
  wr_Header : headers;
  wr_sent : option (Z * headers);
  wr_Body : list string;
}.
Definition informational (status : Z) : bool := (100 <=? status) && (status <=? 199) && negb (status =? 101).
Definition send_header (w : writer) (status : Z) : writer :=
  match wr_sent w with
  | Some _ => w
  | None => if informational status then w else mkWriter (wr_Header w) (Some (status, wr_Header w)) (wr_Body w)
  end.
Definition send_op (w : writer) (op : wop) : writer :=
  match op with
  | HSet _ _ | HAdd _ _ => mkWriter (header_op (wr_Header w) op) (wr_sent w) (wr_Body w)
  | WriteHeader status => send_header w status
  | Write data => let w := send_header w 200 in mkWriter (wr_Header w) (wr_sent w) (wr_Body w ++ [data])
  | Flush => send_header w 200
  end.
Definition send (w : writer) (ops : list wop) : writer := foldl send_op w ops.
Definition fresh : writer := mkWriter ∅ None [].

(** ** [statusRecorder] *)
Record statusRecorder := mkRecorder { sr_status : Z; sr_wroteHeader : bool }.
Definition new_recorder : statusRecorder := mkRecorder 200 false.

(** A step of the recorder, and what it does on the writer it wraps. *)
Definition rec_WriteHeader (r : statusRecorder) (status : Z) : statusRecorder * list wop :=
  if sr_wroteHeader r then (r, []) else (mkRecorder status true, [WriteHeader status]).
Definition rec_implicit (r : statusRecorder) : statusRecorder * list wop :=
  if negb (sr_wroteHeader r) then rec_WriteHeader r 200 else (r, []).
Definition rec_step (r : statusRecorder) (op : wop) : statusRecorder * list wop :=
  match op with
  | WriteHeader status => rec_WriteHeader r status
  | Write data => let '(r, out) := rec_implicit r in (r, out ++ [Write data])
  | Flush => let '(r, out) := rec_implicit r in (r, out ++ [Flush])
  | HSet _ _ | HAdd _ _ => (r, [op])
  end.
Fixpoint rec_run (r : statusRecorder) (ops : list wop) : statusRecorder * list wop :=
  match ops with
  | [] => (r, [])
  | op :: ops =>
      let '(r, out) := rec_step r op in
      let '(r, outs) := rec_run r ops in (r, out ++ outs)
  end.

(** ** Handlers *)
Inductive ending := Finished | HandlerPanic | HandlerBlocked.

Inductive event :=
| EvLog (method path : string) (status : Z) (request_id : string) (tenant provider trace_id : option string)
| EvRequests (method path status provider : string)
| EvDuration (method path provider : string)
| EvProviderErrors (provider status : string)
| EvSpan (name : string) (status : Z) (provider : string) (failed : bool).

(** What a handler leaves behind: the state, the header map of the request,
    which all requests derived from it share, and what it did on the writer. *)
Record output (S : Type) := mkOutput {
  o_state : S;
  o_request : gmap string string;
  o_ops : list wop;
  o_events : list event;
  o_end : ending;
}.
Arguments mkOutput {S}.
Arguments o_state {S}.
Arguments o_request {S}.
Arguments o_ops {S}.
Arguments o_events {S}.
Arguments o_end {S}.

Definition finished {S} (r : request) (s : S) (ops : list wop) : output S := mkOutput s (rq_Header r) ops [] Finished.

(** Operations made before calling the next handler. *)
Definition before {S} (ops : list wop) (o : output S) : output S :=
  mkOutput (o_state o) (o_request o) (ops ++ o_ops o) (o_events o) (o_end o).

(** Call [next] on a recorder; what follows is not reached if it panics. *)
Definition recorded {S} (o : output S) (report : statusRecorder -> list wop -> list event) : output S :=
  let '(rec, ops) := rec_run new_recorder (o_ops o) in
  mkOutput (o_state o) (o_request o) ops
    (o_events o ++ match o_end o with Finished => report rec ops | _ => [] end) (o_end o).

Definition json_type : wop := HSet "Content-Type" "application/json".

(** [provider.ErrorResponse] as JSON, by the encoder. *)
Class ErrorEncoder := { encode_error : string -> string -> string -> string }.  (** message, type, code *)

Definition metricPath (path : string) : string :=
  if existsb (str_eqb path) ["/v1/chat/completions"; "/v1/embeddings"; "/v1/models"; "/health";
                             "/health/providers"; "/livez"; "/readyz"; "/metrics"]
  then path else "/other".

Section middleware.
Context {S : Type} `{!ErrorEncoder}.
Abbreviation handler := (request -> headers -> S -> output S).
Implicit Types (next : handler) (r : request) (h : headers) (s : S).

(** [writeError] *)
Definition write_error (status : Z) (errType message : string) : list wop :=
  [json_type; WriteHeader status; Write (encode_error message errType errType)].

Definition RequestID (generateRequestID : S -> S * string) next : handler := fun r h s =>
  let id := header_of r "X-Request-ID" in
  let '(s, id, r) := if str_eqb id "" then let '(s, id) := generateRequestID s in (s, id, set_header r "X-Request-ID" id)
                     else (s, id, r) in
  before [HSet "X-Request-ID" id] (next r (hset h "X-Request-ID" id) s).

Definition some_text (s : string) : option string := if str_eqb s "" then None else Some s.

(** The header map is the writer's own, which the recorder shares; that of the
    request is read when [next] is done with it. *)
Definition Logging next : handler := fun r h s =>
  let o := next r h s in
  let header k := default "" (o_request o !! k) in
  recorded o (fun rec ops =>
    [EvLog (rq_Method r) (rq_Path r) (sr_status rec) (header "X-Request-ID") (some_text (header "X-Tenant-ID"))
       (some_text (hget (headers_after h ops) "X-Gateway-Provider")) (rq_span r)]).

Definition security_ops : list wop :=
  [HSet "X-Content-Type-Options" "nosniff"; HSet "X-Frame-Options" "DENY"; HSet "Referrer-Policy" "no-referrer"].
Definition SecurityHeaders next : handler := fun r h s =>
  before security_ops (next r (headers_after h security_ops) s).

Definition CORS (allowedOrigins : list string) next : handler := fun r h s =>
  let allowed o := existsb (str_eqb o) allowedOrigins in
  match allowedOrigins with
  | [] => next r h s
  | _ =>
      let origin := header_of r "Origin" in
      let ops :=
        if allowed "*" || allowed origin then
          [HAdd "Vary" "Origin"; HSet "Access-Control-Allow-Origin" origin] ++
          (if str_eqb origin "" && allowed "*" then [HSet "Access-Control-Allow-Origin" "*"] else []) ++
          [HSet "Access-Control-Allow-Methods" "GET, POST, OPTIONS";
           HSet "Access-Control-Allow-Headers" "Content-Type, Authorization, X-Request-ID"]
        else [] in
      if str_eqb (rq_Method r) "OPTIONS" then
        if negb (str_eqb origin "") && negb (allowed "*") && negb (allowed origin)
        then finished r s (ops ++ [WriteHeader 403])
        else finished r s (ops ++ [WriteHeader 204])
      else before ops (next r (headers_after h ops) s)
  end.

Definition Metrics next : handler := fun r h s =>
  recorded (next r h s) (fun rec ops =>
    let provider := hget (headers_after h ops) "X-Gateway-Provider" in
    let provider := if str_eqb provider "" then "unknown" else provider in
    let path := metricPath (rq_Path r) in
    [EvRequests (rq_Method r) path (pretty (sr_status rec)) provider;
     EvDuration (rq_Method r) path provider] ++
    (if 500 <=? sr_status rec then [EvProviderErrors provider (pretty (sr_status rec))] else [])).

(** [Start] gives the trace of the new span, if it is valid; [inject] is what
    the propagator writes into the header. *)
Definition in_span (span : option string) r : request :=
  mkRequest (rq_Method r) (rq_Path r) (rq_Header r) (rq_RemoteAddr r) (rq_Body r) (rq_tenant r) (rq_scopes r) span.
Definition Tracing (Start : request -> option string) (inject : request -> list (string * string)) next : handler :=
  fun r h s =>
  let r := in_span (Start r) r in
  let ops := (fun kv => HSet kv.1 kv.2) <$> inject r in
  before ops (recorded (next r (headers_after h ops) s) (fun rec out =>
    [EvSpan (rq_Method r +:+ " " +:+ metricPath (rq_Path r)) (sr_status rec)
       (hget (headers_after (headers_after h ops) out) "X-Gateway-Provider") (500 <=? sr_status rec)])).

(** ** Authentication as a handler *)
Definition auth_view r : HttpRequest :=
  mkHttpRequest (rq_Method r) (rq_Path r) (header_of r "Authorization") (header_of r "X-Tenant-ID")
    (rq_tenant r) (rq_scopes r).
Definition writeAuthError (msg : string) : list wop :=
  [json_type; WriteHeader 401; Write (encode_error msg "invalid_request_error" "invalid_api_key")].
Definition scope_challenge (scope : string) : string :=
  "Bearer error=" +:+ dq +:+ "insufficient_scope" +:+ dq +:+ ", scope=" +:+ dq +:+ scope +:+ dq.
Definition writeScopeError (scope : string) : list wop :=
  [json_type; HSet "WWW-Authenticate" (scope_challenge scope); WriteHeader 403;
   Write (encode_error ("API key is missing required scope: " +:+ scope) "insufficient_scope" "insufficient_scope")].

Definition AuthMiddleware (hashKey : string -> string) (store : S -> gmap string Key) (now : S -> Z) next : handler :=
  fun r h s =>
  match Middleware hashKey (store s) (auth_view r) (now s) with
  | Pass r' =>
      (* the request itself, or the one with the tenant of its key *)
      next (match hr_ctxTenant r' with
            | Some tenant => mkRequest (rq_Method r) (rq_Path r) (<["X-Tenant-ID" := hr_TenantID r']> (rq_Header r))
                               (rq_RemoteAddr r) (rq_Body r) (Some tenant) (hr_ctxScopes r') (rq_span r)
            | None => r
            end) h s
  | AuthError msg => finished r s (writeAuthError msg)
  | ScopeError scope => finished r s (writeScopeError scope)
  end.

(** ** The rate limit *)
Context {L W : Type} `{!Backend L W, !JsonText}.
Context (sha_hex : string -> string).
(** The limiter and the world its operations act on. *)
Context (limiter : S -> L * W) (put_limiter : L * W -> S -> S) (now : S -> Z).

Definition clientRateLimitKey r : string :=
  let identity := header_of r "X-Tenant-ID" in
  let identity := if str_eqb identity "" then header_of r "Authorization" else identity in
  let identity := if str_eqb identity "" then rq_RemoteAddr r else identity in
  "client:" +:+ sha_hex identity.

(** The [model] of a body that is a JSON object, or empty. *)
Definition meta_model (text : string) : string :=
  match unmarshal (fun v => struct_of [("model", on_str (fun m => m) (fun new _ => new))] v "") text with
  | Ok model => model
  | Err _ => ""
  end.

Definition has_overrides r : bool :=
  str_eqb (rq_Method r) "POST" &&
  (str_eqb (rq_Path r) "/v1/chat/completions" || str_eqb (rq_Path r) "/v1/embeddings").

(** The request with the body put back, and the limits that apply to it. *)
Definition rate_limits (overrides : option OverrideStore) r : request * (Z * Z) :=
  match overrides with
  | Some o =>
      if has_overrides r then
        let '(text, err) := read_limited (maxBodySize + 1) (rq_Body r) in
        let r' := with_body r (mkStream text None) in
        match err with
        | Some _ => (r', (0, 0))
        | None => let model := meta_model text in
                  (r', if str_eqb model "" then (0, 0)
                       else RateLimit.Resolve o (header_of r "X-Tenant-ID") model)
        end
      else (r, (0, 0))
  | None => (r, (0, 0))
  end.

(** One token of the client's bucket, under its own limits if it has some. *)
Definition take_token (key : string) (rpm burst : Z) (s : S) : L * W * bool * Z :=
  let '(l, w) := limiter s in
  if (0 <? rpm) && (0 <? burst) then
    let '(l, w, allowed) := be_AllowWithLimits l key 1 rpm burst (now s) w in
    let '(l, retryAfter) := be_RetryAfterWithLimits (W := W) l key rpm burst (now s) in (l, w, allowed, retryAfter)
  else
    let '(l, w, allowed) := be_AllowN l key 1 (now s) w in
    let '(l, retryAfter) := be_RetryAfter (W := W) l key (now s) in (l, w, allowed, retryAfter).

Definition RateLimitWithEnabled (overrides : S -> option OverrideStore) (enabled : S -> bool) next : handler :=
  fun r h s =>
  if negb (enabled s) then next r h s
  else if negb (HasPrefix (rq_Path r) "/v1/") then next r h s
  else
    let key := clientRateLimitKey r in
    let '(r, (rpm, burst)) := rate_limits (overrides s) r in
    let '(l, allowed, retryAfter) := take_token key rpm burst s in
    let s := put_limiter l s in
    if allowed then next r h s
    else finished r s (HSet "Retry-After" (retry_after_header retryAfter) ::
                     write_error 429 "rate_limit_exceeded" "rate limit exceeded, retry later").

(** [RateLimitWithOverrides]: no flag, always enabled. *)
Definition RateLimitWithOverrides (overrides : S -> option OverrideStore) next : handler :=
  RateLimitWithEnabled overrides (fun _ => true) next.
Definition RateLimit next : handler := RateLimitWithOverrides (fun _ => None) next.

End middleware.

(** ** The recorder *)

(** Operations as the handlers make them: no informational status. *)
Definition final_op (op : wop) : Prop := match op with WriteHeader status => informational status = false | _ => True end.

(** The recorder is at the writer it wraps. *)
Definition rec_at (r : statusRecorder) (w : writer) : Prop :=
  sr_wroteHeader r = bool_decide (is_Some (wr_sent w)) /\ sr_status r = from_option fst 200 (wr_sent w).

Lemma send_app w ops1 ops2 : send w (ops1 ++ ops2) = send (send w ops1) ops2.
Proof. apply foldl_app. Qed.

Lemma rec_WriteHeader_at r w status :
  rec_at r w -> informational status = false ->
  send w (rec_WriteHeader r status).2 = send_header w status /\
  rec_at (rec_WriteHeader r status).1 (send_header w status).
Proof.
  unfold rec_at, rec_WriteHeader, send_header. intros [Hw Hs] Hi.
  destruct (wr_sent w) as [[z hs]|] eqn:E; simpl in *; rewrite Hw; simpl.
  - by rewrite Hw, E.
  - unfold send_header. rewrite E, Hi. by split.
Qed.

Lemma rec_implicit_at r w :
  rec_at r w -> send w (rec_implicit r).2 = send_header w 200 /\ rec_at (rec_implicit r).1 (send_header w 200).
Proof.
  intros H. unfold rec_implicit. destruct (sr_wroteHeader r) eqn:E; cbn [negb]; [|by apply rec_WriteHeader_at].
  destruct H as [Hw Hs]. rewrite E in Hw. symmetry in Hw. apply bool_decide_eq_true in Hw as [[z hs] Hz].
  unfold rec_at, send_header. simpl. rewrite Hz. simpl. rewrite Hz in *. split_and!; try done.
Qed.

Lemma send_header_twice w : send_header (send_header w 200) 200 = send_header w 200.
Proof. unfold send_header. destruct (wr_sent w) eqn:E; [by rewrite E|done]. Qed.

Lemma rec_step_at r w op :
  rec_at r w -> final_op op ->
  send w (rec_step r op).2 = send_op w op /\ rec_at (rec_step r op).1 (send_op w op).
Proof.
  intros H Hop. destruct op as [k v|k v|status|data|]; try by split.
  - exact (rec_WriteHeader_at r w status H Hop).
  - destruct (rec_implicit_at r w H) as [He Hr]. cbn [rec_step send_op]. destruct (rec_implicit r) as [r' out].
    cbn [fst snd] in *. rewrite send_app, He. split; [|exact Hr]. cbn [send foldl send_op].
    by rewrite send_header_twice.
  - destruct (rec_implicit_at r w H) as [He Hr]. cbn [rec_step send_op]. destruct (rec_implicit r) as [r' out].
    cbn [fst snd] in *. rewrite send_app, He. split; [|exact Hr]. cbn [send foldl send_op].
    by rewrite send_header_twice.
Qed.

Lemma rec_run_at r w ops :
  rec_at r w -> Forall final_op ops ->
  send w (rec_run r ops).2 = send w ops /\ rec_at (rec_run r ops).1 (send w ops).
Proof.
  intros H Hops. revert r w H. induction Hops as [|op ops Hop _ IH]; intros r w H; [by split|].
  cbn [rec_run]. destruct (rec_step_at r w op H Hop) as [He Hr]. destruct (rec_step r op) as [r' out].
  cbn [fst snd] in *. specialize (IH _ _ Hr). destruct (rec_run r' ops) as [r2 outs]. cbn [fst snd] in *.
  rewrite send_app, He. exact IH.
Qed.

Lemma rec_at_start w : wr_sent w = None -> rec_at new_recorder w.
Proof. unfold rec_at. by intros ->. Qed.

Lemma rec_run_final r ops : Forall final_op ops -> Forall final_op (rec_run r ops).2.
Proof.
  intros Hops. revert r. induction Hops as [|op ops Hop _ IH]; intros r; [by constructor|]. cbn [rec_run].
  assert (Forall final_op (rec_step r op).2) as Hs.
  { destruct r as [z []], op; cbn; repeat constructor; done. }
  destruct (rec_step r op) as [r' out]. specialize (IH r'). destruct (rec_run r' ops) as [r2 outs].
  simpl in *. by apply Forall_app.
Qed.

Lemma send_headers w ops : wr_Header (send w ops) = headers_after (wr_Header w) ops.
Proof.
  revert w. induction ops as [|op ops IH]; intros w; [done|]. change (send w (op :: ops)) with (send (send_op w op) ops).
  rewrite IH. change (headers_after (wr_Header w) (op :: ops)) with (headers_after (header_op (wr_Header w) op) ops).
  f_equal. destruct op; cbn; unfold send_header; repeat case_match; done.
Qed.

Lemma headers_after_app h ops1 ops2 : headers_after h (ops1 ++ ops2) = headers_after (headers_after h ops1) ops2.
Proof. apply foldl_app. Qed.

Lemma rec_run_headers r h ops : headers_after h (rec_run r ops).2 = headers_after h ops.
Proof.
  revert r h. induction ops as [|op ops IH]; intros r h; [done|]. cbn [rec_run].
  assert (headers_after h (rec_step r op).2 = header_op h op) as Hs by (by destruct r as [z []], op).
  destruct (rec_step r op) as [r' out]. specialize (IH r'). destruct (rec_run r' ops) as [r2 outs]. cbn [snd] in *.
  rewrite headers_after_app, Hs. apply IH.
Qed.

(** The status a response has when its handler is done: [net/http] sends 200
    if the handler did not. *)
Definition sent_status (w : writer) : Z := from_option fst 200 (wr_sent w).
Definition quiet (w : writer) : Prop := wr_sent w = None.

(** A handler on a recorder does on the writer what it does without one, and
    the recorder has the status that was sent. *)
Lemma recorded_spec {S : Type} (o : output S) report w :
  quiet w -> Forall final_op (o_ops o) ->
  let o' := recorded o report in
  o_state o' = o_state o /\ o_request o' = o_request o /\ o_end o' = o_end o /\
  send w (o_ops o') = send w (o_ops o) /\ Forall final_op (o_ops o') /\
  (forall h, headers_after h (o_ops o') = headers_after h (o_ops o)) /\
  exists rec, sr_status rec = sent_status (send w (o_ops o)) /\
    o_events o' = o_events o ++ match o_end o with Finished => report rec (o_ops o') | _ => [] end.
Proof.
  intros Hq Ho. unfold recorded. destruct (rec_run_at new_recorder w (o_ops o) (rec_at_start w Hq) Ho) as [Hs [_ Hr]].
  pose proof (rec_run_final new_recorder (o_ops o) Ho) as Hf. pose proof (fun h => rec_run_headers new_recorder h (o_ops o)) as Hh.
  destruct (rec_run new_recorder (o_ops o)) as [rec out]. cbn [fst snd] in *. split_and!; try done. by exists rec.
Qed.

(** ** The body after the rate limit *)
Lemma str_take_length n s : go_len (str_take n s) = Z.min (Z.of_nat n) (go_len s).
Proof. unfold go_len, str_take. rewrite string_of_list_length, length_take, bytes_length. lia. Qed.

Lemma rate_limits_body `{!JsonText} o r :
  let r' := (rate_limits o r).1 in
  rq_Method r' = rq_Method r /\ rq_Path r' = rq_Path r /\ rq_Header r' = rq_Header r /\
  rq_RemoteAddr r' = rq_RemoteAddr r /\ rq_tenant r' = rq_tenant r /\ rq_scopes r' = rq_scopes r /\ rq_span r' = rq_span r /\
  (read_body (rq_Body r') = read_body (rq_Body r) \/
   (o <> None /\ has_overrides r = true /\ read_body (rq_Body r) = ReadError /\
    read_body (rq_Body r') = ReadOk (st_Data (rq_Body r)))).
Proof.
  unfold rate_limits. destruct o as [o|]; [|split_and!; try done; by left].
  destruct (has_overrides r); [|split_and!; try done; by left].
  unfold read_limited. destruct (maxBodySize + 1 <=? go_len (st_Data (rq_Body r))) eqn:E; simpl.
  - split_and!; try done. left. unfold read_body. cbn [st_Data st_Err].
    rewrite str_take_length, Z2Nat.id by done. unfold maxBodySize in *.
    replace (_ <? Z.min _ _) with true by lia. by replace (_ <? go_len _) with true by lia.
  - destruct (st_Err (rq_Body r)) as [e|] eqn:Ee; simpl; (split_and!; try done); unfold read_body; cbn [st_Data st_Err];
      rewrite Ee; (replace (_ <? _) with false by lia); auto.
Qed.
