(* ===== verification/Health.v ===== *)
(** * Health endpoints: [internal/proxy/health.go] and [models.go]

    Liveness, readiness with its cached snapshot, the per-provider report and
    the list of models.  The checks of a fan-out run concurrently under one
    mutex; what each provider's [HealthCheck] answers during it is an argument
    of the fan-out, and the order in which the answers arrive is the order of
    the list it is given. *)

From Stdlib Require Import Ascii String Sorting.Sorted.
From S2P Require Import Prelude GoStrings.
Open Scope string_scope.
Open Scope list_scope.
Open Scope Z_scope.

Definition defaultHealthCheckTimeout : Z := 10 * Second.
Definition defaultProviderTimeout : Z := 3 * Second.
Definition defaultReadinessCacheTTL : Z := 15 * Second.

Record HealthOptions := mkHealthOptions {
  ho_ReadinessCacheTTL : Z;
  ho_CheckTimeout : Z;
  ho_ProviderTimeout : Z;
  ho_SkipExpensiveChecks : bool;
}.

Definition DefaultHealthOptions : HealthOptions :=
  mkHealthOptions defaultReadinessCacheTTL defaultHealthCheckTimeout defaultProviderTimeout false.

Definition normalizeHealthOptions (o : HealthOptions) : HealthOptions :=
  let d := DefaultHealthOptions in
  mkHealthOptions
    (if ho_ReadinessCacheTTL o <=? 0 then ho_ReadinessCacheTTL d else ho_ReadinessCacheTTL o)
    (if ho_CheckTimeout o <=? 0 then ho_CheckTimeout d else ho_CheckTimeout o)
    (if ho_ProviderTimeout o <=? 0 then ho_ProviderTimeout d else ho_ProviderTimeout o)
    (ho_SkipExpensiveChecks o).

(** ** Liveness *)
Record HealthHandler := mkHealthHandler { hh_startTime : Z; hh_ready : bool }.
Definition NewHealthHandler (now : Z) : HealthHandler := mkHealthHandler now true.
Definition SetReady (h : HealthHandler) (v : bool) : HealthHandler := mkHealthHandler (hh_startTime h) v.
Definition IsReady (h : HealthHandler) : bool := hh_ready h.

(** ** Statuses *)
Record providerStatus := mkProviderStatus { ps_Status : string; ps_Error : string }.

Inductive health_body :=
| Alive (uptime start_time : Z) (ready : bool)
| Draining
| NotReady (total : Z) (providers : gmap string providerStatus)
| Ready (healthy total : Z) (providers : gmap string providerStatus)
| Providers (degraded : bool) (providers : gmap string providerStatus)
| ModelList (created : Z) (data : list (string * string)).   (** id and owner *)
Definition health_reply : Type := Z * health_body.

Definition Health_ServeHTTP (h : HealthHandler) (now : Z) : health_reply :=
  (200, Alive (now - hh_startTime h) (hh_startTime h) (hh_ready h)).

(** [LivenessHandler] delegates to the health handler. *)
Definition Liveness_ServeHTTP (health : HealthHandler) (now : Z) : health_reply := Health_ServeHTTP health now.

Section health.
Context {P : Type} (Name : P -> string) (Models : P -> list string).

(** ** Readiness *)
Record readinessSnapshot := mkSnapshot {
  sn_at : Z;
  sn_healthy : Z;
  sn_total : Z;
  sn_providers : gmap string providerStatus;
}.

(** [rh_last] is [None] for the zero snapshot. *)
Record ReadinessHandler := mkReadinessHandler {
  rh_health : option HealthHandler;
  rh_options : HealthOptions;
  rh_last : option readinessSnapshot;
}.

Definition NewReadinessHandlerWithOptions (health : option HealthHandler) (options : HealthOptions) : ReadinessHandler :=
  mkReadinessHandler health (normalizeHealthOptions options) None.
Definition NewReadinessHandlerWithHealth (health : option HealthHandler) : ReadinessHandler :=
  NewReadinessHandlerWithOptions health DefaultHealthOptions.
Definition NewReadinessHandler : ReadinessHandler := NewReadinessHandlerWithOptions None DefaultHealthOptions.

Definition SetOptions (h : ReadinessHandler) (options : HealthOptions) : ReadinessHandler :=
  mkReadinessHandler (rh_health h) (normalizeHealthOptions options) None.

Definition cachedSnapshot (h : ReadinessHandler) (now : Z) : option readinessSnapshot :=
  match rh_last h with
  | None => None
  | Some last => if ho_ReadinessCacheTTL (rh_options h) <=? now - sn_at last then None else Some last
  end.

(** One goroutine of the fan-out, on the counter and the map. *)
Definition check_one (skip : bool) (check : P -> option string) (acc : Z * gmap string providerStatus) (p : P)
    : Z * gmap string providerStatus :=
  let '(healthy, results) := acc in
  if skip && str_eqb (Name p) "anthropic"
  then (iadd healthy 1, <[Name p := mkProviderStatus "skipped" ""]> results)
  else match check p with
       | Some e => (healthy, <[Name p := mkProviderStatus "unhealthy" e]> results)
       | None => (iadd healthy 1, <[Name p := mkProviderStatus "healthy" ""]> results)
       end.
Definition check_all (skip : bool) (check : P -> option string) (ps : list P) : Z * gmap string providerStatus :=
  foldl (check_one skip check) (0, ∅) ps.

(** [refreshSnapshot], which is one critical section: [now] when the lock is
    taken, [done] when the fan-out is over.  The flag says if it checked. *)
Definition refreshSnapshot (all : list P) (check : P -> option string) (now done : Z) (h : ReadinessHandler)
    : ReadinessHandler * readinessSnapshot * bool :=
  match cachedSnapshot h now with
  | Some snapshot => (h, snapshot, false)
  | None =>
      let '(healthy, results) := check_all (ho_SkipExpensiveChecks (rh_options h)) check all in
      let snapshot := mkSnapshot done healthy (Z.of_nat (List.length all)) results in
      (mkReadinessHandler (rh_health h) (rh_options h) (Some snapshot), snapshot, true)
  end.

Definition writeReadiness (s : readinessSnapshot) : health_reply :=
  if (sn_healthy s =? 0) && (0 <? sn_total s) then (503, NotReady (sn_total s) (sn_providers s))
  else (200, Ready (sn_healthy s) (sn_total s) (sn_providers s)).

Definition is_draining (h : ReadinessHandler) : bool :=
  match rh_health h with Some health => negb (IsReady health) | None => false end.

Definition Readiness_ServeHTTP (all : list P) (check : P -> option string) (arrived now done : Z)
    (h : ReadinessHandler) : ReadinessHandler * health_reply :=
  if is_draining h then (h, (503, Draining))
  else
    match cachedSnapshot h arrived with
    | Some snapshot => (h, writeReadiness snapshot)
    | None =>
        let '(h, snapshot, _) := refreshSnapshot all check now done h in
        (h, writeReadiness snapshot)
    end.

(** ** The report on the providers *)
Definition HealthProviders_ServeHTTP (all : list P) (check : P -> option string) (options : HealthOptions)
    : health_reply :=
  let results := (check_all (ho_SkipExpensiveChecks options) check all).2 in
  let degraded := existsb (fun kv => negb (str_eqb (ps_Status kv.2) "healthy")) (map_to_list results) in
  (200, Providers degraded results).

(** ** The list of models *)
Definition Models_ServeHTTP (all : list P) (now : Z) : health_reply :=
  (200, ModelList now (all ≫= (fun p => (fun m => (m, Name p)) <$> Models p))).

(** ** The fan-out *)

Definition status_of (skip : bool) (check : P -> option string) (p : P) : providerStatus :=
  if skip && str_eqb (Name p) "anthropic" then mkProviderStatus "skipped" ""
  else match check p with Some e => mkProviderStatus "unhealthy" e | None => mkProviderStatus "healthy" "" end.
(** A provider counts as healthy: it is, or it is not asked. *)
Definition counts (skip : bool) (check : P -> option string) (p : P) : bool :=
  (skip && str_eqb (Name p) "anthropic") || bool_decide (check p = None).

Lemma check_one_eq skip check acc p :
  check_one skip check acc p =
  ((if counts skip check p then iadd acc.1 1 else acc.1), <[Name p := status_of skip check p]> acc.2).
Proof.
  destruct acc as [n m]. unfold check_one, status_of, counts. destruct (_ && _); [done|].
  by destruct (check p).
Qed.

Lemma check_all_spec skip check ps :
  NoDup (Name <$> ps) -> Z.of_nat (List.length ps) <= max_int64 ->
  check_all skip check ps =
    (Z.of_nat (List.length (filter (fun p => counts skip check p = true) ps)),
     list_to_map ((fun p => (Name p, status_of skip check p)) <$> ps)).
Proof.
  unfold check_all. apply (foldl_prefix_inv _ (fun ps acc => NoDup (Name <$> ps) -> Z.of_nat (List.length ps) <= max_int64 ->
    acc = (Z.of_nat (List.length (filter (fun p => counts skip check p = true) ps)),
           list_to_map ((fun p => (Name p, status_of skip check p)) <$> ps))));
    [done|]. intros l p acc IH Hn Hl. rewrite fmap_app in Hn. apply list.NoDup_app in Hn as (Hn & Hd & _).
  rewrite length_app in Hl. simpl in Hl. rewrite check_one_eq, IH by (done || lia). cbn [fst snd].
  rewrite list.filter_app, length_app, fmap_app. pose proof (list.length_filter (fun p => counts skip check p = true) l) as Hf. f_equal.
  - destruct (counts skip check p) eqn:Hc.
    + rewrite filter_cons_True by done. rewrite filter_nil. simpl. rewrite iadd_id; [lia|].
      unfold int64_range, min_int64. unfold max_int64 in *. lia.
    + rewrite filter_cons_False by congruence. rewrite filter_nil. simpl. lia.
  - symmetry. apply list_to_map_snoc. rewrite <-list_fmap_compose. intros Hp. by apply (Hd (Name p)); [|left].
Qed.

Lemma check_all_perm skip check ps ps' :
  ps ≡ₚ ps' -> NoDup (Name <$> ps) -> Z.of_nat (List.length ps) <= max_int64 ->
  check_all skip check ps = check_all skip check ps'.
Proof.
  intros Hp Hn Hl. rewrite !check_all_spec; try done; [|by rewrite <-Hp..]. f_equal.
  - by rewrite Hp.
  - apply list_to_map_proper; [|by rewrite Hp]. by rewrite <-list_fmap_compose.
Qed.

(** *** Probes over time *)

(** A probe that found no snapshot and takes the refresh lock: the time at
    which it has the lock, how long its fan-out would take, and what the
    providers would answer. *)
Record probe := mkProbe { pb_now : Z; pb_takes : Z; pb_check : P -> option string }.

(** The fan-outs of a sequence of probes, from start to end. *)
Fixpoint fanouts (all : list P) (h : ReadinessHandler) (probes : list probe) : list (Z * Z) :=
  match probes with
  | [] => []
  | b :: probes =>
      let '(h, _, checked) := refreshSnapshot all (pb_check b) (pb_now b) (pb_now b + pb_takes b) h in
      (if checked then [(pb_now b, pb_now b + pb_takes b)] else []) ++ fanouts all h probes
  end.

(** The lock is taken by one probe at a time. *)
Fixpoint one_at_a_time (t : Z) (probes : list probe) : Prop :=
  match probes with
  | [] => True
  | b :: probes => t <= pb_now b /\ 0 <= pb_takes b /\ one_at_a_time (pb_now b + pb_takes b) probes
  end.

Lemma one_at_a_time_le t t' probes : t' <= t -> one_at_a_time t probes -> one_at_a_time t' probes.
Proof. destruct probes; simpl; [done|]. intros ? (? & ? & ?). split; [lia|done]. Qed.

Lemma fanouts_spaced all h probes t :
  one_at_a_time t probes ->
  Sorted (fun x y : Z * Z => x.2 + ho_ReadinessCacheTTL (rh_options h) <= y.1) (fanouts all h probes) /\
  (forall last x, rh_last h = Some last -> head (fanouts all h probes) = Some x ->
     sn_at last + ho_ReadinessCacheTTL (rh_options h) <= x.1).
Proof.
  revert h t. induction probes as [|b probes IH]; intros h t Hp; simpl; [by split; [constructor|]|].
  destruct Hp as (Ht & Hk & Hp). unfold refreshSnapshot.
  destruct (cachedSnapshot h (pb_now b)) as [sn|] eqn:Ec; [exact (IH h _ Hp)|].
  destruct (check_all _ _ _) as [healthy results].
  set (h' := mkReadinessHandler _ _ _). destruct (IH h' _ Hp) as [Hs Hf]. cbn [app]. split.
  - constructor; [exact Hs|]. destruct (fanouts all h' probes) as [|y ys]; constructor.
    exact (Hf _ y eq_refl eq_refl).
  - intros last x Hl [= <-]. unfold cachedSnapshot in Ec. rewrite Hl in Ec. simpl.
    destruct (_ <=? _) eqn:E; [|done]. lia.
Qed.

End health.

(** Readiness is what its providers are, whatever the order in which their
    checks end: a probe is refused while the gateway drains and when no
    provider is healthy, and answered with 200 otherwise, the reply naming
    the status of each provider and how many count as healthy. *)
Theorem readiness_reports {P : Type} (Name : P -> string) (all arrival : list P) check t now done h :
  arrival ≡ₚ all -> NoDup (Name <$> all) -> Z.of_nat (List.length all) <= max_int64 ->
  cachedSnapshot h t = None -> cachedSnapshot h now = None ->
  let skip := ho_SkipExpensiveChecks (rh_options h) in
  let providers := list_to_map ((fun p => (Name p, status_of Name skip check p)) <$> all) in
  let healthy := filter (fun p => counts Name skip check p = true) all in
  (Readiness_ServeHTTP Name arrival check t now done h).2 =
    if is_draining h then (503, Draining)
    else if decide (healthy = [] /\ all <> []) then (503, NotReady (Z.of_nat (List.length all)) providers)
    else (200, Ready (Z.of_nat (List.length healthy)) (Z.of_nat (List.length all)) providers).
Proof.
  intros Hp Hn Hl Hc1 Hc2 skip providers healthy. unfold Readiness_ServeHTTP.
  destruct (is_draining h); [done|]. rewrite Hc1. unfold refreshSnapshot. rewrite Hc2. fold skip.
  rewrite (check_all_perm Name skip check arrival all) by (done || by rewrite Hp). rewrite check_all_spec by done.
  fold providers healthy. cbn [snd]. unfold writeReadiness. cbn [sn_healthy sn_total sn_providers].
  rewrite (Permutation_length Hp).
  destruct (decide _) as [[-> Ha]|Hd].
  - simpl. destruct all; [done|]. done.
  - destruct healthy as [|p hs]; [|done]. destruct all as [|q qs]; [done|]. exfalso. by apply Hd.
Qed.

(** C39. However many probes arrive, and however long a fan-out takes, two fan-outs
    to the providers are at least the cache's time to live apart. *)
Theorem fanouts_rate {P : Type} (Name : P -> string) (all : list P) h probes t :
  one_at_a_time t probes ->
  Sorted (fun x y : Z * Z => x.2 + ho_ReadinessCacheTTL (rh_options h) <= y.1) (fanouts Name all h probes).
Proof. intros Hp. by apply (fanouts_spaced Name all h probes t). Qed.

(** ** Examples *)
Definition ex_check (down : list string) (name : string) : option string :=
  if existsb (str_eqb name) down then Some "unexpected status 500" else None.
Definition ex_options (skip : bool) : HealthOptions := mkHealthOptions 0 0 0 skip.
Definition ex_ready (skip : bool) : ReadinessHandler :=
  NewReadinessHandlerWithOptions (Some (NewHealthHandler 0)) (ex_options skip).

Lemma readiness_reports_witness :
  (Readiness_ServeHTTP (fun n => n) ["gemini"; "openai"] (ex_check ["gemini"]) 5 6 7 (ex_ready false)).2 =
  (200, Ready 1 2 {["openai" := mkProviderStatus "healthy" ""; "gemini" := mkProviderStatus "unhealthy" "unexpected status 500"]}).
Proof.
  rewrite (readiness_reports (fun n => n) ["openai"; "gemini"]); try reflexivity; [apply perm_swap| |done].
  by apply (bool_decide_unpack _).
Defined.

Lemma fanouts_rate_witness :
  let probes := [mkProbe 1 (2 * Second) (ex_check []); mkProbe (3 * Second) 5 (ex_check []);
                 mkProbe (20 * Second) 5 (ex_check [])] in
  fanouts (fun n => n) ["openai"] (ex_ready false) probes = [(1, 1 + 2 * Second); (20 * Second, 20 * Second + 5)] /\
  Sorted (fun x y : Z * Z => x.2 + 15 * Second <= y.1) (fanouts (fun n => n) ["openai"] (ex_ready false) probes).
Proof.
  split; [reflexivity|]. apply (fanouts_rate (fun n => n) ["openai"] (ex_ready false) _ 0).
  simpl. unfold Second. lia.
Defined.

(** With [skip_expensive_checks] a healthy gateway reports itself degraded,
    although readiness counts the provider that was not asked as healthy. *)
Example skipped_is_degraded :
  HealthProviders_ServeHTTP (fun n => n) ["openai"; "anthropic"] (ex_check []) (ex_options true) =
    (200, Providers true {["openai" := mkProviderStatus "healthy" ""; "anthropic" := mkProviderStatus "skipped" ""]}) /\
  (Readiness_ServeHTTP (fun n => n) ["openai"; "anthropic"] (ex_check []) 0 0 0 (ex_ready true)).2.1 = 200.
Proof. done. Qed.

(** A probe that is broken off takes its fan-out with it, since the checks run
    under its context, and what they then report is kept: for the time to live
    of the snapshot every probe is told that no provider is healthy. *)
Example broken_off_probe_sticks :
  let all := ["openai"] in
  let h := NewReadinessHandlerWithOptions None (ex_options false) in
  let '(h, _) := Readiness_ServeHTTP (fun n => n) all (fun _ => Some "context canceled") 0 0 1 h in
  (Readiness_ServeHTTP (fun n => n) all (fun _ => None) 2 2 3 h).2 =
    (503, NotReady 1 {["openai" := mkProviderStatus "unhealthy" "context canceled"]}).
Proof. by vm_compute. Qed.
