(* ===== verification/RedisStore.v ===== *)
(** * The replaceable Redis connection: [internal/redisstore/store.go] and
      [internal/cache/redis.go]

    Clients are numbered in the order [redis.NewClient] makes them.  Parsing
    a URL, pinging and the commands of a client are parameters.  [Manager] is
    first a sequential object; then its operations are the steps of several
    goroutines, with the read-write lock between them. *)

From Stdlib Require Import Ascii String.
From S2P Require Import Prelude GoStrings Cache.
Open Scope string_scope.
Open Scope list_scope.
Open Scope Z_scope.

Inductive redis_error := ErrUnavailable | ParseError (msg : string) | PingError (msg : string) | Other (msg : string).

Record Manager := mkManager { rm_client : option nat; rm_url : string }.

Definition New : Manager := mkManager None "".
Definition Active (m : Manager) : bool := bool_decide (is_Some (rm_client m)).
Definition URL (m : Manager) : string := rm_url m.

(** [WithClient(fn)]: [fn] gets the client installed. *)
Definition WithClient {W A} (client : option nat) (fn : nat -> W -> W * result A redis_error) (w : W)
    : W * result A redis_error :=
  match client with
  | None => (w, Err ErrUnavailable)
  | Some c => fn c w
  end.

(** The critical section of [ReplaceURL]: the manager after it, and the client
    to close.  [None] is the empty URL; [Some (next, url)] a client that
    answered a ping. *)
Definition swap (m : Manager) (target : option (nat * string)) : Manager * option nat :=
  match target with
  | None => (mkManager None "", rm_client m)
  | Some (next, url) =>
      if str_eqb (rm_url m) url && bool_decide (is_Some (rm_client m)) then (m, Some next)
      else (mkManager (Some next) url, rm_client m)
  end.

(** [redis.ParseURL], [redis.NewClient], [Ping] and [Close]. *)
Class Dialer (W : Type) := {
  ParseURL : string -> option string;             (** the error, if any *)
  NewClient : string -> W -> W * nat;
  Ping : nat -> W -> W * option string;
  CloseClient : nat -> W -> W;
}.

Definition disabled_url (url : string) : bool := str_eqb url "" || str_eqb url "${REDIS_URL}".
Definition close_old {W} `{!Dialer W} (old : option nat) (w : W) : W :=
  match old with Some c => CloseClient c w | None => w end.

Definition ReplaceURL {W} `{!Dialer W} (rawURL : string) (m : Manager) (w : W) : Manager * W * option redis_error :=
  if disabled_url rawURL then
    let '(m, old) := swap m None in (m, close_old old w, None)
  else
    match ParseURL rawURL with
    | Some e => (m, w, Some (ParseError e))
    | None =>
        let '(w, next) := NewClient rawURL w in
        match Ping next w with
        | (w, Some e) => (m, CloseClient next w, Some (PingError e))
        | (w, None) => let '(m, old) := swap m (Some (next, rawURL)) in (m, close_old old w, None)
        end
    end.

Definition Close {W} `{!Dialer W} (m : Manager) (w : W) : Manager * W :=
  let '(m, old) := swap m None in (m, close_old old w).

(** [Static]: a client that is never replaced; [NewStatic(nil)] is no store. *)
Definition NewStatic (client : option nat) : option (option nat) := Some <$> client.
Definition Static_Active (client : option nat) : bool := bool_decide (is_Some client).

(** ** The Redis cache *)

(** The commands of a client. *)
Class RedisKV (W : Type) := {
  kv_Get : nat -> string -> W -> W * result string redis_error;
  kv_Set : nat -> string -> string -> Z -> W -> W * result unit redis_error;
  kv_Del : nat -> string -> W -> W * result unit redis_error;
}.

(** The cache over the client its store has installed, if it has a store. *)
Record RedisCache := mkRedisCache { rc_client : option (option nat); rc_prefix : string }.
Definition NewRedisWithStore (store : option (option nat)) : RedisCache := mkRedisCache store "cache:".
Definition NewRedis (client : option nat) : RedisCache := NewRedisWithStore (NewStatic client).

Section cache.
Context {W : Type} `{!RedisKV W}.

Definition Redis_Get (r : RedisCache) (key : string) (w : W) : W * option string :=
  match rc_client r with
  | None => (w, None)
  | Some c =>
      match WithClient c (fun c => kv_Get c (rc_prefix r +:+ key)) w with
      | (w, Ok val) => (w, Some val)
      | (w, Err _) => (w, None)
      end
  end.

Definition Redis_Set (r : RedisCache) (key value : string) (ttl : Z) (w : W) : W :=
  match rc_client r with
  | None => w
  | Some c => (WithClient c (fun c => kv_Set c (rc_prefix r +:+ key) value ttl) w).1
  end.

Definition Redis_Delete (r : RedisCache) (key : string) (w : W) : W :=
  match rc_client r with
  | None => w
  | Some c => (WithClient c (fun c => kv_Del c (rc_prefix r +:+ key)) w).1
  end.

(** The counters are never moved. *)
Definition Redis_Stats (r : RedisCache) : Stats := mkStats 0 0 (-1).

End cache.

(** ** Goroutines *)

(** A call of [ReplaceURL] or [Close] that has not finished: it holds a client
    that answered its ping, it is about to disable Redis, or it is about to
    close the client it took out. *)
Inductive call := Swapping (target : option (nat * string)) | Closing (c : nat).

Record state := mkState {
  st_manager : Manager;
  st_next : nat;                  (** the number of the next client *)
  st_calls : list call;
  st_readers : list nat;          (** the clients inside a [WithClient] *)
  st_closed : list nat;
}.

Definition closing (old : option nat) : list call := match old with Some c => [Closing c] | None => [] end.

(** A reader enters when no writer holds the lock, and a writer's critical
    section, which is one step, waits until there is no reader. *)
Inductive step : state -> state -> Prop :=
| step_enter m n calls rs cl c :
    rm_client m = Some c ->
    step (mkState m n calls rs cl) (mkState m n calls (c :: rs) cl)
| step_leave m n calls rs1 c rs2 cl :
    step (mkState m n calls (rs1 ++ c :: rs2) cl) (mkState m n calls (rs1 ++ rs2) cl)
| step_dial m n calls rs cl url :
    disabled_url url = false ->
    step (mkState m n calls rs cl) (mkState m (S n) (Swapping (Some (n, url)) :: calls) rs cl)
| step_dial_fails m n calls rs cl :
    step (mkState m n calls rs cl) (mkState m (S n) (Closing n :: calls) rs cl)
| step_disable m n calls rs cl :
    step (mkState m n calls rs cl) (mkState m n (Swapping None :: calls) rs cl)
| step_swap m n calls1 target calls2 cl m' old :
    swap m target = (m', old) ->
    step (mkState m n (calls1 ++ Swapping target :: calls2) [] cl)
         (mkState m' n (calls1 ++ closing old ++ calls2) [] cl)
| step_close m n calls1 c calls2 rs cl :
    step (mkState m n (calls1 ++ Closing c :: calls2) rs cl) (mkState m n (calls1 ++ calls2) rs (c :: cl)).

Definition start : state := mkState New 0 [] [] [].
Definition reachable : state -> Prop := rtc step start.

(** The clients a call still has to install or to close. *)
Definition call_clients (c : call) : list nat :=
  match c with
  | Swapping (Some (next, _)) => [next]
  | Swapping None => []
  | Closing c => [c]
  end.
Definition owned (s : state) : list nat :=
  from_option (fun c => [c]) [] (rm_client (st_manager s)) ++ (st_calls s ≫= call_clients) ++ st_closed s.

(** Every client made so far is at exactly one place, and a reader has the one
    that is installed. *)
Record store_inv (s : state) : Prop := {
  si_owned : owned s ≡ₚ seq 0 (st_next s);
  si_readers : Forall (fun c => rm_client (st_manager s) = Some c) (st_readers s);
}.

Lemma seq_S_perm n : seq 0 (S n) ≡ₚ n :: seq 0 n.
Proof. rewrite seq_S. simpl. symmetry. apply Permutation_cons_append. Qed.

Lemma step_inv s s' : store_inv s -> step s s' -> store_inv s'.
Proof.
  intros [Ho Hr] Hs. destruct Hs; unfold owned in *; split; unfold owned;
    cbn [st_manager st_next st_calls st_readers st_closed] in *.
  - done.
  - by constructor.
  - done.
  - apply Forall_app in Hr as [H1 H2]. apply Forall_app. split; [done|]. by inversion H2.
  - rewrite seq_S_perm, <-Ho. csimpl. solve_Permutation.
  - done.
  - rewrite seq_S_perm, <-Ho. csimpl. solve_Permutation.
  - done.
  - exact Ho.
  - done.
  - rewrite <-Ho, !bind_app, bind_cons. destruct target as [[next url]|]; simpl in *.
    + destruct (str_eqb _ _ && _).
      * injection H as <- <-. simpl. done.
      * injection H as <- <-. destruct (rm_client m) as [c|]; simpl; [|solve_Permutation].
        solve_Permutation.
    + injection H as <- <-. destruct (rm_client m) as [c|]; simpl; solve_Permutation.
  - constructor.
  - rewrite <-Ho, !bind_app, bind_cons. simpl. solve_Permutation.
  - done.
Qed.

Lemma reachable_inv s : reachable s -> store_inv s.
Proof.
  intros Hs. apply (rtc_ind_r (R := step) store_inv start); [|intros; by eapply step_inv|exact Hs].
  split; [done|constructor].
Qed.

(** C38. Whatever calls replace, disable or close the connection while others use
    it: an operation in progress has the client that is installed, which has
    not been closed; no client is closed twice; and once all replacements are
    done every client that was made is closed, but for the one installed. *)
Theorem no_use_after_close s :
  reachable s ->
  Forall (fun c => rm_client (st_manager s) = Some c /\ c ∉ st_closed s) (st_readers s) /\
  NoDup (st_closed s) /\
  (st_calls s = [] -> forall c, (c < st_next s)%nat <-> rm_client (st_manager s) = Some c \/ c ∈ st_closed s).
Proof.
  intros [Ho Hr]%reachable_inv. unfold owned in Ho.
  assert (NoDup (from_option (fun c => [c]) [] (rm_client (st_manager s)) ++
    (st_calls s ≫= call_clients) ++ st_closed s)) as Hn by (rewrite Ho; apply NoDup_seq).
  apply list.NoDup_app in Hn as (_ & Hd & Hn). apply list.NoDup_app in Hn as (_ & _ & Hn).
  split_and!; [|exact Hn|].
  - eapply list.Forall_impl; [exact Hr|]. intros c Hc. split; [exact Hc|]. intros Hin.
    apply (Hd c); [rewrite Hc; by left|]. apply elem_of_app. by right.
  - intros Hc c. rewrite Hc in Ho. simpl in Ho.
    assert (c ∈ from_option (fun c => [c]) [] (rm_client (st_manager s)) ++ st_closed s <-> c ∈ seq 0 (st_next s))
      as He by by rewrite Ho.
    rewrite elem_of_app, elem_of_seq in He. destruct (rm_client (st_manager s)) as [d|]; simpl in He;
      rewrite ?list_elem_of_singleton, ?elem_of_nil in He; naive_solver lia.
Qed.

(** ** Examples *)
Lemma no_use_after_close_witness :
  exists s, reachable s /\ st_readers s = [1%nat] /\ st_closed s = [0%nat] /\ st_calls s = [] /\
    Forall (fun c => rm_client (st_manager s) = Some c /\ c ∉ st_closed s) (st_readers s).
Proof.
  set (s := mkState (mkManager (Some 1%nat) "redis://b") 2 [] [1%nat] [0%nat]).
  assert (reachable s) as Hs.
  { apply (rtc_l _ _ (mkState New 1 [Swapping (Some (0%nat, "redis://a"))] [] [])).
    { by apply step_dial. }
    apply (rtc_l _ _ (mkState (mkManager (Some 0%nat) "redis://a") 1 [] [] [])).
    { exact (step_swap New 1 [] (Some (0%nat, "redis://a")) [] [] (mkManager (Some 0%nat) "redis://a") None eq_refl). }
    apply (rtc_l _ _ (mkState (mkManager (Some 0%nat) "redis://a") 2 [Swapping (Some (1%nat, "redis://b"))] [] [])).
    { by apply step_dial. }
    apply (rtc_l _ _ (mkState (mkManager (Some 1%nat) "redis://b") 2 [Closing 0] [] [])).
    { exact (step_swap (mkManager (Some 0%nat) "redis://a") 2 [] (Some (1%nat, "redis://b")) [] []
        (mkManager (Some 1%nat) "redis://b") (Some 0%nat) eq_refl). }
    apply (rtc_l _ _ (mkState (mkManager (Some 1%nat) "redis://b") 2 [Closing 0] [1%nat] [])).
    { by apply step_enter. }
    apply rtc_once. exact (step_close _ _ [] 0 [] [1%nat] []). }
  exists s. split; [exact Hs|]. do 3 (split; [reflexivity|]). exact (proj1 (no_use_after_close s Hs)).
Defined.

#[local] Instance ex_down : RedisKV unit := {|
  kv_Get _ _ w := (w, Err (Other "connection refused"));
  kv_Set _ _ _ _ w := (w, Err (Other "connection refused"));
  kv_Del _ _ w := (w, Err (Other "connection refused"));
|}.

(** With Redis down a value that was stored is not found: nothing falls back
    to memory. *)
Example redis_cache_no_fallback :
  let r := NewRedisWithStore (Some (Some 0%nat)) in
  (Redis_Get r "k" (Redis_Set r "k" "v" Minute tt)).2 = None.
Proof. done. Qed.
