(* ===== verification/Gateway.v ===== *)
(** * The gateway put together: [cmd/gateway/main.go]

    What [main] builds from a configuration, and [applyConfig], which takes a
    new one over while the gateway runs.  The handlers share the registry,
    the limiter, the overrides, the budget manager and the cache; the state
    holds each once. *)

From Stdlib Require Import Ascii String.
From S2P Require Import Prelude GoFloat GoStrings Types Pricing Circuit Retry Hedge Budget RateLimit RateBackend.
From S2P Require Import Cache CacheSemantic Auth Router Translate Wire Provider Dispatch Upstream Serve Embeddings.
From S2P Require Config Admin RedisStore.
From S2P Require Import Health.
Import Config (Config, config_wf, Errorf, errorf).
Open Scope string_scope.
Open Scope list_scope.
Open Scope Z_scope.

(** ** From a configuration *)

Definition retry_config (c : Config) : Retry.RetryConfig :=
  let r := Config.rs_Retry (Config.cf_Resilience c) in
  Retry.mkRetryConfig (Config.rc_MaxAttempts r) (Config.rc_BaseDelay r) (Config.rc_MaxDelay r) true.
Definition circuit_config (c : Config) : Circuit.CircuitConfig :=
  let r := Config.rs_Circuit (Config.cf_Resilience c) in
  Circuit.mkCircuitConfig (Config.cc_FailureThreshold r) (Config.cc_OpenTimeout r) 1.
Definition hedge_config (c : Config) : hedgeConfig :=
  let r := Config.rs_Hedge (Config.cf_Resilience c) in mkHedgeConfig (Config.hc_Enabled r) (Config.hc_Delay r).
Definition token_aware (c : Config) : bool :=
  Config.rl_Enabled (Config.cf_RateLimit c) && Config.rl_TokenAware (Config.cf_RateLimit c).

Definition buildHealthOptions (c : Config) : HealthOptions :=
  let h := Config.cf_Health c in
  mkHealthOptions (Config.hl_ReadinessCacheTTL h) (Config.hl_CheckTimeout h) (Config.hl_ProviderTimeout h)
    (Config.hl_SkipExpensiveChecks h).

(** The entries of [routing.weighted] whose provider is running. *)
Definition buildWeighted (c : Config) (providers : list upstream) : gmap string (list WeightedConfig) :=
  let known name := existsb (fun p => str_eqb (up_Name p) name) providers in
  omap (fun entries =>
          match foldl (fun we e => let name := Config.ProviderName e in
                         if negb (known name) then we
                         else we ++ [mkWeightedConfig name "" (Config.wt_Weight e)]) [] entries with
          | [] => None
          | we => Some we
          end) (Config.ro_Weighted (Config.cf_Routing c)).

Definition to_rule (r : Config.PricingRule) : Rule :=
  mkRule (Config.pr_Provider r) (Config.pr_Model r) (Config.pr_Input r) (Config.pr_Output r) (Config.pr_Embedding r).
Definition buildPricingCatalog (c : Config) : result Catalog PricingError :=
  match Config.rl_Budget (Config.cf_RateLimit c) with
  | None => NewCatalog [] (f64_const 1 100000) DefaultCurrency "" UnknownUseFallback
  | Some b =>
      let p := Config.bc_Pricing b in
      let rules := foldl (fun rules rule => rules ++ [to_rule rule]) [] (Config.pg_Catalog p) in
      NewCatalog rules (Config.bc_CostPerTokenUSD b) (Config.pg_Currency p) (Config.pg_Version p)
        (Config.pg_UnknownModelPolicy p)
  end.

(** A provider without a key is left out. *)
Definition build_provider (c : Config) (name : string)
    (new : string -> string -> Z -> list string -> upstream) (providers : list upstream) : list upstream :=
  match Config.cf_Providers c !! name with
  | Some pc =>
      if negb (Config.unexpanded (Config.pc_APIKey pc))
      then providers ++ [new (Config.pc_APIKey pc) (Config.pc_BaseURL pc) (Config.pc_Timeout pc) (Config.pc_Models pc)]
      else providers
  | None => providers
  end.
Definition buildProviders (c : Config) : result (list upstream) errorf :=
  let providers := build_provider c "openai" NewOpenAI [] in
  let providers := build_provider c "anthropic" NewAnthropic providers in
  let providers := build_provider c "gemini" NewGemini providers in
  match providers with
  | [] => Err (Errorf "no providers configured: set at least one of OPENAI_API_KEY, ANTHROPIC_API_KEY, GEMINI_API_KEY" [])
  | _ => Ok providers
  end.

Section discovery.
Context {Ctx W : Type} `{!JsonText, !Http Ctx W}.

(** [background] is the context with its five seconds. *)
Definition discover_one (background : Ctx) (p : upstream) (w : W) : W * upstream :=
  match up_Models p with
  | _ :: _ => (w, p)
  | [] =>
      match DiscoverModels p background w with
      | None => (w, p)
      | Some (w, Err _) => (w, p)
      | Some (w, Ok []) => (w, p)
      | Some (w, Ok models) => (w, SetModels p models)
      end
  end.
Definition discoverModels (background : Ctx) (providers : list upstream) (w : W) : W * list upstream :=
  foldl (fun '(w, ps) p => let '(w, p) := discover_one background p w in (w, ps ++ [p])) (w, []) providers.

Lemma discoverModels_names background ps w : up_Name <$> (discoverModels background ps w).2 = up_Name <$> ps.
Proof.
  unfold discoverModels. apply (foldl_prefix_inv _ (fun l x => up_Name <$> x.2 = up_Name <$> l)); [done|].
  intros l p [w1 qs] IH. unfold discover_one. simpl in IH.
  assert (forall ms, up_Name (SetModels p ms) = up_Name p) as Hn by by destruct p.
  repeat case_match; simplify_eq/=; rewrite !fmap_app, IH; csimpl; by rewrite ?Hn.
Qed.
End discovery.

(** [semanticEmbedder]: the embedder resolves the model in the registry at the
    time of the call. *)
Section embedder.
Context {Rng Ctx W : Type} `{!JsonText, !Http Ctx W} (regexp_Compile : string -> option regexp) (Intn : Rng -> Z -> Rng * Z).
Abbreviation Reg := (Registry (P := upstream) (Rng := Rng)).
Inductive embed_failure := NoModel (e : resolve_error) | EmbedFailed (e : error) | EmptyEmbedding.

Definition semanticEmbedder (registry : bool) (model : string)
    : option (Ctx -> string -> Reg * W -> (Reg * W) * result (list float64) embed_failure) :=
  if negb registry || str_eqb model "" then None
  else Some (fun ctx text '(reg, w) =>
    match Router.Resolve regexp_Compile Intn reg model with
    | (reg, Err e) => ((reg, w), Err (NoModel e))
    | (reg, Ok p) =>
        (* every provider has an [Embed] method *)
        match up_Embed p ctx (mkEmbeddingRequest model (JStr text) "" None "") w with
        | (w, Err e) => ((reg, w), Err (EmbedFailed e))
        | (w, Ok resp) =>
            ((reg, w), match emb_Data resp with
                       | [] => Err EmptyEmbedding
                       | d :: _ => match ed_Embedding d with [] => Err EmptyEmbedding | v => Ok v end
                       end)
        end
    end).
End embedder.

(** ** The gateway *)

(** The caches [buildCache] starts from: the second one asks the client its
    manager has installed. *)
Inductive base_cache := InMemory (m : memory) | SharedRedis (keyPrefix : string).

(** What [main] sets up once and no reload touches: whether the chain has the
    authentication and the CORS middleware, the level of the logger, the port
    and the timeouts of the server. *)
Record fixed := mkFixed {
  fx_auth : bool;
  fx_origins : list string;
  fx_logging : Config.LoggingConfig;
  fx_server : Config.ServerConfig;
}.

Definition fixed_by (c : Config) : fixed :=
  mkFixed (Config.ac_Enabled (Config.cf_Auth c)) (Config.co_AllowedOrigins (Config.cf_CORS c)) (Config.cf_Logging c) (Config.cf_Server c).

Section gateway.
Context {Rng Store : Type} (regexp_Compile : string -> option regexp) (NewSource : Z -> Rng) (hashKey : string -> string).
(** The pointer to the manager, as the limiter and the budget hold it. *)
Context (redisStore : Store).
Abbreviation Reg := (Registry (P := upstream) (Rng := Rng)).
Abbreviation limiter := (RedisLimiter (Store := Store)).
Abbreviation budget := (Budget.Manager (Store := Store)).
Abbreviation gcache := (any_cache base_cache).
Abbreviation chatHandler := (Handler upstream Rng limiter OverrideStore budget gcache).
Abbreviation embedHandler := (EmbeddingsHandler upstream Rng limiter budget gcache).
Abbreviation NewReg := (NewRegistryWithWeighted up_Name up_Models regexp_Compile NewSource).

(** The fields of the two handlers that are their own. *)
Record chat := mkChat {
  ch_fallbackChain : list string;
  ch_retryCfg : Retry.RetryConfig;
  ch_circuitCfg : Circuit.CircuitConfig;
  ch_circuits : gmap string Breaker;
  ch_hedgeCfg : hedgeConfig;
  ch_tokenAware : bool;
  ch_cacheTTL : Z;
}.
Record embeddings := mkEmbeddings {
  em_fallbackChain : list string;
  em_tokenAware : bool;
  em_retryCfg : Retry.RetryConfig;
  em_circuitCfg : Circuit.CircuitConfig;
  em_circuits : gmap string Breaker;
  em_cacheTTL : Z;
}.

Record gateway := mkGateway {
  g_registry : Reg;
  g_redis : RedisStore.Manager;
  g_limiter : limiter;
  g_overrides : OverrideStore;
  g_budget : budget;
  g_cache : option gcache;
  g_auth : gmap string Key;
  g_rateLimitEnabled : bool;
  g_readiness : ReadinessHandler;
  g_healthProviders : HealthOptions;
  g_chat : chat;
  g_embeddings : embeddings;
  g_cfg : Config;                        (** [currentCfg] *)
  g_fixed : fixed;
}.

(** The handlers as the requests see them, and a handler put back. *)
Definition chat_handler (g : gateway) : chatHandler :=
  let c := g_chat g in
  mkHandler (g_registry g) (ch_fallbackChain c) (ch_retryCfg c) (ch_circuitCfg c) (ch_circuits c) (ch_hedgeCfg c)
    (Some (g_limiter g)) (Some (g_overrides g)) (Some (g_budget g)) (ch_tokenAware c) (g_cache g) (ch_cacheTTL c).
Definition put_chat (h : chatHandler) (g : gateway) : gateway :=
  mkGateway (h_registry h) (g_redis g) (default (g_limiter g) (h_limiter h))
    (default (g_overrides g) (h_overrideStore h)) (default (g_budget g) (h_budgetMgr h)) (h_cache h) (g_auth g)
    (g_rateLimitEnabled g) (g_readiness g) (g_healthProviders g)
    (mkChat (h_fallbackChain h) (h_retryCfg h) (h_circuitCfg h) (h_circuits h) (h_hedgeCfg h) (h_tokenAware h) (h_cacheTTL h))
    (g_embeddings g) (g_cfg g) (g_fixed g).
Definition embed_handler (g : gateway) : embedHandler :=
  let e := g_embeddings g in
  mkEmbeddingsHandler (g_registry g) (em_fallbackChain e) (Some (g_limiter g)) (Some (g_overrides g))
    (em_tokenAware e) (em_retryCfg e) (em_circuitCfg e) (em_circuits e) (Some (g_budget g)) (g_cache g) (em_cacheTTL e).
Definition put_embed (h : embedHandler) (g : gateway) : gateway :=
  mkGateway (eh_registry h) (g_redis g) (default (g_limiter g) (eh_limiter h))
    (default (g_overrides g) (eh_overrides h)) (default (g_budget g) (eh_budgetMgr h)) (eh_cache h) (g_auth g)
    (g_rateLimitEnabled g) (g_readiness g) (g_healthProviders g) (g_chat g)
    (mkEmbeddings (eh_fallbackChain h) (eh_tokenAware h) (eh_retryCfg h) (eh_circuitCfg h) (eh_circuits h) (eh_cacheTTL h))
    (g_cfg g) (g_fixed g).
Definition on_chat (f : chatHandler -> chatHandler) (g : gateway) : gateway := put_chat (f (chat_handler g)) g.
Definition on_embed (f : embedHandler -> embedHandler) (g : gateway) : gateway := put_embed (f (embed_handler g)) g.

(** The flag of the semantic cache says that it has an embedder: it has one
    if the configuration names a model. *)
Definition buildCache (c : Config) (redis : RedisStore.Manager) : option gcache :=
  let k := Config.cf_Cache c in
  if negb (Config.ca_Enabled k) then None
  else
    let base := if RedisStore.Active redis then SharedRedis "cache:" else InMemory (empty_memory (Config.ca_MaxSize k)) in
    if Config.ca_SemanticEnabled k then
      if str_eqb (Config.ca_SemanticEmbeddingModel k) "" then Some (Plain base)
      else Some (Semantic_ (NewSemanticWithEmbedder base true (Config.ca_SemanticThreshold k) (Config.ca_SemanticTopK k)
             (Config.ca_SemanticMaxEntries k) true))
    else Some (Plain base).

Definition budget_config (c : Config) (catalog : Catalog) (m : budget) : budget :=
  match Config.rl_Budget (Config.cf_RateLimit c) with
  | None => Manager_UpdateConfig m false 0 0 0 (Some catalog)
  | Some b => Manager_UpdateConfig m (Config.bc_Enabled b) (Config.bc_MonthlyTokens b) (Config.bc_MonthlyUSD b)
                (Config.bc_CostPerTokenUSD b) (Some catalog)
  end.

(** *** Start *)
Inductive start_error := NoProvider (e : errorf) | NoPricing (e : PricingError).

(** The part of [main] that builds the gateway; [redis] is the manager after
    [ReplaceURL], whose failure is only logged. *)
Definition assemble (c : Config) (providers : list upstream) (redis : RedisStore.Manager) (catalog : Catalog)
    (started seed : Z) : gateway :=
  let weighted := buildWeighted c providers in
  let registry := if decide (weighted = ∅) then NewRegistryWithAliases up_Name up_Models regexp_Compile NewSource providers (Config.cf_ModelAliases c)
                  else NewReg providers (Config.cf_ModelAliases c) weighted in
  let registry := SetRandSeed NewSource registry seed in
  let r := Config.cf_RateLimit c in
  let limiter := NewRedisWithStore (Some redisStore) (Config.rl_RequestsPerMinute r) (Config.rl_Burst r) in
  let budgetMgr := budget_config c catalog (NewConfiguredWithStore false 0 0 0 (Some redisStore) (Some catalog)) in
  let overrides := OverrideStore_Reload (mkOverrideStore 0 0 []) (Config.rl_RequestsPerMinute r) (Config.rl_Burst r) (Config.rl_Overrides r) in
  let cacheInst := buildCache c redis in
  let ttl := Config.ca_TTL (Config.cf_Cache c) in
  let chat := NewHandlerWithCache up_Name registry (Config.cf_FallbackChain c) (retry_config c) (circuit_config c)
                (hedge_config c) (Some limiter) (Some overrides) (Some budgetMgr) (token_aware c) cacheInst ttl in
  let embed := NewEmbeddingsHandlerWithCache up_Name registry (Config.cf_FallbackChain c) (Some limiter) (Some overrides)
                 (token_aware c) (retry_config c) (circuit_config c) (Some budgetMgr) cacheInst ttl in
  mkGateway registry redis limiter overrides budgetMgr cacheInst (NewStore hashKey (Config.ac_Keys (Config.cf_Auth c)))
    (Config.rl_Enabled r) (NewReadinessHandlerWithOptions (Some (NewHealthHandler started)) (buildHealthOptions c))
    (normalizeHealthOptions (buildHealthOptions c))
    (mkChat (h_fallbackChain chat) (h_retryCfg chat) (h_circuitCfg chat) (h_circuits chat) (h_hedgeCfg chat)
       (h_tokenAware chat) (h_cacheTTL chat))
    (mkEmbeddings (eh_fallbackChain embed) (eh_tokenAware embed) (eh_retryCfg embed) (eh_circuitCfg embed)
       (eh_circuits embed) (eh_cacheTTL embed))
    c (fixed_by c).

Section world.
Context {Ctx W : Type} `{!JsonText, !Http Ctx W, !RedisStore.Dialer W}.

Definition boot (background : Ctx) (c : Config) (started seed : Z) (w : W) : W * result gateway start_error :=
  match buildProviders c with
  | Err e => (w, Err (NoProvider e))
  | Ok providers =>
      let '(w, providers) := discoverModels background providers w in
      let '(redis, w, _) := RedisStore.ReplaceURL (Config.rl_RedisURL (Config.cf_RateLimit c)) RedisStore.New w in
      match buildPricingCatalog c with
      | Err e => (w, Err (NoPricing e))
      | Ok catalog => (w, Ok (assemble c providers redis catalog started seed))
      end
  end.

(** *** Reload *)
Inductive apply_error :=
| ValidationFailed (e : errorf)
| ProviderBuildFailed (e : errorf)
| PricingFailed (e : PricingError)
| RedisFailed (e : RedisStore.redis_error).

(** [applyConfig] from where nothing can fail any more. *)
Definition take_over (newCfg : Config) (providers : list upstream) (redis : RedisStore.Manager) (catalog : Catalog)
    (g : gateway) : gateway :=
  let r := Config.cf_RateLimit newCfg in
  let registry := Registry_Reload up_Name up_Models regexp_Compile NewSource (g_registry g) providers
                    (Config.cf_ModelAliases newCfg) (buildWeighted newCfg providers) in
  let limiter := Redis_UpdateLimits (g_limiter g) (Config.rl_RequestsPerMinute r) (Config.rl_Burst r) in
  let overrides := OverrideStore_Reload (g_overrides g) (Config.rl_RequestsPerMinute r) (Config.rl_Burst r) (Config.rl_Overrides r) in
  let options := buildHealthOptions newCfg in
  let g := mkGateway registry redis limiter overrides (budget_config newCfg catalog (g_budget g)) (g_cache g)
             (Store_Reload hashKey (Config.ac_Keys (Config.cf_Auth newCfg))) (Config.rl_Enabled r)
             (SetOptions (g_readiness g) options) (normalizeHealthOptions options) (g_chat g) (g_embeddings g)
             (g_cfg g) (g_fixed g) in
  let newCache := buildCache newCfg redis in
  let newCacheTTL := Config.ca_TTL (Config.cf_Cache newCfg) in
  let g := on_chat (fun h => SetCache h newCache newCacheTTL) g in
  let g := on_embed (fun h => eh_SetCache h newCache newCacheTTL) g in
  let g := on_chat (fun h => SetRetryConfig h (retry_config newCfg)) g in
  let g := on_chat (fun h => SetCircuitConfig h (circuit_config newCfg)) g in
  let g := on_chat (fun h => SetHedgeConfig h (hedge_config newCfg)) g in
  let g := on_chat (fun h => SetTokenAware h (token_aware newCfg)) g in
  let g := on_embed (fun h => eh_SetTokenAware h (token_aware newCfg)) g in
  let g := on_embed (fun h => SetResilience up_Name h (retry_config newCfg) (circuit_config newCfg)) g in
  let g := on_chat (fun h => SetFallbackChain h (Config.cf_FallbackChain newCfg)) g in
  let g := on_embed (fun h => eh_SetFallbackChain h (Config.cf_FallbackChain newCfg)) g in
  mkGateway (g_registry g) (g_redis g) (g_limiter g) (g_overrides g) (g_budget g) (g_cache g) (g_auth g)
    (g_rateLimitEnabled g) (g_readiness g) (g_healthProviders g) (g_chat g) (g_embeddings g) newCfg (g_fixed g).

(** The state while it runs: [applyMu] makes it one step. *)
Definition applyConfig (background : Ctx) (newCfg : Config) (g : gateway) (w : W) : gateway * W * option apply_error :=
  match Config.Validate newCfg with
  | Some e => (g, w, Some (ValidationFailed e))
  | None =>
      match buildProviders newCfg with
      | Err e => (g, w, Some (ProviderBuildFailed e))
      | Ok providers =>
          let '(w, providers) := discoverModels background providers w in
          match buildPricingCatalog newCfg with
          | Err e => (g, w, Some (PricingFailed e))
          | Ok catalog =>
              match RedisStore.ReplaceURL (Config.rl_RedisURL (Config.cf_RateLimit newCfg)) (g_redis g) w with
              | (_, w, Some e) => (g, w, Some (RedisFailed e))
              | (redis, w, None) => (take_over newCfg providers redis catalog g, w, None)
              end
          end
      end
  end.
End world.
End gateway.

(** ** What validation is for *)

(** The catalog of validated rules passes the checks of [NewCatalog]. *)
Lemma check_rules_wf i rules : Forall Config.rule_wf rules -> check_rules i (to_rule <$> rules) = Ok tt.
Proof.
  intros Hr. revert i. induction Hr as [|r rules (Hp & Hm & Hi & Ho & He & Hs) _ IH]; intros i; [done|].
  csimpl. unfold check_rule. simpl. rewrite !(str_eqb_ne _ "") by done. simpl.
  replace (_ <? 0) with false by lia. replace (Config.pr_Output r <? 0) with false by lia.
  replace (Config.pr_Embedding r <? 0) with false by lia. simpl.
  destruct (_ && _) eqn:E; [lia|]. apply IH.
Qed.

(** What [Validate] leaves open: the price per token of a budget that is
    switched off, and the sum of the weights of a model. *)
Definition prices_nonneg (c : Config) : Prop :=
  forall b, Config.rl_Budget (Config.cf_RateLimit c) = Some b -> 0 <= Config.bc_CostPerTokenUSD b.
Definition weights_fit (c : Config) : Prop :=
  map_Forall (fun _ es => sum_with Config.wt_Weight es <= max_int64) (Config.ro_Weighted (Config.cf_Routing c)).

Lemma to_rules_eq rules : foldl (fun rs rule => rs ++ [to_rule rule]) [] rules = to_rule <$> rules.
Proof.
  apply (foldl_prefix_inv _ (fun l rs => rs = to_rule <$> l)); [done|]. intros l x rs ->. by rewrite fmap_app.
Qed.

Lemma NewCatalog_priced rules cost p :
  Config.pricing_wf p -> 0 <= cost -> rules = to_rule <$> Config.pg_Catalog p ->
  exists catalog, NewCatalog rules cost (Config.pg_Currency p) (Config.pg_Version p) (Config.pg_UnknownModelPolicy p) = Ok catalog.
Proof.
  intros (Hc & Hu & Hr) Hcost ->. unfold NewCatalog. replace (cost <? 0) with false by lia. cbv zeta.
  rewrite check_rules_wf by done.
  assert (EqualFold (if str_eqb (Config.pg_Currency p) "" then DefaultCurrency else Config.pg_Currency p) DefaultCurrency = true) as ->.
  { rewrite !elem_of_cons, elem_of_nil in Hc. by destruct Hc as [->|[->|[]]]. }
  rewrite !elem_of_cons, elem_of_nil in Hu. destruct Hu as [->|[->|[->|[]]]]; simpl; by eexists.
Qed.

Lemma valid_priced c : config_wf c -> prices_nonneg c -> exists catalog, buildPricingCatalog c = Ok catalog.
Proof.
  intros Hwf Hp. unfold buildPricingCatalog. destruct (Config.rl_Budget _) as [b|] eqn:Eb.
  - rewrite to_rules_eq. apply NewCatalog_priced; [by apply (Config.wf_budget _ Hwf)|by apply Hp|done].
  - destruct (NewCatalog_priced [] (f64_const 1 100000) (Config.mkPricingConfig DefaultCurrency "" UnknownUseFallback []))
      as [catalog Hc]; [|by vm_compute|done|by exists catalog].
    split_and!; [|set_solver|constructor]. by right; left.
Qed.

(** The entries [buildWeighted] keeps are entries of the configuration. *)
Lemma buildWeighted_weights c ps : config_wf c -> weights_fit c -> config_ok (buildWeighted c ps).
Proof.
  intros Hwf Hfit k we. unfold buildWeighted. rewrite lookup_omap.
  destruct (_ !! k) as [es|] eqn:Ek; [|done]. simpl.
  pose proof (Config.wf_weighted _ Hwf k es Ek) as (_ & _ & Hes & _). specialize (Hfit k es Ek). cbv beta in Hfit.
  match goal with |- context [foldl ?f [] es] => set (step := f) end.
  assert (Forall (fun w => 0 <= wc_Weight w) (foldl step [] es) /\
          sum_with wc_Weight (foldl step [] es) <= sum_with Config.wt_Weight es) as [Hf Hs].
  { revert Hes. clear Ek Hfit. apply (foldl_prefix_inv _ (fun es we => Forall _ es -> Forall (fun w => 0 <= wc_Weight w) we /\
      sum_with wc_Weight we <= sum_with Config.wt_Weight es)); [by split; [constructor|]|].
    intros l e acc IH [Hl He]%list.Forall_app. destruct (IH Hl) as [Hf Hs]. rewrite sum_with_app.
    apply list.Forall_singleton in He as (_ & _ & He). unfold step. simpl.
    destruct (negb _); [split; [done|lia]|]. rewrite list.Forall_app, sum_with_app, list.Forall_singleton. simpl.
    split; [split; [done|lia]|lia]. }
  destruct (foldl step [] es) as [|w ws]; [done|]. intros [= <-]. split; [done|lia].
Qed.

(** ** Reloading *)
Section reload.
Context {Rng Store : Type} (regexp_Compile : string -> option regexp) (NewSource : Z -> Rng) (hashKey : string -> string).
Context (redisStore : Store).
Abbreviation gw := (gateway (Rng := Rng) (Store := Store)).
Abbreviation NewReg := (NewRegistryWithWeighted up_Name up_Models regexp_Compile NewSource).
Abbreviation started_as := (assemble regexp_Compile NewSource hashKey redisStore).
Abbreviation taken_over := (take_over regexp_Compile NewSource hashKey).
Implicit Types (g : gw) (c : Config).

Lemma started_registry c ps redis catalog started seed :
  g_registry (started_as c ps redis catalog started seed) =
  with_rnd (NewReg ps (Config.cf_ModelAliases c) (buildWeighted c ps)) (NewSource seed).
Proof. unfold assemble. simpl. unfold SetRandSeed. by destruct (decide _) as [->|]. Qed.

Lemma taken_registry c ps redis catalog g :
  g_registry (taken_over c ps redis catalog g) =
  with_rnd (NewReg ps (Config.cf_ModelAliases c) (buildWeighted c ps)) (rg_rnd (g_registry g)).
Proof. done. Qed.

(** What a gateway has of its configuration, in two parts: the settings that a
    reload replaces, and what [main] sets up once.  The limits are looked at
    only while rate limiting is on. *)
Definition limits (l : RedisLimiter (Store := Store)) :=
  (rl_rate l, rl_burst l, lm_rate (rl_fallback l), lm_burst (rl_fallback l)).
Definition limits_in_force g :=
  if Config.rl_Enabled (Config.cf_RateLimit (g_cfg g)) then Some (limits (g_limiter g)) else None.
Definition budget_limits (m : Budget.Manager (Store := Store)) :=
  (m_enabled m, m_tokens m, m_usd m, m_costPerTokenUSD m, m_catalog m).
Definition routes (r : Registry (P := upstream) (Rng := Rng)) :=
  (rg_byName r, rg_byModel r, rg_order r, rg_aliases r, rg_weighted r, rg_patterns r).
Definition base_shape (b : base_cache) := match b with InMemory m => inl (mm_maxSize (`m)) | SharedRedis p => inr p end.
Definition cache_shape (c : any_cache base_cache) :=
  match c with
  | Plain b => (base_shape b, None)
  | Semantic_ s => (base_shape (sm_exact s), Some (sm_enabled s, sm_threshold s, sm_topK s, sm_maxEntries s, sm_embed s))
  end.
Definition chat_settings (c : chat) :=
  (ch_fallbackChain c, ch_retryCfg c, ch_circuitCfg c, ch_hedgeCfg c, ch_tokenAware c, ch_cacheTTL c).
Definition embed_settings (e : embeddings) :=
  (em_fallbackChain e, em_tokenAware e, em_retryCfg e, em_circuitCfg e, em_cacheTTL e).
Definition settings g :=
  (routes (g_registry g), limits_in_force g, g_overrides g, budget_limits (g_budget g), cache_shape <$> g_cache g,
   g_auth g, (g_rateLimitEnabled g, rh_options (g_readiness g), g_healthProviders g),
   chat_settings (g_chat g), embed_settings (g_embeddings g), g_cfg g).
Definition in_force g := (settings g, g_fixed g).

(** What requests build up that a reload starts afresh. *)
Definition fresh_parts g := (g_cache g, rh_last (g_readiness g)).

(** What requests build up that a reload keeps, and what [main] set up once. *)
Definition carried g :=
  (lm_shards (rl_fallback (g_limiter g)), rl_degraded (g_limiter g), rl_store (g_limiter g),
   m_mem (g_budget g), m_redisStore (g_budget g), rh_health (g_readiness g), rg_rnd (g_registry g), g_fixed g).

Lemma taken_settings c ps redis catalog g started seed :
  config_wf c ->
  settings (taken_over c ps redis catalog g) = settings (started_as c ps redis catalog started seed).
Proof.
  intros Hwf. unfold settings. rewrite taken_registry, started_registry.
  assert (limits_in_force (taken_over c ps redis catalog g) =
          limits_in_force (started_as c ps redis catalog started seed)) as ->.
  { destruct (Config.wf_rate_limit _ Hwf) as (_ & _ & Hp & _).
    unfold limits_in_force, take_over, assemble, limits, Redis_UpdateLimits; cbn. unfold UpdateLimits.
    destruct (Config.rl_Enabled _); [|done]. destruct Hp as [Hr Hb]; [done|].
    replace (_ <=? 0) with false by lia. replace (Config.rl_Burst _ <=? 0) with false by lia. cbn.
    replace (0 <? Config.rl_RequestsPerMinute _) with true by lia.
    by replace (0 <? Config.rl_Burst _) with true by lia. }
  assert (budget_limits (g_budget (taken_over c ps redis catalog g)) =
          budget_limits (g_budget (started_as c ps redis catalog started seed))) as ->; [|done].
  unfold take_over, assemble, budget_config; cbn. by destruct (Config.rl_Budget _).
Qed.

Lemma taken_fresh c ps redis catalog g started seed :
  fresh_parts (taken_over c ps redis catalog g) = fresh_parts (started_as c ps redis catalog started seed).
Proof. done. Qed.

Lemma taken_fixed c ps redis catalog g : g_fixed (taken_over c ps redis catalog g) = g_fixed g.
Proof. done. Qed.

(** A reload is a restart for a configuration that asks for nothing else of
    what is set up once, and for no other. *)
Lemma taken_in_force c ps redis catalog g started seed :
  config_wf c ->
  in_force (taken_over c ps redis catalog g) = in_force (started_as c ps redis catalog started seed) <->
  g_fixed g = fixed_by c.
Proof.
  intros Hwf. unfold in_force. rewrite (taken_settings c ps redis catalog g started seed Hwf), taken_fixed.
  change (g_fixed (started_as c ps redis catalog started seed)) with (fixed_by c).
  split; [by intros [= ->]|by intros ->].
Qed.

Lemma taken_carried c ps redis catalog g :
  carried (taken_over c ps redis catalog g) = carried g.
Proof.
  unfold carried, take_over; cbn. unfold Redis_UpdateLimits, budget_config.
  by destruct (_ || _), (Config.rl_Budget _).
Qed.

(** The breakers after a reload: those of the chat handler all stay, those of
    the embeddings handler are the providers', and each one that stays keeps
    its state. *)
Lemma SetResilience_circuits {L B C : Type} (h : EmbeddingsHandler upstream Rng L B C) retryCfg cfg n :
  (forall n, is_Some (rg_byName (eh_registry h) !! n) <-> n ∈ up_Name <$> rg_order (eh_registry h)) ->
  eh_circuits (SetResilience up_Name h retryCfg cfg) !! n =
    if decide (n ∈ up_Name <$> rg_order (eh_registry h))
    then Some (from_option (Breaker_UpdateConfig cfg) (NewBreaker cfg) (eh_circuits h !! n)) else None.
Proof.
  intros Hreg. unfold SetResilience, Registry_Get, Registry_All; cbn [eh_circuits].
  set (kept := map_imap _ _).
  assert (forall (ps : list upstream) (m : gmap string Breaker), foldl (fun m p => match m !! up_Name p with Some _ => m | None => <[up_Name p:=NewBreaker cfg]> m end) m ps !! n =
    match m !! n with Some b => Some b | None => if decide (n ∈ up_Name <$> ps) then Some (NewBreaker cfg) else None end) as Hf.
  { induction ps as [|p ps IH]; intros m; cbn [foldl]; [by destruct (m !! n)|]. rewrite IH. csimpl.
    destruct (decide (up_Name p = n)) as [->|Hne].
    - rewrite (decide_True (P := n ∈ n :: _)) by by left. destruct (m !! n) eqn:E; [by rewrite E|]. by rewrite lookup_insert_eq.
    - assert ((match m !! up_Name p with Some _ => m | None => <[up_Name p:=NewBreaker cfg]> m end) !! n = m !! n) as ->
        by (destruct (m !! up_Name p); by rewrite ?lookup_insert_ne).
      destruct (m !! n); [done|]. apply decide_ext. rewrite elem_of_cons. intuition congruence. }
  rewrite Hf. unfold kept. rewrite map_lookup_imap.
  destruct (eh_circuits h !! n) as [b|], (rg_byName (eh_registry h) !! n) as [p|] eqn:E; simpl;
    destruct (decide _) as [Hd|Hd]; try done; exfalso; specialize (Hreg n); rewrite E in Hreg; naive_solver.
Qed.

Lemma built_names ps al wc n :
  is_Some (rg_byName (NewReg ps al wc) !! n) <-> n ∈ up_Name <$> rg_order (NewReg ps al wc).
Proof.
  destruct (Build_registry up_Name up_Models regexp_Compile NewSource ps al wc) as [Hr _].
  rewrite (ro_order _ _ _ _ _ Hr), (ro_byName _ _ _ _ _ Hr), list.last_is_Some, list_elem_of_fmap. split.
  - intros Hne. destruct (filter _ ps) as [|p l] eqn:E; [done|].
    assert (p ∈ filter (fun p => up_Name p = n) ps) as [<- Hp]%list_elem_of_filter by (rewrite E; by left). eauto.
  - intros (p & -> & Hp) E. assert (p ∈ filter (fun q => up_Name q = up_Name p) ps) as Hin by by apply list_elem_of_filter.
    rewrite E in Hin. by apply elem_of_nil in Hin.
Qed.

Lemma taken_embed_circuits c ps redis catalog g n :
  em_circuits (g_embeddings (taken_over c ps redis catalog g)) !! n =
    if decide (n ∈ up_Name <$> ps)
    then Some (from_option (Breaker_UpdateConfig (circuit_config c)) (NewBreaker (circuit_config c))
                 (em_circuits (g_embeddings g) !! n))
    else None.
Proof.
  pose proof (SetResilience_circuits (eh_with_registry (embed_handler g) (g_registry (taken_over c ps redis catalog g)))
    (retry_config c) (circuit_config c) n) as Hs.
  rewrite taken_registry in Hs. specialize (Hs (built_names _ _ _)).
  destruct (Build_registry up_Name up_Models regexp_Compile NewSource ps (Config.cf_ModelAliases c) (buildWeighted c ps))
    as [[Ho _ _ _] _].
  cbn [eh_registry eh_with_registry with_rnd rg_order] in Hs. rewrite Ho in Hs. exact Hs.
Qed.

End reload.

(** ** The control plane

    Everything that changes the configuration of a running gateway: the admin
    API, the signal and the file watcher, while requests are served. *)
Section control.
Context {Rng Store : Type} (regexp_Compile : string -> option regexp) (NewSource : Z -> Rng) (hashKey : string -> string).
Context (redisStore : Store) {Ctx W : Type}.
Context `{!JsonText, !Http Ctx W, !RedisStore.Dialer W, !Config.ConfigFile W}.
Context (background : Ctx).
(** The text of an error of [applyConfig], and the decoder of the payload of
    a patch. *)
Context (Error : apply_error -> errorf).
Context (decode_patch : string -> result Admin.AdminPatch string) (decode_rest : string -> option (result unit string)).
Abbreviation gw := (gateway (Rng := Rng) (Store := Store)).
Abbreviation apply := (applyConfig regexp_Compile NewSource hashKey background).
Abbreviation started_as := (assemble regexp_Compile NewSource hashKey redisStore).
Abbreviation adminServer := (Admin.Server (P := upstream)).
Abbreviation live_state := (adminServer * (gw * W))%type.

(** The files are in the world beside the gateway. *)
#[local] Instance gateway_file : Config.ConfigFile (gw * W) := {|
  Config.LookupEnv x := Config.LookupEnv x.2;
  Config.ReadFile x := Config.ReadFile x.2;
  Config.yaml_First := Config.yaml_First (W := W);
  Config.yaml_Rest := Config.yaml_Rest (W := W);
  Config.yaml_roundtrip := Config.yaml_roundtrip (W := W);
  Config.ModTime x := Config.ModTime x.2;
|}.

(** [applyConfig] with the admin server brought in line: its configuration,
    and the providers of the registry it shares. *)
Definition apply_and_sync : Admin.apply_fn (W := gw * W) (P := upstream) :=
  fun newCfg '(s, (g, w)) =>
    match apply newCfg g w with
    | (g, w, Some e) => ((s, (g, w)), Some (Error e))
    | (g, w, None) =>
        let s := Admin.SetConfig s (Config.Clone (W := W) newCfg) in
        ((Admin.mkServer (Admin.sr_configPath s) (Admin.sr_apiKey s) (Admin.sr_cfg s)
            (Some (Registry_All (g_registry g))) (Admin.sr_getProviders s), (g, w)), None)
    end.

Definition admin_call (protect : bool) (r : Admin.admin_request) (st : live_state) : live_state * Admin.answer :=
  Admin.Handler up_Name up_Models decode_patch decode_rest (Some apply_and_sync) protect r st.

(** What SIGHUP and the watcher do; the watcher does it when the file is
    newer. *)
Definition reread (st : live_state) : live_state :=
  match Config.Load st.2 (Admin.sr_configPath st.1) with
  | Err _ => st
  | Ok newCfg => (apply_and_sync newCfg st).1
  end.

(** [main] up to where it serves. *)
Definition start (configPath : string) (started seed : Z) (w : W) : option live_state :=
  match Config.Load w configPath with
  | Err _ => None
  | Ok cfg =>
      match boot regexp_Compile NewSource hashKey redisStore background cfg started seed w with
      | (_, Err _) => None
      | (w, Ok g) =>
          let key := Config.ad_APIKey (Config.cf_Admin cfg) in
          let key := if str_eqb key "" then Config.Getenv (Config.LookupEnv w) "ADMIN_API_KEY" else key in
          Some (Admin.New key configPath (Some cfg) (Some (Registry_All (g_registry g))) None, (g, w))
      end
  end.

(** What serving requests changes: draws, buckets, usage, cached entries,
    breakers and the last readiness snapshot. *)
Record built_up := mkBuiltUp {
  bu_rnd : Rng;
  bu_shards : list shard;
  bu_degraded : bool;
  bu_usage : gmap string usage;
  bu_cache : option (any_cache base_cache);
  bu_last : option readinessSnapshot;
  bu_chat_circuits : gmap string Breaker;
  bu_embed_circuits : gmap string Breaker;
}.
Definition build_up (b : built_up) (g : gw) : gw :=
  let l := g_limiter g in
  let m := g_budget g in
  let c := g_chat g in
  let e := g_embeddings g in
  mkGateway (with_rnd (g_registry g) (bu_rnd b)) (g_redis g)
    (mkRedisLimiter (rl_store l) (rl_rate l) (rl_burst l)
       (mkLimiter (bu_shards b) (lm_rate (rl_fallback l)) (lm_burst (rl_fallback l)) (lm_ttl (rl_fallback l)))
       (bu_degraded b))
    (g_overrides g)
    (Budget.mkManager (bu_usage b) (m_redisStore m) (m_enabled m) (m_tokens m) (m_usd m) (m_costPerTokenUSD m) (m_catalog m))
    (bu_cache b) (g_auth g) (g_rateLimitEnabled g)
    (mkReadinessHandler (rh_health (g_readiness g)) (rh_options (g_readiness g)) (bu_last b)) (g_healthProviders g)
    (mkChat (ch_fallbackChain c) (ch_retryCfg c) (ch_circuitCfg c) (bu_chat_circuits b) (ch_hedgeCfg c)
       (ch_tokenAware c) (ch_cacheTTL c))
    (mkEmbeddings (em_fallbackChain e) (em_tokenAware e) (em_retryCfg e) (em_circuitCfg e) (bu_embed_circuits b)
       (em_cacheTTL e))
    (g_cfg g) (g_fixed g).

Lemma build_up_settings b g : cache_shape <$> bu_cache b = cache_shape <$> g_cache g -> settings (build_up b g) = settings g.
Proof. intros Hc. unfold settings. cbn. by rewrite Hc. Qed.

(** The steps; the world moves on with the requests. *)
Inductive step : live_state -> live_state -> Prop :=
| admin_step protect r st : step st (admin_call protect r st).1
| reread_step st : step st (reread st)
| traffic_step s g w w' b : cache_shape <$> bu_cache b = cache_shape <$> g_cache g ->
    step (s, (g, w)) (s, (build_up b g, w')).

Definition reachable (configPath : string) (st : live_state) : Prop :=
  exists started seed w st0, start configPath started seed w = Some st0 /\ rtc step st0 st.

(** *** One reload *)

Lemma Load_lifted (x : gw * W) path : Config.Load x path = Config.Load x.2 path.
Proof. done. Qed.

(** Why a configuration is refused. *)
Definition refused (c : Config) (g : gw) (e : apply_error) : Prop :=
  match e with
  | ValidationFailed e => Config.Validate c = Some e
  | ProviderBuildFailed e => config_wf c /\ buildProviders c = Err e
  | PricingFailed e => config_wf c /\ buildPricingCatalog c = Err e
  | RedisFailed e => config_wf c /\
      exists w, (RedisStore.ReplaceURL (Config.rl_RedisURL (Config.cf_RateLimit c)) (g_redis g) w).2 = Some e
  end.

(** The outcome of a reload. *)
Lemma applyConfig_outcome c (g : gw) w :
  match apply c g w with
  | (g', _, Some e) => g' = g /\ refused c g e
  | (g', _, None) =>
      config_wf c /\
      exists configured providers redis catalog,
        buildProviders c = Ok configured /\ up_Name <$> providers = up_Name <$> configured /\
        buildPricingCatalog c = Ok catalog /\ g' = take_over regexp_Compile NewSource hashKey c providers redis catalog g
  end.
Proof.
  unfold applyConfig. destruct (Config.Validate c) as [e|] eqn:Ev; [done|]. apply Config.Validate_accepts in Ev.
  destruct (buildProviders c) as [configured|e] eqn:Ep; [|by split].
  destruct (discoverModels background configured w) as [w1 ps] eqn:Ed.
  pose proof (discoverModels_names background configured w) as Hn. rewrite Ed in Hn.
  destruct (buildPricingCatalog c) as [catalog|e] eqn:Ec; [|by split].
  destruct (RedisStore.ReplaceURL _ _ _) as [[redis w2] [e|]] eqn:Er.
  - split; [done|]. split; [done|]. exists w1. by rewrite Er.
  - split; [done|]. by exists configured, ps, redis, catalog.
Qed.

Lemma apply_and_sync_all_or_nothing : Admin.all_or_nothing (Some apply_and_sync) fst.
Proof.
  intros f c [s [g w]] [= <-]. unfold apply_and_sync. pose proof (applyConfig_outcome c g w) as Ho.
  destruct (apply c g w) as [[g' w'] [e|]]; [|done]. by destruct Ho as [-> _].
Qed.

Lemma taken_redis c ps redis catalog (g : gw) : g_redis (take_over regexp_Compile NewSource hashKey c ps redis catalog g) = redis.
Proof. done. Qed.

(** *** The invariant *)

(** The gateway runs the configuration [c]: the settings are those it would have
    been started with. *)
Definition runs (c : Config) (g : gw) : Prop :=
  config_wf c /\ g_cfg g = c /\
  exists configured providers catalog,
    buildProviders c = Ok configured /\ up_Name <$> providers = up_Name <$> configured /\
    buildPricingCatalog c = Ok catalog /\
    forall started seed, settings g = settings (started_as c providers (g_redis g) catalog started seed).

Lemma apply_runs c (g : gw) w : let '(g', _, e) := apply c g w in e = None -> runs c g'.
Proof.
  pose proof (applyConfig_outcome c g w) as Ho. destruct (apply c g w) as [[g' w'] e]. intros ->.
  destruct Ho as (Hwf & configured & ps & redis & catalog & Hb & Hn & Hc & ->).
  split; [done|]. split; [done|]. exists configured, ps, catalog. do 3 (split; [done|]). intros started seed.
  rewrite taken_redis. by apply taken_settings.
Qed.

Definition shown_inv (st : live_state) : Prop := runs (Admin.sr_cfg st.1) st.2.1.

Lemma start_inv configPath started seed w st : start configPath started seed w = Some st -> shown_inv st.
Proof.
  unfold start. destruct (Config.Load w configPath) as [cfg|] eqn:El; [|done].
  apply Config.Load_spec in El as [Hr _]. unfold boot.
  destruct (buildProviders cfg) as [configured|] eqn:Eb; [|done].
  pose proof (discoverModels_names background configured w) as Hn. destruct (discoverModels _ _ _) as [w1 ps].
  destruct (RedisStore.ReplaceURL _ _ _) as [[redis w2] e]. destruct (buildPricingCatalog cfg) as [catalog|] eqn:Ec; [|done].
  intros [= <-]. split; [apply Hr|]. split; [done|]. by exists configured, ps, catalog.
Qed.

Hypothesis clone : Admin.clone_copies (W := W).

Lemma apply_and_sync_inv c st : (apply_and_sync c st).2 = None ->
  Admin.sr_cfg (apply_and_sync c st).1.1 = c /\ shown_inv (apply_and_sync c st).1.
Proof.
  destruct st as [s [g w]]. unfold apply_and_sync, shown_inv, Config.Clone. pose proof (apply_runs c g w) as Hr.
  destruct (apply c g w) as [[g' w'] [e|]]; [done|]. intros _. cbn. rewrite clone. split; [done|]. by apply Hr.
Qed.

Lemma apply_and_sync_keeps c st : shown_inv st -> shown_inv (apply_and_sync c st).1.
Proof.
  intros Hi. destruct (apply_and_sync c st).2 as [e|] eqn:E; [|by apply apply_and_sync_inv].
  pose proof (apply_and_sync_all_or_nothing _ c st eq_refl) as Ha. destruct (apply_and_sync c st) as [st' e']. simpl in E. subst.
  destruct st' as [s' x'], Ha as [Hs Hg]. unfold shown_inv. cbn [fst snd] in *. by rewrite Hs, Hg.
Qed.

Lemma control_step_inv st st' : step st st' -> shown_inv st -> shown_inv st'.
Proof.
  intros [protect r st0|st0|s g w w' b Hf] Hi.
  - unfold admin_call. destruct (Admin.Handler _ _ _ _ _ _ _ _) as [st1 [code body]] eqn:E.
    destruct (Admin.admin_outcome _ _ _ _ _ fst _ _ _ _ _ _ apply_and_sync_all_or_nothing E)
      as [[Hs Hg]|(_ & _ & _ & _ & Hw & Hok)]; unfold shown_inv; cbn [fst snd] in *.
    + by rewrite Hs, Hg.
    + specialize (Hok _ eq_refl). destruct (apply_and_sync_inv _ _ Hok) as [Hc Hinv].
      unfold shown_inv in Hinv. rewrite Hc in Hinv. by rewrite Hw.
  - unfold reread. destruct (Config.Load _ _) as [c|]; [|done]. by apply apply_and_sync_keeps.
  - destruct Hi as (Hwf & Hc & configured & ps & catalog & Hb & Hn & Hp & Hall). unfold shown_inv, runs. cbn [fst snd] in *. split; [done|].
    split; [done|]. exists configured, ps, catalog. do 3 (split; [done|]). intros started seed. by rewrite build_up_settings.
Qed.

Lemma control_reachable_inv configPath st : reachable configPath st -> shown_inv st.
Proof.
  intros (started & seed & w & st0 & Hs & Hr). apply start_inv in Hs.
  induction Hr as [|st1 st2 st3 H12 _ IH]; [done|]. apply IH. by eapply control_step_inv.
Qed.

End control.


(** C18. What [Validate] accepts runs: as long as no price per token is negative
    and no weights overflow, the price catalog is built, so a reload is only
    refused for its providers or for Redis, and no request makes the router
    of a gateway that was started or reloaded with it panic. *)
Theorem valid_config_runs {Rng Store Ctx W : Type} `{!JsonText, !Http Ctx W, !RedisStore.Dialer W}
    (regexp_Compile : string -> option regexp) (NewSource : Z -> Rng) (Intn : Rng -> Z -> Rng * Z)
    (hashKey : string -> string) (redisStore : Store) (background : Ctx) c :
  intn_ok Intn -> Config.Validate c = None -> prices_nonneg c -> weights_fit c ->
  (forall (g : gateway (Rng := Rng) (Store := Store)) w,
     match (applyConfig regexp_Compile NewSource hashKey background c g w).2 with
     | Some (ValidationFailed _) | Some (PricingFailed _) => False
     | _ => True
     end) /\
  (forall providers redis catalog started seed model (g : gateway (Rng := Rng) (Store := Store)) r rnd,
     r = g_registry (assemble regexp_Compile NewSource hashKey redisStore c providers redis catalog started seed) \/
     r = g_registry (take_over regexp_Compile NewSource hashKey c providers redis catalog g) ->
     match (Resolve regexp_Compile Intn (with_rnd r rnd) model).2 with
     | Ok p => p ∈ providers
     | Err e => e = ErrNoProvider model
     end).
Proof.
  intros Hi Hv Hp Hw. pose proof (proj1 (Config.Validate_accepts c) Hv) as Hwf. split.
  - intros g w. pose proof (applyConfig_outcome regexp_Compile NewSource hashKey background c g w) as Ho.
    destruct (applyConfig _ _ _ _ _ _ _) as [[g' w'] [e|]]; [|done]. destruct Ho as [_ Hr].
    destruct (valid_priced c Hwf Hp) as [catalog Hc]. destruct e as [e|e|e|e]; simpl in *; [congruence|done| |done].
    destruct Hr as [_ Hr]. congruence.
  - intros ps redis catalog started seed model g r rnd Hr.
    assert (exists rnd0, r = with_rnd (NewRegistryWithWeighted up_Name up_Models regexp_Compile NewSource ps
      (Config.cf_ModelAliases c) (buildWeighted c ps)) rnd0) as [rnd0 ->].
    { destruct Hr as [->| ->]; [rewrite started_registry|rewrite taken_registry]; by eexists. }
    pose proof (Resolve_outcome up_Name up_Models regexp_Compile NewSource Intn ps (Config.cf_ModelAliases c)
      (buildWeighted c ps) model rnd Hi (buildWeighted_weights c ps Hwf Hw)) as Ho. cbv zeta in Ho.
    match type of Ho with match (Resolve _ _ ?r1 _).2 with _ => _ end => change r1 with (with_rnd (with_rnd (NewRegistryWithWeighted up_Name up_Models regexp_Compile NewSource ps
      (Config.cf_ModelAliases c) (buildWeighted c ps)) rnd0) rnd) in Ho end.
    destruct (Resolve _ _ _ _).2 as [p|[m|]]; [done| |done]. by destruct Ho as [-> _].
Qed.

(** The configuration that [GET /admin/config] shows is the one that is in
    force: whatever admin requests, signals, changes of the file and requests
    a gateway has seen since it was started, and whichever of the reloads
    were refused, it runs the configuration its admin server holds, which
    [Validate] accepts, with the settings it would have been started with. *)
Theorem admin_shows_running {Rng Store Ctx W : Type} `{!JsonText, !Http Ctx W, !RedisStore.Dialer W, !Config.ConfigFile W}
    (regexp_Compile : string -> option regexp) (NewSource : Z -> Rng) (hashKey : string -> string) (redisStore : Store)
    (background : Ctx) (Error : apply_error -> errorf) decode_patch decode_rest configPath s (g : gateway (Rng := Rng)) (w : W) :
  Admin.clone_copies (W := W) ->
  reachable regexp_Compile NewSource hashKey redisStore background Error decode_patch decode_rest configPath (s, (g, w)) ->
  g_cfg g = Admin.sr_cfg s /\ Config.Validate (Admin.sr_cfg s) = None /\
  exists configured providers catalog,
    buildProviders (Admin.sr_cfg s) = Ok configured /\ up_Name <$> providers = up_Name <$> configured /\
    buildPricingCatalog (Admin.sr_cfg s) = Ok catalog /\
    forall started seed, settings g =
      settings (assemble regexp_Compile NewSource hashKey redisStore (Admin.sr_cfg s) providers (g_redis g) catalog started seed).
Proof.
  intros Hclone Hr. apply control_reachable_inv in Hr as (Hwf & Hc & Hex); [|exact Hclone].
  split; [exact Hc|]. split; [by apply Config.Validate_accepts|exact Hex].
Qed.

(** ** Examples *)

(** A world of one file and of a Redis that answers or does not. *)
Record ex_disk := mkDisk { xd_file : string; xd_redis : bool }.

Definition ex_key (k : string) : APIKeyConfig := mkAPIKeyConfig k "team" [] None.
Definition ex_config (burst : Z) (redis : string) (auth : bool) (budget : option Config.BudgetConfig)
    (weights : gmap string (list Config.WeightedEntry)) : Config :=
  Config.setDefaults (fun _ => None) (Config.mkConfig (Config.mkServerConfig 0 0 0)
    {["openai" := Config.mkProviderConfig "sk" "https://o" 0 ["gpt-4o"]]} ["openai"]
    (Config.mkRateLimitConfig true 0 burst redis false [] budget) (Config.mkLoggingConfig "" "") (Config.mkCORSConfig [])
    (Config.mkAuthConfig auth [ex_key "key"])
    (Config.mkResilienceConfig (Config.mkRetryCfg 0 0 0) (Config.mkCircuitCfg 0 0) (Config.mkHedgeCfg false 0)) ∅
    (Config.mkCacheConfig true 0 0 false 0 "" 0 0) (Config.mkHealthConfig 0 0 0 false) (Config.mkRoutingConfig weights)
    (Config.mkAdminConfig 0 "k")).

#[local] Instance ex_files : Config.ConfigFile ex_disk := {|
  Config.LookupEnv _ _ := None;
  Config.ReadFile w _ := Ok (xd_file w);
  Config.yaml_First text :=
    if str_eqb text "plain" then Ok (ex_config 10 "" false None ∅)
    else if str_eqb text "auth" then Ok (ex_config 20 "" true None ∅)
    else if str_eqb text "redis" then Ok (ex_config 20 "redis://r" false None ∅)
    else Err "not YAML";
  Config.yaml_Rest _ := None;
  Config.yaml_roundtrip c := c;
  Config.ModTime _ _ := None;
|}.
#[local] Instance ex_dialer : RedisStore.Dialer ex_disk := {|
  RedisStore.ParseURL _ := None;
  RedisStore.NewClient _ w := (w, 1%nat);
  RedisStore.Ping _ w := (w, if xd_redis w then None else Some "connection refused");
  RedisStore.CloseClient _ w := w;
|}.
#[local] Instance ex_text : JsonText := {| json_Marshal_any _ := None; json_Unmarshal_any _ := None |}.
#[local] Instance ex_net : Http unit ex_disk := {|
  http_NewRequest _ _ := None;
  http_Do _ _ w := (w, Err Canceled);
  json_Encode _ := Ok ("{}" +:+ String Buffers.newline "");
  err_Error _ := "context canceled";
  http_now _ := 0;
  http_ParseTime _ := None;
  Sscanf_d _ := None;
  f32_decode _ := Err tt;
  embeddings_decode _ := Err tt;
  json_first _ _ := Err (EText "EOF");
|}.

Definition ex_patch : Admin.AdminPatch :=
  Admin.mkAdminPatch (Some (Admin.mkRateLimitPatch None (Some 30) None)) None None None None None.
Abbreviation ex_start := (start (Rng := Z) (fun _ => None) (fun seed => seed) (fun k => k) tt tt "config.yaml" 0 7).
Abbreviation ex_reread := (reread (Rng := Z) (Store := unit) (fun _ => None) (fun seed => seed) (fun k => k) tt
  (fun _ => Config.Errorf "refused" [])).
Abbreviation ex_call := (admin_call (Rng := Z) (Store := unit) (fun _ => None) (fun seed => seed) (fun k => k) tt
  (fun _ => Config.Errorf "refused" []) (fun _ => Ok ex_patch) (fun _ => None) true).
Definition ex_put (st : Admin.Server (P := upstream) * (gateway (Rng := Z) (Store := unit) * ex_disk)) (w : ex_disk) :=
  (st.1, (st.2.1, w)).
Definition ex_patch_request : Admin.admin_request :=
  Admin.mkAdminRequest "PATCH" "/admin/config" "Bearer k" "" (Some "{}").

Definition ex_burst (st : Admin.Server (P := upstream) * (gateway (Rng := Z) (Store := unit) * ex_disk)) : Z :=
  Config.rl_Burst (Config.cf_RateLimit (g_cfg st.2.1)).

(** Started, and patched over the admin API. *)
Lemma admin_shows_running_witness :
  match ex_start (mkDisk "plain" false) with
  | Some st0 =>
      let st1 := (ex_call ex_patch_request st0).1 in
      ex_burst st1 = 30 /\ g_cfg st1.2.1 = Admin.sr_cfg st1.1
  | None => False
  end.
Proof.
  assert ((fun st0 => ex_burst (ex_call ex_patch_request st0).1) <$> ex_start (mkDisk "plain" false) = Some 30) as Hb
    by (vm_compute; reflexivity).
  destruct (ex_start (mkDisk "plain" false)) as [st0|] eqn:Es; [|done].
  split; [exact (inj Some _ _ Hb)|]. clear Hb. destruct (ex_call ex_patch_request st0).1 as [s [g w]] eqn:E1. cbn [fst snd].
  refine (proj1 (admin_shows_running (fun _ => None) (fun seed => seed) (fun k => k) tt tt
    (fun _ => Config.Errorf "refused" []) (fun _ => Ok ex_patch) (fun _ => None) "config.yaml" s g w (fun c => eq_refl) _)).
  exists 0, 7, (mkDisk "plain" false), st0. split; [exact Es|].
  apply rtc_once. rewrite <-E1. apply admin_step.
Defined.

(** A file that switches authentication on is taken over, and the requests
    still pass without a key: the chain was built without it. *)
Example auth_not_reloaded :
  match ex_start (mkDisk "plain" false) with
  | Some st0 =>
      let g := (ex_reread (ex_put st0 (mkDisk "auth" false))).2.1 in
      Config.ac_Enabled (Config.cf_Auth (g_cfg g)) = true /\ fx_auth (g_fixed g) = false /\
      Config.rl_Burst (Config.cf_RateLimit (g_cfg g)) = 20
  | None => False
  end.
Proof. vm_compute. by split_and!. Qed.

(** A gateway starts without the Redis it is configured for, but no
    configuration that names it is taken over while it is down. *)
Example redis_down_blocks_reload :
  match ex_start (mkDisk "redis" false) with
  | Some st0 =>
      RedisStore.Active (g_redis st0.2.1) = false /\
      g_cfg (ex_reread (ex_put st0 (mkDisk "redis" false))).2.1 = g_cfg st0.2.1 /\
      (applyConfig (fun _ => None) (fun seed => seed) (fun k => k) tt (ex_config 20 "redis://r" false None ∅)
         st0.2.1 (mkDisk "redis" false)).2 = Some (RedisFailed (RedisStore.PingError "connection refused"))
  | None => False
  end.
Proof. vm_compute. by split_and!. Qed.

Definition ex_weights (n : Z) : gmap string (list Config.WeightedEntry) :=
  {["m" := [Config.mkWeightedEntry "openai" "" n; Config.mkWeightedEntry "openai" "" n]]}.
Definition ex_gateway (c : Config) (catalog : Catalog) : gateway (Rng := Z) (Store := unit) :=
  assemble (fun _ => None) (fun seed => seed) (fun k => k) tt c
    [NewOpenAI "sk" "https://o" 0 ["gpt-4o"]] RedisStore.New catalog 0 7.

(** The sum of the weights of a valid configuration may wrap around to a
    negative number; the draw for a request then panics. *)
Example overflowing_weights_panic :
  let c := ex_config 10 "" false None (ex_weights (2 ^ 62)) in
  Config.Validate c = None /\
  match buildPricingCatalog c with
  | Ok catalog => (Resolve (fun _ => None) (fun s n => (s + 1, s `mod` n)) (g_registry (ex_gateway c catalog)) "m").2 = Err RoutePanic
  | Err _ => False
  end.
Proof. split; by vm_compute. Qed.

(** A budget that is switched off is not validated, yet its price is used. *)
Definition ex_off_budget : Config.BudgetConfig :=
  Config.mkBudgetConfig false 0 0 (f64_const (-1) 1000) (Config.mkPricingConfig "" "" "" []).
Example disabled_budget_refused :
  let c := ex_config 10 "" false (Some ex_off_budget) ∅ in
  Config.Validate c = None /\ buildPricingCatalog c = Err NegativeFallback.
Proof. split; by vm_compute. Qed.

Definition ex_catalog : Catalog := mkCatalog [] 0 "USD" "" "fallback".
Lemma valid_config_runs_witness :
  let r := g_registry (ex_gateway (ex_config 10 "" false None (ex_weights 3)) ex_catalog) in
  match (Resolve (fun _ => None) (fun s n => (s + 1, s `mod` n)) (with_rnd r 5) "m").2 with
  | Ok p => p ∈ [NewOpenAI "sk" "https://o" 0 ["gpt-4o"]]
  | Err e => e = ErrNoProvider "m"
  end.
Proof.
  intros r.
  refine (proj2 (valid_config_runs (W := ex_disk) (fun _ => None) (fun seed => seed) (fun s n => (s + 1, s `mod` n)) (fun k => k) tt tt
    (ex_config 10 "" false None (ex_weights 3)) _ _ _ _) [NewOpenAI "sk" "https://o" 0 ["gpt-4o"]] RedisStore.New ex_catalog 0 7 "m"
      (ex_gateway (ex_config 10 "" false None (ex_weights 3)) ex_catalog) r 5 (or_introl eq_refl)).
  - intros rnd n Hn. by apply Z.mod_pos_bound.
  - by vm_compute.
  - intros b. by vm_compute.
  - apply map_Forall_lookup. intros k es Hk. change (ex_weights 3 !! k = Some es) in Hk. unfold ex_weights in Hk.
    apply lookup_singleton_Some in Hk as [_ <-]. by vm_compute.
Defined.
