(* ===== verification/Wiring.v ===== *)
(** * The interfaces put together

    What [cmd/gateway/main.go] passes to the handlers: the Redis manager as
    the store of the limiter, of the budgets and of the cache, and the three
    clients as the providers of the handlers. *)

From Stdlib Require Import Ascii String.
From S2P Require Import Prelude GoFloat GoStrings Types Retry Hedge Budget RateLimit RateBackend Cache Router.
From S2P Require Import Translate Wire Provider Dispatch Streams Upstream Serve Embeddings Gateway.
From S2P Require RedisStore.
Import RedisStore (RedisKV, redis_error, Active, WithClient, rm_client).
Open Scope string_scope.
Open Scope list_scope.
Open Scope Z_scope.

(** ** Redis *)

(** The scripts of the limiter and of the budgets on a client, the hash of a
    tenant, and the parsers of the [strconv] package. *)
Class RedisScripts (W : Type) := {
  rx_rate : nat -> string -> float64 -> float64 -> float64 -> Z -> Z -> W -> W * result rate_reply redis_error;
  rx_HMGet : nat -> string -> W -> W * result (list (option string)) redis_error;
  rx_reserve : nat -> string -> Z -> float64 -> Z -> float64 -> Z -> W -> W * result script_reply redis_error;
  rx_adjust : nat -> string -> Z -> float64 -> Z -> float64 -> Z -> W -> W * result script_reply redis_error;
  rx_sha256_hex : string -> string;
  rx_Atoi : string -> Z;
  rx_ParseFloat : string -> float64;
}.

Section manager.
Context {W : Type} `{!RedisScripts W, !RedisKV W}.
Implicit Types (m : RedisStore.Manager) (w : W).

(** [m.WithClient], with an error that is only looked at for being one. *)
Definition with_client {A} m (fn : nat -> W -> W * result A redis_error) w : W * result A unit :=
  let '(w, r) := WithClient (rm_client m) fn w in
  (w, match r with Ok a => Ok a | Err _ => Err tt end).

(** The manager as the store of the limiter and of the budgets: the pointer
    they hold is to the one manager there is. *)
Definition manager_rates m : RateStore unit W := {|
  rs_run _ key rate burst now ttl n w := with_client m (fun c => rx_rate c key rate burst now ttl n) w;
|}.
Definition manager_budgets m : BudgetStore unit W := {|
  bs_Active _ _ := Active m;
  bs_HMGet _ key w := with_client m (fun c => rx_HMGet c key) w;
  bs_reserve _ key tl ul t u ttl w := with_client m (fun c => rx_reserve c key tl ul t u ttl) w;
  bs_adjust _ key dt du tl ul ttl w := with_client m (fun c => rx_adjust c key dt du tl ul ttl) w;
  bs_sha256_hex := rx_sha256_hex;
  bs_Atoi := rx_Atoi;
  bs_ParseFloat := rx_ParseFloat;
|}.

(** The caches [buildCache] starts from. *)
Definition shared m (keyPrefix : string) : RedisStore.RedisCache := RedisStore.mkRedisCache (Some (rm_client m)) keyPrefix.
Definition manager_cache m : Cache base_cache W := {|
  ca_Get b key now w :=
    match b with
    | InMemory c => let '(c, w, v) := ca_Get c key now w in (InMemory c, w, v)
    | SharedRedis keyPrefix => let '(w, v) := RedisStore.Redis_Get (shared m keyPrefix) key w in (b, w, v)
    end;
  ca_Set b key value ttl now w :=
    match b with
    | InMemory c => let '(c, w) := ca_Set c key value ttl now w in (InMemory c, w)
    | SharedRedis keyPrefix => (b, RedisStore.Redis_Set (shared m keyPrefix) key value ttl w)
    end;
  ca_Delete b key w :=
    match b with
    | InMemory c => let '(c, w) := ca_Delete c key w in (InMemory c, w)
    | SharedRedis keyPrefix => (b, RedisStore.Redis_Delete (shared m keyPrefix) key w)
    end;
|}.

(** A cache in Redis holds whatever a server may answer: other gateways write
    to it too. *)
Definition base_holds m (b : base_cache) (k v : string) : Prop :=
  match b with
  | InMemory c => memory_holds c k v
  | SharedRedis keyPrefix => exists w, (RedisStore.Redis_Get (shared m keyPrefix) k w).2 = Some v
  end.

Definition manager_cache_laws m : @CacheLaws base_cache W (manager_cache m).
Proof.
  refine (@Build_CacheLaws base_cache W (manager_cache m) (base_holds m) _ _ _ _).
  - intros [c|p] k now w v; simpl.
    + pose proof (ca_get_holds c k now w v) as H. exact H.
    + destruct (RedisStore.Redis_Get _ k w) as [w' r] eqn:E. simpl. intros ->. exists w. by rewrite E.
  - intros [c|p] k now w k' v; simpl.
    + pose proof (ca_get_mono c k now w k' v) as H. exact H.
    + by destruct (RedisStore.Redis_Get _ k w).
  - intros [c|p] k v ttl now w k' v'; simpl; [|auto].
    pose proof (ca_set_mono c k v ttl now w k' v') as H. exact H.
  - intros [c|p] k w k' v; simpl; [|auto].
    pose proof (ca_delete_mono c k w k' v) as H. exact H.
Defined.

(** Without a client the limiter and the budgets are on their own. *)
Lemma manager_idle_rates m key rate burst now ttl n w :
  rm_client m = None -> rs_run (RateStore := manager_rates m) tt key rate burst now ttl n w = (w, Err tt).
Proof. intros Hm. simpl. unfold with_client. by rewrite Hm. Qed.

Lemma manager_idle_budgets m (b : Budget.Manager (Store := unit)) :
  Active m = false -> in_memory (H := manager_budgets m) b.
Proof. intros Hm w. unfold active_store. destruct (m_redisStore b); [|done]. simpl. by rewrite Hm. Qed.

End manager.

(** ** Providers *)

(** What the handlers need of the runtime: regular expressions, random
    numbers, the clock, contexts, and the scheduler: the order in which the
    goroutines of a hedged call and the channels of a stream are served. *)
Class Runtime (Ctx Rng W : Type) := {
  rt_Compile : string -> option regexp;
  rt_Intn : Rng -> Z -> Rng * Z;
  rt_Int63n : Z -> W -> W * Z;
  rt_Now : W -> Z;
  rt_Err : Ctx -> W -> option error;
  rt_Wait : Ctx -> Z -> W -> W * option error;
  rt_WithTimeout : Ctx -> Z -> W -> W * Ctx;
  rt_WithCancel : Ctx -> W -> W * Ctx;
  rt_Cancel : Ctx -> W -> W;
  rt_hedge : W -> list hedge_event;
  rt_unix_now : W -> nat -> Z;                    (** the clock at the [n]-th chunk *)
  rt_cancelled : Ctx -> W -> nat -> option error; (** the [n]-th [emit] finds the context done *)
  rt_turns : Ctx -> W -> list turn;               (** who takes its turn at the channels of a stream *)
}.

Section providers.
Context {Ctx Rng W : Type} `{!JsonText, !Http Ctx W, !Runtime Ctx Rng W}.

(** A stream is served by the turns the scheduler gives, however many, and then
    to its end: no goroutine is left without a turn for ever. *)
Definition deliver (p : upstream) (ctx : Ctx) (req : ChatRequest) (w : W) : W * list stream_event :=
  let '(w', (chunks, err)) := up_SendStream (rt_unix_now w) (rt_cancelled ctx w) p ctx req w in
  (w', deliveries (rt_turns ctx w ++ flush chunks) (new_pipe chunks err)).

#[export] Instance gateway_env : Env upstream Ctx Rng W := {|
  p_Name := up_Name;
  p_Models := up_Models;
  p_Send := up_Send;
  p_SendStream := deliver;
  regexp_Compile := rt_Compile;
  rand_Intn := rt_Intn;
  rand_Int63n := rt_Int63n;
  time_Now := rt_Now;
  ctx_Err := rt_Err;
  ctx_Wait := rt_Wait;
  ctx_WithTimeout := rt_WithTimeout;
  ctx_WithCancel := rt_WithCancel;
  ctx_Cancel := rt_Cancel;
  hedge_schedule := rt_hedge;
|}.

(** Each of the clients implements [provider.Embedder]. *)
#[export] Instance gateway_embedders : Embedders upstream Ctx W := {| p_Embed p := Some (up_Embed p) |}.

End providers.
