(* ===== verification/Chain.v ===== *)
(** * The handler chain of the gateway: the middleware in the order of
      [cmd/gateway/main.go]

    Around the routes, from the outside in: request id, access log, security
    headers, tracing, metrics, CORS, authentication and the rate limit, over
    the state of the gateway and the world. *)

From Stdlib Require Import Ascii String.
From stdpp Require Import pretty.
From S2P Require Import Prelude GoFloat GoStrings Types Pricing Budget RateLimit RateBackend Auth Translate Wire Provider.
From S2P Require Import Dispatch Upstream Serve Embeddings Middleware Health Gateway.
From S2P Require Config RedisStore.
Open Scope string_scope.
Open Scope list_scope.
Open Scope Z_scope.

Section chain.
Context {Rng Store W : Type} `{!ErrorEncoder, !JsonText}.
(** The store of the limiter, by the manager that is behind it. *)
Context (rates : RedisStore.Manager -> RateStore Store W).
Abbreviation gw := (gateway (Rng := Rng) (Store := Store)).
Abbreviation state := (gw * W)%type.
Abbreviation handler := (request -> headers -> state -> output state).

(** The clock, the random bytes, the hashes and the tracer. *)
Context (hashKey sha_hex : string -> string) (now : W -> Z) (generateRequestID : W -> W * string).
Context (Start : request -> option string) (inject : request -> list (string * string)).

Definition new_request_id (s : state) : state * string :=
  let '(w, id) := generateRequestID s.2 in ((s.1, w), id).
Definition put_limiter (l : RedisLimiter (Store := Store) * W) (s : state) : state :=
  let g := s.1 in
  (mkGateway (g_registry g) (g_redis g) l.1 (g_overrides g) (g_budget g) (g_cache g) (g_auth g) (g_rateLimitEnabled g)
     (g_readiness g) (g_healthProviders g) (g_chat g) (g_embeddings g) (g_cfg g) (g_fixed g), l.2).

Definition limited (mux : handler) : handler := fun r h s =>
  RateLimitWithEnabled (Backend0 := redis_backend (H := rates (g_redis s.1))) sha_hex (fun s => (g_limiter s.1, s.2))
    put_limiter (fun s => now s.2) (fun s => Some (g_overrides s.1)) (fun s => g_rateLimitEnabled s.1) mux r h s.
Definition authenticated (fx : fixed) (next : handler) : handler :=
  if fx_auth fx then AuthMiddleware hashKey (fun s => g_auth s.1) (fun s => now s.2) next else next.
Definition cors (fx : fixed) (next : handler) : handler :=
  match fx_origins fx with [] => next | origins => CORS origins next end.

Definition chain (fx : fixed) (mux : handler) : handler :=
  let handler := limited mux in
  let handler := authenticated fx handler in
  let handler := cors fx handler in
  let handler := Metrics handler in
  let handler := Tracing Start inject handler in
  let handler := SecurityHeaders handler in
  let handler := Logging handler in
  RequestID new_request_id handler.

(** ** What every handler of the chain keeps *)

(** The handlers of a mux make no informational response, and the events of
    the part of the chain that reports none are theirs. *)
Definition calm (next : handler) : Prop := forall r h s, Forall final_op (o_ops (next r h s)).
Definition events_of (next next' : handler) : Prop :=
  forall r h s e, e ∈ o_events (next' r h s) -> exists r' h' s', e ∈ o_events (next r' h' s').

Lemma finished_calm (r : request) (s : state) ops : Forall final_op ops -> Forall final_op (o_ops (finished r s ops)).
Proof. done. Qed.

Lemma limited_calm mux : calm mux -> calm (limited mux).
Proof.
  intros Hm r h s. unfold limited, RateLimitWithEnabled. destruct (negb _); [apply Hm|]. destruct (negb _); [apply Hm|].
  destruct (rate_limits _ _) as [r' [rpm burst]].
  destruct (take_token _ _ _ _ _ _) as [[l []] d]; [apply Hm|].
  by repeat constructor.
Qed.
Lemma limited_events mux : events_of mux (limited mux).
Proof.
  intros r h s e. unfold limited, RateLimitWithEnabled. destruct (negb _); [eauto|]. destruct (negb _); [eauto|].
  destruct (rate_limits _ _) as [r' [rpm burst]].
  destruct (take_token _ _ _ _ _ _) as [[l []] d]; [eauto|].
  by intros ?%elem_of_nil.
Qed.

Lemma authenticated_calm fx next : calm next -> calm (authenticated fx next).
Proof.
  intros Hm r h s. unfold authenticated. destruct (fx_auth fx); [|apply Hm]. unfold AuthMiddleware.
  destruct (Middleware _ _ _ _); [apply Hm|by repeat constructor..].
Qed.
Lemma authenticated_events fx next : events_of next (authenticated fx next).
Proof.
  intros r h s e. unfold authenticated. destruct (fx_auth fx); [|eauto]. unfold AuthMiddleware.
  destruct (Middleware _ _ _ _); [eauto|by intros ?%elem_of_nil..].
Qed.

Lemma cors_calm fx next : calm next -> calm (cors fx next).
Proof.
  intros Hm r h s. unfold cors. destruct (fx_origins fx) as [|o os]; [apply Hm|]. unfold CORS.
  assert (forall b c : bool, Forall final_op (if b then [HAdd "Vary" "Origin"; HSet "Access-Control-Allow-Origin" (header_of r "Origin")] ++
    (if c then [HSet "Access-Control-Allow-Origin" "*"] else []) ++
    [HSet "Access-Control-Allow-Methods" "GET, POST, OPTIONS";
     HSet "Access-Control-Allow-Headers" "Content-Type, Authorization, X-Request-ID"] else [])) as Hops
    by (intros [] []; by repeat constructor).
  destruct (str_eqb (rq_Method r) "OPTIONS"); [destruct (_ && _)|]; cbn [finished before o_ops];
    apply list.Forall_app; split; try apply Hops; try apply Hm; by repeat constructor.
Qed.
Lemma cors_events fx next : events_of next (cors fx next).
Proof.
  intros r h s e. unfold cors. destruct (fx_origins fx) as [|o os]; [eauto|]. unfold CORS.
  destruct (str_eqb (rq_Method r) "OPTIONS"); [destruct (_ && _); by intros ?%elem_of_nil|].
  cbn [before o_events]. eauto.
Qed.

(** *** Around them *)

(** What the chain reports about a response. *)
Definition report (r : request) (status : Z) (provider : string) (id : string) (tenant : option string) : list event :=
  let path := metricPath (rq_Path r) in
  let label := if str_eqb provider "" then "unknown" else provider in
  [EvRequests (rq_Method r) path (pretty status) label; EvDuration (rq_Method r) path label] ++
  (if 500 <=? status then [EvProviderErrors label (pretty status)] else []) ++
  [EvSpan (rq_Method r +:+ " " +:+ path) status provider (500 <=? status);
   EvLog (rq_Method r) (rq_Path r) status id tenant (some_text provider) (rq_span r)].

(** A header of the request when its response is complete. *)
Definition header_at_end (o : output state) (k : string) : string := default "" (o_request o !! k).

(** The part of the chain that reports, on a writer [w] with headers [h]. *)
Definition observed (inner : handler) : handler := Logging (SecurityHeaders (Tracing Start inject (Metrics inner))).

Lemma send_sets w ops : quiet w -> Forall (fun op => match op with HSet _ _ | HAdd _ _ => True | _ => False end) ops -> quiet (send w ops).
Proof.
  intros Hq Hops. revert w Hq. induction Hops as [|op ops Hop _ IH]; intros w Hq; [done|].
  change (send w (op :: ops)) with (send (send_op w op) ops). apply IH. by destruct op.
Qed.

Lemma observed_spec inner r h s w :
  calm inner -> quiet w -> wr_Header w = h ->
  let o := observed inner r h s in
  let w' := send w (o_ops o) in
  exists h' w2,
    let o' := inner (in_span (Start r) r) h' s in
    o_state o = o_state o' /\ o_end o = o_end o' /\ quiet w2 /\ w' = send w2 (o_ops o') /\
    (o_end o = Finished -> o_events o = o_events o' ++
       report r (sent_status w') (hget (wr_Header w') "X-Gateway-Provider") (header_at_end o "X-Request-ID")
         (some_text (header_at_end o "X-Tenant-ID"))).
Proof.
  intros Hc Hq Hh. cbv zeta. set (r1 := in_span (Start r) r).
  set (inj := (fun kv : string * string => HSet kv.1 kv.2) <$> inject r1). set (pre := security_ops ++ inj).
  set (h2 := headers_after (headers_after h security_ops) inj). set (o0 := inner r1 h2 s). set (w2 := send w pre).
  assert (Forall (fun op => match op with HSet _ _ | HAdd _ _ => True | _ => False end) pre) as Hpre.
  { apply list.Forall_app. split; [by repeat constructor|]. apply list.Forall_fmap, list.Forall_forall. done. }
  assert (Forall final_op pre) as Hfin by (eapply list.Forall_impl; [exact Hpre|by intros []]).
  assert (quiet w2) as Hq2 by by apply send_sets. assert (wr_Header w2 = h2) as Hh2.
  { unfold w2, h2, pre. by rewrite send_headers, headers_after_app, Hh. }
  unfold observed, Logging. set (oS := SecurityHeaders _ r h s).
  assert (oS = before pre (recorded (Metrics inner r1 h2 s) (fun rec out =>
    [EvSpan (rq_Method r +:+ " " +:+ metricPath (rq_Path r)) (sr_status rec) (hget (headers_after h2 out) "X-Gateway-Provider")
       (500 <=? sr_status rec)]))) as ES.
  { unfold oS, SecurityHeaders, Tracing, before, pre. cbn [o_ops o_state o_request o_events o_end]. by rewrite app_assoc. }
  unfold Metrics in ES. fold o0 in ES.
  match type of ES with _ = before pre (recorded (recorded o0 ?m) ?t) =>
    destruct (recorded_spec o0 m w2 Hq2 (Hc _ _ _)) as (Em1 & _ & Em3 & Em4 & Em5 & Em6 & recm & Em7 & Em8);
    set (oM := recorded o0 m) in *;
    destruct (recorded_spec oM t w2 Hq2 Em5) as (Et1 & _ & Et3 & Et4 & Et5 & Et6 & rect & Et7 & Et8);
    set (oT := recorded oM t) in *
  end.
  assert (o_ops oS = pre ++ o_ops oT) as Eops by by rewrite ES.
  assert (Forall final_op (o_ops oS)) as Hfs by (rewrite Eops; by apply list.Forall_app).
  match goal with |- context [recorded oS ?l] =>
    destruct (recorded_spec oS l w Hq Hfs) as (El1 & El2 & El3 & El4 & _ & El6 & recl & El7 & El8) end.
  assert (send w (o_ops oS) = send w2 (o_ops o0)) as Esend.
  { rewrite Eops, send_app. fold w2. by rewrite Et4. }
  exists h2, w2. cbv zeta. fold o0. assert (o_end oS = o_end o0) as Hend.
  { rewrite ES. exact (eq_trans Et3 Em3). }
  split_and!; [|by rewrite El3|exact Hq2|by rewrite El4|].
  { rewrite El1, ES. exact (eq_trans Et1 Em1). }
  intros Hf. rewrite El3 in Hf. unfold header_at_end. rewrite El2, El8, El4, El7, Esend.
  rewrite Hf. rewrite Hend in Hf. rewrite Hf in *. rewrite Em3 in *.
  rewrite El6, Eops, headers_after_app. unfold pre at 1. rewrite headers_after_app. fold h2. rewrite Et6.
  assert (o_events oS = o_events oT) as -> by by rewrite ES.
  rewrite Et8, Em8, Et7, Em7, Et6, Em6, Em4, send_headers, Hh2.
  unfold report. by rewrite <-!app_assoc.
Qed.

(** The chain in two halves: what reports, and what decides. *)
Definition decided_by (fx : fixed) (mux : handler) : handler := cors fx (authenticated fx (limited mux)).

(** The id of a request: its own or a new one. *)
Definition identified (r : request) (s : state) : state * string :=
  if str_eqb (header_of r "X-Request-ID") "" then new_request_id s else (s, header_of r "X-Request-ID").
Definition with_id (r : request) (id : string) : request :=
  if str_eqb (header_of r "X-Request-ID") "" then set_header r "X-Request-ID" id else r.

Lemma chain_eq fx mux r s :
  let '(s', id) := identified r s in
  s'.1 = s.1 /\
  chain fx mux r ∅ s =
    before [HSet "X-Request-ID" id] (observed (decided_by fx mux) (with_id r id) (hset ∅ "X-Request-ID" id) s').
Proof.
  unfold chain, RequestID, identified, with_id. destruct (str_eqb _ _) eqn:E; [|by split].
  unfold new_request_id. by destruct (generateRequestID s.2) as [w id].
Qed.

Lemma chain_spec fx mux r s :
  calm mux ->
  let o := chain fx mux r ∅ s in
  let w := send fresh (o_ops o) in
  let '(s', id) := identified r s in
  s'.1 = s.1 /\
  exists h' w2,
    let r1 := in_span (Start (with_id r id)) (with_id r id) in
    let o' := decided_by fx mux r1 h' s' in
    o_state o = o_state o' /\ o_end o = o_end o' /\ quiet w2 /\ w = send w2 (o_ops o') /\
    (o_end o = Finished -> o_events o = o_events o' ++
       report r (sent_status w) (hget (wr_Header w) "X-Gateway-Provider") (header_at_end o "X-Request-ID")
         (some_text (header_at_end o "X-Tenant-ID"))).
Proof.
  intros Hm. cbv zeta. pose proof (chain_eq fx mux r s) as He. destruct (identified r s) as [s' id].
  destruct He as [Hs ->]. split; [exact Hs|].
  destruct (observed_spec (decided_by fx mux) (with_id r id) (hset ∅ "X-Request-ID" id) s' (send fresh [HSet "X-Request-ID" id]))
    as (h' & w2 & Ho1 & Ho2 & Hq & Hw & Hev); try done.
  { by apply cors_calm, authenticated_calm, limited_calm. }
  exists h', w2. split_and!; [exact Ho1|exact Ho2|exact Hq| |].
  { cbn [before o_ops]. by rewrite send_app. }
  intros Hend. cbn [before o_events o_ops o_end] in *. rewrite (Hev Hend), send_app. unfold report, with_id.
  by destruct (str_eqb _ _).
Qed.

(** What a chain does depends on its mux only for the request it hands on. *)
Lemma observed_ext inner inner' r h s :
  (forall h', inner (in_span (Start r) r) h' s = inner' (in_span (Start r) r) h' s) ->
  observed inner r h s = observed inner' r h s.
Proof. intros Hi. unfold observed, Logging, SecurityHeaders, Tracing, Metrics. by rewrite !Hi. Qed.

Lemma chain_ext fx mux mux' r s :
  (let '(s', id) := identified r s in
   forall h', decided_by fx mux (in_span (Start (with_id r id)) (with_id r id)) h' s' =
              decided_by fx mux' (in_span (Start (with_id r id)) (with_id r id)) h' s') ->
  chain fx mux r ∅ s = chain fx mux' r ∅ s.
Proof.
  pose proof (chain_eq fx mux r s) as He. pose proof (chain_eq fx mux' r s) as He'.
  destruct (identified r s) as [s' id]. destruct He as [_ ->], He' as [_ ->].
  intros Hi. by rewrite (observed_ext _ _ _ _ _ Hi).
Qed.

(** *** Refusals *)
Lemma sent_once w ops x : wr_sent w = Some x -> wr_sent (send w ops) = Some x.
Proof.
  revert w. induction ops as [|op ops IH]; intros w Hw; [done|]. change (send w (op :: ops)) with (send (send_op w op) ops).
  apply IH. destruct op; cbn; unfold send_header; by rewrite Hw.
Qed.

Lemma status_written w ops status rest :
  quiet w -> Forall (fun op => match op with HSet _ _ | HAdd _ _ => True | _ => False end) ops ->
  informational status = false -> sent_status (send w (ops ++ WriteHeader status :: rest)) = status.
Proof.
  intros Hq Hops Hi. rewrite send_app. pose proof (send_sets w ops Hq Hops) as Hw.
  change (send (send w ops) (WriteHeader status :: rest)) with (send (send_op (send w ops) (WriteHeader status)) rest).
  unfold quiet in Hw. unfold sent_status. rewrite (sent_once _ rest (status, wr_Header (send w ops))); [done|].
  cbn. unfold send_header. by rewrite Hw, Hi.
Qed.

(** The headers CORS sets. *)
Lemma cors_before fx next r h s :
  rq_Method r <> "OPTIONS" ->
  exists ops h', cors fx next r h s = before ops (next r h' s) /\
    Forall (fun op => match op with HSet _ _ | HAdd _ _ => True | _ => False end) ops.
Proof.
  intros Hm. unfold cors. destruct (fx_origins fx) as [|o os].
  { exists [], h. split; [|done]. unfold before. by destruct (next r h s). }
  unfold CORS. rewrite (str_eqb_ne _ _ Hm). do 2 eexists. split; [reflexivity|].
  repeat match goal with |- context [if ?b then _ else _] => destruct b end; by repeat constructor.
Qed.

(** What authentication answers to a request it does not let pass. *)
Lemma refused_status fx next r h s w :
  fx_auth fx = true -> quiet w -> (forall r', Middleware hashKey (g_auth s.1) (auth_view r) (now s.2) <> Pass r') ->
  let o := authenticated fx next r h s in
  o_state o = s /\ o_end o = Finished /\ (sent_status (send w (o_ops o)) = 401 \/ sent_status (send w (o_ops o)) = 403) /\
  forall next', authenticated fx next' r h s = o.
Proof.
  intros Hfx Hq Hm. unfold authenticated. rewrite Hfx. unfold AuthMiddleware. cbv zeta.
  destruct (Middleware _ _ _ _) as [r'|msg|scope]; [by destruct (Hm r')| |]; (split_and!; [done|done| |done]).
  - left. by apply (status_written w [json_type]); [|repeat constructor|].
  - right. by apply (status_written w [json_type; HSet "WWW-Authenticate" (scope_challenge scope)]); [|repeat constructor|].
Qed.

(** The id and the span of a request are not what authentication looks at. *)
Lemma identified_view r s :
  let '(s', id) := identified r s in
  s'.1 = s.1 /\ auth_view (in_span (Start (with_id r id)) (with_id r id)) = auth_view r /\
  rq_Method (in_span (Start (with_id r id)) (with_id r id)) = rq_Method r.
Proof.
  unfold identified, with_id, new_request_id. destruct (str_eqb _ _); [|done]. destruct (generateRequestID s.2) as [w id].
  by unfold auth_view, header_of; cbn; rewrite !lookup_insert_ne by done.
Qed.

(** A preflight request is answered by CORS. *)
Lemma cors_preflight fx next r h s w :
  rq_Method r = "OPTIONS" -> fx_origins fx <> [] -> quiet w ->
  let o := cors fx next r h s in
  o_state o = s /\ o_end o = Finished /\
  (sent_status (send w (o_ops o)) = 204 \/ sent_status (send w (o_ops o)) = 403).
Proof.
  intros Hm Ho Hq. unfold cors. destruct (fx_origins fx) as [|o os]; [done|]. unfold CORS.
  rewrite Hm. change (str_eqb "OPTIONS" "OPTIONS") with true. cbv iota zeta.
  match goal with |- context [finished r s (?ops ++ [WriteHeader 403])] => set (sets := ops) end.
  assert (Forall (fun op => match op with HSet _ _ | HAdd _ _ => True | _ => False end) sets) as Hs.
  { unfold sets. repeat match goal with |- context [if ?b then _ else _] => destruct b end; by repeat constructor. }
  clearbody sets. destruct (_ && _); (do 2 (split; [done|])); [right|left]; by apply (status_written w sets _ []).
Qed.

(** The answers to a request that is not let in. *)
Definition not_let_in fx r (status : Z) : Prop :=
  status = 401 \/ status = 403 \/ (status = 204 /\ rq_Method r = "OPTIONS" /\ fx_origins fx <> []).

(** Refused behind CORS, or by it. *)
Lemma decided_refused fx mux r h s w :
  fx_auth fx = true -> quiet w ->
  (forall r', Middleware hashKey (g_auth s.1) (auth_view r) (now s.2) <> Pass r') ->
  let o := decided_by fx mux r h s in
  o_state o = s /\ o_end o = Finished /\ not_let_in fx r (sent_status (send w (o_ops o))).
Proof.
  intros Hfx Hq Hm. unfold decided_by, not_let_in.
  destruct (decide (rq_Method r = "OPTIONS" /\ fx_origins fx <> [])) as [[Hopt Ho]|Hn].
  { destruct (cors_preflight fx (authenticated fx (limited mux)) r h s w Hopt Ho Hq) as (Hs & He & Hst).
    split; [done|]. split; [done|]. destruct Hst; auto. }
  assert (exists ops h', cors fx (authenticated fx (limited mux)) r h s = before ops (authenticated fx (limited mux) r h' s) /\
    Forall (fun op => match op with HSet _ _ | HAdd _ _ => True | _ => False end) ops) as (ops & h' & -> & Hops).
  { destruct (decide (rq_Method r = "OPTIONS")); [|by apply cors_before]. exists [], h. split; [|done].
    unfold cors. destruct (fx_origins fx) eqn:Eo; [|exfalso; by apply Hn]. unfold before. by destruct (authenticated _ _ _ _ _). }
  destruct (refused_status fx (limited mux) r h' s (send w ops) Hfx (send_sets w ops Hq Hops) Hm) as (Hs & He & Hst & _).
  cbv zeta. cbn [before o_state o_end o_ops]. rewrite send_app. split; [done|]. split; [done|]. destruct Hst; auto.
Qed.

Lemma decided_same fx mux mux' r h s :
  fx_auth fx = true -> (forall r', Middleware hashKey (g_auth s.1) (auth_view r) (now s.2) <> Pass r') ->
  decided_by fx mux r h s = decided_by fx mux' r h s.
Proof.
  intros Hfx Hm. unfold decided_by.
  assert (forall h, authenticated fx (limited mux) r h s = authenticated fx (limited mux') r h s) as Ha.
  { intros h0. destruct (refused_status fx (limited mux') r h0 s fresh Hfx eq_refl Hm) as (_ & _ & _ & Hn). apply Hn. }
  unfold cors. destruct (fx_origins fx); [apply Ha|]. unfold CORS. by rewrite Ha.
Qed.

End chain.

(** C15. What the gateway reports about a response is what was sent: around any
    handler that finishes, the counter, the trace and the log line have the
    status that [net/http] sent, the error counter counts it if it is 500 or
    more, the provider is the one named in the response, the id and the
    tenant are those of the request headers when the response is complete,
    and the path of the metrics is one of nine. *)
Theorem chain_reports_truthfully {Rng Store W : Type} `{!ErrorEncoder, !JsonText}
    (rates : RedisStore.Manager -> RateStore Store W) hashKey sha_hex now generateRequestID Start inject fx mux r (s : gateway (Rng := Rng) (Store := Store) * W) :
  calm mux ->
  let o := chain rates hashKey sha_hex now generateRequestID Start inject fx mux r ∅ s in
  let w := send fresh (o_ops o) in
  o_end o = Finished ->
  exists evs,
    o_events o = evs ++ report r (sent_status w) (hget (wr_Header w) "X-Gateway-Provider")
                          (header_at_end o "X-Request-ID") (some_text (header_at_end o "X-Tenant-ID")) /\
    forall e, e ∈ evs -> exists r' h' s', e ∈ o_events (mux r' h' s').
Proof.
  intros Hm o w Hend.
  pose proof (chain_spec rates hashKey sha_hex now generateRequestID Start inject fx mux r s Hm) as Hc. cbv zeta in Hc.
  destruct (identified _ _ _) as [s' id], Hc as (_ & h' & w2 & _ & _ & _ & _ & He).
  eexists. split; [exact (He Hend)|]. intros e Hin.
  apply cors_events in Hin as (? & ? & ? & Hin). apply authenticated_events in Hin as (? & ? & ? & Hin).
  by apply limited_events in Hin.
Qed.

(** C9. With authentication installed no request to the API gets past it without
    a key that is accepted for it: it is answered with 401 or 403, or, if it is
    a CORS preflight (an [OPTIONS] request while origins are configured, which
    the CORS middleware answers before authentication is asked), with 204 or
    403; whatever handler stands behind, which is not called, and the gateway is as it was
    before; not even a token of a bucket is taken. *)
Theorem chain_requires_key {Rng Store W : Type} `{!ErrorEncoder, !JsonText}
    (rates : RedisStore.Manager -> RateStore Store W) hashKey sha_hex now generateRequestID Start inject fx mux r (s : gateway (Rng := Rng) (Store := Store) * W) :
  fx_auth fx = true ->
  (forall t r', Middleware hashKey (g_auth s.1) (auth_view r) t <> Pass r') ->
  let serve mux := chain rates hashKey sha_hex now generateRequestID Start inject fx mux r ∅ s in
  let o := serve mux in
  o_end o = Finished /\ (o_state o).1 = s.1 /\
  not_let_in fx r (sent_status (send fresh (o_ops o))) /\
  forall mux', serve mux' = o.
Proof.
  intros Hfx Hm serve.
  pose proof (identified_view generateRequestID Start r s) as Hv.
  assert (forall mux mux', serve mux = serve mux') as Hsame.
  { intros mux1 mux2. apply chain_ext. destruct (identified _ _ _) as [s' id], Hv as (Hg & Hv & _). intros h'.
    apply decided_same; [done|]. rewrite Hg, Hv. apply Hm. }
  intros o. unfold o. rewrite (Hsame mux (fun r h s => finished r s [])).
  pose proof (chain_spec rates hashKey sha_hex now generateRequestID Start inject fx (fun r h s => finished r s []) r s
    (fun r h s => Forall_nil_2 _)) as Hc. cbv zeta in Hc. fold (serve (fun r h s => finished r s [])) in Hc.
  destruct (identified _ _ _) as [s' id], Hv as (Hg & Hv & Hmeth), Hc as (_ & h' & w2 & Hs & He & Hq & Hw & _).
  destruct (decided_refused rates hashKey sha_hex now fx (fun r h s => finished r s []) (in_span (Start (with_id r id)) (with_id r id))
    h' s' w2 Hfx) as (Ho1 & Ho2 & Ho3); [done|rewrite Hg, Hv; apply Hm|].
  unfold not_let_in in *. rewrite Hmeth in Ho3.
  rewrite Hs, He, Hw, Ho1. split_and!; [done|done|done|]. intros mux'. apply Hsame.
Qed.

(** ** Examples *)
Definition ex_down (m : RedisStore.Manager) : RateStore unit unit := {| rs_run _ _ _ _ _ _ _ w := (w, Err tt) |}.
#[local] Instance ex_errors : ErrorEncoder := {| encode_error message _ _ := message |}.
#[local] Instance ex_no_json : JsonText := {| json_Marshal_any _ := None; json_Unmarshal_any _ := None |}.

(** A gateway with authentication, and with the rate limit switched off. *)
Definition ex_unlimited (c : Config.Config) : Config.Config :=
  let r := Config.cf_RateLimit c in
  Config.mkConfig (Config.cf_Server c) (Config.cf_Providers c) (Config.cf_FallbackChain c)
    (Config.mkRateLimitConfig false (Config.rl_RequestsPerMinute r) (Config.rl_Burst r) (Config.rl_RedisURL r)
       (Config.rl_TokenAware r) (Config.rl_Overrides r) (Config.rl_Budget r))
    (Config.cf_Logging c) (Config.cf_CORS c) (Config.cf_Auth c) (Config.cf_Resilience c) (Config.cf_ModelAliases c)
    (Config.cf_Cache c) (Config.cf_Health c) (Config.cf_Routing c) (Config.cf_Admin c).
Definition ex_guarded : gateway (Rng := Z) (Store := unit) :=
  ex_gateway (ex_unlimited (ex_config 10 "" true None ∅)) ex_catalog.
Definition ex_mux : request -> headers -> gateway (Rng := Z) (Store := unit) * unit -> output (gateway (Rng := Z) (Store := unit) * unit) :=
  fun r h s => finished r s [HSet "X-Gateway-Provider" "openai"; WriteHeader 502; Write (st_Data (rq_Body r))].
Definition ex_request (auth : gmap string string) (b : stream) : request :=
  mkRequest "POST" "/v1/chat/completions" auth "10.0.0.1:1" b None None None.
Abbreviation ex_chain := (chain ex_down (fun k => k) (fun k => k) (fun _ => 0) (fun w => (w, "req-1")) (fun _ => Some "trace") (fun _ => [])).
Definition ex_bearer : gmap string string := {["Authorization" := "Bearer key"]}.

Definition ex_served := ex_chain (g_fixed ex_guarded) ex_mux (ex_request ex_bearer (mkStream "{}" None)) ∅ (ex_guarded, tt).

Lemma chain_reports_truthfully_witness :
  let w := send fresh (o_ops ex_served) in
  sent_status w = 502 /\ header_at_end ex_served "X-Tenant-ID" = "team" /\
  exists evs, o_events ex_served = evs ++
    report (ex_request ex_bearer (mkStream "{}" None)) (sent_status w) (hget (wr_Header w) "X-Gateway-Provider")
      (header_at_end ex_served "X-Request-ID") (some_text (header_at_end ex_served "X-Tenant-ID")).
Proof.
  split; [by vm_compute|]. split; [by vm_compute|].
  destruct (chain_reports_truthfully ex_down (fun k => k) (fun k => k) (fun _ => 0) (fun w => (w, "req-1")) (fun _ => Some "trace")
    (fun _ => []) (g_fixed ex_guarded) ex_mux (ex_request ex_bearer (mkStream "{}" None)) (ex_guarded, tt)) as (evs & He & _).
  - intros r h s. by repeat constructor.
  - by vm_compute.
  - exists evs. exact He.
Defined.

Lemma chain_requires_key_witness :
  let o := ex_chain (g_fixed ex_guarded) ex_mux (ex_request ∅ (mkStream "{}" None)) ∅ (ex_guarded, tt) in
  (o_state o).1 = ex_guarded /\ not_let_in (g_fixed ex_guarded) (ex_request ∅ (mkStream "{}" None)) (sent_status (send fresh (o_ops o))).
Proof.
  destruct (chain_requires_key ex_down (fun k => k) (fun k => k) (fun _ => 0) (fun w => (w, "req-1")) (fun _ => Some "trace")
    (fun _ => []) (g_fixed ex_guarded) ex_mux (ex_request ∅ (mkStream "{}" None)) (ex_guarded, tt)) as (_ & Hs & Hst & _).
  - by vm_compute.
  - intros t r'. by vm_compute.
  - by split.
Defined.

(** The log line has no trace id: the span is in the context of the request
    that [Tracing] hands on, not in that of the request [Logging] has. *)
Example trace_not_logged :
  list.last (o_events ex_served) =
  Some (EvLog "POST" "/v1/chat/completions" 502 "req-1" (Some "team") (Some "openai") None).
Proof. by vm_compute. Qed.

(** A body that breaks off while the rate limit reads it reaches the handler
    as if it had ended there. *)
Example broken_body_completed :
  let b := mkStream "{" (Some "unexpected EOF") in
  read_body b = ReadError /\
  read_body (rq_Body (rate_limits (Some (g_overrides ex_guarded)) (ex_request ex_bearer b)).1) = ReadOk "{".
Proof. split; by vm_compute. Qed.

(** Without authentication a client that makes up tenants has a bucket for
    each of them. *)
Example made_up_tenants :
  let from tenant := ex_request (<["X-Tenant-ID" := tenant]> ex_bearer) (mkStream "" None) in
  clientRateLimitKey (fun k => k) (from "a") <> clientRateLimitKey (fun k => k) (from "b").
Proof. by vm_compute. Qed.
