(* ===== verification/Routes.v ===== *)
(** * The routes of the gateway: the [mux] of [cmd/gateway/main.go]

    The handlers behind the chain, as handlers of [net/http] on the state of
    the gateway and the world: a request is read as the chat or the embeddings
    handler reads it, and what it answers is written as it writes it. *)

From Stdlib Require Import Ascii String.
From stdpp Require Import pretty.
From S2P Require Import Prelude GoFloat GoStrings Types Pricing Circuit Retry Budget RateLimit RateBackend Cache CacheSemantic.
From S2P Require Import Auth Router Translate Wire Provider Dispatch Streams Upstream Serve Embeddings Middleware Health.
From S2P Require Import Gateway Wiring Chain.
From S2P Require Config RedisStore.
Open Scope string_scope.
Open Scope list_scope.
Open Scope Z_scope.

(** The texts of errors and the JSON of what is not modelled as text. *)
Class Texts := {
  budget_Error : BudgetError -> string;
  pricing_Error : PricingError -> string;
  json_chunk : StreamChunk -> string;
  json_health : health_body -> string;
}.

Definition newline : string := String "010"%char "".
Definition set_all (hs : gmap string string) : list wop := (fun kv => HSet kv.1 kv.2) <$> map_to_list hs.

Section routes.
Context {Ctx Rng W : Type}.
Context `{!JsonText, !Http Ctx W, !Runtime Ctx Rng W, !RedisScripts W, !RedisStore.RedisKV W}.
Context `{!Web string W, !WebEmbedding string, !ErrorEncoder, !Texts}.
(** The context of a request, what [ServeMux] answers to a path that is not
    clean, and the page of [promhttp]. *)
Context (request_ctx : request -> W -> Ctx) (redirect : request -> option (list wop)) (metrics_page : W -> list wop).
Abbreviation gw := (gateway (Rng := Rng) (Store := unit)).
Abbreviation state := (gw * W)%type.
Abbreviation handler := (request -> headers -> state -> output state).
Implicit Types (r : request) (h : headers) (g : gw) (w : W).

(** ** Writing a response *)
Definition error_text (e : error) : string := err_Error (Ctx := Ctx) (W := W) e.
Definition message_text (m : message) : string :=
  match m with
  | MText msg => msg
  | MDecode msg => "invalid JSON body: " +:+ msg
  | MError e => error_text e
  | MBudget e => budget_Error e
  | MPricing e => pricing_Error e
  end.

(** The frames of a stream; what [handleStream] writes after an error in one
    piece is the end of [FError] and [FDone]. *)
Definition frame_ops (f : frame) : list wop :=
  match f with
  | FChunk c => [Write "data: "; Write (json_chunk c); Write (newline +:+ newline); Flush]
  | FError e => [Write ("event: error" +:+ newline +:+ "data: ");
                 Write (encode_error (error_text e) "provider_error" "provider_error"); Write (newline +:+ newline)]
  | FDone => [Write ("data: [DONE]" +:+ newline +:+ newline); Flush]
  end.

Definition body_ops (status : Z) (b : body) : list wop :=
  match b with
  | BError errType msg => [WriteHeader status; Write (encode_error (message_text msg) errType errType)]
  | BData data => [Write data]
  | BFrames fs => WriteHeader status :: Flush :: (fs ≫= frame_ops)
  end.
Definition reply_ops (rs : response) : list wop := set_all (rs_Header rs) ++ body_ops (rs_Status rs) (rs_Body rs).

(** The chat handler counts a hit of the exact cache itself. *)
Definition hit_events r (rs : response) : list event :=
  if str_eqb (default "" (rs_Header rs !! "X-Cache")) "HIT" && str_eqb (default "" (rs_Header rs !! "X-Gateway-Provider")) "cache"
  then [EvRequests (rq_Method r) (rq_Path r) "200" "cache"] else [].

Definition written r (s : state) (events : response -> list event) (out : served) : output state :=
  match out with
  | Reply rs => mkOutput s (rq_Header r) (reply_ops rs) (events rs) Finished
  | Panicked => mkOutput s (rq_Header r) [] [] HandlerPanic
  | Blocked => mkOutput s (rq_Header r) [] [] HandlerBlocked
  end.

(** ** The endpoints of the API *)

(** The recorders of the chain are [http.Flusher]s. *)
Definition http_view r w : http_request string Ctx :=
  mkHttpReq string Ctx (read_body (rq_Body r)) (header_of r "X-Request-ID") (header_of r "X-Tenant-ID")
    (header_of r "Authorization") (header_of r "X-Cache-Skip") (header_of r "X-Cache-TTL") (rq_RemoteAddr r)
    (request_ctx r w) true.

(** The embedder the cache was built with; its error is not looked at. *)
Definition cache_embed g (ctx : Ctx) (text : string) (x : Registry (P := upstream) (Rng := Rng) * W)
    : (Registry (P := upstream) (Rng := Rng) * W) * result (list float64) unit :=
  match semanticEmbedder rt_Compile rt_Intn true (Config.ca_SemanticEmbeddingModel (Config.cf_Cache (g_cfg g))) with
  | Some embed => let '(x, v) := embed ctx text x in (x, match v with Ok v => Ok v | Err _ => Err tt end)
  | None => (x, Err tt)
  end.

Definition chat_step r g w : (gw * W) * served :=
  let '((hd, w'), out) :=
    ServeHTTP (Backend0 := redis_backend (H := manager_rates (g_redis g))) (BudgetStore0 := manager_budgets (g_redis g))
      (Cache0 := manager_cache (g_redis g)) (cache_embed g (request_ctx r w)) (http_view r w) (chat_handler g, w) in
  ((put_chat hd g, w'), out).
Definition serve_chat : handler := fun r h '(g, w) =>
  let '(s, out) := chat_step r g w in written r s (hit_events r) out.

Definition embeddings_step r g w : (gw * W) * served :=
  let '((hd, w'), out) :=
    Embeddings_ServeHTTP (Backend0 := redis_backend (H := manager_rates (g_redis g)))
      (BudgetStore0 := manager_budgets (g_redis g)) (Cache0 := manager_cache (g_redis g)) (rq_Method r) (http_view r w)
      (embed_handler g, w) in
  ((put_embed hd g, w'), out).
Definition serve_embeddings : handler := fun r h '(g, w) =>
  let '(s, out) := embeddings_step r g w in written r s (fun _ => []) out.

(** ** Health *)
Definition health_ops (reply : health_reply) : list wop :=
  json_type :: (if reply.1 =? 200 then [] else [WriteHeader reply.1]) ++ [Write (json_health reply.2)].
Definition answer_health r (s : state) (reply : health_reply) : output state := finished r s (health_ops reply).

Definition serve_models : handler := fun r h '(g, w) =>
  answer_health r (g, w) (Models_ServeHTTP up_Name up_Models (Registry_All (g_registry g)) (rt_Now w / Second)).

(** [main] gives the readiness handler a health handler. *)
Definition health_of g : HealthHandler := default (NewHealthHandler 0) (rh_health (g_readiness g)).
Definition serve_health : handler := fun r h '(g, w) => answer_health r (g, w) (Health_ServeHTTP (health_of g) (rt_Now w)).
Definition serve_livez : handler := fun r h '(g, w) => answer_health r (g, w) (Liveness_ServeHTTP (health_of g) (rt_Now w)).

(** The checks of a fan-out, one after the other, each within its time. *)
Definition check_provider (o : HealthOptions) (ctx : Ctx) (acc : W * gmap string string) (p : upstream) : W * gmap string string :=
  let '(w, failed) := acc in
  let '(w, pctx) := rt_WithTimeout ctx (ho_ProviderTimeout o) w in
  if ho_SkipExpensiveChecks o && str_eqb (up_Name p) "anthropic" then (rt_Cancel pctx w, failed)
  else
    let '(w, err) := up_HealthCheck p pctx w in
    (rt_Cancel pctx w, match err with Some e => <[up_Name p := error_text e]> failed | None => failed end).
Definition check_providers (o : HealthOptions) (ctx : Ctx) (ps : list upstream) w : W * (upstream -> option string) :=
  let '(w, ctx) := rt_WithTimeout ctx (ho_CheckTimeout o) w in
  let '(w, failed) := foldl (check_provider o ctx) (w, ∅) ps in
  (rt_Cancel ctx w, fun p => failed !! up_Name p).

Definition put_readiness (h : ReadinessHandler) g : gw :=
  mkGateway (g_registry g) (g_redis g) (g_limiter g) (g_overrides g) (g_budget g) (g_cache g) (g_auth g)
    (g_rateLimitEnabled g) h (g_healthProviders g) (g_chat g) (g_embeddings g) (g_cfg g) (g_fixed g).

Definition serve_readyz : handler := fun r h '(g, w) =>
  let rh := g_readiness g in
  let all := Registry_All (g_registry g) in
  let now := rt_Now w in
  let idle := is_draining rh || bool_decide (is_Some (cachedSnapshot rh now)) in
  let '(w, check) := if idle then (w, fun _ => None) else check_providers (rh_options rh) (request_ctx r w) all w in
  let '(rh, reply) := Readiness_ServeHTTP up_Name all check now now (rt_Now w) rh in
  answer_health r (put_readiness rh g, w) reply.

Definition serve_health_providers : handler := fun r h '(g, w) =>
  let all := Registry_All (g_registry g) in
  let '(w, check) := check_providers (g_healthProviders g) (request_ctx r w) all w in
  answer_health r (g, w) (HealthProviders_ServeHTTP up_Name all check (g_healthProviders g)).

Definition serve_metrics : handler := fun r h '(g, w) => finished r (g, w) (metrics_page w).

(** ** The mux *)
Definition text_error (status : Z) (text : string) : list wop :=
  [HSet "Content-Type" "text/plain; charset=utf-8"; HSet "X-Content-Type-Options" "nosniff"; WriteHeader status;
   Write (text +:+ newline)].

(** A pattern with the method GET is also for HEAD. *)
Definition endpoints : list (string * (bool * handler)) :=
  [("/v1/chat/completions", (true, serve_chat)); ("/v1/embeddings", (true, serve_embeddings));
   ("/v1/models", (false, serve_models)); ("/health", (false, serve_health));
   ("/health/providers", (false, serve_health_providers)); ("/livez", (false, serve_livez));
   ("/readyz", (false, serve_readyz)); ("/metrics", (false, serve_metrics))].
Definition method_ok (post : bool) (method : string) : bool :=
  if post then str_eqb method "POST" else str_eqb method "GET" || str_eqb method "HEAD".

Definition mux : handler := fun r h s =>
  match redirect r with
  | Some ops => finished r s ops
  | None =>
      match list_find (fun e => e.1 = rq_Path r) endpoints with
      | None => finished r s (text_error 404 "404 page not found")
      | Some (_, (_, (post, serve))) =>
          if method_ok post (rq_Method r) then serve r h s
          else finished r s (HSet "Allow" (if post then "POST" else "GET, HEAD") :: text_error 405 "Method Not Allowed")
      end
  end.

End routes.

(** ** The handler of the server

    What the standard library and the tracer contribute to it. *)
Class Host (Ctx W : Type) := {
  host_ctx : request -> W -> Ctx;
  host_redirect : request -> option (list wop);
  host_metrics : W -> list wop;
  host_sha_hex : string -> string;
  host_request_id : W -> W * string;
  host_Start : request -> option string;
  host_inject : request -> list (string * string);
}.

Definition serve {Ctx Rng W : Type}
    `{!JsonText, !Http Ctx W, !Runtime Ctx Rng W, !RedisScripts W, !RedisStore.RedisKV W}
    `{!Web string W, !WebEmbedding string, !ErrorEncoder, !Texts, !Host Ctx W} (hashKey : string -> string)
    (r : request) (s : gateway (Rng := Rng) (Store := unit) * W) : output (gateway (Rng := Rng) (Store := unit) * W) :=
  chain manager_rates hashKey (host_sha_hex (Ctx := Ctx) (W := W)) (rt_Now (Ctx := Ctx) (Rng := Rng))
    (host_request_id (Ctx := Ctx)) (host_Start (Ctx := Ctx) (W := W)) (host_inject (Ctx := Ctx) (W := W)) (g_fixed s.1)
    (mux host_ctx (host_redirect (Ctx := Ctx) (W := W)) (host_metrics (Ctx := Ctx))) r ∅ s.
