(* ===== verification/Traffic.v ===== *)
(** * What requests change

    Serving a request, by whatever route and with whatever result, leaves
    everything alone that the configuration decides: it draws from the random
    source, fills and drains buckets, books usage, fills the cache, moves
    breakers and takes readiness snapshots.  This is the step the control
    plane of [Gateway] takes traffic to be. *)

From Stdlib Require Import Ascii String.
From S2P Require Import Prelude GoFloat GoStrings Types Pricing Circuit Retry Budget RateLimit RateBackend Cache CacheSemantic.
From S2P Require Import Auth Router Translate Wire Provider Dispatch Streams Upstream Serve Embeddings Middleware Health.
From S2P Require Import Gateway Wiring Chain Routes.
From S2P Require Config RedisStore.
Open Scope string_scope.
Open Scope list_scope.
Open Scope Z_scope.

(** ** The parts requests work on *)

(** Two limiters with the same store and limits. *)
Definition limiter_settings (l : Limiter) := (lm_rate l, lm_burst l, lm_ttl l).
Definition redis_settings {Store} (l : RedisLimiter (Store := Store)) :=
  (rl_store l, rl_rate l, rl_burst l, limiter_settings (rl_fallback l)).

Lemma AllowWithLimits_settings l key n rpm burst now :
  limiter_settings (AllowWithLimits l key n rpm burst now).1 = limiter_settings l.
Proof.
  unfold AllowWithLimits. destruct (_ || _); [done|]. destruct (refillLocked _ _ _ _ _) as [sh b]. by destruct (_ <? _).
Qed.
Lemma RetryAfterWithLimits_settings l key rpm burst now :
  limiter_settings (RetryAfterWithLimits l key rpm burst now).1 = limiter_settings l.
Proof.
  unfold RetryAfterWithLimits. destruct (_ || _); [done|]. destruct (refillLocked _ _ _ _ _) as [sh b]. by destruct (_ <=? _).
Qed.

Section limiter.
Context {Store W : Type} `{!RateStore Store W}.
Implicit Types (l : RedisLimiter (Store := Store)) (w : W).

Lemma rl_set_settings l fb d : limiter_settings fb = limiter_settings (rl_fallback l) -> redis_settings (rl_set l fb d) = redis_settings l.
Proof. unfold redis_settings. simpl. by intros ->. Qed.

Lemma Redis_AllowWithLimits_settings l key n rpm burst now w :
  redis_settings (Redis_AllowWithLimits l key n rpm burst now w).1.1 = redis_settings l.
Proof.
  unfold Redis_AllowWithLimits. destruct (_ || _); [done|].
  assert (forall w, redis_settings (let '(fb, ok) := AllowWithLimits (rl_fallback l) key (if n <=? 0 then 1 else n) rpm burst now in
    (rl_set l fb true, w, ok)).1.1 = redis_settings l) as Hloc.
  { intros w'. pose proof (AllowWithLimits_settings (rl_fallback l) key (if n <=? 0 then 1 else n) rpm burst now) as Ha.
    destruct (AllowWithLimits _ _ _ _ _ _) as [fb ok]. by apply rl_set_settings. }
  destruct (rl_store l); [|apply Hloc]. destruct (rs_run _ _ _ _ _ _ _ _) as [w' [[v|]|e]]; [|apply Hloc..].
  by apply rl_set_settings.
Qed.
Lemma Redis_RetryAfterWithLimits_settings l key rpm burst now :
  redis_settings (Redis_RetryAfterWithLimits l key rpm burst now).1 = redis_settings l.
Proof.
  unfold Redis_RetryAfterWithLimits. destruct (_ <=? _); [done|]. destruct (rl_degraded l); [|done].
  pose proof (RetryAfterWithLimits_settings (rl_fallback l) key rpm burst now) as Ha.
  destruct (RetryAfterWithLimits _ _ _ _ _) as [fb d]. by apply rl_set_settings.
Qed.
Lemma Redis_AllowN_settings l key n now w : redis_settings (Redis_AllowN l key n now w).1.1 = redis_settings l.
Proof. unfold Redis_AllowN. destruct (redis_limits l). apply Redis_AllowWithLimits_settings. Qed.
Lemma Redis_RetryAfter_settings l key now : redis_settings (Redis_RetryAfter l key now).1 = redis_settings l.
Proof. unfold Redis_RetryAfter. destruct (redis_limits l). apply Redis_RetryAfterWithLimits_settings. Qed.
Lemma take_token_settings {S : Type} (limiter : S -> RedisLimiter (Store := Store) * W) (now : S -> Z) key rpm burst s :
  redis_settings (take_token limiter now key rpm burst s).1.1.1 = redis_settings (limiter s).1.
Proof.
  unfold take_token. destruct (limiter s) as [l w]. cbn [be_AllowN be_AllowWithLimits be_RetryAfterWithLimits be_RetryAfter redis_backend fst].
  destruct (_ && _).
  - rewrite <-(Redis_AllowWithLimits_settings l key 1 rpm burst (now s) w). destruct (Redis_AllowWithLimits _ _ _ _ _ _ _) as [[l1 w1] ok].
    cbn [fst]. rewrite <-(Redis_RetryAfterWithLimits_settings l1 key rpm burst (now s)). by destruct (Redis_RetryAfterWithLimits _ _ _ _ _).
  - rewrite <-(Redis_AllowN_settings l key 1 (now s) w). destruct (Redis_AllowN _ _ _ _ _) as [[l1 w1] ok].
    cbn [fst]. rewrite <-(Redis_RetryAfter_settings l1 key (now s)). by destruct (Redis_RetryAfter _ _ _).
Qed.
End limiter.

(** Two managers with the same store and configuration. *)
Definition budget_settings {Store} (m : Budget.Manager (Store := Store)) :=
  (m_redisStore m, m_enabled m, m_tokens m, m_usd m, m_costPerTokenUSD m, m_catalog m).

Section budget.
Context {Store W : Type} `{!BudgetStore Store W}.
Implicit Types (m : Budget.Manager (Store := Store)) (w : W).

Lemma reserveMem_settings m tenant month t u : budget_settings (reserveMem m tenant month t u).1 = budget_settings m.
Proof. unfold reserveMem. by case_match. Qed.
Lemma Reserve_settings m tenant month t u w : budget_settings (Reserve m tenant month t u w).1.1 = budget_settings m.
Proof.
  unfold Reserve. destruct (_ || _); [done|]. destruct (active_store m w) as [s|].
  - by destruct (reserveRedis _ _ _ _ _ _ _) as [w' [e|]].
  - pose proof (reserveMem_settings m tenant month (if t <? 0 then 0 else t) (if u <? 0 then 0 else u)) as Hm.
    by destruct (reserveMem _ _ _ _ _) as [m' [e|]].
Qed.
Lemma reservation_finish_settings m rv dt du w : budget_settings (reservation_finish m rv dt du w).1.1 = budget_settings m.
Proof.
  unfold reservation_finish, adjust, adjustMem. destruct (rv_once rv); [done|]. destruct (active_store m w) as [s|].
  - by destruct (adjustRedis _ _ _ _ _ _ _) as [w' e].
  - destruct (m_mem m !! _); [done|]. by destruct (_ && _).
Qed.
Lemma Commit_settings m rv t u w : budget_settings (Commit m rv t u w).1.1.1 = budget_settings m.
Proof.
  unfold Commit. match goal with |- context [reservation_finish m rv ?a ?b w] => pose proof (reservation_finish_settings m rv a b w) as Hf;
    destruct (reservation_finish m rv a b w) as [[m' w'] rv'] end. exact Hf.
Qed.
Lemma Cancel_settings m rv w : budget_settings (Cancel m rv w).1.1 = budget_settings m.
Proof. apply reservation_finish_settings. Qed.
End budget.

(** Two caches built alike: [cache_shape] of [Gateway]. *)
Section cache.
Context {Rng W : Type} `{!RedisScripts W, !RedisStore.RedisKV W}.
Context (m : RedisStore.Manager).
#[local] Instance the_cache : Cache base_cache W := manager_cache m.
Abbreviation Reg := (Registry (P := upstream) (Rng := Rng)).
Context (embed : string -> Reg * W -> (Reg * W) * result (list float64) unit).
Implicit Types (w : W) (sm : Semantic (C := base_cache)).

Lemma base_Get_shape b key now w : base_shape (ca_Get b key now w).1.1 = base_shape b.
Proof.
  destruct b as [c|p]; simpl; [|by destruct (RedisStore.Redis_Get _ _ _)]. f_equal. apply (mem_exec_max (`c) (CGet key now)).
Qed.
Lemma base_Set_shape b key v ttl now w : base_shape (ca_Set b key v ttl now w).1 = base_shape b.
Proof. destruct b as [c|p]; simpl; [|done]. f_equal. apply (mem_exec_max (`c) (CSet key v ttl now)). Qed.

Definition semantic_shape sm := cache_shape (Semantic_ sm).

Lemma sm_with_shape sm c es clock : base_shape c = base_shape (sm_exact sm) -> semantic_shape (sm_with sm c es clock) = semantic_shape sm.
Proof. unfold semantic_shape. simpl. by intros ->. Qed.

Lemma Semantic_Set_shape sm key v ttl now w : semantic_shape (Semantic_Set sm key v ttl now w).1 = semantic_shape sm.
Proof.
  unfold Semantic_Set. pose proof (base_Set_shape (sm_exact sm) key v ttl now w) as Hs.
  destruct (ca_Set _ _ _ _ _ _). by apply sm_with_shape.
Qed.

Lemma try_candidates_shape sm ns now cs w : semantic_shape (try_candidates sm ns now cs w).1.1 = semantic_shape sm.
Proof.
  revert sm w. induction cs as [|c cs IH]; intros sm w; [done|]. cbn [try_candidates].
  pose proof (base_Get_shape (sm_exact sm) (se_key (sc_entry c)) now w) as Hg.
  destruct (ca_Get _ _ _ _) as [[ex w'] [v|]]; [by apply sm_with_shape|]. rewrite IH. by apply sm_with_shape.
Qed.

Lemma Lookup_shape sm ns q now xw : semantic_shape (Lookup embed sm ns q now xw).1.1 = semantic_shape sm.
Proof.
  unfold Lookup. destruct (_ || _); [done|]. destruct (embed q xw) as [[x w] [[|y v]|]]; try done.
  destruct (foldl _ _ _) as [fl cs]. match goal with |- context [try_candidates ?s1 ns now ?t w] =>
    pose proof (try_candidates_shape s1 ns now t w) as Ht; destruct (try_candidates s1 ns now t w) as [[sm' w'] r] end.
  cbn [fst] in *. rewrite Ht. by apply sm_with_shape.
Qed.

Lemma SetSemantic_shape sm ns q key v ttl now xw : semantic_shape (SetSemantic embed sm ns q key v ttl now xw).1 = semantic_shape sm.
Proof.
  unfold SetSemantic. pose proof (Semantic_Set_shape sm key v ttl now xw.2) as Hs.
  destruct (Semantic_Set sm key v ttl now xw.2) as [sm' w]. cbn [fst] in Hs.
  destruct (_ || _); [done|]. destruct (embed q _) as [xw' [[|y vec]|]]; [done| |done].
  cbn [fst]. rewrite <-Hs. by apply sm_with_shape.
Qed.

Lemma cache_Get_shape c key now w : cache_shape (cache_Get c key now w).1.1 = cache_shape c.
Proof.
  destruct c as [b|sm]; cbn [cache_Get].
  - pose proof (base_Get_shape b key now w) as Hg. destruct (ca_Get _ _ _ _) as [[b' w'] v]. simpl in *. by rewrite Hg.
  - unfold Semantic_Get. pose proof (base_Get_shape (sm_exact sm) key now w) as Hg.
    destruct (ca_Get _ _ _ _) as [[b' w'] v]. by apply sm_with_shape.
Qed.

(** The embedder leaves the registry alone but for its random source. *)
Definition draws_only : Prop := forall q reg w, exists rnd, (embed q (reg, w)).1.1 = with_rnd reg rnd.

Lemma with_rnd_id (reg : Reg) : with_rnd reg (rg_rnd reg) = reg.
Proof. by destruct reg. Qed.

Lemma Lookup_draws sm ns q now reg w : draws_only -> exists rnd, (Lookup embed sm ns q now (reg, w)).1.2.1 = with_rnd reg rnd.
Proof.
  intros He. unfold Lookup. destruct (_ || _); [exists (rg_rnd reg); by rewrite with_rnd_id|].
  destruct (He q reg w) as [rnd Hr]. destruct (embed q (reg, w)) as [[x w'] [[|y v]|]]; try by exists rnd.
  destruct (foldl _ _ _) as [fl cs]. destruct (try_candidates _ _ _ _ _) as [[sm' w''] r]. by exists rnd.
Qed.

Lemma SetSemantic_draws sm ns q key v ttl now reg w :
  draws_only -> exists rnd, (SetSemantic embed sm ns q key v ttl now (reg, w)).2.1 = with_rnd reg rnd.
Proof.
  intros He. unfold SetSemantic. destruct (Semantic_Set _ _ _ _ _ _) as [sm' w1].
  destruct (_ || _); [exists (rg_rnd reg); by rewrite with_rnd_id|]. cbn [fst].
  destruct (He q reg w1) as [rnd Hr]. destruct (embed q (reg, w1)) as [[x w'] [[|y vec]|]]; by exists rnd.
Qed.
End cache.

(** ** One request *)

(** What the two handlers of the API share of the gateway. *)
Record parts (Rng : Type) := mkParts {
  pt_registry : Registry (P := upstream) (Rng := Rng);
  pt_limiter : option (RedisLimiter (Store := unit));
  pt_budget : option (Budget.Manager (Store := unit));
  pt_cache : option (any_cache base_cache);
}.
Arguments mkParts {Rng}.
Arguments pt_registry {Rng}.
Arguments pt_limiter {Rng}.
Arguments pt_budget {Rng}.
Arguments pt_cache {Rng}.

(** They are used up, and stay what they are. *)
Record used {Rng} (a b : parts Rng) : Prop := {
  us_registry : exists rnd, pt_registry b = with_rnd (pt_registry a) rnd;
  us_limiter : redis_settings <$> pt_limiter b = redis_settings <$> pt_limiter a;
  us_budget : budget_settings <$> pt_budget b = budget_settings <$> pt_budget a;
  us_cache : cache_shape <$> pt_cache b = cache_shape <$> pt_cache a;
}.
#[export] Instance used_refl {Rng} : Reflexive (used (Rng := Rng)).
Proof. intros a. split; try done. exists (rg_rnd (pt_registry a)). by rewrite with_rnd_id. Qed.
#[export] Instance used_trans {Rng} : Transitive (used (Rng := Rng)).
Proof.
  intros a b c [[r1 H1] ? ? ?] [[r2 H2] ? ? ?]. split; [|congruence..]. exists r2. by rewrite H2, H1.
Qed.

Section chat.
Context {Ctx Rng W : Type}.
Context `{!JsonText, !Http Ctx W, !Runtime Ctx Rng W, !RedisScripts W, !RedisStore.RedisKV W, !Web string W}.
Context (m : RedisStore.Manager).
#[local] Instance chat_rates : RateStore unit W := manager_rates m.
#[local] Instance chat_budgets : BudgetStore unit W := manager_budgets m.
#[local] Instance chat_cache : Cache base_cache W := manager_cache m.
Abbreviation Reg := (Registry (P := upstream) (Rng := Rng)).
Context (embed : string -> Reg * W -> (Reg * W) * result (list float64) unit) (Hembed : draws_only embed).
Abbreviation Hd := (Handler upstream Rng (RedisLimiter (Store := unit)) OverrideStore (Budget.Manager (Store := unit)) (any_cache base_cache)).
Abbreviation sys := (Hd * W)%type.
Implicit Types (h : Hd) (w : W) (s : sys) (req : ChatRequest) (r : http_request string Ctx).

Definition chat_parts h : parts Rng := mkParts (h_registry h) (h_limiter h) (h_budgetMgr h) (h_cache h).
Definition chat_rest h :=
  (h_fallbackChain h, h_retryCfg h, h_circuitCfg h, h_hedgeCfg h, h_overrideStore h, h_tokenAware h, h_cacheTTL h).
Definition chat_used h h' : Prop := chat_rest h' = chat_rest h /\ used (chat_parts h) (chat_parts h').

#[local] Instance chat_used_refl : Reflexive chat_used.
Proof. intros h. by split. Qed.
#[local] Instance chat_used_trans : Transitive chat_used.
Proof. intros h1 h2 h3 [? ?] [? ?]. split; [congruence|by etrans]. Qed.

Lemma drawn_used h rnd : chat_used h (drawn h rnd).
Proof. split; [done|]. split; try done. by exists rnd. Qed.
Lemma same_handler_used h h' : same_handler h h' -> chat_used h h'.
Proof.
  intros [rnd Hh]. etrans; [apply (drawn_used h rnd)|]. unfold same_config in Hh. unfold chat_used, chat_rest, chat_parts.
  rewrite <-Hh. done.
Qed.
Lemma with_limiter_used h l l' :
  h_limiter h = Some l -> redis_settings l' = redis_settings l -> chat_used h (with_limiter h l').
Proof. intros Hl Hs. split; [done|]. split; try done; cbn [pt_registry pt_limiter pt_budget pt_cache chat_parts h_registry h_limiter h_budgetMgr h_cache with_limiter with_budget with_cache SetCache]; [|rewrite Hl; exact (f_equal Some Hs)]. exists (rg_rnd (h_registry h)). by rewrite with_rnd_id. Qed.
Lemma with_budget_used h b b' :
  h_budgetMgr h = Some b -> budget_settings b' = budget_settings b -> chat_used h (with_budget h b').
Proof. intros Hl Hs. split; [done|]. split; try done; cbn [pt_registry pt_limiter pt_budget pt_cache chat_parts h_registry h_limiter h_budgetMgr h_cache with_limiter with_budget with_cache SetCache]; [|rewrite Hl; exact (f_equal Some Hs)]. exists (rg_rnd (h_registry h)). by rewrite with_rnd_id. Qed.
Lemma with_cache_used h c c' :
  h_cache h = Some c -> cache_shape c' = cache_shape c -> chat_used h (with_cache h c').
Proof. intros Hl Hs. split; [done|]. split; try done; cbn [pt_registry pt_limiter pt_budget pt_cache chat_parts h_registry h_limiter h_budgetMgr h_cache with_limiter with_budget with_cache SetCache]; [|rewrite Hl; exact (f_equal Some Hs)]. exists (rg_rnd (h_registry h)). by rewrite with_rnd_id. Qed.

Lemma check_tokens_used r req s : chat_used s.1 (check_tokens r req s).1.1.
Proof.
  unfold check_tokens. destruct (h_overrideStore s.1) as [o|]; [|done]. destruct (h_limiter s.1) as [l|] eqn:El; [|done].
  destruct (RateLimit.Resolve o _ _) as [rpm burst]. destruct (h_tokenAware s.1); [|done]. cbv zeta. cbn [be_AllowWithLimits be_RetryAfterWithLimits redis_backend].
  match goal with |- context [Redis_AllowWithLimits l ?k ?n rpm burst ?t s.2] =>
    pose proof (Redis_AllowWithLimits_settings l k n rpm burst t s.2) as Ha;
    destruct (Redis_AllowWithLimits l k n rpm burst t s.2) as [[l1 w1] [|]] end; cbn [fst] in Ha; [by eapply with_limiter_used|].
  match goal with |- context [Redis_RetryAfterWithLimits l1 ?k rpm burst ?t] =>
    pose proof (Redis_RetryAfterWithLimits_settings l1 k rpm burst t) as Hr;
    destruct (Redis_RetryAfterWithLimits l1 k rpm burst t) as [l2 d] end. cbn [fst] in Hr.
  eapply with_limiter_used; [exact El|]. by rewrite Hr.
Qed.

Lemma cache_used_some r req s c : cache_used s r req = Some c -> h_cache s.1 = Some c.
Proof. unfold cache_used. destruct (h_cache s.1); [|done]. by destruct (_ && _). Qed.

Lemma cache_lookup_used r req s : chat_used s.1 (cache_lookup embed r req s).1.1.
Proof.
  unfold cache_lookup. destruct (cache_used s r req) as [c|] eqn:Ec; [|done]. apply cache_used_some in Ec.
  pose proof (cache_Get_shape m c (chat_key r req) (time_Now s.2) s.2) as Hg.
  destruct (cache_Get c _ _ _) as [[c1 w1] [v|]]; cbn [fst] in Hg; [by eapply with_cache_used|].
  destruct c1 as [b|sm]; [by eapply with_cache_used|].
  match goal with |- context [Lookup embed sm ?ns ?q ?t ?xw] =>
    pose proof (Lookup_shape m embed sm ns q t xw) as Hl;
    destruct (Lookup_draws m embed sm ns q t (h_registry s.1) w1 Hembed) as [rnd Hd];
    destruct (Lookup embed sm ns q t xw) as [[sm2 [reg w2]] hit] end. cbn [fst snd] in *. subst reg.
  etrans; [apply (drawn_used s.1 rnd)|]. eapply (with_cache_used (drawn s.1 rnd)); [exact Ec|]. exact (eq_trans Hl Hg).
Qed.

Lemma cache_store_used r req key data ttl s : chat_used s.1 (cache_store embed r req key data ttl s).1.
Proof.
  unfold cache_store. destruct (h_cache s.1) as [[b|sm]|] eqn:Ec; [| |done].
  - pose proof (base_Set_shape m b key data ttl (time_Now s.2) s.2) as Hs.
    destruct (ca_Set _ _ _ _ _ _) as [b' w']. eapply with_cache_used; [exact Ec|]. cbn in *. by rewrite Hs.
  - match goal with |- context [SetSemantic embed sm ?ns ?q key data ttl ?t ?xw] =>
      pose proof (SetSemantic_shape m embed sm ns q key data ttl t xw) as Hl;
      destruct (SetSemantic_draws m embed sm ns q key data ttl t (h_registry s.1) s.2 Hembed) as [rnd Hd];
      destruct (SetSemantic embed sm ns q key data ttl t xw) as [sm2 [reg w2]] end. cbn [fst snd] in *. subst reg.
    etrans; [apply (drawn_used s.1 rnd)|]. by eapply (with_cache_used (drawn s.1 rnd)).
Qed.

Lemma reserveChatBudget_used tenant req s : chat_used s.1 (reserveChatBudget tenant req s).1.1.
Proof.
  unfold reserveChatBudget. destruct (h_budgetMgr s.1) as [b|] eqn:Eb; [|done]. cbv zeta.
  destruct (Manager_EstimateChat _ _ _ _) as [est|e]; [|done].
  match goal with |- context [Reserve b ?t ?mo ?k ?u ?w] =>
    pose proof (Reserve_settings b t mo k u w) as Hr; destruct (Reserve b t mo k u w) as [[b' w'] [rv|e]] end;
    by eapply with_budget_used.
Qed.
Lemma commit_used rv tokens usd s : chat_used s.1 (commit rv tokens usd s).1.
Proof.
  unfold commit. destruct (h_budgetMgr s.1) as [b|] eqn:Eb; [|done]. destruct rv as [rv|]; [|done].
  pose proof (Commit_settings b rv tokens usd s.2) as Hc. destruct (Commit _ _ _ _ _) as [[[b' w'] rv'] e]. by eapply with_budget_used.
Qed.
Lemma cancel_used rv s : chat_used s.1 (cancel rv s).1.
Proof.
  unfold cancel. destruct (h_budgetMgr s.1) as [b|] eqn:Eb; [|done]. destruct rv as [rv|]; [|done].
  pose proof (Cancel_settings b rv s.2) as Hc. destruct (Cancel _ _ _) as [[b' w'] rv']. by eapply with_budget_used.
Qed.

Lemma serve_stream_used r req rv tokens usd s : chat_used s.1 (serve_stream r req rv tokens usd s).1.1.
Proof.
  pose proof (same_handler_used _ _ (handleStream_frame r req s)) as Hf. unfold serve_stream.
  destruct (handleStream r req s) as [[s1 out] started]. cbn [fst] in Hf.
  destruct out as [rs| |]; [|exact Hf..]. cbn [fst]. etrans; [exact Hf|]. destruct started; [apply commit_used|apply cancel_used].
Qed.

Lemma serve_completion_used r req key ttl rv s : chat_used s.1 (serve_completion embed r req key ttl rv s).1.1.
Proof.
  pose proof (same_handler_used _ _ (dispatch_frame (q_ctx r) req s)) as Hf. unfold serve_completion.
  destruct (dispatch (q_ctx r) req s) as [s1 [[resp name]|e]]; cbn [fst] in *; [|etrans; [exact Hf|apply cancel_used]].
  assert (chat_used s.1 (sys_state s1 name).1) as H2.
  { etrans; [exact Hf|]. apply same_handler_used. exists (rg_rnd (h_registry s1.1)). rewrite drawn_id. apply sys_state_frame. }
  cbv zeta. set (s3 := match h_budgetMgr (sys_state s1 name).1 with Some _ => _ | None => _ end).
  assert (chat_used s.1 s3.1) as H3.
  { subst s3. destruct (h_budgetMgr _); [|done]. etrans; [exact H2|apply commit_used]. }
  destruct (h_cache s3.1); cbn [fst]; [|done]. destruct (str_eqb key ""); [done|]. etrans; [exact H3|apply cache_store_used].
Qed.

Lemma ServeHTTP_used r s : chat_used s.1 (ServeHTTP embed r s).1.1.
Proof.
  unfold ServeHTTP. destruct (validate (q_Body r)) as [req|out]; [|done].
  pose proof (check_tokens_used r req s) as H1. destruct (check_tokens r req s) as [s1 [ra|]]; [exact H1|]. cbn [fst] in H1.
  destruct (match cache_used s1 r req with Some _ => _ | None => _ end) as [key ttl].
  pose proof (cache_lookup_used r req s1) as H2. destruct (cache_lookup embed r req s1) as [s2 [[layer data]|]]; cbn [fst] in *; [by etrans|].
  pose proof (reserveChatBudget_used (q_TenantID r) req s2) as H3.
  destruct (reserveChatBudget _ _ _) as [s3 [[[rv tokens] usd]|e]]; cbn [fst] in *; [|etrans; [exact H1|by etrans]].
  etrans; [exact H1|]. etrans; [exact H2|]. etrans; [exact H3|].
  destruct (req_Stream req); [apply serve_stream_used|apply serve_completion_used].
Qed.
End chat.

Section embeddings.
Context {Ctx Rng W : Type}.
Context `{!JsonText, !Http Ctx W, !Runtime Ctx Rng W, !RedisScripts W, !RedisStore.RedisKV W, !Web string W, !WebEmbedding string}.
Context (m : RedisStore.Manager).
#[local] Instance embed_rates : RateStore unit W := manager_rates m.
#[local] Instance embed_budgets : BudgetStore unit W := manager_budgets m.
#[local] Instance embed_cache : Cache base_cache W := manager_cache m.
Abbreviation Eh := (EmbeddingsHandler upstream Rng (RedisLimiter (Store := unit)) (Budget.Manager (Store := unit)) (any_cache base_cache)).
Abbreviation sys := (Eh * W)%type.
Implicit Types (h : Eh) (w : W) (s : sys) (req : EmbeddingRequest) (r : http_request string Ctx).

Definition embed_parts h : parts Rng := mkParts (eh_registry h) (eh_limiter h) (eh_budgetMgr h) (eh_cache h).
Definition embed_rest h :=
  (eh_fallbackChain h, eh_overrides h, eh_tokenAware h, eh_retryCfg h, eh_circuitCfg h, eh_cacheTTL h).
Definition embed_used h h' : Prop := embed_rest h' = embed_rest h /\ used (embed_parts h) (embed_parts h').

#[local] Instance embed_used_refl : Reflexive embed_used.
Proof. intros h. by split. Qed.
#[local] Instance embed_used_trans : Transitive embed_used.
Proof. intros h1 h2 h3 [? ?] [? ?]. split; [congruence|by etrans]. Qed.

Lemma same_eh_used h h' : same_eh h h' -> embed_used h h'.
Proof. intros (rnd & cs & ->). split; [done|]. split; try done. by exists rnd. Qed.
Lemma eh_with_limiter_used h l l' :
  eh_limiter h = Some l -> redis_settings l' = redis_settings l -> embed_used h (eh_with_limiter h l').
Proof.
  intros Hl Hs. split; [done|]. split; try done; [exists (rg_rnd (eh_registry h)); by destruct h as [[]]|].
  cbn [pt_limiter embed_parts eh_limiter eh_with_limiter]. rewrite Hl. exact (f_equal Some Hs).
Qed.
Lemma eh_with_budget_used h b b' :
  eh_budgetMgr h = Some b -> budget_settings b' = budget_settings b -> embed_used h (eh_with_budget h b').
Proof.
  intros Hl Hs. split; [done|]. split; try done; [exists (rg_rnd (eh_registry h)); by destruct h as [[]]|].
  cbn [pt_budget embed_parts eh_budgetMgr eh_with_budget]. rewrite Hl. exact (f_equal Some Hs).
Qed.
Lemma eh_with_cache_used h c c' :
  eh_cache h = Some c -> cache_shape c' = cache_shape c -> embed_used h (eh_SetCache h (Some c') (eh_cacheTTL h)).
Proof.
  intros Hl Hs. split; [done|]. split; try done; [exists (rg_rnd (eh_registry h)); by destruct h as [[]]|].
  cbn [pt_cache embed_parts eh_cache eh_SetCache]. rewrite Hl. exact (f_equal Some Hs).
Qed.

Lemma eh_resolve_used model s : embed_used s.1 (eh_resolve model s).1.1.
Proof.
  destruct (eh_resolve_frame model s) as [rnd ->]. apply same_eh_used. exists rnd, (eh_circuits s.1). by destruct s as [[] ?].
Qed.

Lemma embedding_lookup_used r req s : embed_used s.1 (embedding_lookup r req s).1.1.
Proof.
  unfold embedding_lookup, embedding_cache. destruct (eh_cache s.1) as [c|] eqn:Ec; [|done]. destruct (negb _); [|done].
  pose proof (cache_Get_shape m c (embedding_key r req) (time_Now s.2) s.2) as Hg.
  destruct (cache_Get c _ _ _) as [[c1 w1] v]. by eapply eh_with_cache_used.
Qed.

Lemma embedding_tokens_used r req s : embed_used s.1 (embedding_tokens r req s).1.1.
Proof.
  unfold embedding_tokens. destruct (eh_limiter s.1) as [l|] eqn:El; [|done]. destruct (eh_overrides s.1) as [o|]; [|done].
  destruct (eh_tokenAware s.1); [|done]. destruct (RateLimit.Resolve o _ _) as [rpm burst]. cbv zeta.
  cbn [be_AllowWithLimits be_RetryAfterWithLimits redis_backend].
  match goal with |- context [Redis_AllowWithLimits l ?k ?n rpm burst ?t s.2] =>
    pose proof (Redis_AllowWithLimits_settings l k n rpm burst t s.2) as Ha;
    destruct (Redis_AllowWithLimits l k n rpm burst t s.2) as [[l1 w1] [|]] end; cbn [fst] in Ha; [by eapply eh_with_limiter_used|].
  match goal with |- context [Redis_RetryAfterWithLimits l1 ?k rpm burst ?t] =>
    pose proof (Redis_RetryAfterWithLimits_settings l1 k rpm burst t) as Hr;
    destruct (Redis_RetryAfterWithLimits l1 k rpm burst t) as [l2 d] end. cbn [fst] in Hr.
  eapply eh_with_limiter_used; [exact El|]. by rewrite Hr.
Qed.

Lemma embedding_reserve_for_used b name r req s :
  eh_budgetMgr s.1 = Some b -> embed_used s.1 (embedding_reserve_for b name r req s).1.1.
Proof.
  intros Eb. unfold embedding_reserve_for. cbv zeta. destruct (CostForEmbedding _ _ _ _) as [est|e]; [|done].
  match goal with |- context [Reserve b ?t ?mo ?k ?u ?w] =>
    pose proof (Reserve_settings b t mo k u w) as Hr; destruct (Reserve b t mo k u w) as [[b' w'] [rv|e]] end;
    by eapply eh_with_budget_used.
Qed.
Lemma embedding_reserve_used r req s : embed_used s.1 (embedding_reserve r req s).1.1.
Proof.
  unfold embedding_reserve. destruct (eh_budgetMgr s.1) as [b|] eqn:Eb; [|done].
  destruct (eh_resolve_frame (er_Model req) s) as [rnd Hr]. pose proof (eh_resolve_used (er_Model req) s) as Hu.
  destruct (eh_resolve (er_Model req) s) as [s1 [p|e]]; cbn [fst] in *; subst s1.
  - etrans; [exact Hu|]. by apply embedding_reserve_for_used.
  - destruct e; try exact Hu; (etrans; [exact Hu|by apply embedding_reserve_for_used]).
Qed.
Lemma embedding_commit_used rv name req resp s : embed_used s.1 (embedding_commit rv name req resp s).1.
Proof.
  unfold embedding_commit. destruct (eh_budgetMgr s.1) as [b|] eqn:Eb; [|done]. destruct rv as [rv|]; [|done]. cbv zeta.
  match goal with |- context [Commit b rv ?t ?u s.2] => pose proof (Commit_settings b rv t u s.2) as Hc;
    destruct (Commit b rv t u s.2) as [[[b' w'] rv'] e] end. by eapply eh_with_budget_used.
Qed.
Lemma embedding_cancel_used rv s : embed_used s.1 (embedding_cancel rv s).1.
Proof.
  unfold embedding_cancel. destruct (eh_budgetMgr s.1) as [b|] eqn:Eb; [|done]. destruct rv as [rv|]; [|done].
  pose proof (Cancel_settings b rv s.2) as Hc. destruct (Cancel _ _ _) as [[b' w'] rv']. by eapply eh_with_budget_used.
Qed.
Lemma embedding_store_used key data ttl s : embed_used s.1 (embedding_store key data ttl s).1.
Proof.
  unfold embedding_store. destruct (eh_cache s.1) as [[b|sm]|] eqn:Ec; [| |done].
  - pose proof (base_Set_shape m b key data ttl (time_Now s.2) s.2) as Hs. destruct (ca_Set _ _ _ _ _ _) as [b' w'].
    eapply eh_with_cache_used; [exact Ec|]. cbn in *. by rewrite Hs.
  - pose proof (Semantic_Set_shape m sm key data ttl (time_Now s.2) s.2) as Hs.
    destruct (Semantic_Set _ _ _ _ _ _) as [sm' w']. by eapply eh_with_cache_used.
Qed.

Lemma embedding_answer_used r req key ttl rv s : embed_used s.1 (embedding_answer r req key ttl rv s).1.1.
Proof.
  pose proof (same_eh_used _ _ (embed_dispatch_frame (q_ctx r) req s)) as Hf. unfold embedding_answer.
  destruct (embed_dispatch (q_ctx r) req s) as [s1 [[resp name]|e]]; cbn [fst] in *; [|etrans; [exact Hf|apply embedding_cancel_used]].
  cbv zeta. assert (embed_used s.1 (embedding_commit rv name req resp s1).1) as H2 by (etrans; [exact Hf|apply embedding_commit_used]).
  destruct (eh_cache _); cbn [fst]; [|exact H2]. destruct (str_eqb key ""); cbn [fst]; [exact H2|].
  etrans; [exact H2|apply embedding_store_used].
Qed.

Lemma Embeddings_ServeHTTP_used method r s : embed_used s.1 (Embeddings_ServeHTTP method r s).1.1.
Proof.
  unfold Embeddings_ServeHTTP. destruct (embedding_validate method (q_Body r)) as [req|out]; [|done].
  destruct (match embedding_cache s r with Some _ => _ | None => _ end) as [key ttl].
  pose proof (embedding_lookup_used r req s) as H1. destruct (embedding_lookup r req s) as [s1 [data|]]; cbn [fst] in *; [exact H1|].
  pose proof (embedding_tokens_used r req s1) as H2. destruct (embedding_tokens r req s1) as [s2 [ra|]]; cbn [fst] in *; [by etrans|].
  pose proof (embedding_reserve_used r req s2) as H3. destruct (embedding_reserve r req s2) as [s3 [rv|out]]; cbn [fst] in *.
  - etrans; [exact H1|]. etrans; [exact H2|]. etrans; [exact H3|apply embedding_answer_used].
  - etrans; [exact H1|]. by etrans.
Qed.
End embeddings.

(** ** The gateway after a request *)

Section gateway.
Context {Rng : Type}.
Abbreviation gw := (gateway (Rng := Rng) (Store := unit)).
Implicit Types g : gw.

(** A step of the traffic, as the control plane of [Gateway] takes it. *)
Definition traffic g g' : Prop := exists b, cache_shape <$> bu_cache b = cache_shape <$> g_cache g /\ g' = build_up b g.

Definition built g : built_up (Rng := Rng) :=
  mkBuiltUp (rg_rnd (g_registry g)) (lm_shards (rl_fallback (g_limiter g))) (rl_degraded (g_limiter g)) (m_mem (g_budget g))
    (g_cache g) (rh_last (g_readiness g)) (ch_circuits (g_chat g)) (em_circuits (g_embeddings g)).
Lemma build_up_id g : build_up (built g) g = g.
Proof. by destruct g as [[] redis [st rate burst [] d] ov [] c au rle [] hp [] [] cfg fx]. Qed.
Lemma build_up_twice b b' g : build_up b' (build_up b g) = build_up b' g.
Proof. done. Qed.

#[export] Instance traffic_refl : Reflexive traffic.
Proof. intros g. exists (built g). by rewrite build_up_id. Qed.
#[export] Instance traffic_trans : Transitive traffic.
Proof. intros g1 g2 g3 (b1 & H1 & ->) (b2 & H2 & ->). exists b2. split; [by rewrite H2|apply build_up_twice]. Qed.

Lemma traffic_fixed g g' : traffic g g' -> g_fixed g' = g_fixed g /\ g_redis g' = g_redis g /\ g_auth g' = g_auth g.
Proof. by intros (b & _ & ->). Qed.

(** The parts of the gateway after they were used. *)
Lemma used_limiter (l l' : RedisLimiter (Store := unit)) :
  redis_settings l' = redis_settings l ->
  l' = mkRedisLimiter (rl_store l) (rl_rate l) (rl_burst l)
         (mkLimiter (lm_shards (rl_fallback l')) (lm_rate (rl_fallback l)) (lm_burst (rl_fallback l)) (lm_ttl (rl_fallback l)))
         (rl_degraded l').
Proof. destruct l as [st rate burst [] d], l' as [st' rate' burst' [] d']. by intros [= -> -> -> -> -> ->]. Qed.
Lemma used_budget (m m' : Budget.Manager (Store := unit)) :
  budget_settings m' = budget_settings m ->
  m' = Budget.mkManager (m_mem m') (m_redisStore m) (m_enabled m) (m_tokens m) (m_usd m) (m_costPerTokenUSD m) (m_catalog m).
Proof. destruct m, m'. by intros [= -> -> -> -> -> ->]. Qed.

Lemma put_chat_traffic g hd : chat_used (chat_handler g) hd -> traffic g (put_chat hd g).
Proof.
  intros [Hrest [[rnd Hreg] Hl Hb Hc]]. unfold chat_rest, chat_parts in *. cbn in Hrest, Hreg, Hl, Hb, Hc.
  destruct hd as [reg fc rc cc cs hc l os b ta c ttl]. cbn in *. injection Hrest as -> -> -> -> -> -> ->. subst reg.
  destruct l as [l|]; [|done]. destruct b as [b|]; [|done].
  apply (inj Some), used_limiter in Hl. apply (inj Some), used_budget in Hb.
  exists (mkBuiltUp rnd (lm_shards (rl_fallback l)) (rl_degraded l) (m_mem b) c (rh_last (g_readiness g)) cs (em_circuits (g_embeddings g))).
  split; [exact Hc|]. unfold put_chat, build_up. cbn. rewrite <-Hl, <-Hb. by destruct (g_readiness g), (g_chat g), (g_embeddings g).
Qed.

Lemma put_embed_traffic g hd : embed_used (embed_handler g) hd -> traffic g (put_embed hd g).
Proof.
  intros [Hrest [[rnd Hreg] Hl Hb Hc]]. unfold embed_rest, embed_parts in *. cbn in Hrest, Hreg, Hl, Hb, Hc.
  destruct hd as [reg fc l os ta rc cc cs b c ttl]. cbn in *. injection Hrest as -> -> -> -> -> ->. subst reg.
  destruct l as [l|]; [|done]. destruct b as [b|]; [|done].
  apply (inj Some), used_limiter in Hl. apply (inj Some), used_budget in Hb.
  exists (mkBuiltUp rnd (lm_shards (rl_fallback l)) (rl_degraded l) (m_mem b) c (rh_last (g_readiness g)) (ch_circuits (g_chat g)) cs).
  split; [exact Hc|]. unfold put_embed, build_up. cbn. rewrite <-Hl, <-Hb. by destruct (g_readiness g), (g_chat g), (g_embeddings g).
Qed.

Lemma put_readiness_traffic g rh :
  rh_health rh = rh_health (g_readiness g) -> rh_options rh = rh_options (g_readiness g) -> traffic g (put_readiness rh g).
Proof.
  intros Hh Ho. exists (mkBuiltUp (rg_rnd (g_registry g)) (lm_shards (rl_fallback (g_limiter g))) (rl_degraded (g_limiter g))
    (m_mem (g_budget g)) (g_cache g) (rh_last rh) (ch_circuits (g_chat g)) (em_circuits (g_embeddings g))).
  split; [done|]. unfold put_readiness, build_up. cbn. rewrite <-Hh, <-Ho.
  by destruct g as [[] redis [st rate burst [] d] ov [] c au rle rh0 hp [] [] cfg fx], rh.
Qed.

Lemma put_limiter_traffic {W} g l (w w' : W) : redis_settings l = redis_settings (g_limiter g) -> traffic g (put_limiter (l, w') (g, w)).1.
Proof.
  intros Hl%used_limiter. exists (mkBuiltUp (rg_rnd (g_registry g)) (lm_shards (rl_fallback l)) (rl_degraded l)
    (m_mem (g_budget g)) (g_cache g) (rh_last (g_readiness g)) (ch_circuits (g_chat g)) (em_circuits (g_embeddings g))).
  split; [done|]. unfold put_limiter, build_up. cbn. rewrite <-Hl.
  by destruct g as [[] redis [st rate burst [] d] ov [] c au rle [] hp [] [] cfg fx].
Qed.
End gateway.

(** ** The handlers as steps of the traffic *)

Section served.
Context {Ctx Rng W : Type}.
Context `{!JsonText, !Http Ctx W, !Runtime Ctx Rng W, !RedisScripts W, !RedisStore.RedisKV W}.
Context `{!Web string W, !WebEmbedding string, !ErrorEncoder, !Texts}.
Context (request_ctx : request -> W -> Ctx) (redirect : request -> option (list wop)) (metrics_page : W -> list wop).
Abbreviation gw := (gateway (Rng := Rng) (Store := unit)).
Abbreviation state := (gw * W)%type.
Abbreviation handler := (request -> headers -> state -> output state).
Implicit Types (r : request) (h : headers) (g : gw) (w : W) (s : state).

(** A handler that leaves alone what the configuration decides. *)
Definition keeps (next : handler) : Prop := forall r h s, traffic s.1 (o_state (next r h s)).1.

Lemma cache_embed_draws g ctx : draws_only (cache_embed g ctx).
Proof.
  intros q reg w. unfold cache_embed, semanticEmbedder. destruct (_ || _); [exists (rg_rnd reg); by rewrite with_rnd_id|].
  destruct (Resolve_rnd rt_Compile rt_Intn reg (Config.ca_SemanticEmbeddingModel (Config.cf_Cache (g_cfg g)))) as [rnd Hr].
  exists rnd. destruct (Router.Resolve _ _ _ _) as [reg' [p|e]]; cbn [fst] in Hr; subst reg'; [|done].
  by destruct (up_Embed _ _ _ _) as [w' [resp|e]].
Qed.

Lemma written_state r s events out : (o_state (written r s events out)).1 = s.1.
Proof. by destruct out. Qed.

Lemma serve_chat_keeps : keeps (serve_chat request_ctx).
Proof.
  intros r h [g w]. unfold serve_chat, chat_step.
  pose proof (ServeHTTP_used (g_redis g) (cache_embed g (request_ctx r w)) (cache_embed_draws g (request_ctx r w))
    (http_view request_ctx r w) (chat_handler g, w)) as Hu.
  destruct (ServeHTTP _ _ _) as [[hd w'] out]. rewrite written_state. by apply put_chat_traffic.
Qed.

Lemma serve_embeddings_keeps : keeps (serve_embeddings request_ctx).
Proof.
  intros r h [g w]. unfold serve_embeddings, embeddings_step.
  pose proof (Embeddings_ServeHTTP_used (g_redis g) (rq_Method r) (http_view request_ctx r w) (embed_handler g, w)) as Hu.
  destruct (Embeddings_ServeHTTP _ _ _) as [[hd w'] out]. rewrite written_state. by apply put_embed_traffic.
Qed.

Lemma Readiness_keeps (all : list upstream) check arrived t fin rh :
  let rh' := (Readiness_ServeHTTP up_Name all check arrived t fin rh).1 in
  rh_health rh' = rh_health rh /\ rh_options rh' = rh_options rh.
Proof.
  unfold Readiness_ServeHTTP, refreshSnapshot. destruct (is_draining rh); [done|]. destruct (cachedSnapshot rh arrived); [done|].
  destruct (cachedSnapshot rh t); [done|]. by destruct (check_all _ _ _ _).
Qed.

Lemma serve_readyz_keeps : keeps (serve_readyz request_ctx).
Proof.
  intros r h [g w]. unfold serve_readyz. cbv zeta.
  match goal with |- context [if ?b then (w, ?c) else ?d] => destruct (if b then (w, c) else d) as [w' check] end.
  match goal with |- context [Readiness_ServeHTTP up_Name ?all check ?a ?t ?d ?rh] =>
    destruct (Readiness_keeps all check a t d rh) as [Hh Ho]; destruct (Readiness_ServeHTTP up_Name all check a t d rh) as [rh' reply] end.
  by apply put_readiness_traffic.
Qed.

Lemma mux_keeps : keeps (mux request_ctx redirect metrics_page).
Proof.
  intros r h s. unfold mux. destruct (redirect r); [done|].
  destruct (list_find _ _) as [[i [path [post serve]]]|] eqn:Ef; [|done].
  destruct (method_ok post (rq_Method r)); [|done]. apply list_find_Some in Ef as [Hi _]. cbv zeta.
  revert Hi. unfold endpoints. destruct s as [g w].
  destruct i as [|[|[|[|[|[|[|[|i]]]]]]]]; intros [= <- <- <-]; try done.
  - apply serve_chat_keeps.
  - apply serve_embeddings_keeps.
  - cbn. unfold serve_health_providers. by destruct (check_providers _ _ _ _).
  - apply serve_readyz_keeps.
Qed.

(** ** The chain as a step of the traffic *)
Context (hashKey sha_hex : string -> string) (now : W -> Z) (generateRequestID : W -> W * string).
Context (Start : request -> option string) (inject : request -> list (string * string)).

Lemma limited_keeps next : keeps next -> keeps (limited manager_rates sha_hex now next).
Proof.
  intros Hn r h s. unfold limited, RateLimitWithEnabled. destruct (negb _); [apply Hn|]. destruct (negb _); [apply Hn|].
  destruct (rate_limits _ _) as [r' [rpm burst]].
  match goal with |- context [take_token (Backend0 := @redis_backend _ _ ?R) ?l ?n ?k rpm burst s] =>
    pose proof (take_token_settings (RateStore0 := R) l n k rpm burst s) as Ht end.
  destruct (take_token _ _ _ _ _ _) as [[[l w'] ok] d]. cbn [fst] in Ht. destruct s as [g w].
  pose proof (put_limiter_traffic g l w w' Ht) as Hp. destruct ok; [|exact Hp]. etrans; [exact Hp|apply Hn].
Qed.

Lemma authenticated_keeps fx next : keeps next -> keeps (authenticated hashKey now fx next).
Proof.
  intros Hn r h s. unfold authenticated. destruct (fx_auth fx); [|apply Hn]. unfold AuthMiddleware.
  by destruct (Middleware _ _ _ _); [apply Hn|..].
Qed.

Lemma cors_keeps fx next : keeps next -> keeps (cors fx next).
Proof.
  intros Hn r h s. unfold cors. destruct (fx_origins fx); [apply Hn|]. unfold CORS.
  destruct (str_eqb _ _); [by destruct (_ && _)|]. apply Hn.
Qed.

Lemma recorded_state {S} (o : output S) report : o_state (recorded o report) = o_state o.
Proof. unfold recorded. by destruct (rec_run _ _). Qed.

Lemma observed_keeps next : keeps next -> keeps (observed Start inject next).
Proof.
  intros Hn r h s. unfold observed, Logging, SecurityHeaders, Tracing, Metrics.
  rewrite recorded_state. cbn [before o_state]. rewrite !recorded_state. apply Hn.
Qed.

End served.

Lemma serve_traffic {Ctx Rng W : Type}
    `{!JsonText, !Http Ctx W, !Runtime Ctx Rng W, !RedisScripts W, !RedisStore.RedisKV W}
    `{!Web string W, !WebEmbedding string, !ErrorEncoder, !Texts, !Host Ctx W} (hashKey : string -> string)
    (r : request) (s : gateway (Rng := Rng) (Store := unit) * W) :
  traffic s.1 (o_state (serve hashKey r s)).1.
Proof.
  unfold serve. match goal with |- context [chain ?rates ?hk ?sh ?now ?gen ?st ?inj ?fx ?mx r ∅ s] =>
    pose proof (chain_eq rates hk sh now gen st inj fx mx r s) as He end.
  destruct (identified _ _ _) as [s' id], He as [<- ->]. cbn [before o_state].
  apply observed_keeps, cors_keeps, authenticated_keeps, limited_keeps, mux_keeps.
Qed.
