(* ===== verification/Answers.v ===== *)
(** * Every request is answered

    None of the ways a handler of the gateway could fail to answer is open:
    the router does not panic as long as its weights can be drawn from, a call
    that failed left an error that is none, a stream comes to its end.  What
    is answered has a final status. *)

From Stdlib Require Import Ascii String.
From S2P Require Import Prelude GoFloat GoStrings Types Pricing Circuit Retry Hedge Budget RateLimit RateBackend Cache.
From S2P Require Import CacheSemantic Auth Router Translate Wire Provider Dispatch Streams Upstream Serve Embeddings Middleware.
From S2P Require Import Health Gateway Wiring Chain Routes Traffic.
From S2P Require Config RedisStore.
Open Scope string_scope.
Open Scope list_scope.
Open Scope Z_scope.

(** ** Errors that are no panic *)
Section errors.
Context {X E : Type} (Q : E -> Prop) (J : X -> Prop).
Context (retryable : E -> bool) (fn : X -> X * option E) (int63n : Z -> X -> X * Z) (wait : Z -> X -> X * option E).

Definition gives (r : X * option E) : Prop := J r.1 /\ forall e, r.2 = Some e -> Q e.
Context (Hfn : forall x, J x -> gives (fn x)) (Hrnd : forall n x, J x -> J (int63n n x).1).
Context (Hwait : forall d x, J x -> gives (wait d x)).

(** What [resilience.Do] returns is the error of a call or of the wait. *)
Lemma retry_loop_gives n cfg a le x :
  J x -> (forall e, le = Some e -> Q e) -> gives (retry_loop retryable fn int63n wait n cfg a le x).
Proof.
  revert a le x. induction n as [|n IH]; intros a le x Hx Hle; simpl; [by split|].
  destruct (a <? _); [|by split]. pose proof (Hfn x Hx) as [Hj He]. destruct (fn x) as [y [e|]]; [|done].
  cbn [fst snd] in *. destruct (negb _); [by split|]. destruct (a =? _); [by split|].
  assert (J (retry_delay int63n cfg a y).1) as Hd.
  { unfold retry_delay. destruct (rt_Jitter cfg); [|done]. case_match; [|done].
    match goal with |- context [int63n ?k y] => specialize (Hrnd k y Hj); destruct (int63n k y) end. done. }
  destruct (retry_delay _ _ _ _) as [y2 d]. pose proof (Hwait d y2 Hd) as [Hj3 He3].
  destruct (wait d y2) as [y3 [e'|]]; [by split|]. apply IH; [done|]. intros e' [= <-]. by apply He.
Qed.

Lemma Do_gives cfg x : J x -> gives (Do retryable fn int63n wait cfg x).
Proof. intros Hx. by apply retry_loop_gives. Qed.
End errors.

(** What [context] documents of the error of a context. *)
Definition context_errors {Ctx Rng W} `{!Runtime Ctx Rng W} : Prop :=
  (forall (ctx : Ctx) (w : W) e, rt_Err (Rng := Rng) ctx w = Some e -> e = Canceled \/ e = DeadlineExceeded) /\
  (forall (ctx : Ctx) d (w : W) e, (rt_Wait (Rng := Rng) ctx d w).2 = Some e -> e = Canceled \/ e = DeadlineExceeded).

(** A registry whose router does not panic, whatever is drawn. *)
Definition routable {Ctx Rng W} `{!Runtime Ctx Rng W} (r : Registry (P := upstream) (Rng := Rng)) : Prop :=
  forall model rnd, (Resolve (rt_Compile (Ctx := Ctx) (W := W)) (rt_Intn (Ctx := Ctx) (W := W)) (with_rnd r rnd) model).2 <> Err RoutePanic.

Section calls.
Context {Ctx W : Type} `{!JsonText, !Http Ctx W}.

Lemma exchange_errors {A} p (ctx : Ctx) body url (decode : string -> result A unit) (w : W) :
  (exchange p ctx body url decode w).2 <> Err Panic.
Proof.
  unfold exchange, post, receive. destruct (Buffers.marshalJSON _ body); [|done]. destruct (http_NewRequest _ _); [done|].
  destruct (http_Do _ _ _) as [w' [resp|e]]; [|done]. cbn [snd]. destruct (readProviderResponse resp); [|done].
  destruct (negb _); [done|]. by destruct (decode _).
Qed.

Lemma up_Send_errors p (ctx : Ctx) req (w : W) : (up_Send p ctx req w).2 <> Err Panic.
Proof. rewrite up_Send_exchange. apply exchange_errors. Qed.

Lemma gemini_embed_errors c (ctx : Ctx) model i inputs data (w : W) : (gemini_embed c ctx model i inputs data w).2 <> Err Panic.
Proof.
  revert i data w. induction inputs as [|input inputs IH]; intros i data w; [done|]. cbn [gemini_embed].
  match goal with |- context [exchange ?p ctx ?b ?u ?d w] => pose proof (exchange_errors p ctx b u d w) as He;
    destruct (exchange p ctx b u d w) as [w' [v|e]] end; [apply IH|]. cbn [snd] in *. congruence.
Qed.

Lemma up_Embed_errors p (ctx : Ctx) req (w : W) : (up_Embed p ctx req w).2 <> Err Panic.
Proof.
  destruct p as [c|c|c]; [apply exchange_errors|done|]. cbn [up_Embed]. unfold Gemini_Embed. cbv zeta.
  destruct (normalizeEmbeddingInput _) as [|t ts]; [done|].
  match goal with |- context [gemini_embed c ctx ?m ?i ?t ?d w] => pose proof (gemini_embed_errors c ctx m i t d w) as He;
    destruct (gemini_embed c ctx m i t d w) as [w' [v|e]] end; [done|]. cbn [snd] in *. congruence.
Qed.
End calls.

(** ** The chat endpoint *)
Definition answered (out : served) : Prop := exists rs, out = Reply rs.
#[local] Hint Extern 0 (answered (writeError _ _ _ _)) => (eexists; reflexivity) : core.
#[local] Hint Extern 0 (answered (Reply _)) => (eexists; reflexivity) : core.
#[local] Hint Extern 0 (answered (hit_response _ _)) => (eexists; reflexivity) : core.

Lemma writeBudgetError_answered e : answered (writeBudgetError e).
Proof. destruct e as [[]|[]]; by eexists. Qed.
Lemma dispatch_error_answered e : e <> Panic -> answered (dispatch_error e).
Proof. intros He. unfold dispatch_error. destruct (errors_Is _ e); [auto|]. destruct (errors_Is _ e); [auto|]. destruct e; auto. by destruct He. Qed.
Lemma embedding_error_answered e : e <> Panic -> answered (embedding_error e).
Proof. intros He. unfold embedding_error. destruct (errors_Is _ e); [auto|]. destruct e; auto. by destruct He. Qed.
Lemma validate_answered {T W} `{!Web T W} (b : read_result T) out : validate (W := W) b = Err out -> answered out.
Proof.
  unfold validate. destruct b as [b| |]; [|intros [= <-]; auto..]. destruct (decodeSingleJSON b) as [req|e]; [|intros [= <-]; auto].
  destruct (str_eqb _ _); [intros [= <-]; auto|]. destruct (req_Messages req); [intros [= <-]; auto|done].
Qed.

Section chat.
Context {Ctx Rng W : Type}.
Context `{!JsonText, !Http Ctx W, !Runtime Ctx Rng W, !RedisScripts W, !RedisStore.RedisKV W, !Web string W}.
Context (m : RedisStore.Manager).
#[local] Instance answer_rates : RateStore unit W := manager_rates m.
#[local] Instance answer_budgets : BudgetStore unit W := manager_budgets m.
#[local] Instance answer_cache : Cache base_cache W := manager_cache m.
Abbreviation Reg := (Registry (P := upstream) (Rng := Rng)).
Context (embed : string -> Reg * W -> (Reg * W) * result (list float64) unit) (Hembed : draws_only embed).
Abbreviation Hd := (Handler upstream Rng (RedisLimiter (Store := unit)) OverrideStore (Budget.Manager (Store := unit)) (any_cache base_cache)).
Abbreviation sys := (Hd * W)%type.
Abbreviation routable := (routable (Ctx := Ctx) (W := W)).
Implicit Types (h : Hd) (w : W) (s : sys) (req : ChatRequest) (r : http_request string Ctx).
Hypothesis Hctx : context_errors (Ctx := Ctx) (Rng := Rng) (W := W).

Lemma sendWithRetry_errors cfg (ctx : Ctx) (p : upstream) req w : (sendWithRetry cfg ctx p req w).2 <> Err Panic.
Proof.
  unfold sendWithRetry.
  pose proof (Do_gives (fun e => e <> Panic) (fun a => at_lastErr a <> Some Panic) IsRetryable (send_once ctx p req)
    attempt_rand (attempt_wait ctx)) as Hg.
  assert (forall a, at_lastErr a <> Some Panic -> gives (fun e => e <> Panic) (fun a => at_lastErr a <> Some Panic) (send_once ctx p req a)) as Hs.
  { intros a Ha. unfold send_once. pose proof (up_Send_errors p ctx req (at_w a)) as He. cbn [p_Send gateway_env].
    destruct (up_Send p ctx req (at_w a)) as [w' [resp|e]]; cbn [snd] in He; split; simpl; congruence. }
  specialize (Hg Hs). specialize (Hg (fun n a Ha => ltac:(unfold attempt_rand; by destruct (rand_Int63n n (at_w a))))).
  assert (forall d a, at_lastErr a <> Some Panic -> gives (fun e => e <> Panic) (fun a => at_lastErr a <> Some Panic) (attempt_wait ctx d a)) as Hw.
  { intros d a Ha. unfold attempt_wait. pose proof (proj2 Hctx ctx d (at_w a)) as He. cbn [ctx_Wait gateway_env].
    destruct (rt_Wait ctx d (at_w a)) as [w' e]; cbn [snd] in He. split; [done|]. simpl. intros e' ->.
    by destruct (He e' eq_refl) as [->| ->]. }
  specialize (Hg Hw cfg (mkAttempt w None None) ltac:(done)).
  destruct (Do _ _ _ _ _ _) as [a [e|]] eqn:Ed; cbn [snd].
  - destruct Hg as [Hj He]. cbn [fst snd] in *. cbn [ctx_Err gateway_env]. destruct (rt_Err ctx (at_w a)) as [ce|] eqn:Ec.
    + destruct (proj1 Hctx _ _ _ Ec) as [->| ->]; done.
    + destruct (at_lastErr a); simpl; [congruence|]. intros [= ->]. by apply (He _ eq_refl).
  - apply Do_success in Ed as [y Hy]. unfold send_once in Hy.
    destruct (p_Send p ctx req (at_w y)) as [w' [resp|e]]; [|done]. by injection Hy as <-.
Qed.

Lemma rejected_no_panic (p : upstream) req e : rejected (Ctx := Ctx) (Rng := Rng) (W := W) p req e -> e <> Panic.
Proof. intros (cfg & ctx & w & Hr) ->. by apply (sendWithRetry_errors cfg ctx p req w). Qed.

Lemma resolve_no_panic req s : routable (h_registry s.1) -> (resolve req s).2 <> Err Panic.
Proof.
  intros Hr. specialize (Hr (req_Model req) (rg_rnd (h_registry s.1))). rewrite with_rnd_id in Hr. unfold resolve.
  cbn [regexp_Compile rand_Intn gateway_env]. destruct (Resolve _ _ _ _) as [r [p|[m0|]]]; done.
Qed.

Lemma dispatch_no_panic ctx req s e : routable (h_registry s.1) -> (dispatch ctx req s).2 = Err e -> e <> Panic.
Proof.
  intros Hr He. pose proof (dispatch_sound ctx req s) as Hd. rewrite He in Hd. unfold dispatch_result in Hd.
  pose proof (resolve_no_panic req s Hr) as Hn. destruct (resolve req s).2 as [p|e']; [|congruence].
  destruct Hd as [->|[Hd|(q & _ & Hd)]]; [done|by eapply rejected_no_panic..].
Qed.

(** A stream is opened or refused, and comes to its end. *)
Lemma streamed_deliver (p : upstream) req evs : streamed (Ctx := Ctx) (Rng := Rng) (W := W) p req evs ->
  exists turns chunks err, evs = deliveries (turns ++ flush chunks) (new_pipe chunks err).
Proof.
  intros (ctx & w & w' & Hs). cbn [p_SendStream gateway_env] in Hs. unfold deliver in Hs.
  destruct (up_SendStream _ _ _ _ _ _) as [w2 [chunks err]]. injection Hs as _ <-. by repeat eexists.
Qed.

Lemma openStream_ends ctx req p s :
  match (openStream ctx req p s).2 with
  | None => False
  | Some (Ok ss) => (stream_frames (ss_first ss) (ss_events ss)).2 = true
  | Some (Err _) => True
  end.
Proof.
  pose proof (open_loop_result true (stream_providers s.1 p) ctx req None s) as Ho. fold (openStream ctx req p s) in Ho.
  destruct (openStream ctx req p s).2 as [[ss|e]|]; [|done|].
  - destruct Ho as (req' & evs & _ & Hs & Hf). apply streamed_deliver in Hs as (turns & chunks & err & ->).
    destruct (deliveries_end turns chunks err) as (rest & r & Hf' & Hend). rewrite Hf' in Hf. injection Hf as -> ->.
    by apply Hend.
  - destruct Ho as (q & req' & evs & _ & Hs & Hf). apply streamed_deliver in Hs as (turns & chunks & err & ->).
    destruct (deliveries_end turns chunks err) as (rest & r & Hf' & _). by rewrite Hf' in Hf.
Qed.

Lemma handleStream_answered r req s : routable (h_registry s.1) -> answered (handleStream r req s).1.2.
Proof.
  intros Hr. unfold handleStream. pose proof (resolve_no_panic req s Hr) as Hn.
  destruct (resolve req s) as [s1 [p|e]]; cbn [snd] in Hn; [|destruct e; cbn [fst snd]; auto; by destruct Hn].
  destruct (negb _); [cbn [fst snd]; auto|]. pose proof (openStream_ends (q_ctx r) req p s1) as Ho.
  destruct (openStream _ _ _ _) as [s2 [[ss|e]|]]; cbn [snd] in Ho; [|cbn [fst snd]; auto|done].
  destruct (stream_frames _ _) as [fs [|]]; [cbn [fst snd]; auto|done].
Qed.

Lemma serve_stream_answered r req rv tokens usd s : routable (h_registry s.1) -> answered (serve_stream r req rv tokens usd s).2.
Proof.
  intros Hr. pose proof (handleStream_answered r req s Hr) as (rs & Ha). unfold serve_stream.
  destruct (handleStream r req s) as [[s1 out] started]. cbn [fst snd] in Ha. subst out. cbn [snd]. auto.
Qed.

Lemma serve_completion_answered r req key ttl rv s :
  routable (h_registry s.1) -> answered (serve_completion embed r req key ttl rv s).2.
Proof.
  intros Hr. unfold serve_completion. pose proof (dispatch_no_panic (q_ctx r) req s) as Hd.
  destruct (dispatch (q_ctx r) req s) as [s1 [[resp name]|e]]; [|cbn [snd] in *; by apply dispatch_error_answered, Hd].
  cbv zeta. destruct (h_cache _); cbn [snd]; auto.
Qed.

Lemma used_routable h h' : chat_used h h' -> routable (h_registry h) -> routable (h_registry h').
Proof. intros [_ [[rnd Hreg] _ _ _]] Hr model rnd'. cbn in Hreg. rewrite Hreg. apply (Hr model rnd'). Qed.

Lemma ServeHTTP_answered r s : routable (h_registry s.1) -> answered (ServeHTTP embed r s).2.
Proof.
  intros Hr. unfold ServeHTTP. destruct (validate (q_Body r)) as [req|out] eqn:Ev; [|by eapply validate_answered].
  pose proof (used_routable _ _ (check_tokens_used m r req s) Hr) as H1.
  destruct (check_tokens r req s) as [s1 [ra|]]; cbn [fst] in H1; [cbn; auto|].
  destruct (match cache_used s1 r req with Some _ => _ | None => _ end) as [key ttl].
  pose proof (used_routable _ _ (cache_lookup_used m embed Hembed r req s1) H1) as H2.
  destruct (cache_lookup embed r req s1) as [s2 [[layer data]|]]; cbn [fst] in *; [cbn; auto|].
  pose proof (used_routable _ _ (reserveChatBudget_used m (q_TenantID r) req s2) H2) as H3.
  destruct (reserveChatBudget _ _ _) as [s3 [[[rv tokens] usd]|e]]; cbn [fst] in *; [|apply writeBudgetError_answered].
  destruct (req_Stream req); [by apply serve_stream_answered|by apply serve_completion_answered].
Qed.
End chat.

(** ** The embeddings endpoint *)
Section embeddings.
Context {Ctx Rng W : Type}.
Context `{!JsonText, !Http Ctx W, !Runtime Ctx Rng W, !RedisScripts W, !RedisStore.RedisKV W, !Web string W, !WebEmbedding string}.
Context (m : RedisStore.Manager).
#[local] Instance answer_embed_rates : RateStore unit W := manager_rates m.
#[local] Instance answer_embed_budgets : BudgetStore unit W := manager_budgets m.
#[local] Instance answer_embed_cache : Cache base_cache W := manager_cache m.
Abbreviation Eh := (EmbeddingsHandler upstream Rng (RedisLimiter (Store := unit)) (Budget.Manager (Store := unit)) (any_cache base_cache)).
Abbreviation sys := (Eh * W)%type.
Abbreviation routable := (routable (Ctx := Ctx) (W := W)).
Implicit Types (h : Eh) (w : W) (s : sys) (req : EmbeddingRequest) (r : http_request string Ctx).
Hypothesis Hctx : context_errors (Ctx := Ctx) (Rng := Rng) (W := W).

Lemma embed_recorded_errors ctx (p : upstream) req s e :
  (embed_recorded ctx (p_Name (W := W) p) (up_Embed p) req s).2 = Err e -> e <> Panic.
Proof.
  unfold embed_recorded, embedWithRetry.
  pose proof (Do_gives (fun e => e <> Panic) (fun _ => True) IsRetryable (embed_once ctx (up_Embed p) req) embed_rand (embed_wait ctx)) as Hg.
  assert (forall a, True -> gives (fun e => e <> Panic) (fun _ => True) (embed_once ctx (up_Embed p) req a)) as Ho.
  { intros a _. unfold embed_once. pose proof (up_Embed_errors p ctx req a.1) as He.
    destruct (up_Embed p ctx req a.1) as [w' [resp|e']]; cbn [snd] in He; (split; [done|]); simpl; congruence. }
  assert (forall d a, True -> gives (fun e => e <> Panic) (fun _ => True) (embed_wait ctx d a)) as Hw.
  { intros d a _. unfold embed_wait. pose proof (proj2 Hctx ctx d a.1) as He. cbn [ctx_Wait gateway_env].
    destruct (rt_Wait ctx d a.1) as [w' e']; cbn [snd] in He. split; [done|]. simpl. intros e2 ->.
    by destruct (He e2 eq_refl) as [->| ->]. }
  specialize (Hg Ho (fun n a Ha => I) Hw (eh_retryCfg s.1) (s.2, zero_embedding) I).
  destruct (Do _ _ _ _ _ _) as [[w' resp] [e'|]]; cbn [snd]; [|done]. destruct Hg as [_ He]. intros [= <-]. by apply He.
Qed.

Lemma embed_fallbacks_errors chain primary ctx req last s e :
  (forall e, last = Some e -> e <> Panic) -> (embed_fallbacks chain primary ctx req last s).2 = Err e -> e <> Panic.
Proof.
  revert last s. induction chain as [|n chain IH]; intros last s Hl.
  { simpl. intros [= <-]. destruct last; [by apply Hl|done]. }
  cbn [embed_fallbacks]. destruct (str_eqb n primary); [by apply IH|]. destruct (Registry_Get _ n) as [q|]; [|by apply IH].
  cbn [p_Embed gateway_embedders]. destruct (eh_allow s _) as [s1 [|]]; [|by apply IH]. cbn [negb].
  match goal with |- context [embed_recorded ctx ?nm _ ?r s1] => pose proof (embed_recorded_errors ctx q r s1) as He;
    destruct (embed_recorded ctx nm (up_Embed q) r s1) as [s2 [resp|err]] end; [done|]. apply IH.
  intros e' [= <-]. by apply He.
Qed.

Lemma eh_resolve_no_panic model s : routable (eh_registry s.1) -> (eh_resolve model s).2 <> Err Panic.
Proof.
  intros Hr. specialize (Hr model (rg_rnd (eh_registry s.1))). rewrite with_rnd_id in Hr. unfold eh_resolve.
  cbn [regexp_Compile rand_Intn gateway_env]. destruct (Resolve _ _ _ _) as [r [p|[m0|]]]; done.
Qed.

Lemma embed_dispatch_no_panic ctx req s e :
  routable (eh_registry s.1) -> (embed_dispatch ctx req s).2 = Err e -> e <> Panic.
Proof.
  intros Hr. unfold embed_dispatch. pose proof (eh_resolve_no_panic (er_Model req) s Hr) as Hn.
  destruct (eh_resolve (er_Model req) s) as [s1 [p|e']]; cbn [snd] in *; [|intros [= <-]; congruence].
  cbn [p_Embed gateway_embedders]. destruct (eh_allow s1 _) as [s2 [|]]; cbn [negb];
    [|apply embed_fallbacks_errors; by intros ? [= <-]].
  pose proof (embed_recorded_errors ctx p req s2) as He.
  destruct (embed_recorded _ _ _ _ _) as [s3 [resp|e']]; [done|]. cbn [snd] in He.
  destruct (negb _); [intros [= <-]; by apply He|]. apply embed_fallbacks_errors. intros ? [= <-]. by apply He.
Qed.

Lemma eh_used_routable h h' : embed_used h h' -> routable (eh_registry h) -> routable (eh_registry h').
Proof. intros [_ [[rnd Hreg] _ _ _]] Hr model rnd'. cbn in Hreg. rewrite Hreg. apply (Hr model rnd'). Qed.

Lemma embedding_reserve_for_answered b name r req s out :
  (embedding_reserve_for b name r req s).2 = Err out -> answered out.
Proof.
  unfold embedding_reserve_for. cbv zeta. destruct (CostForEmbedding _ _ _ _) as [est|e];
    [|cbn [snd]; intros [= <-]; exact (writeBudgetError_answered (inr e))].
  destruct (Reserve _ _ _ _ _ _) as [[b' w'] [rv|e]]; [done|]. cbn [snd]. intros [= <-]. exact (writeBudgetError_answered (inl e)).
Qed.

Lemma embedding_reserve_answered r req s out :
  routable (eh_registry s.1) -> (embedding_reserve r req s).2 = Err out -> answered out.
Proof.
  intros Hr. unfold embedding_reserve. destruct (eh_budgetMgr s.1) as [b|]; [|done].
  pose proof (eh_resolve_no_panic (er_Model req) s Hr) as Hn.
  destruct (eh_resolve _ s) as [s1 [p|e]]; cbn [snd] in Hn; [apply embedding_reserve_for_answered|].
  destruct e; try apply embedding_reserve_for_answered. by destruct Hn.
Qed.

Lemma embedding_validate_answered method (b : read_result string) out :
  embedding_validate (W := W) method b = Err out -> answered out.
Proof.
  unfold embedding_validate. destruct (negb _); [intros [= <-]; auto|]. destruct b as [b| |]; [|intros [= <-]; auto..].
  destruct (decode_embedding b) as [req|e]; [|intros [= <-]; auto]. cbv zeta. destruct (str_eqb _ _); [intros [= <-]; auto|].
  destruct (er_Input req) as [| | | |v|v|]; try done; try (by intros [= <-]; auto).
  - destruct (str_eqb v ""); [intros [= <-]; auto|done].
  - destruct v; [intros [= <-]; auto|done].
Qed.

Lemma Embeddings_answered method r s : routable (eh_registry s.1) -> answered (Embeddings_ServeHTTP method r s).2.
Proof.
  intros Hr. unfold Embeddings_ServeHTTP.
  destruct (embedding_validate method (q_Body r)) as [req|out] eqn:Ev; [|by eapply embedding_validate_answered].
  destruct (match embedding_cache s r with Some _ => _ | None => _ end) as [key ttl].
  pose proof (eh_used_routable _ _ (embedding_lookup_used m r req s) Hr) as H1.
  destruct (embedding_lookup r req s) as [s1 [data|]]; cbn [fst snd] in *; [auto|].
  pose proof (eh_used_routable _ _ (embedding_tokens_used m r req s1) H1) as H2.
  destruct (embedding_tokens r req s1) as [s2 [ra|]]; cbn [fst snd] in *; [auto|].
  pose proof (eh_used_routable _ _ (embedding_reserve_used m r req s2) H2) as H3.
  pose proof (embedding_reserve_answered r req s2) as H4.
  destruct (embedding_reserve r req s2) as [s3 [rv|out]]; cbn [fst snd] in *; [|by apply H4].
  unfold embedding_answer. pose proof (embed_dispatch_no_panic (q_ctx r) req s3) as Hd.
  destruct (embed_dispatch (q_ctx r) req s3) as [s4 [[resp name]|e]]; cbn [snd] in *; [|by apply embedding_error_answered, Hd].
  cbv zeta. destruct (eh_cache _); [|cbn [snd]; auto]. destruct (str_eqb key ""); cbn [snd]; auto.
Qed.
End embeddings.

(** ** Every status is final *)
Definition final_reply (out : served) : Prop :=
  match out with Reply rs => informational (rs_Status rs) = false | _ => True end.

Lemma dispatch_error_final e : final_reply (dispatch_error e).
Proof. unfold dispatch_error. destruct (errors_Is _ e); [done|]. destruct (errors_Is _ e); [done|]. by destruct e. Qed.
Lemma embedding_error_final e : final_reply (embedding_error e).
Proof. unfold embedding_error. destruct (errors_Is _ e); [done|]. by destruct e. Qed.
Lemma writeBudgetError_final e : final_reply (writeBudgetError e).
Proof. by destruct e as [[]|[]]. Qed.
Lemma validate_final {T W} `{!Web T W} (b : read_result T) out : validate (W := W) b = Err out -> final_reply out.
Proof.
  unfold validate. destruct b as [b| |]; [|by intros [= <-]..]. destruct (decodeSingleJSON b) as [req|e]; [|by intros [= <-]].
  destruct (str_eqb _ _); [by intros [= <-]|]. by destruct (req_Messages req); [intros [= <-]|].
Qed.
Lemma embedding_validate_final {T W} `{!Web T W, !WebEmbedding T} method (b : read_result T) out :
  embedding_validate (W := W) method b = Err out -> final_reply out.
Proof.
  unfold embedding_validate. destruct (negb _); [by intros [= <-]|]. destruct b as [b| |]; [|by intros [= <-]..].
  destruct (decode_embedding b) as [req|e]; [|by intros [= <-]]. cbv zeta. destruct (str_eqb _ _); [by intros [= <-]|].
  destruct (er_Input req) as [| | | |v|v|]; try done; try by intros [= <-].
  - by destruct (str_eqb v ""); [intros [= <-]|].
  - by destruct v; [intros [= <-]|].
Qed.

Section final.
Context {P Ctx Rng W L Store CE T : Type}.
Context `{!Env P Ctx Rng W, !Embedders P Ctx W, !Web T W, !WebEmbedding T}.
Context `{!Backend L W, !BudgetStore Store W, !Cache CE W}.
Context (embed : string -> Registry (P := P) (Rng := Rng) * W -> (Registry (P := P) (Rng := Rng) * W) * result (list float64) unit).

Lemma ServeHTTP_final (r : http_request T Ctx) (s : Handler P Rng L OverrideStore (Budget.Manager (Store := Store)) (any_cache CE) * W) :
  final_reply (ServeHTTP embed r s).2.
Proof.
  unfold ServeHTTP. destruct (validate (q_Body r)) as [req|out] eqn:Ev; [|by eapply validate_final].
  destruct (check_tokens r req s) as [s1 [ra|]]; [done|].
  destruct (match cache_used s1 r req with Some _ => _ | None => _ end) as [key ttl].
  destruct (cache_lookup embed r req s1) as [s2 [[layer data]|]]; [done|].
  destruct (reserveChatBudget _ _ _) as [s3 [[[rv tokens] usd]|e]]; [|apply writeBudgetError_final].
  destruct (req_Stream req).
  - unfold serve_stream, handleStream. destruct (resolve req s3) as [s4 [p|e]]; [|by destruct e].
    destruct (negb _); [done|]. destruct (openStream _ _ _ _) as [s5 [[ss|e]|]]; [|done..].
    by destruct (stream_frames _ _) as [fs [|]].
  - unfold serve_completion. destruct (dispatch (q_ctx r) req s3) as [s4 [[resp name]|e]]; [|apply dispatch_error_final].
    cbv zeta. by destruct (h_cache _).
Qed.

Lemma embedding_reserve_final (r : http_request T Ctx) req
    (s : EmbeddingsHandler P Rng L (Budget.Manager (Store := Store)) (any_cache CE) * W) out :
  (embedding_reserve r req s).2 = Err out -> final_reply out.
Proof.
  assert (forall b name (s : EmbeddingsHandler P Rng L (Budget.Manager (Store := Store)) (any_cache CE) * W), (embedding_reserve_for b name r req s).2 = Err out -> final_reply out) as Hf.
  { intros b name s0. unfold embedding_reserve_for. cbv zeta. destruct (CostForEmbedding _ _ _ _) as [est|e];
      [|intros [= <-]; exact (writeBudgetError_final (inr e))].
    destruct (Reserve _ _ _ _ _ _) as [[b' w'] [rv|e]]; [done|]. intros [= <-]. exact (writeBudgetError_final (inl e)). }
  unfold embedding_reserve. destruct (eh_budgetMgr s.1) as [b|]; [|done].
  destruct (eh_resolve _ s) as [s1 [p|e]]; [apply Hf|]. destruct e; try apply Hf. by intros [= <-].
Qed.

Lemma Embeddings_final method (r : http_request T Ctx)
    (s : EmbeddingsHandler P Rng L (Budget.Manager (Store := Store)) (any_cache CE) * W) :
  final_reply (Embeddings_ServeHTTP method r s).2.
Proof.
  unfold Embeddings_ServeHTTP. destruct (embedding_validate method (q_Body r)) as [req|out] eqn:Ev; [|by eapply embedding_validate_final].
  destruct (match embedding_cache s r with Some _ => _ | None => _ end) as [key ttl].
  destruct (embedding_lookup r req s) as [s1 [data|]]; [done|]. destruct (embedding_tokens r req s1) as [s2 [ra|]]; [done|].
  pose proof (embedding_reserve_final r req s2) as Hr.
  destruct (embedding_reserve r req s2) as [s3 [rv|out]]; [|by apply Hr].
  unfold embedding_answer. destruct (embed_dispatch (q_ctx r) req s3) as [s4 [[resp name]|e]]; [|apply embedding_error_final].
  cbv zeta. destruct (eh_cache _); [|done]. by destruct (str_eqb key "").
Qed.
End final.

(** ** The handler of the server *)
Section served.
Context {Ctx Rng W : Type}.
Context `{!JsonText, !Http Ctx W, !Runtime Ctx Rng W, !RedisScripts W, !RedisStore.RedisKV W}.
Context `{!Web string W, !WebEmbedding string, !ErrorEncoder, !Texts, !Host Ctx W}.
Abbreviation gw := (gateway (Rng := Rng) (Store := unit)).
Abbreviation state := (gw * W)%type.
Abbreviation handler := (request -> headers -> state -> output state).
Abbreviation the_mux := (mux (host_ctx (Ctx := Ctx)) (host_redirect (Ctx := Ctx) (W := W)) (host_metrics (Ctx := Ctx) (W := W))).
Implicit Types (r : request) (h : headers) (g : gw) (w : W) (s : state).

(** What the standard library answers is final too. *)
Definition host_final : Prop :=
  (forall r ops, host_redirect (Ctx := Ctx) (W := W) r = Some ops -> Forall final_op ops) /\
  (forall w, Forall final_op (host_metrics (Ctx := Ctx) (W := W) w)).

Lemma set_all_final hs : Forall final_op (set_all hs).
Proof. unfold set_all. apply list.Forall_fmap, list.Forall_forall. done. Qed.
Lemma written_calm r s events out : final_reply out -> Forall final_op (o_ops (written r s events out)).
Proof.
  destruct out as [rs| |]; [|done..]. cbn [written o_ops final_reply]. intros Hf. unfold reply_ops.
  apply list.Forall_app. split; [apply set_all_final|]. destruct (rs_Body rs) as [et msg|data|fs]; cbn [body_ops]; [by repeat constructor..|].
  constructor; [done|]. constructor; [done|]. apply list.Forall_bind, list.Forall_forall. intros f _. destruct f; by repeat constructor.
Qed.
Lemma health_calm reply : informational reply.1 = false -> Forall final_op (health_ops reply).
Proof. intros Hf. unfold health_ops. constructor; [done|]. destruct (_ =? _); by repeat constructor. Qed.

Lemma Readiness_final (all : list upstream) check arrived t fin rh :
  informational (Readiness_ServeHTTP up_Name all check arrived t fin rh).2.1 = false.
Proof.
  unfold Readiness_ServeHTTP, writeReadiness. destruct (is_draining rh); [done|].
  destruct (cachedSnapshot rh arrived); [by destruct (_ && _)|]. destruct (refreshSnapshot _ _ _ _ _ _) as [[rh' sn] b].
  by destruct (_ && _).
Qed.

Lemma chat_step_final ctx r g w : final_reply (chat_step ctx r g w).2.
Proof.
  unfold chat_step. pose proof (ServeHTTP_final (Backend0 := redis_backend (H := manager_rates (g_redis g)))
    (BudgetStore0 := manager_budgets (g_redis g)) (Cache0 := manager_cache (g_redis g)) (cache_embed g (ctx r w))
    (http_view ctx r w) (chat_handler g, w)) as Hf. by destruct (ServeHTTP _ _ _) as [[hd w'] out].
Qed.
Lemma embeddings_step_final ctx r g w : final_reply (embeddings_step ctx r g w).2.
Proof.
  unfold embeddings_step. pose proof (Embeddings_final (Backend0 := redis_backend (H := manager_rates (g_redis g)))
    (BudgetStore0 := manager_budgets (g_redis g)) (Cache0 := manager_cache (g_redis g)) (rq_Method r)
    (http_view ctx r w) (embed_handler g, w)) as Hf. by destruct (Embeddings_ServeHTTP _ _ _) as [[hd w'] out].
Qed.

Lemma mux_calm : host_final -> calm the_mux.
Proof.
  intros [Hred Hmet] r h [g w]. unfold mux. destruct (host_redirect r) as [ops|] eqn:Er; [exact (Hred r ops Er)|].
  destruct (list_find _ _) as [[i [path [post serve]]]|] eqn:Ef; [|by repeat constructor].
  destruct (method_ok post (rq_Method r)); [|destruct post; by repeat constructor].
  apply list_find_Some in Ef as [Hi _]. revert Hi. unfold endpoints.
  destruct i as [|[|[|[|[|[|[|[|i]]]]]]]]; intros [= <- <- <-].
  - unfold serve_chat. pose proof (chat_step_final host_ctx r g w) as Hf. destruct (chat_step _ _ _ _) as [s out].
    by apply written_calm.
  - unfold serve_embeddings. pose proof (embeddings_step_final host_ctx r g w) as Hf. destruct (embeddings_step _ _ _ _) as [s out].
    by apply written_calm.
  - by apply health_calm.
  - by apply health_calm.
  - unfold serve_health_providers. destruct (check_providers _ _ _ _). by apply health_calm.
  - by apply health_calm.
  - unfold serve_readyz. cbv zeta.
    match goal with |- context [if ?b then (w, ?c) else ?d] => destruct (if b then (w, c) else d) as [w' check] end.
    match goal with |- context [Readiness_ServeHTTP up_Name ?all check ?a ?t ?d ?rh] =>
      pose proof (Readiness_final all check a t d rh) as Hf; destruct (Readiness_ServeHTTP up_Name all check a t d rh) as [rh' reply] end.
    by apply health_calm.
  - apply Hmet.
Qed.
(** What a request is counted as before the chain counts it: a hit of the
    exact cache is counted by the chat handler. *)
Definition counted_hit (evs : list event) : Prop :=
  evs = [] \/ evs = [EvRequests "POST" "/v1/chat/completions" "200" "cache"].

(** It is the event the chain reports for it a second time. *)
Example hit_counted_twice r s data id tenant :
  rq_Method r = "POST" -> rq_Path r = "/v1/chat/completions" ->
  o_events (written r s (hit_events r) (hit_response "cache" data)) = take 1 (report r 200 "cache" id tenant).
Proof. intros Hm Hp. unfold report, metricPath. rewrite Hp, Hm. cbn. unfold hit_events. cbn. by rewrite Hp, Hm. Qed.

(** The gateway's registry can be drawn from. *)
Definition sound g : Prop := routable (Ctx := Ctx) (W := W) (g_registry g).
Definition answers (next : handler) : Prop :=
  forall r h s, sound s.1 -> o_end (next r h s) = Finished /\ counted_hit (o_events (next r h s)).

Lemma traffic_sound g g' : traffic g g' -> sound g -> sound g'.
Proof. intros (b & _ & ->) Hs model rnd. apply (Hs model rnd). Qed.

Section answered.
Hypothesis Hctx : context_errors (Ctx := Ctx) (Rng := Rng) (W := W).

Lemma chat_step_answered ctx r g w : sound g -> answered (chat_step ctx r g w).2.
Proof.
  intros Hs. unfold chat_step. pose proof (ServeHTTP_answered (g_redis g) (cache_embed g (ctx r w))
    (cache_embed_draws g (ctx r w)) Hctx (http_view ctx r w) (chat_handler g, w) Hs) as Ha.
  by destruct (ServeHTTP _ _ _) as [[hd w'] out].
Qed.
Lemma embeddings_step_answered ctx r g w : sound g -> answered (embeddings_step ctx r g w).2.
Proof.
  intros Hs. unfold embeddings_step. pose proof (Embeddings_answered (g_redis g) Hctx (rq_Method r) (http_view ctx r w) (embed_handler g, w) Hs) as Ha.
  by destruct (Embeddings_ServeHTTP _ _ _) as [[hd w'] out].
Qed.

Lemma mux_answers : answers the_mux.
Proof.
  intros r h [g w] Hs. unfold mux. destruct (host_redirect r); [by repeat constructor|].
  destruct (list_find _ _) as [[i [path [post serve]]]|] eqn:Ef; [|by repeat constructor].
  destruct (method_ok post (rq_Method r)) eqn:Em; [|destruct post; by repeat constructor].
  apply list_find_Some in Ef as (Hi & Hp & _). cbn [fst] in Hp. revert Hi. unfold endpoints.
  destruct i as [|[|[|[|[|[|[|[|i]]]]]]]]; intros [= <- <- <-].
  - unfold serve_chat. pose proof (chat_step_answered host_ctx r g w Hs) as (rs & Ha).
    destruct (chat_step _ _ _ _) as [s out]. cbn [snd] in Ha. subst out. split; [done|]. cbn [written o_events].
    unfold hit_events. destruct (_ && _); [right|by left]. rewrite <-Hp.
    cbn in Em. apply str_eqb_true in Em. by rewrite Em.
  - unfold serve_embeddings. pose proof (embeddings_step_answered host_ctx r g w Hs) as (rs & Ha).
    destruct (embeddings_step _ _ _ _) as [s out]. cbn [snd] in Ha. subst out. split; [done|by left].
  - by repeat constructor.
  - by repeat constructor.
  - unfold serve_health_providers. destruct (check_providers _ _ _ _). by repeat constructor.
  - by repeat constructor.
  - unfold serve_readyz. cbv zeta.
    match goal with |- context [if ?b then (w, ?c) else ?d] => destruct (if b then (w, c) else d) as [w' check] end.
    destruct (Readiness_ServeHTTP _ _ _ _ _ _ _) as [rh reply]. by repeat constructor.
  - by repeat constructor.
Qed.

Lemma limited_answers sha now next : answers next -> answers (limited manager_rates sha now next).
Proof.
  intros Hn r h s Hs. unfold limited, RateLimitWithEnabled. destruct (negb _); [by apply Hn|]. destruct (negb _); [by apply Hn|].
  destruct (rate_limits _ _) as [r' [rpm burst]]. destruct (take_token _ _ _ _ _ _) as [[l []] d]; [by apply Hn|by repeat constructor].
Qed.
Lemma authenticated_answers hk now fx next : answers next -> answers (authenticated hk now fx next).
Proof.
  intros Hn r h s Hs. unfold authenticated. destruct (fx_auth fx); [|by apply Hn]. unfold AuthMiddleware.
  destruct (Middleware _ _ _ _); [by apply Hn|by repeat constructor..].
Qed.
Lemma cors_answers fx next : answers next -> answers (cors fx next).
Proof.
  intros Hn r h s Hs. unfold cors. destruct (fx_origins fx); [by apply Hn|]. unfold CORS.
  destruct (str_eqb _ _); [destruct (_ && _); by repeat constructor|]. by apply Hn.
Qed.

(** Every request is answered and reported. *)
Lemma serve_answers hashKey r s :
  host_final -> sound s.1 ->
  let o := serve hashKey r s in
  let w := send fresh (o_ops o) in
  o_end o = Finished /\
  exists evs, counted_hit evs /\
    o_events o = evs ++ report r (sent_status w) (hget (wr_Header w) "X-Gateway-Provider")
                          (header_at_end o "X-Request-ID") (some_text (header_at_end o "X-Tenant-ID")).
Proof.
  intros Hf Hs. cbv zeta. unfold serve. set (mx := the_mux).
  match goal with |- context [chain ?rates ?hk ?sh ?now ?gen ?st ?inj ?fx mx r ∅ s] =>
    pose proof (chain_spec rates hk sh now gen st inj fx mx r s (mux_calm Hf)) as Hc end.
  cbv zeta in Hc. destruct (identified _ _ _) as [s' id], Hc as (Hg & h' & w2 & _ & He & _ & _ & Hev).
  rewrite <-Hg in Hs. match type of He with _ = o_end (decided_by ?rates ?hk ?sh ?now ?fx mx ?r1 h' s') =>
    destruct (cors_answers fx _ (authenticated_answers hk now fx _ (limited_answers sh now mx mux_answers)) r1 h' s' Hs) as [Hend Hh] end.
  split; [exact (eq_trans He Hend)|]. eexists. split; [exact Hh|]. exact (Hev (eq_trans He Hend)).
Qed.
(** *** A request that fails costs nothing

    The books are those of the process when there is no Redis. *)
Definition own_books g : Prop := RedisStore.Active (g_redis g) = false /\ books_ok (g_budget g).
Definition same_books g g' : Prop := forall k, usage_tokens (g_budget g') k = usage_tokens (g_budget g) k.
Definition refunds (next : handler) : Prop :=
  forall r h s (wr : writer), quiet wr -> sound s.1 -> own_books s.1 ->
    sent_status (send wr (o_ops (next r h s))) <> 200 -> same_books s.1 (o_state (next r h s)).1.

(** A reply with status 200 is sent as such. *)
Lemma reply_sent (w : writer) rs : quiet w -> rs_Status rs = 200 -> sent_status (send w (reply_ops rs)) = 200.
Proof.
  intros Hq Hst. unfold reply_ops. assert (quiet (send w (set_all (rs_Header rs)))) as Hq1.
  { apply send_sets; [done|]. unfold set_all. apply list.Forall_fmap, list.Forall_forall. done. }
  rewrite send_app. set (w1 := send w _) in *. destruct (rs_Body rs) as [et msg|data|fs]; cbn [body_ops].
  - rewrite Hst. by apply (status_written w1 []).
  - unfold quiet in Hq1. cbn. unfold sent_status, send_header. by rewrite Hq1.
  - rewrite Hst. by apply (status_written w1 []).
Qed.

Lemma chat_step_refunds ctx r g w rs :
  own_books g -> (chat_step ctx r g w).2 = Reply rs -> rs_Status rs <> 200 -> same_books g (chat_step ctx r g w).1.1.
Proof.
  intros [Hi Hb]. unfold chat_step.
  assert (h_budgetMgr (chat_handler g) = Some (g_budget g)) as Hm by done.
  pose proof (serve_refunds_failures (Backend0 := redis_backend (H := manager_rates (g_redis g)))
    (BudgetStore0 := manager_budgets (g_redis g)) (Cache0 := manager_cache (g_redis g)) (cache_embed g (ctx r w))
    (http_view ctx r w) (chat_handler g, w) (g_budget g) Hm (manager_idle_budgets _ _ Hi) Hb) as Hr.
  destruct (ServeHTTP _ _ _) as [[hd w'] out]. cbn [fst snd] in *. intros -> Hst. destruct (Hr Hst) as (b & Hb' & _ & Hu).
  unfold same_books, put_chat. cbn [fst] in *. cbn [g_budget]. by rewrite Hb'.
Qed.

Lemma embeddings_step_refunds ctx r g w rs :
  own_books g -> (embeddings_step ctx r g w).2 = Reply rs -> rs_Status rs <> 200 -> same_books g (embeddings_step ctx r g w).1.1.
Proof.
  intros [Hi Hb]. unfold embeddings_step.
  assert (eh_budgetMgr (embed_handler g) = Some (g_budget g)) as Hm by done.
  pose proof (embeddings_refund_failures (Backend0 := redis_backend (H := manager_rates (g_redis g)))
    (BudgetStore0 := manager_budgets (g_redis g)) (Cache0 := manager_cache (g_redis g)) (rq_Method r)
    (http_view ctx r w) (embed_handler g, w) (g_budget g) Hm (manager_idle_budgets _ _ Hi) Hb) as Hr.
  destruct (Embeddings_ServeHTTP _ _ _) as [[hd w'] out]. cbn [fst snd] in *. intros -> Hst.
  destruct Hr as (b & Hb' & _ & Hu); [by intros ? [= <-]|].
  unfold same_books, put_embed. cbn [fst] in *. cbn [g_budget]. by rewrite Hb'.
Qed.

Lemma written_refunds r (s s' : state) events rs (w : writer) :
  quiet w -> (rs_Status rs <> 200 -> same_books s'.1 s.1) ->
  sent_status (send w (o_ops (written r s events (Reply rs)))) <> 200 -> same_books s'.1 s.1.
Proof. intros Hq Hb Hst. apply Hb. intros H200. apply Hst. by apply reply_sent. Qed.

Lemma mux_refunds : refunds the_mux.
Proof.
  intros r h [g w] wr Hq Hs Hb. unfold mux. destruct (host_redirect r); [done|].
  destruct (list_find _ _) as [[i [path [post serve]]]|] eqn:Ef; [|done].
  destruct (method_ok post (rq_Method r)); [|done].
  apply list_find_Some in Ef as (Hi & _). revert Hi. unfold endpoints.
  destruct i as [|[|[|[|[|[|[|[|i]]]]]]]]; intros [= <- <- <-]; try done.
  - unfold serve_chat. pose proof (chat_step_answered host_ctx r g w Hs) as (rs & Ha).
    pose proof (chat_step_refunds host_ctx r g w rs Hb Ha) as Hr.
    destruct (chat_step _ _ _ _) as [s out]. cbn [fst snd] in *. subst out. intros Hst. cbn [written o_state].
    exact (written_refunds r s (g, w) (hit_events r) rs wr Hq Hr Hst).
  - unfold serve_embeddings. pose proof (embeddings_step_answered host_ctx r g w Hs) as (rs & Ha).
    pose proof (embeddings_step_refunds host_ctx r g w rs Hb Ha) as Hr.
    destruct (embeddings_step _ _ _ _) as [s out]. cbn [fst snd] in *. subst out. intros Hst. cbn [written o_state].
    exact (written_refunds r s (g, w) (fun _ => []) rs wr Hq Hr Hst).
  - unfold serve_health_providers. by destruct (check_providers _ _ _ _).
  - unfold serve_readyz. cbv zeta.
    match goal with |- context [if ?b then (w, ?c) else ?d] => destruct (if b then (w, c) else d) as [w' check] end.
    by destruct (Readiness_ServeHTTP _ _ _ _ _ _ _) as [rh reply].
Qed.

Lemma limited_refunds sha now next : refunds next -> refunds (limited manager_rates sha now next).
Proof.
  intros Hn r h s w Hq Hs Hb. unfold limited, RateLimitWithEnabled. destruct (negb _); [by apply Hn|]. destruct (negb _); [by apply Hn|].
  destruct (rate_limits _ _) as [r' [rpm burst]]. destruct (take_token _ _ _ _ _ _) as [[l []] d]; [|done].
  intros Hst. exact (Hn r' h (put_limiter l s) w Hq Hs Hb Hst).
Qed.
Lemma authenticated_refunds hk now fx next : refunds next -> refunds (authenticated hk now fx next).
Proof.
  intros Hn r h s w Hq Hs Hb. unfold authenticated. destruct (fx_auth fx); [|by apply Hn]. unfold AuthMiddleware.
  by destruct (Middleware _ _ _ _); [apply Hn|..].
Qed.
Lemma cors_refunds fx next : refunds next -> refunds (cors fx next).
Proof.
  intros Hn r h s w Hq Hs Hb. destruct (decide (rq_Method r = "OPTIONS")) as [Ho|Ho].
  - unfold cors. destruct (fx_origins fx); [by apply Hn|]. unfold CORS. rewrite Ho. cbn [str_eqb]. rewrite str_eqb_refl.
    by destruct (_ && _).
  - destruct (cors_before fx next r h s Ho) as (ops & h' & -> & Hops). cbn [before o_ops o_state]. rewrite send_app.
    apply Hn; [by apply send_sets|done..].
Qed.

Lemma serve_refunds hashKey r s :
  host_final -> sound s.1 -> own_books s.1 ->
  sent_status (send fresh (o_ops (serve hashKey r s))) <> 200 -> same_books s.1 (o_state (serve hashKey r s)).1.
Proof.
  intros Hf Hs Hb. unfold serve. set (mx := the_mux).
  match goal with |- context [chain ?rates ?hk ?sh ?now ?gen ?st ?inj ?fx mx r ∅ s] =>
    pose proof (chain_spec rates hk sh now gen st inj fx mx r s (mux_calm Hf)) as Hc end.
  cbv zeta in Hc. destruct (identified _ _ _) as [s' id], Hc as (Hg & h' & w2 & Hst & _ & Hq & Hw & _).
  rewrite Hst, Hw. rewrite <-Hg in Hs, Hb |- *.
  exact (cors_refunds _ _ (authenticated_refunds _ _ _ _ (limited_refunds _ _ _ mux_refunds)) _ h' s' w2 Hq Hs Hb).
Qed.
End answered.
End served.
