(* ===== verification/Operation.v ===== *)
(** * The gateway in operation

    The life of a gateway after [main] has started it: requests come in over
    the chain, the admin API and the reloads change the configuration, the
    limiter drops idle buckets, and a signal shuts it down phase by phase.
    All but the signal are steps of the control plane of [Gateway], so what is
    proved there holds of the gateway that serves.  The theorems here are
    about the whole server. *)

From Stdlib Require Import Ascii String.
From S2P Require Import Prelude GoFloat GoStrings Types Pricing Circuit Retry Budget RateLimit RateBackend Cache CacheSemantic.
From S2P Require Import Auth Router Translate Wire Provider Dispatch Streams Upstream Serve Embeddings Middleware Health.
From S2P Require Import Gateway Wiring Chain Routes Traffic Answers.
From S2P Require Config RedisStore Admin.
Open Scope string_scope.
Open Scope list_scope.
Open Scope Z_scope.

(** One round of [cleanupLoop] on the buckets of the process. *)
Definition drop_idle {Rng} (now : Z) (g : gateway (Rng := Rng) (Store := unit)) : gateway (Rng := Rng) (Store := unit) :=
  let l := g_limiter g in
  mkGateway (g_registry g) (g_redis g) (rl_set l (cleanup (rl_fallback l) now) (rl_degraded l)) (g_overrides g)
    (g_budget g) (g_cache g) (g_auth g) (g_rateLimitEnabled g) (g_readiness g) (g_healthProviders g) (g_chat g)
    (g_embeddings g) (g_cfg g) (g_fixed g).

(** ** Shutting down

    After SIGINT or SIGTERM [main] first turns the readiness off, waits for the
    load balancer, then closes the admin server, the reloads and the gateway,
    one after the other. *)
Inductive phase := Serving | Draining | AdminClosed | ReloadsStopped | Stopped.
#[export] Instance phase_eq_dec : EqDecision phase.
Proof. solve_decision. Defined.
Definition next_phase (p : phase) : phase :=
  match p with
  | Serving => Draining
  | Draining => AdminClosed
  | AdminClosed => ReloadsStopped
  | ReloadsStopped | Stopped => Stopped
  end.
Definition takes_requests (p : phase) : bool := match p with Stopped => false | _ => true end.
Definition takes_admin (p : phase) : bool := match p with Serving | Draining => true | _ => false end.
Definition takes_reloads (p : phase) : bool := match p with Serving | Draining | AdminClosed => true | _ => false end.

Section operation.
Context {Ctx Rng W : Type}.
Context `{!JsonText, !Http Ctx W, !Runtime Ctx Rng W, !RedisScripts W, !RedisStore.RedisKV W}.
Context `{!Web string W, !WebEmbedding string, !ErrorEncoder, !Texts, !Host Ctx W}.
Context `{!RedisStore.Dialer W, !Config.ConfigFile W}.
Context (NewSource : Z -> Rng) (hashKey : string -> string) (background : Ctx).
Context (Error : apply_error -> Config.errorf).
Context (decode_patch : string -> result Admin.AdminPatch string) (decode_rest : string -> option (result unit string)).
Abbreviation gw := (gateway (Rng := Rng) (Store := unit)).
Abbreviation live_state := (Admin.Server (P := upstream) * (gw * W))%type.
Abbreviation compile := (rt_Compile (Ctx := Ctx) (Rng := Rng) (W := W)).
Implicit Types (g : gw) (w : W) (st : live_state).

(** [health.SetReady(false)] on the handler the readiness asks. *)
Definition drain g : gw :=
  put_readiness (mkReadinessHandler (flip SetReady false <$> rh_health (g_readiness g)) (rh_options (g_readiness g))
    (rh_last (g_readiness g))) g.

(** What [main] does when it leaves a phase; the first time the signal makes
    it. *)
Definition leave (p : phase) st : live_state :=
  match p with Serving => (st.1, (drain st.2.1, st.2.2)) | _ => st end.

(** The steps of the running program.  Requests are taken one at a time, and
    the world changes between them: time passes, files are written, Redis and
    the providers come and go. *)
Inductive operates : phase * live_state -> phase * live_state -> Prop :=
| op_request p r s x : takes_requests p = true -> operates (p, (s, x)) (p, (s, o_state (serve hashKey r x)))
| op_admin p protect r st : takes_admin p = true ->
    operates (p, st) (p, (admin_call compile NewSource hashKey background Error decode_patch decode_rest protect r st).1)
| op_reread p st : takes_reloads p = true -> operates (p, st) (p, reread compile NewSource hashKey background Error st)
| op_cleanup p s g w now : operates (p, (s, (g, w))) (p, (s, (drop_idle now g, w)))
| op_world p s g w w' : operates (p, (s, (g, w))) (p, (s, (g, w')))
| op_leave p st : operates (p, st) (next_phase p, leave p st).

(** A state of a gateway that [main] has started. *)
Definition in_operation (configPath : string) (p : phase) st : Prop :=
  exists started seed w st0, start compile NewSource hashKey tt background configPath started seed w = Some st0 /\
    rtc operates (Serving, st0) (p, st).

(** ** The steps of the control plane *)
Lemma drop_idle_traffic now g : traffic g (drop_idle now g).
Proof.
  exists (mkBuiltUp (rg_rnd (g_registry g)) (lm_shards (cleanup (rl_fallback (g_limiter g)) now)) (rl_degraded (g_limiter g))
    (m_mem (g_budget g)) (g_cache g) (rh_last (g_readiness g)) (ch_circuits (g_chat g)) (em_circuits (g_embeddings g))).
  split; [done|]. by destruct g as [[] redis [st rate burst [] d] ov [] c au rle [] hp [] [] cfg fx].
Qed.

Abbreviation control_step := (step compile NewSource hashKey background Error decode_patch decode_rest).

Lemma traffic_is_step s g g' w w' : traffic g g' -> control_step (s, (g, w)) (s, (g', w')).
Proof. intros (b & Hc & ->). exact (traffic_step _ _ _ _ _ _ _ s g w w' b Hc). Qed.

(** Each step is one of the control plane, or the one that drains. *)
Lemma operates_refines x x' :
  operates x x' -> (control_step x.2 x'.2 /\ x'.1 = x.1) \/ x' = (next_phase x.1, leave x.1 x.2).
Proof.
  intros [p r s [g w] _|p protect r st0 _|p st0 _|p s g w now|p s g w w'|p st]; cbn [fst snd]; [left; split; [|done]..|by right].
  - pose proof (serve_traffic hashKey r (g, w)) as Ht. destruct (o_state (serve hashKey r (g, w))) as [g' w'].
    by apply traffic_is_step.
  - apply admin_step.
  - apply reread_step.
  - apply traffic_is_step, drop_idle_traffic.
  - by apply traffic_is_step.
Qed.

(** An invariant of the control plane that draining keeps. *)
Lemma operation_invariant (I : live_state -> Prop) configPath p st :
  (forall started seed w st0, start compile NewSource hashKey tt background configPath started seed w = Some st0 -> I st0) ->
  (forall st1 st2, control_step st1 st2 -> I st1 -> I st2) -> (forall s g w, I (s, (g, w)) -> I (s, (drain g, w))) ->
  in_operation configPath p st -> I st.
Proof.
  intros Hstart Hstep Hdrain (started & seed & w & st0 & Hs & Hr). apply Hstart in Hs.
  change (I (p, st).2). change (I (Serving, st0).2) in Hs. induction Hr as [|x1 x2 x3 H12 _ IH]; [done|]. apply IH.
  destruct (operates_refines _ _ H12) as [[Hc _]| ->]; [by eapply Hstep|].
  destruct x1 as [[] [s1 [g1 w1]]]; try done. by apply Hdrain.
Qed.

(** *** The configuration in force *)
Abbreviation shown := (shown_inv compile NewSource hashKey tt).

Lemma in_operation_shown configPath p st : Admin.clone_copies (W := W) -> in_operation configPath p st -> shown st.
Proof.
  intros Hclone. apply operation_invariant.
  - intros started seed w st0. apply start_inv.
  - intros st1 st2. by apply control_step_inv.
  - intros s g w (Hwf & Hc & configured & ps & catalog & Hb & Hn & Hp & Hall). split; [done|]. split; [done|].
    by exists configured, ps, catalog.
Qed.

(** *** What was set up once *)
Definition set_up_by (configPath : string) st : Prop :=
  exists w c, Config.Load w configPath = Ok c /\ g_fixed st.2.1 = fixed_by c.

Lemma apply_and_sync_fixed c st : g_fixed (apply_and_sync compile NewSource hashKey background Error c st).1.2.1 = g_fixed st.2.1.
Proof.
  destruct st as [s [g w]]. unfold apply_and_sync. pose proof (applyConfig_outcome compile NewSource hashKey background c g w) as Ho.
  destruct (applyConfig _ _ _ _ c g w) as [[g' w'] [e|]]; cbn [fst snd]; [by destruct Ho as [-> _]|].
  destruct Ho as (_ & configured & ps & redis & catalog & _ & _ & _ & ->). apply taken_fixed.
Qed.

Lemma control_step_fixed st st' : control_step st st' -> g_fixed st'.2.1 = g_fixed st.2.1.
Proof.
  intros [protect r st0|st0|s g w w' b _]; [| |done].
  - unfold admin_call. destruct (Admin.Handler _ _ _ _ _ _ _ _) as [st1 [code body]] eqn:E.
    destruct (Admin.admin_outcome _ _ _ _ _ fst _ _ _ _ _ _ (apply_and_sync_all_or_nothing _ _ _ _ _) E)
      as [[_ Hg]|(_ & _ & _ & _ & Hw & _)]; cbn [fst snd] in *; [by rewrite Hg|].
    rewrite Hw. apply apply_and_sync_fixed.
  - unfold reread. destruct (Config.Load _ _); [|done]. apply apply_and_sync_fixed.
Qed.

Lemma in_operation_set_up configPath p st : in_operation configPath p st -> set_up_by configPath st.
Proof.
  apply operation_invariant; [..|done].
  - intros started seed w st0. unfold start, boot. destruct (Config.Load w configPath) as [cfg|] eqn:El; [|done].
    destruct (buildProviders cfg); [|done]. destruct (discoverModels _ _ _).
    destruct (RedisStore.ReplaceURL _ _ _) as [[? ?] ?]. destruct (buildPricingCatalog cfg); [|done].
    intros [= <-]. by exists w, cfg.
  - intros st1 st2 Hs (w & c & Hl & Hf). exists w, c. by rewrite (control_step_fixed _ _ Hs).
Qed.

(** *** The readiness *)
Abbreviation apply_sync := (apply_and_sync compile NewSource hashKey background Error).
Definition health st : option HealthHandler := rh_health (g_readiness st.2.1).

Lemma apply_and_sync_health c st : health (apply_sync c st).1 = health st.
Proof.
  destruct st as [s [g w]]. unfold apply_and_sync, health. pose proof (applyConfig_outcome compile NewSource hashKey background c g w) as Ho.
  destruct (applyConfig _ _ _ _ c g w) as [[g' w'] [e|]]; cbn [fst snd].
  - by destruct Ho as [-> _].
  - destruct Ho as (_ & configured & ps & redis & catalog & _ & _ & _ & ->).
    exact (f_equal (fun x => x.1.1.2) (taken_carried compile NewSource hashKey c ps redis catalog g)).
Qed.

Lemma control_step_health st st' : control_step st st' -> health st' = health st.
Proof.
  intros [protect r st0|st0|s g w w' b _]; [| |done].
  - unfold admin_call. destruct (Admin.Handler _ _ _ _ _ _ _ _) as [st1 [code body]] eqn:E.
    destruct (Admin.admin_outcome _ _ _ _ _ fst _ _ _ _ _ _ (apply_and_sync_all_or_nothing _ _ _ _ _) E)
      as [[_ Hg]|(_ & _ & _ & _ & Hw & _)]; unfold health; cbn [fst snd] in *.
    + by rewrite Hg.
    + rewrite Hw. apply apply_and_sync_health.
  - unfold reread. destruct (Config.Load _ _); [|done]. apply apply_and_sync_health.
Qed.

(** Ready until the signal, and never again. *)
Definition ready_in (p : phase) st : Prop := exists h, health st = Some h /\ IsReady h = bool_decide (p = Serving).

Lemma in_operation_ready configPath p st : in_operation configPath p st -> ready_in p st.
Proof.
  intros (started & seed & w & st0 & Hs & Hr).
  assert (ready_in Serving st0) as Hinit.
  { revert Hs. unfold start, boot. destruct (Config.Load w configPath) as [cfg|]; [|done]. destruct (buildProviders cfg); [|done].
    destruct (discoverModels _ _ _). destruct (RedisStore.ReplaceURL _ _ _) as [[? ?] ?]. destruct (buildPricingCatalog cfg); [|done].
    intros [= <-]. by eexists. }
  change (ready_in (p, st).1 (p, st).2). change (ready_in (Serving, st0).1 (Serving, st0).2) in Hinit. clear Hs.
  induction Hr as [|x1 x2 x3 H12 _ IH]; [done|]. apply IH. destruct Hinit as (h & Hh & Hr).
  destruct (operates_refines _ _ H12) as [[Hc ->]| ->].
  - exists h. by rewrite (control_step_health _ _ Hc).
  - destruct x1 as [p1 st1]. cbn [fst snd] in *. destruct p1; try (by exists h).
    exists (SetReady h false). split; [|done]. unfold health in *. cbn. by rewrite Hh.
Qed.

(** *** The router of a gateway in operation *)
Lemma same_routes (r r' : Registry (P := upstream) (Rng := Rng)) : routes r = routes r' -> r = with_rnd r' (rg_rnd r).
Proof. destruct r, r'. by intros [= -> -> -> -> -> ->]. Qed.

Lemma runs_sound c g :
  intn_ok (rt_Intn (Ctx := Ctx) (W := W)) -> runs compile NewSource hashKey tt c g -> weights_fit c ->
  sound (Ctx := Ctx) (W := W) g.
Proof.
  intros Hi (Hwf & _ & configured & ps & catalog & _ & _ & _ & Hall) Hw model rnd. specialize (Hall 0 0).
  apply (f_equal (fun x => x.1.1.1.1.1.1.1.1.1)) in Hall. cbn [settings fst] in Hall. rewrite started_registry in Hall.
  apply same_routes in Hall. rewrite Hall. intros Hr.
  pose proof (Resolve_outcome up_Name up_Models compile NewSource rt_Intn ps (Config.cf_ModelAliases c)
    (buildWeighted c ps) model rnd Hi (buildWeighted_weights c ps Hwf Hw)) as Ho. cbv zeta in Ho.
  match type of Hr with (Resolve _ _ ?r1 _).2 = _ => match type of Ho with match (Resolve _ _ ?r2 _).2 with _ => _ end =>
    change r1 with r2 in Hr end end.
  by rewrite Hr in Ho.
Qed.

(** *** A probe while the gateway drains *)
Abbreviation the_mux := (mux (host_ctx (Ctx := Ctx)) (host_redirect (Ctx := Ctx) (W := W)) (host_metrics (Ctx := Ctx) (W := W))).

Lemma mux_probe r h g w :
  is_draining (g_readiness g) = true -> host_redirect (Ctx := Ctx) (W := W) r = None -> rq_Path r = "/readyz" -> rq_Method r = "GET" ->
  o_end (the_mux r h (g, w)) = Finished /\ o_ops (the_mux r h (g, w)) = health_ops (503, Health.Draining).
Proof.
  intros Hd Hr Hp Hm. unfold mux. rewrite Hr, Hp, Hm.
  match goal with |- context [list_find ?f ?l] =>
    assert (list_find f l = Some (6%nat, ("/readyz", (false, serve_readyz (host_ctx (Ctx := Ctx)))))) as -> by reflexivity end.
  unfold serve_readyz, Readiness_ServeHTTP. cbv zeta. by rewrite Hd.
Qed.

Lemma drained_probe r g w :
  host_final (Ctx := Ctx) (W := W) -> (forall r', rq_Path r' = "/readyz" -> host_redirect (Ctx := Ctx) (W := W) r' = None) ->
  is_draining (g_readiness g) = true -> rq_Path r = "/readyz" -> rq_Method r = "GET" ->
  let o := serve hashKey r (g, w) in o_end o = Finished /\ sent_status (send fresh (o_ops o)) = 503.
Proof.
  intros Hf Hred Hd Hp Hm. cbv zeta. unfold serve. set (mx := the_mux).
  match goal with |- context [chain ?rates ?hk ?sh ?now ?gen ?st ?inj ?fx mx r ∅ (g, w)] =>
    pose proof (chain_spec rates hk sh now gen st inj fx mx r (g, w) (mux_calm Hf)) as Hc end.
  cbv zeta in Hc. destruct (identified _ _ _) as [[g' w'] id], Hc as (Hg & h' & w2 & _ & -> & Hq & -> & _).
  cbn [fst] in Hg. subst g'. set (r1 := in_span _ _) in *.
  assert (rq_Path r1 = "/readyz") as Hp1 by (unfold r1, with_id; by destruct (str_eqb _ _)).
  assert (rq_Method r1 = "GET") as Hm1 by (unfold r1, with_id; by destruct (str_eqb _ _)). clearbody r1.
  unfold decided_by. match goal with |- context [cors ?fx ?next r1 h' ?s] =>
    destruct (cors_before fx next r1 h' s ltac:(by rewrite Hm1)) as (ops & h2 & -> & Hops) end.
  cbn [before o_end o_ops]. rewrite send_app.
  assert (forall r2 h, rq_Path r2 = "/readyz" -> rq_Method r2 = "GET" ->
    let o := limited manager_rates (host_sha_hex (Ctx := Ctx) (W := W)) (rt_Now (Ctx := Ctx) (Rng := Rng)) mx r2 h (g, w') in
    o_end o = Finished /\ sent_status (send (send w2 ops) (o_ops o)) = 503) as Hlim.
  { intros r2 h Hp2 Hm2. assert (limited manager_rates (host_sha_hex (Ctx := Ctx) (W := W)) (rt_Now (Ctx := Ctx) (Rng := Rng))
      mx r2 h (g, w') = mx r2 h (g, w')) as ->.
    { unfold limited, RateLimitWithEnabled. destruct (negb _); [done|]. by rewrite Hp2. }
    destruct (mux_probe r2 h g w' Hd (Hred r2 Hp2) Hp2 Hm2) as [He Ho]. fold mx in He, Ho. cbv zeta. rewrite He, Ho.
    split; [done|]. apply (status_written _ [json_type]); [by apply send_sets|by repeat constructor|done]. }
  unfold authenticated. destruct (fx_auth _); [|by apply Hlim]. unfold AuthMiddleware, Middleware, auth_view. cbn [hr_Path].
  rewrite Hp1. cbn. destruct (rq_tenant r1); by apply Hlim.
Qed.

End operation.


(** C4. Every request is answered, and reported as it was answered: in a
    gateway that was started and has been operated in whatever way, with
    weights that do not overflow, the chain and the handlers behind it come to
    an end for every request, none panics and no stream is waited for in
    vain; the counter, the trace and the log line have the status that was
    sent, and all that is counted beyond them is a hit of the exact cache. *)
Theorem every_request_answered {Ctx Rng W : Type}
    `{!JsonText, !Http Ctx W, !Runtime Ctx Rng W, !RedisScripts W, !RedisStore.RedisKV W}
    `{!Web string W, !WebEmbedding string, !ErrorEncoder, !Texts, !Host Ctx W, !RedisStore.Dialer W, !Config.ConfigFile W}
    (NewSource : Z -> Rng) hashKey (background : Ctx) Error decode_patch decode_rest configPath p s (g : gateway (Rng := Rng)) (w : W) r :
  Admin.clone_copies (W := W) -> intn_ok (rt_Intn (Ctx := Ctx) (Rng := Rng) (W := W)) ->
  context_errors (Ctx := Ctx) (Rng := Rng) (W := W) -> host_final (Ctx := Ctx) (W := W) ->
  in_operation NewSource hashKey background Error decode_patch decode_rest configPath p (s, (g, w)) ->
  weights_fit (Admin.sr_cfg s) ->
  let o := serve hashKey r (g, w) in
  let sent := send fresh (o_ops o) in
  o_end o = Finished /\
  exists evs, counted_hit evs /\
    o_events o = evs ++ report r (sent_status sent) (hget (wr_Header sent) "X-Gateway-Provider")
                          (header_at_end o "X-Request-ID") (some_text (header_at_end o "X-Tenant-ID")).
Proof.
  intros Hclone Hi Hctx Hf Hr Hw. apply in_operation_shown in Hr; [|done].
  apply serve_answers; [done|done|]. by eapply runs_sound.
Qed.

(** C1. A request that is not answered with 200 costs its tenant nothing: with
    the books of the process, every token counter of a gateway in operation
    ends as it began, whatever refused the request or failed in it, from the
    chain to the providers. *)
Theorem failed_requests_are_free {Ctx Rng W : Type}
    `{!JsonText, !Http Ctx W, !Runtime Ctx Rng W, !RedisScripts W, !RedisStore.RedisKV W}
    `{!Web string W, !WebEmbedding string, !ErrorEncoder, !Texts, !Host Ctx W, !RedisStore.Dialer W, !Config.ConfigFile W}
    (NewSource : Z -> Rng) hashKey (background : Ctx) Error decode_patch decode_rest configPath p s (g : gateway (Rng := Rng)) (w : W) r :
  Admin.clone_copies (W := W) -> intn_ok (rt_Intn (Ctx := Ctx) (Rng := Rng) (W := W)) ->
  context_errors (Ctx := Ctx) (Rng := Rng) (W := W) -> host_final (Ctx := Ctx) (W := W) ->
  in_operation NewSource hashKey background Error decode_patch decode_rest configPath p (s, (g, w)) ->
  weights_fit (Admin.sr_cfg s) ->
  RedisStore.Active (g_redis g) = false -> books_ok (g_budget g) ->
  let o := serve hashKey r (g, w) in
  sent_status (send fresh (o_ops o)) <> 200 ->
  forall key, usage_tokens (g_budget (o_state o).1) key = usage_tokens (g_budget g) key.
Proof.
  intros Hclone Hi Hctx Hf Hr Hw Ha Hb o Hst. apply in_operation_shown in Hr; [|done].
  apply (serve_refunds Hctx hashKey r (g, w)); [done| |by split|exact Hst]. by eapply runs_sound.
Qed.

(** C22. A gateway that has been told to stop is not ready: from the signal
    until the server is closed every readiness probe is answered with 503, as
    the load balancer has to see it, through the whole chain and whatever
    configuration it has; before the signal it never says that it drains. *)
Theorem draining_not_ready {Ctx Rng W : Type}
    `{!JsonText, !Http Ctx W, !Runtime Ctx Rng W, !RedisScripts W, !RedisStore.RedisKV W}
    `{!Web string W, !WebEmbedding string, !ErrorEncoder, !Texts, !Host Ctx W, !RedisStore.Dialer W, !Config.ConfigFile W}
    (NewSource : Z -> Rng) hashKey (background : Ctx) Error decode_patch decode_rest configPath p s (g : gateway (Rng := Rng)) (w : W) r :
  host_final (Ctx := Ctx) (W := W) -> (forall r', rq_Path r' = "/readyz" -> host_redirect (Ctx := Ctx) (W := W) r' = None) ->
  in_operation NewSource hashKey background Error decode_patch decode_rest configPath p (s, (g, w)) ->
  is_draining (g_readiness g) = bool_decide (p <> Serving) /\
  (p <> Serving -> rq_Path r = "/readyz" -> rq_Method r = "GET" ->
   let o := serve hashKey r (g, w) in o_end o = Finished /\ sent_status (send fresh (o_ops o)) = 503).
Proof.
  intros Hf Hred Hr. apply in_operation_ready in Hr as (h & Hh & Hready). unfold health in Hh. cbn [fst snd] in Hh.
  assert (is_draining (g_readiness g) = bool_decide (p <> Serving)) as Hd.
  { unfold is_draining. rewrite Hh, Hready. by destruct p. }
  split; [exact Hd|]. intros Hp Hpath Hmeth. rewrite bool_decide_true in Hd by done. by apply drained_probe.
Qed.

(** ** Examples *)
#[local] Existing Instances Gateway.ex_text Gateway.ex_net Gateway.ex_dialer Chain.ex_errors.

(** A gateway with a budget, whose provider cannot be reached. *)
Definition ex_metered : Config.BudgetConfig :=
  Config.mkBudgetConfig true 1000 0 (f64_const 1 1000000) (Config.mkPricingConfig "" "" "" []).
#[local] Instance ex_metered_files : Config.ConfigFile ex_disk := {|
  Config.LookupEnv _ _ := None;
  Config.ReadFile w _ := Ok (xd_file w);
  Config.yaml_First _ := Ok (ex_config 10 "" false (Some ex_metered) ∅);
  Config.yaml_Rest _ := None;
  Config.yaml_roundtrip c := c;
  Config.ModTime _ _ := None;
|}.
#[local] Instance ex_runtime : Runtime unit Z ex_disk := {|
  rt_Compile _ := None;
  rt_Intn s n := (s + 1, s `mod` n);
  rt_Int63n n w := (w, 0);
  rt_Now _ := 100 * Second;
  rt_Err _ _ := None;
  rt_Wait _ _ w := (w, None);
  rt_WithTimeout _ _ w := (w, tt);
  rt_WithCancel _ w := (w, tt);
  rt_Cancel _ w := w;
  rt_hedge _ := [];
  rt_unix_now _ _ := 100;
  rt_cancelled _ _ _ := None;
  rt_turns _ _ := [];
|}.
#[local] Instance ex_scripts : RedisScripts ex_disk := {|
  rx_rate _ _ _ _ _ _ _ w := (w, Err RedisStore.ErrUnavailable);
  rx_HMGet _ _ w := (w, Err RedisStore.ErrUnavailable);
  rx_reserve _ _ _ _ _ _ _ w := (w, Err RedisStore.ErrUnavailable);
  rx_adjust _ _ _ _ _ _ _ w := (w, Err RedisStore.ErrUnavailable);
  rx_sha256_hex s := s;
  rx_Atoi _ := 0;
  rx_ParseFloat _ := 0;
|}.
#[local] Instance ex_kv : RedisStore.RedisKV ex_disk := {|
  RedisStore.kv_Get _ _ w := (w, Err RedisStore.ErrUnavailable);
  RedisStore.kv_Set _ _ _ _ w := (w, Err RedisStore.ErrUnavailable);
  RedisStore.kv_Del _ _ w := (w, Err RedisStore.ErrUnavailable);
|}.
#[local] Instance ex_json : Web string ex_disk := {|
  json_decode_request _ := Ok (Dispatch.ex_chat "gpt-4o", "");
  json_decode_any _ := None;
  json_Marshal resp := resp_Model resp;
  sha_json _ := "hash";
  sha_string s := s;
  month_Now _ := "2026-09";
|}.
#[local] Instance ex_json_embedding : WebEmbedding string := {|
  json_decode_embedding _ := Ok (mkEmbeddingRequest "gpt-4o" (JStr "hello") "" None "", "");
  json_Marshal_embedding resp := emb_Model resp;
|}.
#[local] Instance ex_texts : Texts := {|
  budget_Error _ := "budget";
  pricing_Error _ := "pricing";
  json_chunk _ := "{}";
  json_health _ := "{}";
|}.
#[local] Instance ex_host : Host unit ex_disk := {|
  host_ctx _ _ := tt;
  host_redirect _ := None;
  host_metrics _ := [Write "metrics"];
  host_sha_hex s := s;
  host_request_id w := (w, "req-1");
  host_Start _ := Some "trace";
  host_inject _ := [];
|}.
Abbreviation ex_begin := (start (Rng := Z) (rt_Compile (Ctx := unit) (Rng := Z) (W := ex_disk)) (fun seed => seed) (fun k => k) tt tt "config.yaml" 0 7
  (mkDisk "" false)).
Definition ex_post : request := ex_request {["X-Tenant-ID" := "team"]} (mkStream "{}" None).

Abbreviation ex_operated := (in_operation (Ctx := unit) (Rng := Z) (W := ex_disk) (fun seed => seed) (fun k => k) tt
  (fun _ => Config.Errorf "refused" []) (fun _ => Ok ex_patch) (fun _ => None) "config.yaml").

Lemma ex_clones : Admin.clone_copies (W := ex_disk).
Proof. by intros c. Qed.
Lemma ex_contexts : context_errors (Ctx := unit) (Rng := Z) (W := ex_disk).
Proof. by split. Qed.
Lemma ex_finals : host_final (Ctx := unit) (W := ex_disk).
Proof. split; [done|]. intros w. by repeat constructor. Qed.
Lemma ex_draws : intn_ok (rt_Intn (Ctx := unit) (Rng := Z) (W := ex_disk)).
Proof. intros rnd n Hn. by apply Z.mod_pos_bound. Qed.

Lemma ex_started s x : ex_begin = Some (s, x) -> ex_operated Serving (s, x).
Proof. intros Es. exists 0, 7, (mkDisk "" false), (s, x). by split. Qed.

Definition ex_patched (st : Admin.Server (P := upstream) * (gateway (Rng := Z) (Store := unit) * ex_disk)) :=
  (admin_call (rt_Compile (Ctx := unit) (Rng := Z) (W := ex_disk)) (fun seed => seed) (fun k => k) tt
    (fun _ => Config.Errorf "refused" []) (fun _ => Ok ex_patch) (fun _ => None) true ex_patch_request st).1.

(** What is used of it below. *)
Lemma ex_facts :
  match ex_begin with
  | Some (s, x) =>
      m_enabled (g_budget x.1) = true /\ m_mem (g_budget x.1) = ∅ /\ RedisStore.rm_client (g_redis x.1) = None /\
      sent_status (send fresh (o_ops (serve (fun k => k) ex_post x))) = 502 /\
      ex_burst (ex_patched (s, o_state (serve (fun k => k) ex_post x))) = 30 /\
      Config.ro_Weighted (Config.cf_Routing (Admin.sr_cfg s)) = ∅
  | None => False
  end.
Proof. vm_compute. by split_and!. Qed.

Lemma ex_fits s x : ex_begin = Some (s, x) -> weights_fit (Admin.sr_cfg s).
Proof.
  intros Es. pose proof ex_facts as Hb. rewrite Es in Hb. destruct Hb as (_ & _ & _ & _ & _ & Hb).
  unfold weights_fit. rewrite Hb. apply map_Forall_empty.
Qed.


(** The provider does not answer. *)
Lemma every_request_answered_witness :
  match ex_begin with
  | Some (s, x) =>
      let o := serve (fun k => k) ex_post x in
      let sent := send fresh (o_ops o) in
      sent_status sent = 502 /\ o_end o = Finished /\
      exists evs, counted_hit evs /\
        o_events o = evs ++ report ex_post (sent_status sent) (hget (wr_Header sent) "X-Gateway-Provider")
                              (header_at_end o "X-Request-ID") (some_text (header_at_end o "X-Tenant-ID"))
  | None => False
  end.
Proof.
  pose proof ex_facts as Hb. destruct ex_begin as [[s [g w]]|] eqn:Es; [|done].
  destruct Hb as (_ & _ & _ & Hst & _). cbv zeta. split; [exact Hst|]. clear Hst.
  apply (every_request_answered (Ctx := unit) (Rng := Z) (W := ex_disk) (fun seed => seed) (fun k => k) tt
    (fun _ => Config.Errorf "refused" []) (fun _ => Ok ex_patch) (fun _ => None) "config.yaml" Serving s g w ex_post
    ex_clones ex_draws ex_contexts ex_finals).
  - by apply ex_started.
  - by eapply ex_fits.
Defined.

(** The reservation made for it is given back. *)
Lemma failed_requests_are_free_witness :
  match ex_begin with
  | Some (s, (g, w)) =>
      let o := serve (fun k => k) ex_post (g, w) in
      m_enabled (g_budget g) = true /\
      forall key, usage_tokens (g_budget (o_state o).1) key = usage_tokens (g_budget g) key
  | None => False
  end.
Proof.
  pose proof ex_facts as Hb. destruct ex_begin as [[s [g w]]|] eqn:Es; [|done].
  destruct Hb as (He & Hm & Hc & Hst & _). cbn [fst] in He, Hm, Hc. cbv zeta. split; [exact He|].
  apply (failed_requests_are_free (Ctx := unit) (Rng := Z) (W := ex_disk) (fun seed => seed) (fun k => k) tt
    (fun _ => Config.Errorf "refused" []) (fun _ => Ok ex_patch) (fun _ => None) "config.yaml" Serving s g w ex_post
    ex_clones ex_draws ex_contexts ex_finals).
  - by apply ex_started.
  - by eapply ex_fits.
  - unfold RedisStore.Active. by rewrite Hc.
  - intros key. unfold usage_tokens. rewrite Hm, lookup_empty. clear. split; vm_compute; discriminate.
  - by rewrite Hst.
Defined.

(** The probe after the signal; before it there was a snapshot to answer with. *)
Definition ex_probe : request := mkRequest "GET" "/readyz" ∅ "10.0.0.1:1" (mkStream "" None) None None None.

Lemma draining_not_ready_witness :
  match ex_begin with
  | Some (s, (g, w)) =>
      let o := serve (fun k => k) ex_probe (drain g, w) in
      is_draining (g_readiness g) = false /\ o_end o = Finished /\ sent_status (send fresh (o_ops o)) = 503
  | None => False
  end.
Proof.
  destruct ex_begin as [[s [g w]]|] eqn:Es; [|by pose proof ex_facts as Hb; rewrite Es in Hb].
  assert (forall r', rq_Path r' = "/readyz" -> host_redirect (Ctx := unit) (W := ex_disk) r' = None) as Hred by done.
  cbv zeta. split.
  - pose proof (proj1 (draining_not_ready (Ctx := unit) (Rng := Z) (W := ex_disk) (fun seed => seed) (fun k => k) tt
      (fun _ => Config.Errorf "refused" []) (fun _ => Ok ex_patch) (fun _ => None) "config.yaml" Serving s g w ex_probe
      ex_finals Hred (ex_started s (g, w) Es))) as Hd. exact Hd.
  - apply (draining_not_ready (Ctx := unit) (Rng := Z) (W := ex_disk) (fun seed => seed) (fun k => k) tt
      (fun _ => Config.Errorf "refused" []) (fun _ => Ok ex_patch) (fun _ => None) "config.yaml" Draining s (drain g) w ex_probe
      ex_finals Hred); [|done..].
    exists 0, 7, (mkDisk "" false), (s, (g, w)). split; [exact Es|]. apply rtc_once.
    exact (op_leave _ _ _ _ _ _ Serving (s, (g, w))).
Defined.
